(** * vr180: MP4 atom engine, IMU stationary detector and orientation
      filter, a shallow embedding

    The development follows the C++ sources under [cpp/video] and
    [cpp/sensor_fusion].  Unsigned and signed C++ integers are values of [Z]
    with the wrap-around written out; byte streams are lists of [byte];
    [std::string] atom types are [string]; fallible functions return a
    [FormatStatus] or a result type.  A [double] is an exact number: a
    rational in the stationary detector, whose decisions are comparisons of
    sums and products, and a real in the quaternion integrator, the
    geometry toolbox and the orientation filter, which take square roots;
    rounding is not modelled.  *)

From Stdlib Require Import ZArith List Lia Bool String Ascii Sorted.
From Stdlib Require Import QArith Qabs Qminmax Reals Lra Lqa Psatz.
From Stdlib.Strings Require Import Byte.
Import ListNotations.
Close Scope R_scope.
Close Scope Q_scope.

Module Mp4.

Local Open Scope Z_scope.

(** ** Fixed-width integers *)

Definition UINT32_MAX : Z := 4294967295.
Definition UINT64_MAX : Z := 18446744073709551615.
Definition INT32_MAX : Z := 2147483647.
Definition INT32_MIN : Z := -2147483648.
Definition INT64_MAX : Z := 9223372036854775807.

(** Conversions to the C++ integer types (value-preserving modulo 2^w). *)
Definition uint8_t (v : Z) : Z := v mod 2 ^ 8.
Definition uint16_t (v : Z) : Z := v mod 2 ^ 16.
Definition uint32_t (v : Z) : Z := v mod 2 ^ 32.
Definition uint64_t (v : Z) : Z := v mod 2 ^ 64.
Definition int16_t (v : Z) : Z := (v + 2 ^ 15) mod 2 ^ 16 - 2 ^ 15.
Definition int64_t (v : Z) : Z := (v + 2 ^ 63) mod 2 ^ 64 - 2 ^ 63.

(** ** Bytes and big-endian encodings *)

Definition byte_of_Z (v : Z) : byte :=
  match Byte.of_N (Z.to_N (v mod 256)) with
  | Some b => b
  | None => x00
  end.

Definition Z_of_byte (b : byte) : Z := Z.of_N (Byte.to_N b).

(** The [n] low-order bytes of [v], most significant first
    (absl::ghtonl and friends followed by a raw write). *)
Fixpoint be_bytes (n : nat) (v : Z) : list byte :=
  match n with
  | O => []
  | S k => byte_of_Z (v / 2 ^ (8 * Z.of_nat k)) :: be_bytes k v
  end.

Definition be_value (bs : list byte) : Z :=
  fold_left (fun acc b => acc * 256 + Z_of_byte b) bs 0.

Definition len {A} (l : list A) : Z := Z.of_nat (List.length l).
Definition drop {A} (n : Z) (l : list A) : list A := skipn (Z.to_nat n) l.
Definition take {A} (n : Z) (l : list A) : list A := firstn (Z.to_nat n) l.
Definition slice {A} (pos n : Z) (l : list A) : list A := take n (drop pos l).

(** ** FormatStatus *)

(** Modelled from the spec: format_status.h is not among the sources; the
    error kinds are the ones the sources construct (spec section 7).  The
    message string of a status is not modelled. *)
Inductive FormatErrorCode :=
| OK
| FILE_FORMAT_ERROR
| FILE_UNEXPECTED_EOF
| FILE_WRITE_ERROR
| UNEXPECTED_ERROR.

Definition FormatStatus := FormatErrorCode.
Definition OkStatus : FormatStatus := OK.
Definition ok (s : FormatStatus) : bool :=
  match s with OK => true | _ => false end.

(** ** BinaryWriter: the bytes a sequence of Put calls appends *)

Definition PutUInt8 (v : Z) : list byte := be_bytes 1 v.
Definition PutUInt16 (v : Z) : list byte := be_bytes 2 v.
(** ghton24 swaps bytes 0 and 2 of the little-endian word and the first three
    bytes in memory are written: the low 24 bits, most significant first. *)
Definition PutUInt24 (v : Z) : list byte := be_bytes 3 v.
Definition PutUInt32 (v : Z) : list byte := be_bytes 4 v.
Definition PutUInt64 (v : Z) : list byte := be_bytes 8 v.
Definition PutString (s : list byte) : list byte := s.

(** A write that can fail: the status and the bytes emitted before it. *)
Definition Emit : Type := FormatStatus * list byte.

Definition emit (bs : list byte) : Emit := (OkStatus, bs).

(** RETURN_IF_FORMAT_ERROR on the writing side. *)
Definition emit_then (a b : Emit) : Emit :=
  match a with
  | (OK, bs) => (fst b, bs ++ snd b)
  | (e, bs) => (e, bs)
  end.

(** ** BinaryReader over an in-memory stream

    A reader is a position in a stream ([pos_]); [data] is the content of
    the stream.  A failed read sets the stream's failbit (every later
    operation on the stream fails too) and yields FILE_UNEXPECTED_EOF. *)

Inductive ReadResult (A : Type) :=
| ROk (v : A) (pos : Z)
| RErr (e : FormatErrorCode).
Arguments ROk {A} v pos.
Arguments RErr {A} e.

Definition Reader (A : Type) : Type := list byte -> Z -> ReadResult A.

Definition rbind {A B} (r : Reader A) (k : A -> Reader B) : Reader B :=
  fun data pos =>
    match r data pos with
    | ROk v pos' => k v data pos'
    | RErr e => RErr e
    end.

Definition rret {A} (v : A) : Reader A := fun _ pos => ROk v pos.
Definition rfail {A} (e : FormatErrorCode) : Reader A := fun _ _ => RErr e.

Notation "x <- r ;; k" := (rbind r (fun x => k))
  (at level 61, r at next level, right associativity).

(** stream_->read of [n] bytes at [pos_] (after Seek(pos_)). *)
Definition ReadBytes (n : Z) : Reader (list byte) :=
  fun data pos =>
    if (0 <=? pos) && (0 <=? n) && (pos + n <=? len data)
    then ROk (slice pos n data) (pos + n)
    else RErr FILE_UNEXPECTED_EOF.

Definition ReadUInt8 : Reader Z := bs <- ReadBytes 1 ;; rret (be_value bs).
Definition ReadUInt16 : Reader Z := bs <- ReadBytes 2 ;; rret (be_value bs).
Definition ReadUInt24 : Reader Z := bs <- ReadBytes 3 ;; rret (be_value bs).
Definition ReadUInt32 : Reader Z := bs <- ReadBytes 4 ;; rret (be_value bs).
Definition ReadUInt64 : Reader Z := bs <- ReadBytes 8 ;; rret (be_value bs).
(** ReadString(value, size); [size] is a uint64_t. *)
Definition ReadString (size : Z) : Reader (list byte) := ReadBytes (uint64_t size).

(** Seek(pos): seekg on an in-memory stream fails beyond its end. *)
Definition Seek (target : Z) : Reader unit :=
  fun data _ =>
    let p := uint64_t target in
    if p <=? len data then ROk tt p else RErr FILE_UNEXPECTED_EOF.

Definition Tell : Reader Z := fun _ pos => ROk pos pos.
Definition Size (data : list byte) : Z := len data.

(** ** The atom tree (atom.h, full_atom.h, atoms/*.h) *)

(** A clone of a reader: the stream it shares with its origin, named by an
    index into the store of streams, and its own position [pos_]. *)
Record BinaryReader := { stream_ : nat; pos_ : Z }.

(** FullAtom: version and 24-bit flags. *)
Record FullAtom := { version_ : Z; flags_ : Z }.

(** AtomELST::Entry. *)
Record Entry := {
  segment_duration : Z;      (* uint64_t *)
  media_time : Z;            (* int64_t *)
  media_rate_integer : Z;    (* int16_t *)
  media_rate_fraction : Z    (* int16_t *)
}.

Record TKHDFields := {
  created_date_ : Z; modified_date_ : Z; track_id_ : Z; reserved32_1_ : Z;
  duration_ : Z; reserved32_2_ : Z; reserved32_3_ : Z;
  layer_ : Z; group_ : Z; volume_ : Z; reserved16_ : Z;
  matrix_ : list Z; tkhd_width_ : Z; tkhd_height_ : Z
}.

Record HDLRFields := {
  component_type_ : list byte; component_subtype_ : list byte;
  component_manufacturer_ : list byte;
  component_flags_ : Z; component_flags_mask_ : Z;
  component_name_ : list byte
}.

Record VisualSampleEntryFields := {
  reserved_32_ : Z; reserved_16_ : Z; vse_data_reference_index_ : Z;
  visual_version_ : Z; revision_ : Z; vendor_ : list byte;
  temporal_quality_ : Z; spatial_quality_ : Z; width_ : Z; height_ : Z;
  horizontal_res_ : Z; vertical_res_ : Z; entry_data_size_ : Z;
  frames_per_sample_ : Z; encoder_name_size_ : Z; encoder_name_ : list byte;
  bit_depth_ : Z; color_table_id_ : Z
}.

(** Classes that add no data of their own to [Atom]: they keep the default
    (empty) payload codec. *)
Inductive Container := MOOV | TRAK | MDIA | MINF | STBL | EDTS | SV3D.

(** The data members a concrete class adds to [Atom]; the constructor is the
    dynamic type of the object. *)
Inductive Fields :=
| DefaultFields (payload_reader_ : option BinaryReader)
| ContainerFields (c : Container)
| STCOFields (fa : FullAtom) (chunk_offsets_ : list Z)
             (moov_size_delta_ : Z) (max_chunk_offset_ : Z)
| ELSTFields (fa : FullAtom) (entries_ : list Entry)
| SDTPFields (fa : FullAtom) (frame_description_ : list Z)
| STSSFields (fa : FullAtom) (key_frame_indices_ : list Z)
| STSDFields (fa : FullAtom)
| TKHDFields_ (fa : FullAtom) (t : TKHDFields)
| HDLRFields_ (fa : FullAtom) (h : HDLRFields)
| UUIDFields (uuid_ : list byte) (value_ : list byte)
| CAMMFields (reserved_ : list byte) (data_reference_index_ : Z)
| ST3DFields (fa : FullAtom) (stereo_mode_ : Z)
| VisualSampleEntryFields_ (v : VisualSampleEntryFields).

(** typeid of an atom object. *)
Inductive AtomClass :=
| AtomDefault | AtomMOOV | AtomTRAK | AtomMDIA | AtomMINF | AtomSTBL
| AtomEDTS | AtomSV3D | AtomSTCO | AtomELST | AtomSDTP | AtomSTSS | AtomSTSD
| AtomTKHD | AtomHDLR | AtomUUID | AtomCAMM | AtomST3D | VisualSampleEntry.

Definition AtomClass_eqb (a b : AtomClass) : bool :=
  match a, b with
  | AtomDefault, AtomDefault | AtomMOOV, AtomMOOV | AtomTRAK, AtomTRAK
  | AtomMDIA, AtomMDIA | AtomMINF, AtomMINF | AtomSTBL, AtomSTBL
  | AtomEDTS, AtomEDTS | AtomSV3D, AtomSV3D | AtomSTCO, AtomSTCO
  | AtomELST, AtomELST | AtomSDTP, AtomSDTP | AtomSTSS, AtomSTSS
  | AtomSTSD, AtomSTSD | AtomTKHD, AtomTKHD | AtomHDLR, AtomHDLR
  | AtomUUID, AtomUUID | AtomCAMM, AtomCAMM | AtomST3D, AtomST3D
  | VisualSampleEntry, VisualSampleEntry => true
  | _, _ => false
  end.

(** class Atom.  The parent back-pointer is not a field: the functions that
    change an atom inside a tree rebuild its ancestors, running [UpdateSize]
    on each, which is what Update() does through [parent_]. *)
Inductive Atom : Type := MkAtom {
  atom_type_ : string;
  header_size_ : Z;
  data_size_ : Z;
  children_ : list Atom;
  has_null_terminator_ : bool;
  fields : Fields
}.

Definition typeid (a : Atom) : AtomClass :=
  match fields a with
  | DefaultFields _ => AtomDefault
  | ContainerFields MOOV => AtomMOOV
  | ContainerFields TRAK => AtomTRAK
  | ContainerFields MDIA => AtomMDIA
  | ContainerFields MINF => AtomMINF
  | ContainerFields STBL => AtomSTBL
  | ContainerFields EDTS => AtomEDTS
  | ContainerFields SV3D => AtomSV3D
  | STCOFields _ _ _ _ => AtomSTCO
  | ELSTFields _ _ => AtomELST
  | SDTPFields _ _ => AtomSDTP
  | STSSFields _ _ => AtomSTSS
  | STSDFields _ => AtomSTSD
  | TKHDFields_ _ _ => AtomTKHD
  | HDLRFields_ _ _ => AtomHDLR
  | UUIDFields _ _ => AtomUUID
  | CAMMFields _ _ => AtomCAMM
  | ST3DFields _ _ => AtomST3D
  | VisualSampleEntryFields_ _ => VisualSampleEntry
  end.

Definition kIndicateSizeIsToEndOfFile : Z := 0.
Definition kIndicateSizeIs64 : Z := 1.
Definition kSizeOf32bitSize : Z := 4.
Definition kSizeOf64bitSize : Z := kSizeOf32bitSize + 8.
Definition kAtomTypeSize : Z := 4.
Definition kMinSizeofAtomHeader : Z := kSizeOf32bitSize + kAtomTypeSize.

Definition atom_type (a : Atom) : string := atom_type_ a.
Definition header_size (a : Atom) : Z := header_size_ a.
Definition data_size (a : Atom) : Z := data_size_ a.
Definition size (a : Atom) : Z := uint64_t (header_size a + data_size a).
Definition has_null_terminator (a : Atom) : bool := has_null_terminator_ a.
Definition NumChildren (a : Atom) : Z := len (children_ a).
Definition GetChild (a : Atom) (i : Z) : option Atom :=
  if i <? 0 then None else nth_error (children_ a) (Z.to_nat i).

Definition set_atom_type (a : Atom) (t : string) : Atom :=
  MkAtom t (header_size_ a) (data_size_ a) (children_ a)
         (has_null_terminator_ a) (fields a).
Definition set_header_size (a : Atom) (s : Z) : Atom :=
  MkAtom (atom_type_ a) s (data_size_ a) (children_ a)
         (has_null_terminator_ a) (fields a).
Definition set_data_size (a : Atom) (s : Z) : Atom :=
  MkAtom (atom_type_ a) (header_size_ a) s (children_ a)
         (has_null_terminator_ a) (fields a).
Definition set_children (a : Atom) (cs : list Atom) : Atom :=
  MkAtom (atom_type_ a) (header_size_ a) (data_size_ a) cs
         (has_null_terminator_ a) (fields a).
Definition set_fields (a : Atom) (f : Fields) : Atom :=
  MkAtom (atom_type_ a) (header_size_ a) (data_size_ a) (children_ a)
         (has_null_terminator_ a) f.

(** FullAtom::version() and the version test of the versioned atoms. *)
Definition version (fa : FullAtom) : Z := version_ fa.

Definition kType32 : string := "stco".
Definition kType64 : string := "co64".
Definition kConstSTCOBaseSize : Z := 8.
Definition kChunkOffsetSize32 : Z := 4.
Definition kChunkOffsetSize64 : Z := 8.
Definition kConstELSTSize : Z := 8.
Definition kEntryV0Size : Z := 12.
Definition kEntryV1Size : Z := 20.
Definition kFlagAndVersionSize : Z := 4.
Definition kConstSTSDSize : Z := 8.
Definition kVisualSampleEntryConstSize : Z := 78.

(** AtomELST::EntrySize. *)
Definition EntrySize (fa : FullAtom) : Z :=
  if version fa =? 1 then kEntryV1Size else kEntryV0Size.

(** The virtual GetDataSizeWithoutChildren. *)
Definition GetDataSizeWithoutChildren (a : Atom) : Z :=
  match fields a with
  | DefaultFields _ => data_size a
  | ContainerFields _ => 0
  | STCOFields _ offs _ _ =>
      let chunk_offset_size :=
        if String.eqb (atom_type a) kType32
        then kChunkOffsetSize32 else kChunkOffsetSize64 in
      uint64_t (kConstSTCOBaseSize + len offs * chunk_offset_size)
  | ELSTFields fa es =>
      uint64_t (kConstELSTSize + uint32_t (len es) * EntrySize fa)
  | SDTPFields _ fd => uint64_t (len fd + kFlagAndVersionSize)
  | STSSFields _ _ => data_size a
  | STSDFields _ => kConstSTSDSize
  | TKHDFields_ fa _ => if version fa =? 1 then 96 else 84
  | HDLRFields_ _ h =>
      uint32_t (12 + len (component_type_ h) + len (component_subtype_ h)
                + len (component_manufacturer_ h) + len (component_name_ h))
  | UUIDFields u v => uint64_t (len u + len v)
  | CAMMFields r _ => uint64_t (len r + 2)
  | ST3DFields _ _ => 5
  | VisualSampleEntryFields_ _ => kVisualSampleEntryConstSize
  end.

(** Atom::ComputeHeaderSize. *)
Definition ComputeHeaderSize (a : Atom) : Atom :=
  let header_bytes := kSizeOf32bitSize + kAtomTypeSize in
  let header_bytes :=
    if uint64_t (header_bytes + data_size a) >? UINT32_MAX
    then header_bytes + 8 else header_bytes in
  set_header_size a header_bytes.

Definition children_size (cs : list Atom) : Z :=
  fold_left (fun acc c => uint64_t (acc + size c)) cs 0.

(** Atom::UpdateSize. *)
Definition UpdateSize (a : Atom) : Atom :=
  let terminator_size := if has_null_terminator_ a then 4 else 0 in
  let a := set_data_size a
             (uint64_t (GetDataSizeWithoutChildren a
                        + children_size (children_ a) + terminator_size)) in
  ComputeHeaderSize a.

(** Atom::AddChildAt, seen from the atom itself ([index] is an int). *)
Definition AddChildAt (a : Atom) (child : Atom) (index : Z) : Atom :=
  let size := NumChildren a in
  if (index <? 0) || (index >? size) then a
  else UpdateSize (set_children a (take index (children_ a) ++ child
                                   :: drop index (children_ a))).

Definition AddChild (a : Atom) (child : Atom) : Atom :=
  AddChildAt a child (NumChildren a).

(** Atom::DeleteChild: the deleted child (nullptr is [None]) and the atom
    afterwards. *)
Definition DeleteChild (a : Atom) (i : Z) : option Atom * Atom :=
  if (i <? 0) || (i >=? NumChildren a) then (None, a)
  else (GetChild a i,
        UpdateSize (set_children a (take i (children_ a)
                                    ++ drop (i + 1) (children_ a)))).

(** Atom::set_has_null_terminator. *)
Definition set_has_null_terminator (a : Atom) (value : bool) : Atom :=
  if Bool.eqb (has_null_terminator_ a) value then a
  else UpdateSize (MkAtom (atom_type_ a) (header_size_ a) (data_size_ a)
                          (children_ a) value (fields a)).


(** ** Typed setters (full_atom.h, atom_stco.cc, atom_elst.cc, atom_sdtp.cc) *)

Definition full_atom (a : Atom) : option FullAtom :=
  match fields a with
  | STCOFields fa _ _ _ | ELSTFields fa _ | SDTPFields fa _
  | STSSFields fa _ | STSDFields fa | TKHDFields_ fa _ | HDLRFields_ fa _
  | ST3DFields fa _ => Some fa
  | _ => None
  end.

Definition with_full_atom (f : Fields) (fa : FullAtom) : Fields :=
  match f with
  | STCOFields _ o d m => STCOFields fa o d m
  | ELSTFields _ es => ELSTFields fa es
  | SDTPFields _ fd => SDTPFields fa fd
  | STSSFields _ k => STSSFields fa k
  | STSDFields _ => STSDFields fa
  | TKHDFields_ _ t => TKHDFields_ fa t
  | HDLRFields_ _ h => HDLRFields_ fa h
  | ST3DFields _ m => ST3DFields fa m
  | f => f
  end.

(** FullAtom::set_version (the argument is a uint8_t). *)
Definition set_version (a : Atom) (v : Z) : Atom :=
  match full_atom a with
  | Some fa =>
      UpdateSize (set_fields a (with_full_atom (fields a)
                    {| version_ := uint8_t v; flags_ := flags_ fa |}))
  | None => a
  end.

(** AtomSTCO::ReviewAtomType.  The sum of the two int64_t members is taken
    with two's complement wrap-around. *)
Definition ReviewAtomType (a : Atom) : Atom :=
  match fields a with
  | STCOFields _ _ delta max =>
      if int64_t (max + delta) >? UINT32_MAX
      then UpdateSize (set_atom_type a kType64)
      else a
  | _ => a
  end.

(** AtomSTCO::AdjustChunkOffsets, seen from the atom itself. *)
Definition AdjustChunkOffsets (a : Atom) (adjustment : Z) : Atom :=
  match fields a with
  | STCOFields fa offs delta max =>
      let a := set_fields a (STCOFields fa offs (int64_t (delta + adjustment)) max) in
      let a := ReviewAtomType a in
      UpdateSize a
  | _ => a
  end.

(** AtomELST::AddEntry. *)
Definition AddEntry (a : Atom) (entry : Entry) : Atom :=
  match fields a with
  | ELSTFields _ _ =>
      let a :=
        if (segment_duration entry >? UINT32_MAX)
           || (media_time entry >? INT32_MAX)
           || (media_time entry <? INT32_MIN)
        then set_version a 1 else a in
      match fields a with
      | ELSTFields fa es => UpdateSize (set_fields a (ELSTFields fa (es ++ [entry])))
      | _ => a
      end
  | _ => a
  end.

Definition kIFrameDescription : Z := 32.
Definition kPFrameDescription : Z := 24.

(** The for loop of AtomSDTP::PopulateFromKeyFrameIndices: [n] iterations
    are left, [i] is the loop counter. *)
Fixpoint PopulateLoop (indices : list Z) (n : nat) (i next_key_frame_index : Z)
         (frame_description : list Z) : list Z :=
  match n with
  | O => frame_description
  | S n' =>
      if i =? uint32_t (nth (Z.to_nat next_key_frame_index) indices 0 - 1)
      then PopulateLoop indices n' (i + 1) (next_key_frame_index + 1)
                        (frame_description ++ [kIFrameDescription])
      else PopulateLoop indices n' (i + 1) next_key_frame_index
                        (frame_description ++ [kPFrameDescription])
  end.

(** AtomSDTP::PopulateFromKeyFrameIndices ([indices.back()] of an empty
    vector is undefined in C++; it reads as 0 here). *)
Definition PopulateFromKeyFrameIndices (a : Atom) (indices : list Z) : Atom :=
  match fields a with
  | SDTPFields fa _ =>
      let last_index := last indices 0 in
      UpdateSize (set_fields a
        (SDTPFields fa (PopulateLoop indices (Z.to_nat last_index) 0 0 [])))
  | _ => a
  end.

(** ** Payload codecs: WriteDataWithoutChildren *)

(** The readable side of a stream: its bytes and its failbit. *)
Record IStream := { content : list byte; failbit : bool }.

(** The streams that live readers refer to. *)
Definition Streams := nat -> IStream.

Definition kChunkBufferSizeBytes : Z := 2 ^ 20.

(** BinaryWriterImpl::PutData: copy [size] bytes from [reader], in chunks of
    at most 1 MB; a chunk that cannot be read in full ends the copy. *)
Definition PutData (st : Streams) (reader : BinaryReader) (size : Z) : Emit :=
  let s := st (stream_ reader) in
  let p := pos_ reader in
  if failbit s || (p <? 0) || (len (content s) <? p) then (FILE_UNEXPECTED_EOF, [])
  else if p + size <=? len (content s) then (OK, slice p size (content s))
  else (FILE_UNEXPECTED_EOF,
        slice p ((len (content s) - p) / kChunkBufferSizeBytes
                 * kChunkBufferSizeBytes) (content s)).

Definition VersionAndFlags (fa : FullAtom) : list byte :=
  PutUInt8 (version_ fa) ++ PutUInt24 (flags_ fa).

(** CapSize of atom_hdlr.cc; [max_size] is an int, compared and used as a
    size_t. *)
Definition int32_t (v : Z) : Z := (v + 2 ^ 31) mod 2 ^ 32 - 2 ^ 31.
Definition CapSize (value : list byte) (max_size : Z) : list byte :=
  let m := uint64_t (int32_t max_size) in
  if len value <=? m then value else take m value.

Definition WriteEntry (fa : FullAtom) (entry : Entry) : list byte :=
  (if version fa =? 1
   then PutUInt64 (segment_duration entry) ++ PutUInt64 (uint64_t (media_time entry))
   else PutUInt32 (uint32_t (Z.land (segment_duration entry) UINT32_MAX))
        ++ PutUInt32 (uint32_t (Z.land (media_time entry) UINT32_MAX)))
  ++ PutUInt16 (uint16_t (media_rate_integer entry))
  ++ PutUInt16 (uint16_t (media_rate_fraction entry)).

Definition WriteTKHD (fa : FullAtom) (t : TKHDFields) : list byte :=
  VersionAndFlags fa
  ++ (if version fa =? 1
      then PutUInt64 (created_date_ t) ++ PutUInt64 (modified_date_ t)
           ++ PutUInt32 (track_id_ t) ++ PutUInt32 (reserved32_1_ t)
           ++ PutUInt64 (duration_ t)
      else PutUInt32 (uint32_t (Z.land (created_date_ t) UINT32_MAX))
           ++ PutUInt32 (uint32_t (Z.land (modified_date_ t) UINT32_MAX))
           ++ PutUInt32 (track_id_ t) ++ PutUInt32 (reserved32_1_ t)
           ++ PutUInt32 (uint32_t (Z.land (duration_ t) UINT32_MAX)))
  ++ PutUInt32 (reserved32_2_ t) ++ PutUInt32 (reserved32_3_ t)
  ++ PutUInt16 (layer_ t) ++ PutUInt16 (group_ t)
  ++ PutUInt16 (volume_ t) ++ PutUInt16 (reserved16_ t)
  ++ List.concat (map PutUInt32 (matrix_ t))
  ++ PutUInt32 (uint32_t (Z.shiftl (tkhd_width_ t) 16))
  ++ PutUInt32 (uint32_t (Z.shiftl (tkhd_height_ t) 16)).

Definition WriteHDLR (a_data_size : Z) (fa : FullAtom) (h : HDLRFields) : list byte :=
  let fixed :=
    VersionAndFlags fa
    ++ PutString (CapSize (component_type_ h) 4)
    ++ PutString (CapSize (component_subtype_ h) 4)
    ++ PutString (CapSize (component_manufacturer_ h) 4)
    ++ PutUInt32 (component_flags_ h) ++ PutUInt32 (component_flags_mask_ h) in
  let max_size := uint64_t (a_data_size - len fixed) in
  fixed ++ PutString (CapSize (component_name_ h) max_size).

Definition WriteVisualSampleEntry (v : VisualSampleEntryFields) : list byte :=
  PutUInt32 (reserved_32_ v) ++ PutUInt16 (reserved_16_ v)
  ++ PutUInt16 (vse_data_reference_index_ v) ++ PutUInt16 (visual_version_ v)
  ++ PutUInt16 (revision_ v) ++ PutString (vendor_ v)
  ++ PutUInt32 (temporal_quality_ v) ++ PutUInt32 (spatial_quality_ v)
  ++ PutUInt16 (width_ v) ++ PutUInt16 (height_ v)
  ++ PutUInt32 (uint32_t (Z.shiftl (horizontal_res_ v) 16))
  ++ PutUInt32 (uint32_t (Z.shiftl (vertical_res_ v) 16))
  ++ PutUInt32 (entry_data_size_ v) ++ PutUInt16 (frames_per_sample_ v)
  ++ PutUInt8 (encoder_name_size_ v) ++ PutString (encoder_name_ v)
  ++ PutUInt16 (bit_depth_ v) ++ PutUInt16 (color_table_id_ v).

(** The virtual WriteDataWithoutChildren.  Writing a default atom reads its
    payload through [payload_reader_]; the position that this advances in
    the clone is not kept, every atom being written at most once. *)
Definition WriteDataWithoutChildren (st : Streams) (a : Atom) : Emit :=
  match fields a with
  | DefaultFields (Some reader) => PutData st reader (data_size a)
  | DefaultFields None => emit []
  | ContainerFields _ => emit []
  | STCOFields fa offs delta _ =>
      emit (VersionAndFlags fa ++ PutUInt32 (uint32_t (len offs))
            ++ (if String.eqb (atom_type a) kType32
                then List.concat (map (fun o => PutUInt32 (uint32_t (uint64_t (o + delta)))) offs)
                else List.concat (map (fun o => PutUInt64 (uint64_t (o + delta))) offs)))
  | ELSTFields fa es =>
      let count := uint32_t (len es) in
      emit (VersionAndFlags fa ++ PutUInt32 count
            ++ List.concat (map (WriteEntry fa) (take count es)))
  | SDTPFields fa fd =>
      emit (VersionAndFlags fa ++ List.concat (map PutUInt8 fd))
  | STSSFields fa ks =>
      emit (VersionAndFlags fa ++ PutUInt32 (uint32_t (len ks))
            ++ List.concat (map PutUInt32 ks))
  | STSDFields fa =>
      emit (VersionAndFlags fa ++ PutUInt32 (uint32_t (NumChildren a)))
  | TKHDFields_ fa t => emit (WriteTKHD fa t)
  | HDLRFields_ fa h => emit (WriteHDLR (data_size a) fa h)
  | UUIDFields u v =>
      if len u =? 16 then emit (PutString u ++ PutString v)
      else (FILE_FORMAT_ERROR, [])
  | CAMMFields r d => emit (PutString r ++ PutUInt16 d)
  | ST3DFields fa m => emit (VersionAndFlags fa ++ PutUInt8 (uint8_t m))
  | VisualSampleEntryFields_ v => emit (WriteVisualSampleEntry v)
  end.


(** ** Payload codecs: ReadDataWithoutChildren *)

(** A counted for loop around one read. *)
Fixpoint read_n {A} (n : nat) (r : Reader A) : Reader (list A) :=
  match n with
  | O => rret []
  | S k => x <- r ;; xs <- read_n k r ;; rret (x :: xs)
  end.

Definition StreamSize : Reader Z := fun data pos => ROk (Size data) pos.

Definition ReadVersionAndFlags : Reader FullAtom :=
  v <- ReadUInt8 ;; f <- ReadUInt24 ;; rret {| version_ := v; flags_ := f |}.

(** One iteration of the loop of AtomELST::ReadDataWithoutChildren. *)
Definition ReadEntry (fa : FullAtom) : Reader Entry :=
  sm <- (if version fa =? 1
         then d <- ReadUInt64 ;; m <- ReadUInt64 ;; rret (d, int64_t m)
         else d <- ReadUInt32 ;; m <- ReadUInt32 ;; rret (d, m)) ;;
  ri <- ReadUInt16 ;;
  rf <- ReadUInt16 ;;
  rret {| segment_duration := fst sm; media_time := snd sm;
          media_rate_integer := int16_t ri; media_rate_fraction := int16_t rf |}.

Definition ReadTKHD (fa : FullAtom) : Reader TKHDFields :=
  hd <- (if version fa =? 1
         then c <- ReadUInt64 ;; m <- ReadUInt64 ;; i <- ReadUInt32 ;;
              r <- ReadUInt32 ;; d <- ReadUInt64 ;; rret (c, m, i, r, d)
         else c <- ReadUInt32 ;; m <- ReadUInt32 ;; i <- ReadUInt32 ;;
              r <- ReadUInt32 ;; d <- ReadUInt32 ;; rret (c, m, i, r, d)) ;;
  r2 <- ReadUInt32 ;; r3 <- ReadUInt32 ;;
  la <- ReadUInt16 ;; gr <- ReadUInt16 ;; vo <- ReadUInt16 ;; r16 <- ReadUInt16 ;;
  mx <- read_n 9 ReadUInt32 ;;
  w <- ReadUInt32 ;; h <- ReadUInt32 ;;
  let '(c, m, i, r, d) := hd in
  rret {| created_date_ := c; modified_date_ := m; track_id_ := i;
          reserved32_1_ := r; duration_ := d; reserved32_2_ := r2;
          reserved32_3_ := r3; layer_ := la; group_ := gr; volume_ := vo;
          reserved16_ := r16; matrix_ := mx;
          tkhd_width_ := Z.shiftr w 16; tkhd_height_ := Z.shiftr h 16 |}.

Definition ReadHDLR (a_data_size : Z) : Reader (FullAtom * HDLRFields) :=
  initial_size <- Tell ;;
  fa <- ReadVersionAndFlags ;;
  ct <- ReadString 4 ;; cs <- ReadString 4 ;; cm <- ReadString 4 ;;
  fl <- ReadUInt32 ;; fm <- ReadUInt32 ;;
  now <- Tell ;;
  nm <- ReadString (a_data_size - (now - initial_size)) ;;
  rret (fa, {| component_type_ := ct; component_subtype_ := cs;
               component_manufacturer_ := cm; component_flags_ := fl;
               component_flags_mask_ := fm; component_name_ := nm |}).

Definition ReadVisualSampleEntry : Reader VisualSampleEntryFields :=
  r32 <- ReadUInt32 ;; r16 <- ReadUInt16 ;; dri <- ReadUInt16 ;;
  vv <- ReadUInt16 ;; rv <- ReadUInt16 ;; vd <- ReadString 4 ;;
  tq <- ReadUInt32 ;; sq <- ReadUInt32 ;; w <- ReadUInt16 ;; h <- ReadUInt16 ;;
  hr <- ReadUInt32 ;; vr <- ReadUInt32 ;; eds <- ReadUInt32 ;;
  fps <- ReadUInt16 ;; ens <- ReadUInt8 ;; en <- ReadString 31 ;;
  bd <- ReadUInt16 ;; ct <- ReadUInt16 ;;
  rret {| reserved_32_ := r32; reserved_16_ := r16;
          vse_data_reference_index_ := dri; visual_version_ := vv;
          revision_ := rv; vendor_ := vd; temporal_quality_ := tq;
          spatial_quality_ := sq; width_ := w; height_ := h;
          horizontal_res_ := Z.shiftr hr 16; vertical_res_ := Z.shiftr vr 16;
          entry_data_size_ := eds; frames_per_sample_ := fps;
          encoder_name_size_ := ens; encoder_name_ := en;
          bit_depth_ := bd; color_table_id_ := ct |}.

Definition max_element (l : list Z) : Z := fold_left Z.max (tl l) (hd 0 l).

(** The virtual ReadDataWithoutChildren; [sid] names the stream being read
    (a default atom keeps a clone of the reader).  The counted loops run
    [Z.to_nat count] times; a count beyond the stream ends in a failed
    read. *)
Definition ReadDataWithoutChildren (sid : nat) (a : Atom) : Reader Atom :=
  match fields a with
  | DefaultFields _ =>
      p <- Tell ;;
      _ <- Seek (p + data_size a) ;;
      rret (set_fields a (DefaultFields (Some {| stream_ := sid; pos_ := p |})))
  | ContainerFields _ => rret a
  | STCOFields _ _ delta max =>
      fa <- ReadVersionAndFlags ;;
      num_chunks <- ReadUInt32 ;;
      let chunk_offset_size :=
        if String.eqb (atom_type a) kType32
        then kChunkOffsetSize32 else kChunkOffsetSize64 in
      if data_size a <? uint64_t (kConstSTCOBaseSize + num_chunks * chunk_offset_size)
      then rfail FILE_FORMAT_ERROR
      else
        offs <- read_n (Z.to_nat num_chunks)
                  (if String.eqb (atom_type a) kType32 then ReadUInt32 else ReadUInt64) ;;
        let max := match offs with [] => max | _ => int64_t (max_element offs) end in
        rret (set_fields a (STCOFields fa offs delta max))
  | ELSTFields _ es =>
      fa <- ReadVersionAndFlags ;;
      count <- ReadUInt32 ;;
      if data_size a <? uint64_t (kConstELSTSize + count * EntrySize fa)
      then rfail FILE_FORMAT_ERROR
      else
        new <- read_n (Z.to_nat count) (ReadEntry fa) ;;
        rret (set_fields a (ELSTFields fa (es ++ new)))
  | SDTPFields _ _ =>
      fa <- ReadVersionAndFlags ;;
      fd <- read_n (Z.to_nat (uint64_t (data_size a - kFlagAndVersionSize))) ReadUInt8 ;;
      rret (set_fields a (SDTPFields fa fd))
  | STSSFields _ ks =>
      fa <- ReadVersionAndFlags ;;
      num_key_frames <- ReadUInt32 ;;
      new <- read_n (Z.to_nat num_key_frames) ReadUInt32 ;;
      rret (set_fields a (STSSFields fa (ks ++ new)))
  | STSDFields _ =>
      fa <- ReadVersionAndFlags ;;
      descriptor_count <- ReadUInt32 ;;
      rret (set_fields a (STSDFields fa))
  | TKHDFields_ _ _ =>
      fa <- ReadVersionAndFlags ;;
      t <- ReadTKHD fa ;;
      rret (set_fields a (TKHDFields_ fa t))
  | HDLRFields_ _ _ =>
      r <- ReadHDLR (data_size a) ;;
      rret (set_fields a (HDLRFields_ (fst r) (snd r)))
  | UUIDFields _ _ =>
      u <- ReadString 16 ;;
      v <- ReadString (data_size a - 16) ;;
      rret (set_fields a (UUIDFields u v))
  | CAMMFields _ _ =>
      r <- ReadString 6 ;;
      d <- ReadUInt16 ;;
      rret (set_fields a (CAMMFields r d))
  | ST3DFields _ _ =>
      fa <- ReadVersionAndFlags ;;
      mode <- ReadUInt8 ;;
      rret (set_fields a (ST3DFields fa mode))
  | VisualSampleEntryFields_ _ =>
      v <- ReadVisualSampleEntry ;;
      rret (set_fields a (VisualSampleEntryFields_ v))
  end.

(** ** AtomRegistry *)

Definition zero_bytes (n : nat) : list byte := repeat x00 n.

(** The atom types registered with REGISTER_SAMPLE in
    visual_sample_entry.cc. *)
Definition visual_sample_types : list string :=
  ["AVDJ"; "AVdh"; "AVdn"; "CFHD"; "DIVX"; "WMV1"; "WMV2"; "WMV3"; "XVID";
   "ai12"; "ai13"; "ai15"; "ai16"; "ai1p"; "ai1q"; "ai52"; "ai53"; "ai55";
   "ai56"; "ai5q"; "ap4h"; "ap4x"; "apch"; "apcn"; "apco"; "apcs"; "av01";
   "avc1"; "dmb1"; "h263"; "hev1"; "hvc1"; "jpeg"; "mjp2"; "mjpa"; "mjpb";
   "mp4v"; "s263"; "vp09"]%string.

Definition NewFullAtom : FullAtom := {| version_ := 0; flags_ := 0 |}.

Definition NewTKHD : TKHDFields :=
  {| created_date_ := 0; modified_date_ := 0; track_id_ := 0;
     reserved32_1_ := 0; duration_ := 0; reserved32_2_ := 0;
     reserved32_3_ := 0; layer_ := 0; group_ := 0; volume_ := 0;
     reserved16_ := 0;
     matrix_ := [65536; 0; 0; 0; 65536; 0; 0; 0; 1073741824];
     tkhd_width_ := 0; tkhd_height_ := 0 |}.

Definition NewHDLR : HDLRFields :=
  {| component_type_ := []; component_subtype_ := [];
     component_manufacturer_ := []; component_flags_ := 0;
     component_flags_mask_ := 0; component_name_ := [] |}.

Definition NewVisualSampleEntry : VisualSampleEntryFields :=
  {| reserved_32_ := 0; reserved_16_ := 0; vse_data_reference_index_ := 1;
     visual_version_ := 0; revision_ := 0; vendor_ := zero_bytes 4;
     temporal_quality_ := 0; spatial_quality_ := 0; width_ := 0; height_ := 0;
     horizontal_res_ := 72; vertical_res_ := 72; entry_data_size_ := 0;
     frames_per_sample_ := 1; encoder_name_size_ := 31;
     encoder_name_ := zero_bytes 31; bit_depth_ := 24;
     color_table_id_ := 65535 |}.

(** Modelled from the spec: atom_mdia.h and the .cc files of the mdia, minf,
    stbl, edts and sv3d atoms are not among the sources; the spec lists them
    as typed container atoms, so each is registered under its own tag with
    the default (empty) payload codec. *)
Definition spec_containers (atom_type : string) : option Container :=
  if String.eqb atom_type "mdia" then Some MDIA
  else if String.eqb atom_type "minf" then Some MINF
  else if String.eqb atom_type "stbl" then Some STBL
  else if String.eqb atom_type "edts" then Some EDTS
  else if String.eqb atom_type "sv3d" then Some SV3D
  else None.

(** The fields of the object the registered constructor makes for a tag.
    atom_moov.cc registers AtomTRAK, not AtomMOOV, under "moov". *)
Definition registry (atom_type : string) : Fields :=
  if String.eqb atom_type "stss" then STSSFields NewFullAtom []
  else if String.eqb atom_type "stsd" then STSDFields NewFullAtom
  else if String.eqb atom_type "moov" then ContainerFields TRAK
  else if String.eqb atom_type "tkhd" then TKHDFields_ NewFullAtom NewTKHD
  else if String.eqb atom_type "trak" then ContainerFields TRAK
  else if String.eqb atom_type "st3d" then ST3DFields NewFullAtom 0
  else if String.eqb atom_type "camm" then CAMMFields [] 0
  else if String.eqb atom_type kType32 then STCOFields NewFullAtom [] 0 0
  else if String.eqb atom_type kType64 then STCOFields NewFullAtom [] 0 0
  else if String.eqb atom_type "uuid" then UUIDFields [] []
  else if String.eqb atom_type "elst" then ELSTFields NewFullAtom []
  else if String.eqb atom_type "sdtp" then SDTPFields NewFullAtom []
  else if String.eqb atom_type "hdlr" then HDLRFields_ NewFullAtom NewHDLR
  else if existsb (String.eqb atom_type) visual_sample_types
       then VisualSampleEntryFields_ NewVisualSampleEntry
  else match spec_containers atom_type with
       | Some c => ContainerFields c
       | None => DefaultFields None
       end.

(** The Atom constructor. *)
Definition NewAtom (header_size data_size : Z) (atom_type : string) (f : Fields) : Atom :=
  let a := MkAtom atom_type header_size data_size [] false f in
  if (header_size =? 0) && negb (data_size =? 0) then ComputeHeaderSize a else a.

(** AtomRegistry::CreateAtom. *)
Definition CreateAtom (header_size data_size : Z) (atom_type : string) : Atom :=
  NewAtom header_size data_size atom_type (registry atom_type).


(** ** atom_reader.cc *)

Definition safe_add (a b : Z) : Z :=
  let sum := uint64_t (a + b) in
  if sum <? a then UINT64_MAX else sum.

Definition safe_sub (a b : Z) : Z := if a <? b then 0 else a - b.

Definition safe_convert_uint64_t_to_int64_t (a : Z) : Z :=
  if a >? INT64_MAX then INT64_MAX else a.

(** ReadHeader: header_size, data_size and atom_type. *)
Definition ReadHeader : Reader (Z * Z * string) :=
  let header_bytes := kSizeOf32bitSize + kAtomTypeSize in
  size32 <- ReadUInt32 ;;
  atom_type <- ReadString kAtomTypeSize ;;
  hs <- (if size32 =? kIndicateSizeIs64
         then size64 <- ReadUInt64 ;; rret (header_bytes + 8, size64)
         else if size32 =? kIndicateSizeIsToEndOfFile
         then sz <- StreamSize ;; p <- Tell ;;
              rret (header_bytes, uint64_t (sz - p + header_bytes))
         else rret (header_bytes, size32)) ;;
  let '(header_bytes, size64) := hs in
  if size64 <? header_bytes then rfail FILE_FORMAT_ERROR
  else rret (header_bytes, size64 - header_bytes, string_of_list_byte atom_type).

(** What ReadAtom returns: an atom and the reader's new position, or
    nullptr; [stream_failed] tells whether a read failed, which leaves the
    stream with its failbit set.  [OutOfFuel] is not a C++ outcome: it marks
    a recursion bound that was too small (never the case for the bound
    [ReadAtoms] uses, see [ReadAtom_fuel]). *)
Inductive AtomResult :=
| Parsed (a : Atom) (pos : Z)
| Nullptr (stream_failed : bool)
| OutOfFuel.

Definition failed_stream (e : FormatErrorCode) : bool :=
  match e with FILE_UNEXPECTED_EOF => true | _ => false end.

(** ReadChildAtoms: the while loop, at most [n] iterations; [read_atom] is
    ReadAtom on the same reader.  The result is the parent with its children
    added, or the failure of a child. *)
Fixpoint ReadChildAtoms (read_atom : Z -> AtomResult) (n : nat)
         (children_size sum_sizes : Z) (parent : Atom) (pos : Z) : AtomResult :=
  if uint64_t (sum_sizes + kMinSizeofAtomHeader) <=? children_size then
    match n with
    | O => OutOfFuel
    | S n' =>
        match read_atom pos with
        | Parsed child pos' =>
            ReadChildAtoms read_atom n' children_size
                           (uint64_t (sum_sizes + size child))
                           (AddChild parent child) pos'
        | r => r
        end
    end
  else Parsed parent pos.

(** ReadAtom on the reader of stream [sid] with content [data], at [pos]. *)
Fixpoint ReadAtom (fuel : nat) (sid : nat) (data : list byte) (pos : Z) : AtomResult :=
  match fuel with
  | O => OutOfFuel
  | S fuel' =>
      let initial_pos := pos in
      match ReadHeader data pos with
      | RErr e => Nullptr (failed_stream e)
      | ROk (header_size, data_size, atom_type) pos =>
          let atom_size := uint64_t (header_size + data_size) in
          let expected_pos :=
            safe_convert_uint64_t_to_int64_t (safe_add initial_pos atom_size) in
          let atom := CreateAtom header_size data_size atom_type in
          match ReadDataWithoutChildren sid atom data pos with
          | RErr e => Nullptr (failed_stream e)
          | ROk atom pos =>
              let children_size :=
                safe_sub (Mp4.data_size atom) (GetDataSizeWithoutChildren atom) in
              match ReadChildAtoms (ReadAtom fuel' sid data) fuel'
                                   children_size 0 atom pos with
              | Parsed atom pos =>
                  (* Handle null terminators. *)
                  let '(atom, pos, failed) :=
                    if uint64_t (atom_size - pos + initial_pos) =? 4 then
                      let atom := set_has_null_terminator atom true in
                      match ReadUInt32 data pos with
                      | ROk _ pos' => (atom, pos', false)
                      | RErr _ => (atom, UINT64_MAX, true)
                      end
                    else (atom, pos, false) in
                  if negb (pos =? expected_pos) then Nullptr failed
                  else Parsed atom pos
              | r => r
              end
          end
      end
  end.

(** ** atom_writer.cc *)

Definition WriteAtomHeader (a : Atom) : Emit :=
  let size_length := uint64_t (header_size a - kAtomTypeSize) in
  if (size_length =? kSizeOf32bitSize) || (size_length =? kSizeOf32bitSize + 8) then
    let flag_size_large := negb (size_length =? kSizeOf32bitSize) in
    let size32 := if flag_size_large then kIndicateSizeIs64 else uint32_t (size a) in
    let size64 := size a in
    emit (PutUInt32 size32 ++ PutString (list_byte_of_string (atom_type a))
          ++ (if flag_size_large then PutUInt64 size64 else []))
  else (FILE_FORMAT_ERROR, []).

(** WriteAtom, with WriteChildAtoms as its inner loop. *)
Fixpoint WriteAtom (st : Streams) (a : Atom) {struct a} : Emit :=
  match a with
  | MkAtom _ _ _ children _ _ =>
      emit_then (WriteAtomHeader a)
     (emit_then (WriteDataWithoutChildren st a)
     (emit_then ((fix WriteChildAtoms (cs : list Atom) : Emit :=
                    match cs with
                    | [] => emit []
                    | c :: cs' => emit_then (WriteAtom st c) (WriteChildAtoms cs')
                    end) children)
                (if has_null_terminator a then emit (PutUInt32 0) else emit [])))
  end.

(** Writing a sequence of atoms one after the other (the output loops of
    modify_moov.cc, and WriteChildAtoms). *)
Fixpoint WriteAtoms (st : Streams) (l : list Atom) : Emit :=
  match l with
  | [] => emit []
  | a :: l' => emit_then (WriteAtom st a) (WriteAtoms st l')
  end.

(** ** modify_moov.cc *)

Definition kMoovType : string := "moov".
Definition kMdatType : string := "mdat".
Definition kFreeType : string := "free".
Definition kFreeAtomHeaderSize : Z := 8.

(** What ReadAtoms leaves behind: the atoms, whether the loop ended at the
    end of the stream ([at_end]) or on a nullptr, and the failbit of the
    stream. *)
Record TopLevel := { atoms : list Atom; at_end : bool; stream_failed_ : bool }.

(** The while loop of ReadAtoms, at most [n] iterations; [None] marks a
    bound that was too small. *)
Fixpoint ReadAtomsLoop (fuel n : nat) (sid : nat) (data : list byte) (pos : Z)
         (acc : list Atom) : option TopLevel :=
  if pos <? Size data then
    match n with
    | O => None
    | S n' =>
        match ReadAtom fuel sid data pos with
        | Parsed a pos' => ReadAtomsLoop fuel n' sid data pos' (acc ++ [a])
        | Nullptr failed =>
            Some {| atoms := acc; at_end := false; stream_failed_ := failed |}
        | OutOfFuel => None
        end
    end
  else Some {| atoms := acc; at_end := true; stream_failed_ := false |}.

(** ReadAtoms on a fresh reader of stream [sid].  The bounds are the length
    of the stream plus one, which is always enough ([ReadAtoms_bounds]), so
    the last branch is never taken. *)
Definition ReadAtoms (sid : nat) (data : list byte) : TopLevel :=
  match ReadAtomsLoop (S (List.length data)) (S (List.length data)) sid data 0 [] with
  | Some top => top
  | None => {| atoms := []; at_end := false; stream_failed_ := false |}
  end.

(** FindChild of atom_helpers.h: the first child whose dynamic type is
    [cls], with its index. *)
Fixpoint find_class (cls : AtomClass) (cs : list Atom) (i : nat) : option (nat * Atom) :=
  match cs with
  | [] => None
  | c :: cs' =>
      if AtomClass_eqb (typeid c) cls then Some (i, c)
      else find_class cls cs' (S i)
  end.

Definition FindChild (cls : AtomClass) (parent : Atom) : option (nat * Atom) :=
  find_class cls (children_ parent) 0.

Fixpoint replace_nth {A} (i : nat) (x : A) (l : list A) : list A :=
  match l, i with
  | [], _ => []
  | _ :: l', O => x :: l'
  | y :: l', S i' => y :: replace_nth i' x l'
  end.

(** The child at index [i] of [a] has changed into [c] and called Update():
    Update() reaches [a] through the parent pointer and recomputes its
    sizes. *)
Definition child_updated (a : Atom) (i : nat) (c : Atom) : Atom :=
  UpdateSize (set_children a (replace_nth i c (children_ a))).

(** One iteration of the loop of AdjustTrackOffsets: AtomTRAK::atom_stbl
    (FindNamedChildren walks mdia, minf, stbl; a missing mdia or minf leaves
    the stbl_ member unset in C++, read as nullptr here), FindChild<AtomSTCO>
    and AdjustChunkOffsets, whose Update() then climbs back to the track. *)
Definition AdjustTrack (trak : Atom) (delta : Z) : FormatStatus * Atom :=
  match FindChild AtomMDIA trak with
  | None => (FILE_FORMAT_ERROR, trak)
  | Some (i, mdia) =>
      match FindChild AtomMINF mdia with
      | None => (FILE_FORMAT_ERROR, trak)
      | Some (j, minf) =>
          match FindChild AtomSTBL minf with
          | None => (FILE_FORMAT_ERROR, trak)
          | Some (k, stbl) =>
              match FindChild AtomSTCO stbl with
              | None => (FILE_FORMAT_ERROR, trak)
              | Some (l, stco) =>
                  let stco := AdjustChunkOffsets stco delta in
                  let stbl := child_updated stbl l stco in
                  let minf := child_updated minf k stbl in
                  let mdia := child_updated mdia j minf in
                  (OK, child_updated trak i mdia)
              end
          end
      end
  end.

(** The loop of AdjustTrackOffsets over moov->tracks(), the children of
    dynamic type AtomTRAK; [i] is the index of the head of [cs] in [moov]. *)
Fixpoint AdjustTracks (moov : Atom) (cs : list Atom) (i : nat) (delta : Z)
  : FormatStatus * Atom :=
  match cs with
  | [] => (OK, moov)
  | c :: cs' =>
      if AtomClass_eqb (typeid c) AtomTRAK then
        match AdjustTrack c delta with
        | (OK, trak) => AdjustTracks (child_updated moov i trak) cs' (S i) delta
        | (e, _) => (e, moov)
        end
      else AdjustTracks moov cs' (S i) delta
  end.

Definition AdjustTrackOffsets (moov : Atom) (delta : Z) : FormatStatus * Atom :=
  AdjustTracks moov (children_ moov) 0 delta.

Fixpoint GetAtomPositionFrom (top_level_atoms : list Atom) (type : string)
         (position : Z) : Z :=
  match top_level_atoms with
  | [] => position
  | a :: l =>
      if String.eqb (atom_type a) type then position
      else GetAtomPositionFrom l type (uint64_t (position + size a))
  end.

Definition GetAtomPosition (top_level_atoms : list Atom) (type : string) : Z :=
  GetAtomPositionFrom top_level_atoms type 0.

Fixpoint GetAtomIndexFrom (top_level_atoms : list Atom) (type : string) (i : Z) : Z :=
  match top_level_atoms with
  | [] => -1
  | a :: l =>
      if String.eqb (atom_type a) type then i
      else GetAtomIndexFrom l type (i + 1)
  end.

Definition GetAtomIndex (top_level_atoms : list Atom) (type : string) : Z :=
  GetAtomIndexFrom top_level_atoms type 0.

(** WriteFreeSpace; [size] is a uint32_t parameter. *)
Definition WriteFreeSpace (size : Z) : list byte :=
  PutUInt32 (uint32_t size) ++ PutString (list_byte_of_string kFreeType).

(** A MoovModifier: the status it returns and the moov atom as it leaves
    it. *)
Definition MoovModifier := Atom -> FormatStatus * Atom.

(** std::swap of two elements of the vector. *)
Definition swap_nth (i j : nat) (l : list Atom) : list Atom :=
  match nth_error l i, nth_error l j with
  | Some x, Some y => replace_nth j x (replace_nth i y l)
  | _, _ => l
  end.

(** The stream store once stream [sid] holds [data]. *)
Definition with_stream (st : Streams) (sid : nat) (data : list byte) (failed : bool) : Streams :=
  fun i => if Nat.eqb i sid then {| content := data; failbit := failed |} else st i.

(** The atom a vector index that is known to be in range refers to. *)
Definition at_index (l : list Atom) (i : Z) : Atom :=
  nth (Z.to_nat i) l (MkAtom "" 0 0 [] false (DefaultFields None)).

(** ModifyMoov(modifier, input, output), the rewrite path: the status and
    the bytes written to [output].  [st] holds the streams that atoms added
    by the modifier may read; the input is stream [sid]. *)
Definition ModifyMoov (st : Streams) (modifier : MoovModifier) (sid : nat)
           (input : list byte) : FormatStatus * list byte :=
  let top := ReadAtoms sid input in
  let st := with_stream st sid input (stream_failed_ top) in
  let top_level_atoms := atoms top in
  let moov_index := GetAtomIndex top_level_atoms kMoovType in
  let mdat_index := GetAtomIndex top_level_atoms kMdatType in
  if (moov_index =? -1) || (mdat_index =? -1) then (FILE_FORMAT_ERROR, [])
  else
    let mdat_position_before_update := GetAtomPosition top_level_atoms kMdatType in
    match modifier (at_index top_level_atoms moov_index) with
    | (OK, moov) =>
        let top_level_atoms :=
          replace_nth (Z.to_nat moov_index) moov top_level_atoms in
        let swapped := moov_index >? mdat_index in
        let top_level_atoms :=
          if swapped
          then swap_nth (Z.to_nat moov_index) (Z.to_nat mdat_index) top_level_atoms
          else top_level_atoms in
        let moov_now := if swapped then mdat_index else moov_index in
        let mdat_position_after_update := GetAtomPosition top_level_atoms kMdatType in
        let delta :=
          int64_t (mdat_position_after_update - mdat_position_before_update) in
        let adjusted :=
          if negb (delta =? 0) then AdjustTrackOffsets moov delta
          else (OK, moov) in
        match adjusted with
        | (OK, moov) =>
            WriteAtoms st (replace_nth (Z.to_nat moov_now) moov top_level_atoms)
        | (e, _) => (e, [])
        end
    | (e, _) => (e, [])
    end.

(** *** The in-place path *)

(** The writer of the in-place path: the bytes of the file, which the
    reader shares, and the put position. *)
Record BinaryWriterImpl := { file_ : list byte; tellp : Z }.

(** stream_->write at the put position: overwrites, and extends the file at
    its end. *)
Definition write (w : BinaryWriterImpl) (bs : list byte) : BinaryWriterImpl :=
  let p := tellp w in
  {| file_ := take p (file_ w) ++ zero_bytes (Z.to_nat (p - len (file_ w)))
              ++ bs ++ drop (p + len bs) (file_ w);
     tellp := p + len bs |}.

Definition seekp (w : BinaryWriterImpl) (pos : Z) : BinaryWriterImpl :=
  {| file_ := file_ w; tellp := pos |}.

(** What a function of the in-place path does: return a status, leaving the
    writer in some state, or stop the process on a failed CHECK. *)
Inductive InPlace :=
| Returns (s : FormatStatus) (w : BinaryWriterImpl)
| CheckFailed.

(** The first loop of WriteAtomsInPlace: CHECK_NE(type, "mdat") and WriteAtom
    to the memory writer; [None] is a failed CHECK. *)
Fixpoint WriteToMemory (st : Streams) (l : list Atom) : option Emit :=
  match l with
  | [] => Some (emit [])
  | a :: l' =>
      if String.eqb (atom_type a) kMdatType then None
      else match WriteAtom st a with
           | (OK, bs) =>
               match WriteToMemory st l' with
               | Some (s, bs') => Some (s, bs ++ bs')
               | None => None
               end
           | r => Some r
           end
  end.

(** WriteAtomsInPlace.  [failed] is the failbit of the fstream that reader
    and writer share: with it set, Seek on the writer fails.  The atoms read
    back from memory refer to the memory stream only. *)
Definition WriteAtomsInPlace (st : Streams) (failed : bool) (input_atoms : list Atom)
           (input_start input_end : Z) (output_position : Z)
           (output : BinaryWriterImpl) : InPlace :=
  match WriteToMemory st (slice input_start (input_end - input_start) input_atoms) with
  | None => CheckFailed
  | Some (OK, content) =>
      let memory := ReadAtoms 0 content in
      let memory_atoms := atoms memory in
      if negb (len memory_atoms =? input_end - input_start)
      then Returns UNEXPECTED_ERROR output
      else if failed then Returns FILE_WRITE_ERROR output
      else
        let output := seekp output output_position in
        let (s, bs) :=
          WriteAtoms (fun _ => {| content := content;
                                  failbit := stream_failed_ memory |})
                     memory_atoms in
        Returns s (write output bs)
  | Some (e, _) => Returns e output
  end.

(** WriteFreeSpace on the in-place writer. *)
Definition WriteFreeSpaceAt (size : Z) (output : BinaryWriterImpl) : BinaryWriterImpl :=
  write output (WriteFreeSpace size).

(** ModifyMoovInPlace: reader and writer are on the same file, stream [sid]
    of the store.  The payload readers cloned while parsing are read in the
    first loop of WriteAtomsInPlace only, before the file is written to. *)
Definition ModifyMoovInPlace (st : Streams) (modifier : MoovModifier) (sid : nat)
           (file : list byte) : InPlace :=
  let output := {| file_ := file; tellp := 0 |} in
  let top := ReadAtoms sid file in
  let failed := stream_failed_ top in
  let st := with_stream st sid file failed in
  let top_level_atoms := atoms top in
  let moov_index := GetAtomIndex top_level_atoms kMoovType in
  let mdat_index := GetAtomIndex top_level_atoms kMdatType in
  if (moov_index =? -1) || (mdat_index =? -1) then Returns FILE_FORMAT_ERROR output
  else
    let size_before_update := Size file in
    let moov_position_before_update := GetAtomPosition top_level_atoms kMoovType in
    let moov_size_before_update := size (at_index top_level_atoms moov_index) in
    match modifier (at_index top_level_atoms moov_index) with
    | (OK, moov) =>
        let top_level_atoms :=
          replace_nth (Z.to_nat moov_index) moov top_level_atoms in
        let moov_size_after_update := size moov in
        let delta := int64_t (moov_size_after_update - moov_size_before_update) in
        if moov_index >? mdat_index then
          match WriteAtomsInPlace st failed top_level_atoms moov_index
                                  (len top_level_atoms)
                                  moov_position_before_update output with
          | Returns OK output =>
              if delta <? 0
              then Returns OK (WriteFreeSpaceAt (Z.max (- delta) kFreeAtomHeaderSize) output)
              else Returns OK output
          | r => r
          end
        else
          let next := at_index top_level_atoms (moov_index + 1) in
          let free_space_after_moov :=
            if String.eqb (atom_type next) kFreeType then int64_t (size next) else 0 in
          if delta =? free_space_after_moov then
            WriteAtomsInPlace st failed top_level_atoms moov_index (moov_index + 1)
                              moov_position_before_update output
          else if delta + kFreeAtomHeaderSize <=? free_space_after_moov then
            match WriteAtomsInPlace st failed top_level_atoms moov_index (moov_index + 1)
                                    moov_position_before_update output with
            | Returns OK output =>
                Returns OK (WriteFreeSpaceAt (free_space_after_moov - delta) output)
            | r => r
            end
          else
            match WriteAtomsInPlace st failed top_level_atoms moov_index (moov_index + 1)
                                    size_before_update output with
            | Returns OK output =>
                let output := seekp output moov_position_before_update in
                Returns OK (WriteFreeSpaceAt moov_size_before_update output)
            | r => r
            end
    | (e, _) => Returns e output
    end.

(** Accessors of the typed atoms (empty or 0 on an atom of another
    class). *)
Definition frame_description (a : Atom) : list Z :=
  match fields a with SDTPFields _ fd => fd | _ => [] end.
Definition entries (a : Atom) : list Entry :=
  match fields a with ELSTFields _ es => es | _ => [] end.
Definition atom_version (a : Atom) : Z :=
  match full_atom a with Some fa => version fa | None => 0 end.
Definition chunk_offsets (a : Atom) : list Z :=
  match fields a with STCOFields _ offs _ _ => offs | _ => [] end.
Definition moov_size_delta (a : Atom) : Z :=
  match fields a with STCOFields _ _ d _ => d | _ => 0 end.
Definition max_chunk_offset (a : Atom) : Z :=
  match fields a with STCOFields _ _ _ m => m | _ => 0 end.

End Mp4.

(** * Sensor fusion: filters and stationary detector (cpp/sensor_fusion) *)

Module Mahony.

Local Open Scope Q_scope.

Definition Qltb (a b : Q) : bool := negb (Qle_bool b a).
Definition Qleb (a b : Q) : bool := Qle_bool a b.

(** Eigen::Vector3d. *)
Record Vector3d := { x_ : Q; y_ : Q; z_ : Q }.

Definition Zero : Vector3d := {| x_ := 0; y_ := 0; z_ := 0 |}.
Definition vadd (a b : Vector3d) : Vector3d :=
  {| x_ := x_ a + x_ b; y_ := y_ a + y_ b; z_ := z_ a + z_ b |}.
Definition vsub (a b : Vector3d) : Vector3d :=
  {| x_ := x_ a - x_ b; y_ := y_ a - y_ b; z_ := z_ a - z_ b |}.
Definition vscale (k : Q) (a : Vector3d) : Vector3d :=
  {| x_ := k * x_ a; y_ := k * y_ a; z_ := k * z_ a |}.
Definition squaredNorm (a : Vector3d) : Q :=
  x_ a * x_ a + y_ a * y_ a + z_ a * z_ a.
Definition veq (a b : Vector3d) : Prop :=
  x_ a == x_ b /\ y_ a == y_ b /\ z_ a == z_ b.

(** [a.norm() < c] and [a.norm() > c], decided on the squares. *)
Definition norm_lt (a : Vector3d) (c : Q) : bool :=
  Qltb 0 c && Qltb (squaredNorm a) (c * c).
Definition norm_gt (a : Vector3d) (c : Q) : bool :=
  Qltb c 0 || Qltb (c * c) (squaredNorm a).

(** cwiseMin / cwiseMax with a scalar: a new vector. *)
Definition cwiseMin (a : Vector3d) (c : Q) : Vector3d :=
  {| x_ := Qmin (x_ a) c; y_ := Qmin (y_ a) c; z_ := Qmin (z_ a) c |}.
Definition cwiseMax (a : Vector3d) (c : Q) : Vector3d :=
  {| x_ := Qmax (x_ a) c; y_ := Qmax (y_ a) c; z_ := Qmax (z_ a) c |}.

(** The double M_PI. *)
Definition M_PI : Q := 884279719003555 # 281474976710656.

Module LowPassFilter.

Record t := {
  cutoff_frequency_ : Q;
  is_initialized_ : bool;
  n_samples_ : Z;
  n_static_ : Z;
  time_constant_ : Q;
  startup_time_s_ : Q;
  run_time_s_ : Q;
  filtered_data_ : Vector3d;
  last_data_ : Vector3d
}.

Definition make (cutoff_frequency : Q) : t :=
  {| cutoff_frequency_ := cutoff_frequency;
     is_initialized_ := false; n_samples_ := 0; n_static_ := 0;
     time_constant_ := 1 / (2 * M_PI * cutoff_frequency);
     startup_time_s_ := 1 / cutoff_frequency;
     run_time_s_ := 0; filtered_data_ := Zero; last_data_ := Zero |}.

Definition GetFilteredData (f : t) : Vector3d := filtered_data_ f.

Definition AddSampleData (f : t) (sample_data : Vector3d) (delta_t : Q) : t :=
  if negb (is_initialized_ f) then
    {| cutoff_frequency_ := cutoff_frequency_ f;
       is_initialized_ := true; n_samples_ := n_samples_ f;
       n_static_ := n_static_ f; time_constant_ := time_constant_ f;
       startup_time_s_ := startup_time_s_ f; run_time_s_ := run_time_s_ f;
       filtered_data_ := sample_data; last_data_ := last_data_ f |}
  else
    let alpha := delta_t / (time_constant_ f + delta_t) in
    {| cutoff_frequency_ := cutoff_frequency_ f;
       is_initialized_ := true; n_samples_ := (n_samples_ f + 1)%Z;
       n_static_ := n_static_ f; time_constant_ := time_constant_ f;
       startup_time_s_ := startup_time_s_ f;
       run_time_s_ := run_time_s_ f + delta_t;
       filtered_data_ := vadd (vscale alpha sample_data)
                              (vscale (1 - alpha) (filtered_data_ f));
       last_data_ := sample_data |}.

Definition HasSettled (f : t) : bool :=
  is_initialized_ f && Qltb (startup_time_s_ f) (run_time_s_ f).

Definition IsInitialized (f : t) : bool := is_initialized_ f.

Definition Reset (f : t) : t :=
  {| cutoff_frequency_ := cutoff_frequency_ f;
     is_initialized_ := false; n_samples_ := 0; n_static_ := 0;
     time_constant_ := time_constant_ f;
     startup_time_s_ := startup_time_s_ f; run_time_s_ := 0;
     filtered_data_ := Zero; last_data_ := Zero |}.

(** SetCutoffFrequency leaves time_constant_ as the constructor set it. *)
Definition SetCutoffFrequency (f : t) (cutoff_frequency : Q) : t :=
  let f := Reset f in
  {| cutoff_frequency_ := cutoff_frequency;
     is_initialized_ := is_initialized_ f; n_samples_ := n_samples_ f;
     n_static_ := n_static_ f; time_constant_ := time_constant_ f;
     startup_time_s_ := 1 / cutoff_frequency; run_time_s_ := run_time_s_ f;
     filtered_data_ := filtered_data_ f; last_data_ := last_data_ f |}.

End LowPassFilter.

Module HighPassFilter.

Record t := {
  cutoff_frequency_ : Q;
  is_initialized_ : bool;
  time_constant_ : Q;
  filtered_data_ : Vector3d;
  last_data_ : Vector3d
}.

Definition make (cutoff_frequency : Q) : t :=
  {| cutoff_frequency_ := cutoff_frequency; is_initialized_ := false;
     time_constant_ := 1 / (2 * M_PI * cutoff_frequency);
     filtered_data_ := Zero; last_data_ := Zero |}.

Definition AddSampleData (f : t) (sample_data : Vector3d) (delta_t : Q) : t :=
  if negb (is_initialized_ f) then
    {| cutoff_frequency_ := cutoff_frequency_ f; is_initialized_ := true;
       time_constant_ := time_constant_ f;
       filtered_data_ := sample_data; last_data_ := last_data_ f |}
  else
    let alpha := delta_t / (time_constant_ f + delta_t) in
    {| cutoff_frequency_ := cutoff_frequency_ f; is_initialized_ := true;
       time_constant_ := time_constant_ f;
       filtered_data_ :=
         vscale alpha (vadd (vsub sample_data (last_data_ f)) (filtered_data_ f));
       last_data_ := sample_data |}.

Definition IsInitialized (f : t) : bool := is_initialized_ f.

End HighPassFilter.

Module DelayedLowPassFilter.

Record Sample := { value : Vector3d; delta_time_s : Q }.

Record t := {
  delay_time_s_ : Q;
  buffer_accumulated_time_s_ : Q;
  delay_buffer_ : list Sample;          (* front of the queue first *)
  low_pass_filter_ : LowPassFilter.t
}.

Definition make (delay_time_s low_pass_cutoff_frequency : Q) : t :=
  {| delay_time_s_ := delay_time_s; buffer_accumulated_time_s_ := 0;
     delay_buffer_ := [];
     low_pass_filter_ := LowPassFilter.make low_pass_cutoff_frequency |}.

(** front() and pop() of an empty queue are undefined in C++; the buffer
    is never empty when the accumulated time has reached a positive
    delay.  An empty buffer is left alone here. *)
Definition AddSampleData (f : t) (v : Vector3d) (delta_time_s' : Q) : t :=
  let f :=
    if Qleb (delay_time_s_ f) (buffer_accumulated_time_s_ f) then
      match delay_buffer_ f with
      | sample :: rest =>
          {| delay_time_s_ := delay_time_s_ f;
             buffer_accumulated_time_s_ :=
               buffer_accumulated_time_s_ f - delta_time_s sample;
             delay_buffer_ := rest;
             low_pass_filter_ :=
               LowPassFilter.AddSampleData (low_pass_filter_ f)
                                           (value sample) (delta_time_s sample) |}
      | [] => f
      end
    else f in
  {| delay_time_s_ := delay_time_s_ f;
     buffer_accumulated_time_s_ := buffer_accumulated_time_s_ f + delta_time_s';
     delay_buffer_ := delay_buffer_ f
                      ++ [{| value := v; delta_time_s := delta_time_s' |}];
     low_pass_filter_ := low_pass_filter_ f |}.

(** GetFilteredData: [None] is the return value false. *)
Definition GetFilteredData (f : t) : option Vector3d :=
  if Qltb (buffer_accumulated_time_s_ f) (delay_time_s_ f)
     || negb (LowPassFilter.HasSettled (low_pass_filter_ f))
  then None
  else Some (LowPassFilter.GetFilteredData (low_pass_filter_ f)).

Definition Reset (f : t) : t :=
  {| delay_time_s_ := delay_time_s_ f; buffer_accumulated_time_s_ := 0;
     delay_buffer_ := [];
     low_pass_filter_ := LowPassFilter.Reset (low_pass_filter_ f) |}.

Definition SetCutoffFrequency (f : t) (cutoff_frequency : Q) : t :=
  let f := Reset f in
  {| delay_time_s_ := delay_time_s_ f;
     buffer_accumulated_time_s_ := buffer_accumulated_time_s_ f;
     delay_buffer_ := delay_buffer_ f;
     low_pass_filter_ :=
       LowPassFilter.SetCutoffFrequency (low_pass_filter_ f) cutoff_frequency |}.

End DelayedLowPassFilter.

Module StationaryDetector.

Record StationaryDetectorConfiguration := {
  accel_low_pass_cutoff_frequency : Q;
  gyro_low_pass_cutoff_frequency : Q;
  accel_high_pass_cutoff_frequency : Q;
  gyro_high_pass_cutoff_frequency : Q;
  gyro_norm_threshold_rad_per_sec : Q;
  accel_high_pass_threshold : Q;
  gyro_high_pass_threshold : Q;
  accel_low_pass_threshold : Q;
  gyro_low_pass_threshold : Q;
  max_stationary_gyro_bias_correction : Q;
  gyro_correct_low_pass_cutoff_frequency : Q;
  init_gyro_correct_low_pass_cutoff_frequency_hz : Q;
  no_exit_condition_stable_secs : Q;
  init_no_exit_condition_stable_secs : Q;
  convergence_condition_stable_secs : Q;
  gyro_correction_delay_secs : Q;
  initialization_period : Q;
  init_bias_correction_gain_multiplier : Q;
  stationary_bias_correction_gain : Q
}.

(** The default member initialisers, with the given correction gain (the
    header's default gain is 0). *)
Definition DefaultConfiguration (gain : Q) : StationaryDetectorConfiguration :=
  {| accel_low_pass_cutoff_frequency := 1;
     gyro_low_pass_cutoff_frequency := 1;
     accel_high_pass_cutoff_frequency := 1;
     gyro_high_pass_cutoff_frequency := 1;
     gyro_norm_threshold_rad_per_sec := 15 # 100;
     accel_high_pass_threshold := 15 # 100;
     gyro_high_pass_threshold := 2 # 100;
     accel_low_pass_threshold := 25 # 10000;
     gyro_low_pass_threshold := 1 # 1000;
     max_stationary_gyro_bias_correction := 15 # 10000;
     gyro_correct_low_pass_cutoff_frequency := 5 # 100;
     init_gyro_correct_low_pass_cutoff_frequency_hz := 5 # 10;
     no_exit_condition_stable_secs := 10;
     init_no_exit_condition_stable_secs := 1;
     convergence_condition_stable_secs := 1 # 10;
     gyro_correction_delay_secs := 1;
     initialization_period := 7;
     init_bias_correction_gain_multiplier := 10;
     stationary_bias_correction_gain := gain |}.

Module ConditionTester.

(** [n_static_] is a double that only counts. *)
Record t := { n_static_ : Z; static_start_timestamp_s_ : Q }.

Definition make : t := {| n_static_ := 0; static_start_timestamp_s_ := 0 |}.

Definition Reset (c : t) : t := make.

(** IsStable: the return value and the tester afterwards. *)
Definition IsStable (c : t) (condition : bool) (timestamp_s number_of_secs : Q)
  : bool * t :=
  if condition then
    let n := (n_static_ c + 1)%Z in
    let start := if (n =? 1)%Z then timestamp_s else static_start_timestamp_s_ c in
    (Qltb number_of_secs (timestamp_s - start),
     {| n_static_ := n; static_start_timestamp_s_ := start |})
  else (false, Reset c).

End ConditionTester.

Record t := MkDetector {
  config_ : StationaryDetectorConfiguration;
  accel_low_pass_filter_ : LowPassFilter.t;
  gyro_low_pass_filter_ : LowPassFilter.t;
  accel_high_pass_filter_ : HighPassFilter.t;
  gyro_high_pass_filter_ : HighPassFilter.t;
  gyro_bias_delayed_low_pass_filter_ : DelayedLowPassFilter.t;
  is_last_accel_initialized_ : bool;
  is_last_gyro_initialized_ : bool;
  is_stationary_ : bool;
  is_max_correction_threshold_crossed_ : bool;
  last_gyro_sample_ : Vector3d;
  last_gyro_timestamp_ : Q;
  first_gyro_timestamp_ : Q;
  last_accel_sample_ : Vector3d;
  last_accel_timestamp_ : Q;
  has_gyro_bias_correction_converged_ : bool;
  exit_condition_tester_ : ConditionTester.t;
  convergence_condition_tester_ : ConditionTester.t;
  stationary_bias_correction_gain_ : Q
}.

Definition make (config : StationaryDetectorConfiguration) : t :=
  {| config_ := config;
     accel_low_pass_filter_ :=
       LowPassFilter.make (accel_low_pass_cutoff_frequency config);
     gyro_low_pass_filter_ :=
       LowPassFilter.make (gyro_low_pass_cutoff_frequency config);
     accel_high_pass_filter_ :=
       HighPassFilter.make (accel_high_pass_cutoff_frequency config);
     gyro_high_pass_filter_ :=
       HighPassFilter.make (gyro_high_pass_cutoff_frequency config);
     gyro_bias_delayed_low_pass_filter_ :=
       DelayedLowPassFilter.make
         (gyro_correction_delay_secs config)
         (init_gyro_correct_low_pass_cutoff_frequency_hz config);
     is_last_accel_initialized_ := false;
     is_last_gyro_initialized_ := false;
     is_stationary_ := false;
     is_max_correction_threshold_crossed_ := false;
     last_gyro_sample_ := Zero;
     last_gyro_timestamp_ := 0;
     first_gyro_timestamp_ := 0;
     last_accel_sample_ := Zero;
     last_accel_timestamp_ := 0;
     has_gyro_bias_correction_converged_ := false;
     exit_condition_tester_ := ConditionTester.make;
     convergence_condition_tester_ := ConditionTester.make;
     stationary_bias_correction_gain_ := stationary_bias_correction_gain config |}.

Definition IsStationary (d : t) : bool := is_stationary_ d.

Definition IsTimeDeltaBetweenSamplesValid (delta_t : Q) : bool := Qleb 0 delta_t.

Definition IsInitializing (d : t) : bool :=
  Qltb (last_gyro_timestamp_ d - first_gyro_timestamp_ d)
       (initialization_period (config_ d)).

(** Assignments to single members. *)
Definition set_accel (d : t) (alp : LowPassFilter.t) (ahp : HighPassFilter.t) : t :=
  let 'MkDetector c _ glp _ ghp dl ia ig st mx lgs lgt fgt las lat cv et ct g := d in
  MkDetector c alp glp ahp ghp dl ia ig st mx lgs lgt fgt las lat cv et ct g.
Definition set_last_accel (d : t) (sample : Vector3d) (ts : Q) : t :=
  let 'MkDetector c alp glp ahp ghp dl _ ig st mx lgs lgt fgt _ _ cv et ct g := d in
  MkDetector c alp glp ahp ghp dl true ig st mx lgs lgt fgt sample ts cv et ct g.
Definition set_gyro (d : t) (glp : LowPassFilter.t) (ghp : HighPassFilter.t) : t :=
  let 'MkDetector c alp _ ahp _ dl ia ig st mx lgs lgt fgt las lat cv et ct g := d in
  MkDetector c alp glp ahp ghp dl ia ig st mx lgs lgt fgt las lat cv et ct g.
Definition set_last_gyro (d : t) (sample : Vector3d) (ts : Q) : t :=
  let 'MkDetector c alp glp ahp ghp dl ia _ st mx _ _ fgt las lat cv et ct g := d in
  MkDetector c alp glp ahp ghp dl ia true st mx sample ts fgt las lat cv et ct g.
Definition set_first_gyro_timestamp (d : t) (ts : Q) : t :=
  let 'MkDetector c alp glp ahp ghp dl ia ig st mx lgs lgt _ las lat cv et ct g := d in
  MkDetector c alp glp ahp ghp dl ia ig st mx lgs lgt ts las lat cv et ct g.
Definition set_delayed (d : t) (dl : DelayedLowPassFilter.t) : t :=
  let 'MkDetector c alp glp ahp ghp _ ia ig st mx lgs lgt fgt las lat cv et ct g := d in
  MkDetector c alp glp ahp ghp dl ia ig st mx lgs lgt fgt las lat cv et ct g.
Definition set_is_stationary (d : t) (st : bool) : t :=
  let 'MkDetector c alp glp ahp ghp dl ia ig _ mx lgs lgt fgt las lat cv et ct g := d in
  MkDetector c alp glp ahp ghp dl ia ig st mx lgs lgt fgt las lat cv et ct g.
Definition set_threshold_crossed (d : t) (mx : bool) : t :=
  let 'MkDetector c alp glp ahp ghp dl ia ig st _ lgs lgt fgt las lat cv et ct g := d in
  MkDetector c alp glp ahp ghp dl ia ig st mx lgs lgt fgt las lat cv et ct g.
Definition set_converged (d : t) (cv : bool) : t :=
  let 'MkDetector c alp glp ahp ghp dl ia ig st mx lgs lgt fgt las lat _ et ct g := d in
  MkDetector c alp glp ahp ghp dl ia ig st mx lgs lgt fgt las lat cv et ct g.
Definition set_exit_tester (d : t) (et : ConditionTester.t) : t :=
  let 'MkDetector c alp glp ahp ghp dl ia ig st mx lgs lgt fgt las lat cv _ ct g := d in
  MkDetector c alp glp ahp ghp dl ia ig st mx lgs lgt fgt las lat cv et ct g.
Definition set_convergence_tester (d : t) (ct : ConditionTester.t) : t :=
  let 'MkDetector c alp glp ahp ghp dl ia ig st mx lgs lgt fgt las lat cv et _ g := d in
  MkDetector c alp glp ahp ghp dl ia ig st mx lgs lgt fgt las lat cv et ct g.

(** StationaryDetector::Reset. *)
Definition Reset (d : t) : t :=
  let d := set_is_stationary d false in
  let d := set_threshold_crossed d false in
  let d := set_converged d false in
  let d := set_delayed d
             (DelayedLowPassFilter.Reset (gyro_bias_delayed_low_pass_filter_ d)) in
  let d :=
    if negb (IsInitializing d) then
      set_delayed d
        (DelayedLowPassFilter.SetCutoffFrequency
           (gyro_bias_delayed_low_pass_filter_ d)
           (gyro_correct_low_pass_cutoff_frequency (config_ d)))
    else d in
  let d := set_convergence_tester d
             (ConditionTester.Reset (convergence_condition_tester_ d)) in
  set_exit_tester d (ConditionTester.Reset (exit_condition_tester_ d)).

(** The guard at the head of Update: all four filters are ready. *)
Definition filters_ready (d : t) : bool :=
  LowPassFilter.HasSettled (gyro_low_pass_filter_ d)
  && LowPassFilter.HasSettled (accel_low_pass_filter_ d)
  && HighPassFilter.IsInitialized (gyro_high_pass_filter_ d)
  && HighPassFilter.IsInitialized (accel_high_pass_filter_ d).

(** The locals exit_condition, entry_condition and stability_secs of
    Update. *)
Definition exit_condition (d : t) : bool :=
  norm_gt (HighPassFilter.filtered_data_ (accel_high_pass_filter_ d))
          (accel_high_pass_threshold (config_ d))
  || norm_gt (HighPassFilter.filtered_data_ (gyro_high_pass_filter_ d))
             (gyro_high_pass_threshold (config_ d))
  || norm_gt (last_gyro_sample_ d) (gyro_norm_threshold_rad_per_sec (config_ d))
  || is_max_correction_threshold_crossed_ d.

Definition entry_condition (d : t) : bool :=
  norm_lt (LowPassFilter.filtered_data_ (accel_low_pass_filter_ d))
          (accel_low_pass_threshold (config_ d))
  && norm_lt (LowPassFilter.filtered_data_ (gyro_low_pass_filter_ d))
             (gyro_low_pass_threshold (config_ d)).

Definition stability_secs (d : t) : Q :=
  if IsInitializing d then init_no_exit_condition_stable_secs (config_ d)
  else no_exit_condition_stable_secs (config_ d).

(** StationaryDetector::Update. *)
Definition Update (d : t) (timestamp_s : Q) : t :=
  if negb (filters_ready d) then d
  else
    let exit_condition := exit_condition d in
    let entry_condition := entry_condition d in
    let stability_secs := stability_secs d in
    let (no_exit_stable_condition, tester) :=
      ConditionTester.IsStable (exit_condition_tester_ d) (negb exit_condition)
                               timestamp_s stability_secs in
    let d := set_exit_tester d tester in
    if is_stationary_ d then
      if exit_condition then Reset d else d
    else if entry_condition && no_exit_stable_condition then
      set_is_stationary d true
    else d.

Definition AddAccelMeasurement (d : t) (accel_sample : Vector3d) (timestamp_s : Q) : t :=
  let d :=
    if negb (is_last_accel_initialized_ d)
    then set_last_accel d accel_sample timestamp_s else d in
  let delta_t := timestamp_s - last_accel_timestamp_ d in
  let delta_accel_sample := vsub accel_sample (last_accel_sample_ d) in
  let d :=
    if IsTimeDeltaBetweenSamplesValid delta_t then
      set_accel d
        (LowPassFilter.AddSampleData (accel_low_pass_filter_ d)
                                     delta_accel_sample delta_t)
        (HighPassFilter.AddSampleData (accel_high_pass_filter_ d)
                                      accel_sample delta_t)
    else d in
  set_last_accel d accel_sample timestamp_s.

Definition AddGyroMeasurement (d : t) (gyro_sample : Vector3d) (timestamp_s : Q) : t :=
  let d :=
    if negb (is_last_gyro_initialized_ d)
    then set_first_gyro_timestamp (set_last_gyro d gyro_sample timestamp_s) timestamp_s
    else d in
  let delta_t := timestamp_s - last_gyro_timestamp_ d in
  let delta_gyro_sample := vsub gyro_sample (last_gyro_sample_ d) in
  let d :=
    if IsTimeDeltaBetweenSamplesValid delta_t then
      let d :=
        set_gyro d
          (LowPassFilter.AddSampleData (gyro_low_pass_filter_ d)
                                       delta_gyro_sample delta_t)
          (HighPassFilter.AddSampleData (gyro_high_pass_filter_ d)
                                        gyro_sample delta_t) in
      let d :=
        if is_stationary_ d then
          set_delayed d
            (DelayedLowPassFilter.AddSampleData
               (gyro_bias_delayed_low_pass_filter_ d) gyro_sample delta_t)
        else d in
      Update d timestamp_s
    else d in
  set_last_gyro d gyro_sample timestamp_s.

(** GetGyroBiasCorrection: the correction and the detector afterwards.
    The results of cwiseMin and cwiseMax are new vectors, which the C++
    statements drop; [stationary_correction] is const. *)
Definition GetGyroBiasCorrection (d : t) (current_external_bias : Vector3d)
           (timestamp_s : Q) : Vector3d * t :=
  match DelayedLowPassFilter.GetFilteredData (gyro_bias_delayed_low_pass_filter_ d) with
  | Some stationary_bias =>
      if negb (is_stationary_ d) then (Zero, d)
      else
        let stationary_correction := vsub current_external_bias stationary_bias in
        let max := max_stationary_gyro_bias_correction (config_ d) in
        let (stable, tester) :=
          ConditionTester.IsStable (convergence_condition_tester_ d)
                                   (norm_lt stationary_correction max) timestamp_s
                                   (convergence_condition_stable_secs (config_ d)) in
        let d := set_convergence_tester d tester in
        let d := if stable then set_converged d true else d in
        if negb (IsInitializing d) && has_gyro_bias_correction_converged_ d
           && norm_gt stationary_correction max
        then (Zero, set_threshold_crossed d true)
        else
          let _ :=
            if negb (IsInitializing d)
            then (cwiseMin stationary_correction max,
                  cwiseMax stationary_correction (- max))
            else (stationary_correction, stationary_correction) in
          let gain :=
            if IsInitializing d
            then init_bias_correction_gain_multiplier (config_ d)
                 * stationary_bias_correction_gain_ d
            else stationary_bias_correction_gain_ d in
          (vscale gain stationary_correction, d)
  | None => (Zero, d)
  end.

End StationaryDetector.

End Mahony.

(** * Quaternion integration
      (quaternion_integrator.cc, geometry_toolbox_mahony.h) *)

Module Orientation.

Local Open Scope R_scope.

(** Eigen::Matrix<double, 4, 1>: a JPL quaternion (x, y, z, w). *)
Record Vector4d := { q0 : R; q1 : R; q2 : R; q3 : R }.

Record Vector3d := { w0 : R; w1 : R; w2 : R }.

(** gyro_measurements: the previous sample (head) and the current one
    (tail). *)
Record Vector6d := { head3 : Vector3d; tail3 : Vector3d }.

Definition add4 (a b : Vector4d) : Vector4d :=
  {| q0 := q0 a + q0 b; q1 := q1 a + q1 b; q2 := q2 a + q2 b; q3 := q3 a + q3 b |}.
Definition scale4 (k : R) (a : Vector4d) : Vector4d :=
  {| q0 := k * q0 a; q1 := k * q1 a; q2 := k * q2 a; q3 := k * q3 a |}.
Definition neg4 (a : Vector4d) : Vector4d :=
  {| q0 := - q0 a; q1 := - q1 a; q2 := - q2 a; q3 := - q3 a |}.
Definition squaredNorm4 (a : Vector4d) : R :=
  q0 a * q0 a + q1 a * q1 a + q2 a * q2 a + q3 a * q3 a.
Definition norm4 (a : Vector4d) : R := sqrt (squaredNorm4 a).

Definition add3 (a b : Vector3d) : Vector3d :=
  {| w0 := w0 a + w0 b; w1 := w1 a + w1 b; w2 := w2 a + w2 b |}.
Definition sub3 (a b : Vector3d) : Vector3d :=
  {| w0 := w0 a - w0 b; w1 := w1 a - w1 b; w2 := w2 a - w2 b |}.
Definition scale3 (k : R) (a : Vector3d) : Vector3d :=
  {| w0 := k * w0 a; w1 := k * w1 a; w2 := k * w2 a |}.

(** geometry_toolbox::Omega(w) applied to a quaternion: the product of the
    4x4 matrix with the column [q]. *)
Definition Omega (w : Vector3d) (q : Vector4d) : Vector4d :=
  {| q0 := 0 * q0 q + w2 w * q1 q + - w1 w * q2 q + w0 w * q3 q;
     q1 := - w2 w * q0 q + 0 * q1 q + w0 w * q2 q + w1 w * q3 q;
     q2 := w1 w * q0 q + - w0 w * q1 q + 0 * q2 q + w2 w * q3 q;
     q3 := - w0 w * q0 q + - w1 w * q1 q + - w2 w * q2 q + 0 * q3 q |}.

(** QuaternionIntegrator::StateTimeDerivative. *)
Definition StateTimeDerivative (t step_size : R) (state : Vector4d)
           (gyro_measurements : Vector6d) : Vector4d :=
  let w :=
    add3 (head3 gyro_measurements)
         (scale3 (t / step_size)
                 (sub3 (tail3 gyro_measurements) (head3 gyro_measurements))) in
  scale4 step_size (scale4 (1 / 2) (Omega w state)).

(** QuaternionIntegrator::EulerStateTransition. *)
Definition EulerStateTransition (previous_state : Vector4d)
           (gyro_measurements : Vector6d) (step_size : R) : Vector4d :=
  let K1_state := StateTimeDerivative 0 step_size previous_state gyro_measurements in
  add4 previous_state K1_state.

(** Eigen's normalize(): division by the norm. *)
Definition normalize (a : Vector4d) : Vector4d := scale4 (/ norm4 a) a.

(** QuaternionIntegrator::Integrate. *)
Definition Integrate (state : Vector4d) (gyro_measurements : Vector6d)
           (delta_t : R) : Vector4d :=
  let next_state := EulerStateTransition state gyro_measurements delta_t in
  let next_state := normalize next_state in
  if Rlt_dec (q3 next_state) 0 then neg4 next_state else next_state.


End Orientation.

(** * Specification vocabulary *)

Module Mp4Spec.

Import Mp4.
Local Open Scope Z_scope.

(** moov_size_delta_ after a sequence of AdjustChunkOffsets calls. *)
Definition accumulated_delta (d : Z) (adjustments : list Z) : Z :=
  fold_left (fun d x => int64_t (d + x)) adjustments d.

(** The values an Entry can hold, by the C++ types of its members. *)
Definition Entry_in_range (e : Entry) : Prop :=
  0 <= segment_duration e <= UINT64_MAX
  /\ - 2 ^ 63 <= media_time e < 2 ^ 63
  /\ - 2 ^ 15 <= media_rate_integer e < 2 ^ 15
  /\ - 2 ^ 15 <= media_rate_fraction e < 2 ^ 15.

(** A store in which stream [sid] is a readable stream holding [data]. *)
Definition holds (st : Streams) (sid : nat) (data : list byte) : Prop :=
  st sid = {| content := data; failbit := false |}.

(** [bs] are the bytes of [data] from [pos] to [pos']. *)
Definition Consumed (data : list byte) (pos : Z) (bs : list byte) (pos' : Z) : Prop :=
  0 <= pos /\ pos' = pos + len bs /\ pos' <= len data /\ slice pos (len bs) data = bs.

(** The 32-bit size field of the atom header at [pos]. *)
Definition size_field (data : list byte) (pos : Z) : Z := be_value (slice pos 4 data).

(** The header at [pos] gives the size of the atom itself (the field is not
    0, "to the end of the file") and is as wide as the header the parsed
    atom [a] records (the 64-bit form, field 1, for a 16-byte header). *)
Definition explicit_size (data : list byte) (pos : Z) (a : Atom) : bool :=
  negb (size_field data pos =? 0)
  && Bool.eqb (size_field data pos =? 1) (header_size a =? 16).

(** What the payload at [p] must satisfy for the typed codec of [a] to
    write it back unchanged: the entry count of an stsd is its number of
    children; the 16.16 width and height of a tkhd, and the resolutions of a
    visual sample entry, have no fractional bits; an stss has no bytes
    after its table; the name of an hdlr is shorter than 2^31 bytes. *)
Definition payload_lossless (data : list byte) (p : Z) (a : Atom) : bool :=
  match fields a with
  | STSDFields _ => be_value (slice (p + 4) 4 data) =? NumChildren a
  | TKHDFields_ _ _ =>
      let e := p + GetDataSizeWithoutChildren a in
      (be_value (slice (e - 8) 4 data) mod 2 ^ 16 =? 0)
      && (be_value (slice (e - 4) 4 data) mod 2 ^ 16 =? 0)
  | VisualSampleEntryFields_ _ =>
      (be_value (slice (p + 28) 4 data) mod 2 ^ 16 =? 0)
      && (be_value (slice (p + 32) 4 data) mod 2 ^ 16 =? 0)
  | STSSFields _ _ => negb (has_null_terminator a)
  | HDLRFields_ _ _ => data_size a <? 2 ^ 31
  | _ => true
  end.

(** The atom [a], parsed at [pos], and every atom below it are written back
    as they were read: explicit sizes, lossless payloads, and null
    terminators made of zero bytes. *)
Fixpoint lossless (data : list byte) (pos : Z) (a : Atom) {struct a} : bool :=
  match a with
  | MkAtom _ _ _ children _ _ =>
      explicit_size data pos a
      && payload_lossless data (pos + header_size a) a
      && (fix walk (cs : list Atom) (p : Z) {struct cs} : bool :=
            match cs with
            | [] => if has_null_terminator a
                    then be_value (slice p 4 data) =? 0 else true
            | c :: cs' => lossless data p c && walk cs' (p + size c)
            end) children (pos + header_size a + GetDataSizeWithoutChildren a)
  end.

Fixpoint lossless_top (data : list byte) (pos : Z) (l : list Atom) : bool :=
  match l with
  | [] => true
  | a :: l' => lossless data pos a && lossless_top data (pos + size a) l'
  end.

(** The walk of [lossless] over the children of an atom, from [p]; [t] is
    the atom's has_null_terminator. *)
Fixpoint lossless_walk (data : list byte) (t : bool) (cs : list Atom) (p : Z) : bool :=
  match cs with
  | [] => if t then be_value (slice p 4 data) =? 0 else true
  | c :: cs' => lossless data p c && lossless_walk data t cs' (p + size c)
  end.

(** The members of an object as its constructor leaves them, where the
    codecs depend on them. *)
Definition fresh_fields (f : Fields) : Prop :=
  match f with
  | STCOFields _ _ delta _ => delta = 0
  | ELSTFields _ es => es = []
  | STSSFields _ ks => ks = []
  | _ => True
  end.

(** GetDataSizeWithoutChildren is [g] whatever the sizes and the children
    of the atom are. *)
Definition sized_by_payload (a : Atom) (g : Z) : Prop :=
  forall af, fields af = fields a -> atom_type af = atom_type a ->
             GetDataSizeWithoutChildren af = g.

(** Where the payload of the atom [a1], read from [pos1] to [pos2], stands
    with respect to GetDataSizeWithoutChildren: equal to it; an atom whose
    GetDataSizeWithoutChildren is its data_size (the default atom, which
    seeks to its end, and stss); or an hdlr of 4 GB or more, whose
    GetDataSizeWithoutChildren is truncated to 32 bits. *)
Definition payload_shape (pos1 pos2 : Z) (a1 : Atom) : Prop :=
  (pos1 <= pos2 /\ sized_by_payload a1 (pos2 - pos1))
  \/ ((exists r, fields a1 = DefaultFields r)
      /\ pos2 = uint64_t (pos1 + data_size a1))
  \/ ((exists fa ks, fields a1 = STSSFields fa ks) /\ pos1 <= pos2)
  \/ (pos2 = pos1 + data_size a1
      /\ GetDataSizeWithoutChildren a1 + 8 <= data_size a1).

(** What UpdateSize makes of [a] when its GetDataSizeWithoutChildren is
    [g], its children are [cs] and its has_null_terminator is [t]. *)
Definition resized (a : Atom) (g : Z) (cs : list Atom) (t : bool) : Atom :=
  let d := uint64_t (g + children_size cs + (if t then 4 else 0)) in
  MkAtom (atom_type_ a)
         (if uint64_t (8 + d) >? UINT32_MAX then 16 else 8)
         d cs t (fields a).

(** [read_atom], called again and again from [p], returns the atoms [cs]
    and ends at [p']. *)
Fixpoint parsed_chain (read_atom : Z -> AtomResult) (p : Z) (cs : list Atom)
         (p' : Z) : Prop :=
  match cs with
  | [] => p' = p
  | c :: cs' =>
      exists q, read_atom p = Parsed c q /\ parsed_chain read_atom q cs' p'
  end.

(** A reader that, on any stream holding [bs] at its position, returns [v]
    and moves past [bs]. *)
Definition reads_to {A} (r : Reader A) (bs : list byte) (v : A) : Prop :=
  forall pre post,
    r (pre ++ bs ++ post) (len pre) = ROk v (len pre + len bs).

End Mp4Spec.

(** * Concrete inputs *)

Module Examples.

Import Mp4.
Local Open Scope Z_scope.

Definition bytes_of (l : list Z) : list byte := map byte_of_Z l.

(** An atom with a 32-bit size field: header, type and [body]. *)
Definition box (type : string) (body : list byte) : list byte :=
  PutUInt32 (8 + len body) ++ list_byte_of_string type ++ body.

Definition no_streams : Streams :=
  fun _ => {| content := []; failbit := false |}.

Definition identity_modifier : MoovModifier := fun moov => (OK, moov).

(** A file that is one mdat atom whose size field is 0: the atom extends to
    the end of the file. *)
Definition mdat_to_end_of_file : list byte :=
  bytes_of [0; 0; 0; 0] ++ list_byte_of_string "mdat".

(** An stco atom with version 0, flags 0 and the single chunk offset
    [offset]. *)
Definition stco_box (offset : Z) : list byte :=
  box "stco" (bytes_of [0; 0; 0; 0] ++ PutUInt32 1 ++ PutUInt32 offset).

(** A moov with one track whose chunk offset table is [stco_box offset]. *)
Definition moov_box (offset : Z) : list byte :=
  box "moov" (box "trak" (box "mdia" (box "minf" (box "stbl" (stco_box offset))))).

(** The 64-bit form of [stco_box], and the moov around it. *)
Definition co64_box (offset : Z) : list byte :=
  box "co64" (bytes_of [0; 0; 0; 0] ++ PutUInt32 1 ++ PutUInt64 offset).

Definition moov_co64_box (offset : Z) : list byte :=
  box "moov" (box "trak" (box "mdia" (box "minf" (box "stbl" (co64_box offset))))).

(** mdat first, then moov; the one chunk offset is 2^32 - 16. *)
Definition mdat_then_moov : list byte :=
  box "mdat" [] ++ moov_box 4294967280.

(** moov first, then an mdat with three bytes of media data. *)
Definition moov_then_mdat : list byte :=
  moov_box 16 ++ box "mdat" (bytes_of [1; 2; 3]).

(** A modifier that appends an empty free atom to the moov. *)
Definition add_free_modifier : MoovModifier :=
  fun moov => (OK, AddChild moov (MkAtom "free" 8 0 [] false (DefaultFields None))).

(** The stco atom parsed from [stco_box (2^32 - 1)]. *)
Definition stco_atom : Atom :=
  match ReadAtom 2 0 (stco_box UINT32_MAX) 0 with
  | Parsed a _ => a
  | _ => CreateAtom 8 0 "stco"
  end.

End Examples.

(** * The stationary detector over a run of samples *)

Module MahonySpec.

Import Mahony.
Import StationaryDetector.
Local Open Scope Q_scope.

(** The head of AddGyroMeasurement: the first sample initialises the last
    sample and both timestamps. *)
Definition first_gyro (d : t) (gyro_sample : Vector3d) (timestamp_s : Q) : t :=
  if negb (is_last_gyro_initialized_ d)
  then set_first_gyro_timestamp (set_last_gyro d gyro_sample timestamp_s) timestamp_s
  else d.

Definition gyro_delta_valid (d : t) (gyro_sample : Vector3d) (timestamp_s : Q) : bool :=
  IsTimeDeltaBetweenSamplesValid
    (timestamp_s - last_gyro_timestamp_ (first_gyro d gyro_sample timestamp_s)).

(** The detector as AddGyroMeasurement hands it to Update: the gyro filters
    have taken the sample in. *)
Definition before_Update (d : t) (gyro_sample : Vector3d) (timestamp_s : Q) : t :=
  let d := first_gyro d gyro_sample timestamp_s in
  let delta_t := timestamp_s - last_gyro_timestamp_ d in
  let delta_gyro_sample := vsub gyro_sample (last_gyro_sample_ d) in
  let d :=
    set_gyro d
      (LowPassFilter.AddSampleData (gyro_low_pass_filter_ d) delta_gyro_sample delta_t)
      (HighPassFilter.AddSampleData (gyro_high_pass_filter_ d) gyro_sample delta_t) in
  if is_stationary_ d then
    set_delayed d
      (DelayedLowPassFilter.AddSampleData
         (gyro_bias_delayed_low_pass_filter_ d) gyro_sample delta_t)
  else d.

(** What an update that gets past its guard sees: its timestamp and its
    exit condition. *)
Definition update_event (d : t) (gyro_sample : Vector3d) (timestamp_s : Q)
  : option (Q * bool) :=
  if gyro_delta_valid d gyro_sample timestamp_s
     && filters_ready (before_Update d gyro_sample timestamp_s)
  then Some (timestamp_s, exit_condition (before_Update d gyro_sample timestamp_s))
  else None.

(** The updates since the detector was made or last reset, the latest
    first. *)
Definition events_after (d : t) (gyro_sample : Vector3d) (timestamp_s : Q)
           (h : list (Q * bool)) : list (Q * bool) :=
  match update_event d gyro_sample timestamp_s with
  | Some e => e :: h
  | None => h
  end.


(** The detectors that the public operations (AddAccelMeasurement,
    AddGyroMeasurement, GetGyroBiasCorrection and Reset) lead to from a new
    one, with the updates since the detector was made or last reset: Reset
    gives the detector new condition testers, so the updates before it no
    longer count. *)
Inductive reachable : t -> list (Q * bool) -> Prop :=
| reach_new config : reachable (make config) []
| reach_accel d h sample ts :
    reachable d h -> reachable (AddAccelMeasurement d sample ts) h
| reach_gyro d h sample ts :
    reachable d h ->
    reachable (AddGyroMeasurement d sample ts) (events_after d sample ts h)
| reach_bias d h bias ts :
    reachable d h -> reachable (snd (GetGyroBiasCorrection d bias ts)) h
| reach_reset d h :
    reachable d h -> reachable (Reset d) [].


(** The members that only Update writes. *)
Definition watched (d : t) : bool * ConditionTester.t :=
  (is_stationary_ d, exit_condition_tester_ d).

(** One accelerometer and one gyroscope sample with the same timestamp. *)
Definition step (d : t) (s : Vector3d * Vector3d * Q) : t :=
  let '(a, g, ts) := s in AddGyroMeasurement (AddAccelMeasurement d a ts) g ts.

Definition run (d : t) (l : list (Vector3d * Vector3d * Q)) : t := fold_left step l d.



(** [n] samples of a device at rest, two per second from time 0. *)
Definition still (n : nat) : list (Vector3d * Vector3d * Q) :=
  map (fun k => (Zero, Zero, (Z.of_nat k # 2))) (seq 0 n).

(** A detector with the default configuration and the correction gain 1. *)
Definition d0 : t := make (DefaultConfiguration 1).

Definition ext_bias : Vector3d := {| x_ := 1 # 100; y_ := 0; z_ := 0 |}.

Definition bump : Vector3d := {| x_ := 1 # 100; y_ := 0; z_ := 0 |}.


End MahonySpec.

(** * Track lookup and sdtp injection
      (atom_helpers.h, atoms/atom_trak.cc, atoms/atom_moov.cc,
      atoms/atom_hdlr.cc, sdtp_inject.cc) *)

Module Inject.

Import Mp4.
Local Open Scope Z_scope.

(** FindChildren of atom_helpers.h: the children whose dynamic type is
    [cls], in order, each with its index; [i] is the index of the head of
    [cs]. *)
Fixpoint FindChildren (cls : AtomClass) (cs : list Atom) (i : nat)
  : list (nat * Atom) :=
  match cs with
  | [] => []
  | c :: cs' =>
      if AtomClass_eqb (typeid c) cls then (i, c) :: FindChildren cls cs' (S i)
      else FindChildren cls cs' (S i)
  end.

(** The loop of DeleteChildren of atom_helpers.h, from index [n - 1] down
    to 0. *)
Fixpoint DeleteChildrenFrom (cls : AtomClass) (parent : Atom) (n : nat) : Atom :=
  match n with
  | O => parent
  | S i =>
      let parent :=
        match GetChild parent (Z.of_nat i) with
        | Some child =>
            if AtomClass_eqb (typeid child) cls
            then snd (DeleteChild parent (Z.of_nat i))
            else parent
        | None => parent
        end in
      DeleteChildrenFrom cls parent i
  end.

Definition DeleteChildren (cls : AtomClass) (parent : Atom) : Atom :=
  DeleteChildrenFrom cls parent (Z.to_nat (NumChildren parent)).

(** enum TrackMediaType of atoms/common.h. *)
Inductive TrackMediaType :=
| UNKNOWN_MEDIA_TYPE | VISUAL_MEDIA_TYPE | SOUND_MEDIA_TYPE | TEXT_MEDIA_TYPE
| SUBTITLE_MEDIA_TYPE | BASE_MEDIA_TYPE | CLOSED_CAPTION_MEDIA_TYPE
| HINT_MEDIA_TYPE | MPEG_MEDIA_TYPE | MUXED_MEDIA_TYPE | ODSM_MEDIA_TYPE
| SDSM_MEDIA_TYPE | QUARTZ_COMPOSER_MEDIA_TYPE | SKIN_MEDIA_TYPE
| SPRITE_MEDIA_TYPE | STREAMING_MEDIA_TYPE | TIMECODE_MEDIA_TYPE
| TIMED_METADATA_MEDIA_TYPE | TWEEN_MEDIA_TYPE | META_MEDIA_TYPE.

Definition is_visual (t : TrackMediaType) : bool :=
  match t with VISUAL_MEDIA_TYPE => true | _ => false end.

(** AtomHDLR::GetTrackMediaType. *)
Definition GetTrackMediaType (h : HDLRFields) : TrackMediaType :=
  let subtype := string_of_list_byte (component_subtype_ h) in
  if String.eqb subtype "vide" then VISUAL_MEDIA_TYPE
  else if String.eqb subtype "soun" then SOUND_MEDIA_TYPE
  else if String.eqb subtype "text" then TEXT_MEDIA_TYPE
  else if String.eqb subtype "sbtl" then SUBTITLE_MEDIA_TYPE
  else if String.eqb subtype "gnrc" then BASE_MEDIA_TYPE
  else if String.eqb subtype "clcp" then CLOSED_CAPTION_MEDIA_TYPE
  else if String.eqb subtype "hint" then HINT_MEDIA_TYPE
  else if String.eqb subtype "MPEG" then MPEG_MEDIA_TYPE
  else if String.eqb subtype "muxx" then MUXED_MEDIA_TYPE
  else if String.eqb subtype "odsm" then ODSM_MEDIA_TYPE
  else if String.eqb subtype "sdsm" then SDSM_MEDIA_TYPE
  else if String.eqb subtype "qzr " then QUARTZ_COMPOSER_MEDIA_TYPE
  else if String.eqb subtype "skin" then SKIN_MEDIA_TYPE
  else if String.eqb subtype "sprt" then SPRITE_MEDIA_TYPE
  else if String.eqb subtype "strm" then STREAMING_MEDIA_TYPE
  else if String.eqb subtype "tmcd" then TIMECODE_MEDIA_TYPE
  else if String.eqb subtype "tmet" then TIMED_METADATA_MEDIA_TYPE
  else if String.eqb subtype "twen" then TWEEN_MEDIA_TYPE
  else if String.eqb subtype "meta" then META_MEDIA_TYPE
  else UNKNOWN_MEDIA_TYPE.

(** AtomTRAK::track_type on a track whose cached track_type_ is still the
    UNKNOWN_MEDIA_TYPE of the constructor: FindNamedChildren sets it from
    the hdlr of the mdia, when both are there. *)
Definition track_type (trak : Atom) : TrackMediaType :=
  match FindChild AtomMDIA trak with
  | None => UNKNOWN_MEDIA_TYPE
  | Some (_, mdia) =>
      match FindChild AtomHDLR mdia with
      | Some (_, hdlr) =>
          match fields hdlr with
          | HDLRFields_ _ h => GetTrackMediaType h
          | _ => UNKNOWN_MEDIA_TYPE
          end
      | None => UNKNOWN_MEDIA_TYPE
      end
  end.

(** What AtomTRAK::atom_stbl returns on a track on which [stbl_] has not
    been set before: the member is not initialised by the constructor, and
    FindNamedChildren returns before it sets it when the mdia or the minf
    is missing; it is nullptr when the minf has no stbl.  A found stbl
    comes with the atoms above it and the index of each in its parent. *)
Inductive StblPointer :=
| StblUninitialized
| StblNull
| Stbl (mdia_index : nat) (mdia : Atom) (minf_index : nat) (minf : Atom)
       (stbl_index : nat) (stbl : Atom).

Definition atom_stbl (trak : Atom) : StblPointer :=
  match FindChild AtomMDIA trak with
  | None => StblUninitialized
  | Some (j, mdia) =>
      match FindChild AtomMINF mdia with
      | None => StblUninitialized
      | Some (k, minf) =>
          match FindChild AtomSTBL minf with
          | None => StblNull
          | Some (l, stbl) => Stbl j mdia k minf l stbl
          end
      end
  end.

(** AtomMOOV::tracks and AtomMOOV::GetFirstVideoTrack. *)
Definition tracks (moov : Atom) : list (nat * Atom) :=
  FindChildren AtomTRAK (children_ moov) 0.

Definition GetFirstVideoTrack (moov : Atom) : option (nat * Atom) :=
  find (fun track => is_visual (track_type (snd track))) (tracks moov).

(** AtomSTSS::KeyFrameIndices. *)
Definition KeyFrameIndices (stss : Atom) : list Z :=
  match fields stss with STSSFields _ ks => ks | _ => [] end.

(** The default constructor AtomSDTP(): FullAtom(8, 0, "sdtp"). *)
Definition NewAtomSDTP : Atom :=
  NewAtom 8 0 "sdtp" (SDTPFields NewFullAtom []).

(** What InjectSdtpToMoov does: return a status, leaving the moov in some
    state, or run into undefined behaviour (a null or uninitialised stbl
    pointer is dereferenced; back() is called on an empty vector of key
    frame indices). *)
Inductive Injected :=
| Done (s : FormatStatus) (moov : Atom)
| Undefined.

(** InjectSdtpToMoov.  AddChild on the stbl calls Update(), which climbs
    through minf, mdia and trak to the moov. *)
Definition InjectSdtpToMoov (moov : Atom) : Injected :=
  match GetFirstVideoTrack moov with
  | None => Done FILE_FORMAT_ERROR moov
  | Some (i, video_trak) =>
      match atom_stbl video_trak with
      | Stbl j mdia k minf l stbl =>
          match FindChild AtomSDTP stbl with
          | None =>
              match FindChild AtomSTSS stbl with
              | None => Done FILE_FORMAT_ERROR moov
              | Some (_, stss) =>
                  match KeyFrameIndices stss with
                  | [] => Undefined
                  | indices =>
                      let sdtp := PopulateFromKeyFrameIndices NewAtomSDTP indices in
                      let stbl := AddChild stbl sdtp in
                      let minf := child_updated minf l stbl in
                      let mdia := child_updated mdia k minf in
                      let video_trak := child_updated video_trak j mdia in
                      Done OK (child_updated moov i video_trak)
                  end
              end
          | Some _ => Done OK moov
          end
      | _ => Undefined
      end
  end.

End Inject.

(** * Vocabulary for the properties of track lookup and injection *)

Module InjectSpec.

Import Mp4.
Import Inject.
Local Open Scope Z_scope.

(** A child of another class than [cls]. *)
Definition other_class (cls : AtomClass) (c : Atom) : bool :=
  negb (AtomClass_eqb (typeid c) cls).

(** The test of GetFirstVideoTrack on an element of tracks(). *)
Definition visual_track (track : nat * Atom) : bool :=
  is_visual (track_type (snd track)).

(** The moov after an injection, with the atoms on the path to the new
    sdtp. *)
Record Injection := {
  sdtp_of : Atom; stbl_of : Atom; minf_of : Atom; mdia_of : Atom;
  trak_of : Atom; moov_of : Atom
}.

Definition injection (moov : Atom) (i : nat) (trak : Atom) (j : nat) (mdia : Atom)
           (k : nat) (minf : Atom) (l : nat) (stbl : Atom) (indices : list Z)
  : Injection :=
  let sdtp := PopulateFromKeyFrameIndices NewAtomSDTP indices in
  let stbl := AddChild stbl sdtp in
  let minf := child_updated minf l stbl in
  let mdia := child_updated mdia k minf in
  let trak := child_updated trak j mdia in
  {| sdtp_of := sdtp; stbl_of := stbl; minf_of := minf; mdia_of := mdia;
     trak_of := trak; moov_of := child_updated moov i trak |}.

End InjectSpec.

(** * A moov with one video track *)

Module InjectExamples.

Import Mp4.
Import Examples.
Local Open Scope Z_scope.

(** An hdlr atom with the component subtype "vide" and a one-byte name. *)
Definition hdlr_box : list byte :=
  box "hdlr" (bytes_of [0; 0; 0; 0] ++ bytes_of [0; 0; 0; 0]
              ++ list_byte_of_string "vide" ++ bytes_of [0; 0; 0; 0]
              ++ PutUInt32 0 ++ PutUInt32 0 ++ bytes_of [0]).

(** An stss atom with the key frames 1 and 3. *)
Definition stss_box : list byte :=
  box "stss" (bytes_of [0; 0; 0; 0] ++ PutUInt32 2 ++ PutUInt32 1 ++ PutUInt32 3).

Definition video_moov_box : list byte :=
  box "moov" (box "trak" (box "mdia" (hdlr_box
                                      ++ box "minf" (box "stbl" stss_box)))).

(** The moov that ReadAtom makes of [video_moov_box]. *)
Definition video_moov : Atom :=
  match ReadAtom 8 0 video_moov_box 0 with
  | Parsed a _ => a
  | _ => CreateAtom 8 0 "moov"
  end.

End InjectExamples.

(** * Vocabulary for the properties of the filters *)

Module FilterSpec.

Import Mahony.
Local Open Scope Q_scope.

Definition Qsum (l : list Q) : Q := fold_right Qplus 0 l.



Definition feed_delayed (f : DelayedLowPassFilter.t) (samples : list (Vector3d * Q))
  : DelayedLowPassFilter.t :=
  fold_left (fun f s => DelayedLowPassFilter.AddSampleData f (fst s) (snd s))
            samples f.

(** The time that the samples in the delay buffer stand for. *)
Definition buffered_time (f : DelayedLowPassFilter.t) : Q :=
  Qsum (map DelayedLowPassFilter.delta_time_s (DelayedLowPassFilter.delay_buffer_ f)).

(** The state of the gyro bias estimation outside the stationary state: no
    flag is set and the delay buffer is empty. *)
Definition bias_estimation_idle (d : StationaryDetector.t) : Prop :=
  StationaryDetector.is_max_correction_threshold_crossed_ d = false
  /\ StationaryDetector.has_gyro_bias_correction_converged_ d = false
  /\ DelayedLowPassFilter.delay_buffer_
       (StationaryDetector.gyro_bias_delayed_low_pass_filter_ d) = []
  /\ DelayedLowPassFilter.buffer_accumulated_time_s_
       (StationaryDetector.gyro_bias_delayed_low_pass_filter_ d) = 0.

(** The members of the detector that the gyro bias estimation uses, and
    is_stationary_. *)
Definition bias_part (d : StationaryDetector.t)
  : bool * bool * DelayedLowPassFilter.t * bool :=
  (StationaryDetector.is_max_correction_threshold_crossed_ d,
   StationaryDetector.has_gyro_bias_correction_converged_ d,
   StationaryDetector.gyro_bias_delayed_low_pass_filter_ d,
   StationaryDetector.is_stationary_ d).

(** Outside the stationary state the bias estimation is idle. *)
Definition idle_unless_stationary (d : StationaryDetector.t) : Prop :=
  StationaryDetector.is_stationary_ d = false -> bias_estimation_idle d.

(** A stationary detector past its initialisation period, whose bias
    estimation has converged and whose delayed filter holds a settled
    estimate of zero. *)
Definition converged_detector : StationaryDetector.t :=
  let d := StationaryDetector.make (StationaryDetector.DefaultConfiguration 1) in
  let d := StationaryDetector.set_is_stationary d true in
  let d := StationaryDetector.set_converged d true in
  let d := StationaryDetector.set_last_gyro d Zero 10 in
  StationaryDetector.set_delayed d
    {| DelayedLowPassFilter.delay_time_s_ := 1;
       DelayedLowPassFilter.buffer_accumulated_time_s_ := 1;
       DelayedLowPassFilter.delay_buffer_ :=
         [{| DelayedLowPassFilter.value := Zero;
             DelayedLowPassFilter.delta_time_s := 1 |}];
       DelayedLowPassFilter.low_pass_filter_ :=
         LowPassFilter.AddSampleData
           (LowPassFilter.AddSampleData (LowPassFilter.make (1 # 2)) Zero 0)
           Zero 3 |}.

End FilterSpec.

(** * Quaternions and rotation matrices (geometry_toolbox_mahony.h) *)

Module Geometry.

Import Orientation.
Local Open Scope R_scope.

(** Eigen::Matrix<double, 3, 3>, by rows. *)
Record Matrix3d := {
  m00 : R; m01 : R; m02 : R;
  m10 : R; m11 : R; m12 : R;
  m20 : R; m21 : R; m22 : R
}.

Definition Identity3 : Matrix3d :=
  {| m00 := 1; m01 := 0; m02 := 0;
     m10 := 0; m11 := 1; m12 := 0;
     m20 := 0; m21 := 0; m22 := 1 |}.

Definition scale33 (k : R) (a : Matrix3d) : Matrix3d :=
  {| m00 := k * m00 a; m01 := k * m01 a; m02 := k * m02 a;
     m10 := k * m10 a; m11 := k * m11 a; m12 := k * m12 a;
     m20 := k * m20 a; m21 := k * m21 a; m22 := k * m22 a |}.

Definition sub33 (a b : Matrix3d) : Matrix3d :=
  {| m00 := m00 a - m00 b; m01 := m01 a - m01 b; m02 := m02 a - m02 b;
     m10 := m10 a - m10 b; m11 := m11 a - m11 b; m12 := m12 a - m12 b;
     m20 := m20 a - m20 b; m21 := m21 a - m21 b; m22 := m22 a - m22 b |}.

(** q.block<3, 1>(0, 0): the vector part of a quaternion. *)
Definition block3 (q : Vector4d) : Vector3d :=
  {| w0 := q0 q; w1 := q1 q; w2 := q2 q |}.

(** SkewSymmetricMatrix. *)
Definition SkewSymmetricMatrix (x : Vector3d) : Matrix3d :=
  {| m00 := 0; m01 := - w2 x; m02 := w1 x;
     m10 := w2 x; m11 := 0; m12 := - w0 x;
     m20 := - w1 x; m21 := w0 x; m22 := 0 |}.


(** QuaternionToRotationMatrix. *)
Definition QuaternionToRotationMatrix (q : Vector4d) : Matrix3d :=
  {| m00 := q0 q * q0 q - q1 q * q1 q - q2 q * q2 q + q3 q * q3 q;
     m01 := 2 * (q0 q * q1 q + q2 q * q3 q);
     m02 := 2 * (q0 q * q2 q - q1 q * q3 q);
     m10 := 2 * (q0 q * q1 q - q2 q * q3 q);
     m11 := - q0 q * q0 q + q1 q * q1 q - q2 q * q2 q + q3 q * q3 q;
     m12 := 2 * (q1 q * q2 q + q0 q * q3 q);
     m20 := 2 * (q0 q * q2 q + q1 q * q3 q);
     m21 := 2 * (q1 q * q2 q - q0 q * q3 q);
     m22 := - q0 q * q0 q - q1 q * q1 q + q2 q * q2 q + q3 q * q3 q |}.

(** A vector divided by a scalar. *)
Definition div4 (a : Vector4d) (k : R) : Vector4d :=
  {| q0 := q0 a / k; q1 := q1 a / k; q2 := q2 a / k; q3 := q3 a / k |}.

(** QuaternionMultiplication: the product q1 * q2.  The matrix L has
    q1(3) * Identity - SkewSymmetricMatrix(q1.block<3, 1>(0, 0)) as its upper
    left block, the negated vector part of q1 as the rest of its last row
    and q1 as its last column. *)
Definition QuaternionMultiplication (q1' q2' : Vector4d) : Vector4d :=
  let B := sub33 (scale33 (q3 q1') Identity3) (SkewSymmetricMatrix (block3 q1')) in
  let result :=
    {| q0 := m00 B * q0 q2' + m01 B * q1 q2' + m02 B * q2 q2' + q0 q1' * q3 q2';
       q1 := m10 B * q0 q2' + m11 B * q1 q2' + m12 B * q2 q2' + q1 q1' * q3 q2';
       q2 := m20 B * q0 q2' + m21 B * q1 q2' + m22 B * q2 q2' + q2 q1' * q3 q2';
       q3 := - q0 q1' * q0 q2' + - q1 q1' * q1 q2' + - q2 q1' * q2 q2'
             + q3 q1' * q3 q2' |} in
  let result := div4 result (norm4 result) in
  if Rlt_dec (q3 result) 0 then neg4 result else result.

(** RotationMatrixToQuaternion. *)
Definition RotationMatrixToQuaternion (mat : Matrix3d) : Vector4d :=
  let kOne := 1 in
  let kFour := 4 in
  let d0 := m00 mat in
  let d1 := m11 mat in
  let d2 := m22 mat in
  let ww := kOne + d0 + d1 + d2 in
  let xx := kOne + d0 - d1 - d2 in
  let yy := kOne - d0 + d1 - d2 in
  let zz := kOne - d0 - d1 + d2 in
  let max := Rmax ww (Rmax xx (Rmax yy zz)) in
  if Req_EM_T ww max then
    let w4 := sqrt (ww * kFour) in
    {| q0 := - (m21 mat - m12 mat) / w4;
       q1 := - (m02 mat - m20 mat) / w4;
       q2 := - (m10 mat - m01 mat) / w4;
       q3 := w4 / kFour |}
  else if Req_EM_T xx max then
    let x4 := sqrt (xx * kFour) in
    {| q0 := - x4 / kFour;
       q1 := - (m01 mat + m10 mat) / x4;
       q2 := - (m02 mat + m20 mat) / x4;
       q3 := (m21 mat - m12 mat) / x4 |}
  else if Req_EM_T yy max then
    let y4 := sqrt (yy * kFour) in
    {| q0 := - (m01 mat + m10 mat) / y4;
       q1 := - y4 / kFour;
       q2 := - (m12 mat + m21 mat) / y4;
       q3 := (m02 mat - m20 mat) / y4 |}
  else
    let z4 := sqrt (zz * kFour) in
    {| q0 := - (m02 mat + m20 mat) / z4;
       q1 := - (m12 mat + m21 mat) / z4;
       q2 := - z4 / kFour;
       q3 := (m10 mat - m01 mat) / z4 |}.

(** Comparisons of doubles, as booleans. *)
Definition Rlt_b (a b : R) : bool := if Rlt_dec a b then true else false.
Definition Rle_b (a b : R) : bool := if Rle_dec a b then true else false.
Definition Req_b (a b : R) : bool := if Req_EM_T a b then true else false.

(** Eigen operations on 3-vectors. *)
Definition Zero3 : Vector3d := {| w0 := 0; w1 := 0; w2 := 0 |}.
Definition UnitX : Vector3d := {| w0 := 1; w1 := 0; w2 := 0 |}.
Definition UnitY : Vector3d := {| w0 := 0; w1 := 1; w2 := 0 |}.

Definition neg3 (a : Vector3d) : Vector3d :=
  {| w0 := - w0 a; w1 := - w1 a; w2 := - w2 a |}.
Definition div3 (a : Vector3d) (k : R) : Vector3d :=
  {| w0 := w0 a / k; w1 := w1 a / k; w2 := w2 a / k |}.
Definition dot3 (a b : Vector3d) : R := w0 a * w0 b + w1 a * w1 b + w2 a * w2 b.
Definition cross3 (a b : Vector3d) : Vector3d :=
  {| w0 := w1 a * w2 b - w2 a * w1 b;
     w1 := w2 a * w0 b - w0 a * w2 b;
     w2 := w0 a * w1 b - w1 a * w0 b |}.
Definition squaredNorm3 (a : Vector3d) : R := dot3 a a.
Definition norm3 (a : Vector3d) : R := sqrt (squaredNorm3 a).

(** Eigen's normalized() and normalize(): the vector divided by its norm; a
    zero vector stays the zero vector. *)
Definition normalized3 (a : Vector3d) : Vector3d :=
  if Rlt_b 0 (squaredNorm3 a) then div3 a (sqrt (squaredNorm3 a)) else a.
Definition normalized4 (a : Vector4d) : Vector4d :=
  if Rlt_b 0 (squaredNorm4 a) then div4 a (sqrt (squaredNorm4 a)) else a.

(** RotateInto: the JPL quaternion of the rotation that takes [from] into
    [to]. *)
Definition RotateInto (from to : Vector3d) : Vector4d :=
  let kEpsilon := 1 / 10 ^ 13 in
  let norm_u_norm_v := norm3 from * norm3 to in
  let real_part := norm_u_norm_v + dot3 from to in
  let '(real_part, w) :=
    if Rlt_b real_part (kEpsilon * norm_u_norm_v) then
      (0,
       if Rlt_b (Rabs (w2 from)) (Rabs (w0 from))
       then {| w0 := - w1 from; w1 := w0 from; w2 := 0 |}
       else {| w0 := 0; w1 := - w2 from; w2 := w1 from |})
    else (real_part, cross3 from to) in
  let w := neg3 w in
  normalized4 {| q0 := w0 w; q1 := w1 w; q2 := w2 w; q3 := real_part |}.

End Geometry.

(** * Vocabulary for the properties of rotations *)

Module GeometrySpec.

Import Orientation.
Import Geometry.
Local Open Scope R_scope.

Definition transpose33 (a : Matrix3d) : Matrix3d :=
  {| m00 := m00 a; m01 := m10 a; m02 := m20 a;
     m10 := m01 a; m11 := m11 a; m12 := m21 a;
     m20 := m02 a; m21 := m12 a; m22 := m22 a |}.

Definition mul33 (a b : Matrix3d) : Matrix3d :=
  {| m00 := m00 a * m00 b + m01 a * m10 b + m02 a * m20 b;
     m01 := m00 a * m01 b + m01 a * m11 b + m02 a * m21 b;
     m02 := m00 a * m02 b + m01 a * m12 b + m02 a * m22 b;
     m10 := m10 a * m00 b + m11 a * m10 b + m12 a * m20 b;
     m11 := m10 a * m01 b + m11 a * m11 b + m12 a * m21 b;
     m12 := m10 a * m02 b + m11 a * m12 b + m12 a * m22 b;
     m20 := m20 a * m00 b + m21 a * m10 b + m22 a * m20 b;
     m21 := m20 a * m01 b + m21 a * m11 b + m22 a * m21 b;
     m22 := m20 a * m02 b + m21 a * m12 b + m22 a * m22 b |}.

Definition det33 (a : Matrix3d) : R :=
  m00 a * (m11 a * m22 a - m12 a * m21 a)
  - m01 a * (m10 a * m22 a - m12 a * m20 a)
  + m02 a * (m10 a * m21 a - m11 a * m20 a).


End GeometrySpec.

(** * The orientation filter (orientation_filter.h, orientation_filter.cc)

    The filter over the reals: a double is an exact real number, so that
    rounding, overflow and NaN are not modelled, and a quotient by zero,
    which is NaN or an infinity in the program, is the 0 of the Standard
    Library.  std::abs, std::max, std::min, std::sqrt, std::sin, std::cos
    and std::acos are [Rabs], [Rmax], [Rmin], [sqrt], [sin], [cos] and
    [acos].  A member function that modifies the filter takes the filter
    and returns the new one, with the value it returns if it has one.
    LOG(INFO) changes nothing in the filter and is left out. *)

Module OrientationFilter.

Import Orientation.
Import Geometry.
Import GeometrySpec.
Local Open Scope R_scope.

(** ** Eigen operations on matrices *)

(** The matrix with the given columns: L.block<3, 1>(0, j) = c_j. *)
Definition from_columns (c0 c1 c2 : Vector3d) : Matrix3d :=
  {| m00 := w0 c0; m01 := w0 c1; m02 := w0 c2;
     m10 := w1 c0; m11 := w1 c1; m12 := w1 c2;
     m20 := w2 c0; m21 := w2 c1; m22 := w2 c2 |}.

(** M.col(1) and M.col(2), which is also M.block<3, 1>(0, 2). *)
Definition col1 (a : Matrix3d) : Vector3d := {| w0 := m01 a; w1 := m11 a; w2 := m21 a |}.
Definition col2 (a : Matrix3d) : Vector3d := {| w0 := m02 a; w1 := m12 a; w2 := m22 a |}.

(** a * b.transpose(): a 3x3 matrix. *)
Definition outer3 (a b : Vector3d) : Matrix3d :=
  {| m00 := w0 a * w0 b; m01 := w0 a * w1 b; m02 := w0 a * w2 b;
     m10 := w1 a * w0 b; m11 := w1 a * w1 b; m12 := w1 a * w2 b;
     m20 := w2 a * w0 b; m21 := w2 a * w1 b; m22 := w2 a * w2 b |}.

(** The product of a matrix and a vector. *)
Definition mulv33 (a : Matrix3d) (v : Vector3d) : Vector3d :=
  {| w0 := m00 a * w0 v + m01 a * w1 v + m02 a * w2 v;
     w1 := m10 a * w0 v + m11 a * w1 v + m12 a * w2 v;
     w2 := m20 a * w0 v + m21 a * w1 v + m22 a * w2 v |}.

(** v -= a * a.transpose() * v: the part of [v] along [a] is taken off. *)
Definition remove_along (a v : Vector3d) : Vector3d := sub3 v (mulv33 (outer3 a a) v).

(** operator!= on vectors. *)
Definition Vector3d_eqb (a b : Vector3d) : bool :=
  Req_b (w0 a) (w0 b) && Req_b (w1 a) (w1 b) && Req_b (w2 a) (w2 b).

(** std::atan2 on numbers. *)
Definition atan2 (y x : R) : R :=
  if Rlt_b 0 x then atan (y / x)
  else if Rlt_b x 0 then (if Rle_b 0 y then atan (y / x) + PI else atan (y / x) - PI)
  else if Rlt_b 0 y then PI / 2
  else if Rlt_b y 0 then - PI / 2
  else 0.

(** ** Constants of orientation_filter.cc

    The constants written as float literals (0.001f, 1.0f, 0.003f) have the
    value of the float; the others are taken at their decimal value. *)

Definition kMinTimestepS : R := 8589935 / 8589934592.
Definition kMaxTimestepS : R := 1.
Definition kMagnitudeOfGravity : R := 981 / 100.
Definition kEpsilon : R := 1 / 10 ^ 9.
Definition kMagBiasCorrectionStaticCount : Z := 40.
Definition kMagInitTolerance : R := 1 / 10 ^ 6.
Definition kNumMagForInitialization : Z := 25.
Definition kNumMagForFilterOutlierRejection : Z := 10.
Definition kMaxAllowedMagDeviationRadians : R := 872665 / 10 ^ 7.
Definition kMaxTimeDifferentInMagAndGyroInSeconds : R := 6442451 / 2147483648.

(** IsTimestampDeltaValid. *)
Definition IsTimestampDeltaValid (timestamp_delta_s : R) : bool :=
  if Rle_b timestamp_delta_s kMinTimestepS then false
  else if Rlt_b kMaxTimestepS timestamp_delta_s then false
  else true.

(** ** Configuration and members *)

Inductive InitialOrientationConfiguration :=
| kUseMagToInitOrientation
| kDontUseMagToInitOrientation.

Record OrientationFilterConfiguration := {
  attitude_correction_gain : R;
  gyroscope_bias_correction_gain : R;
  mag_yaw_correction_gain : R;
  accel_yaw_correction_gain : R;
  magnetometer_gain_for_gyroscope_bias_estimation : R;
  stationary_bias_correction_gain : R;
  attitude_correction_gain_during_initialization : R;
  initialization_period_s : R;
  maximum_allowed_magnitude_magnetometer_change_mt : R;
  magnetometer_low_pass_cutoff_frequency : R;
  maximum_allowed_gyro_norm_changed_for_mag_bias_correction : R;
  init_config : InitialOrientationConfiguration;
  init_mag_bias : Vector3d
}.

(** The default member initialisers of the configuration. *)
Definition DefaultConfiguration : OrientationFilterConfiguration :=
  {| attitude_correction_gain := 2;
     gyroscope_bias_correction_gain := 1 / 10;
     mag_yaw_correction_gain := 0;
     accel_yaw_correction_gain := 1;
     magnetometer_gain_for_gyroscope_bias_estimation := 1;
     stationary_bias_correction_gain := 0;
     attitude_correction_gain_during_initialization := 15;
     initialization_period_s := 1;
     maximum_allowed_magnitude_magnetometer_change_mt := 2;
     magnetometer_low_pass_cutoff_frequency := 1;
     maximum_allowed_gyro_norm_changed_for_mag_bias_correction := 1 / 10;
     init_config := kDontUseMagToInitOrientation;
     init_mag_bias := Zero3 |}.

Inductive MagStatus := kInitial | kAligning | kAligned.

Module SensorSample.

Record t := { sample : Vector3d; timestamp_s : R }.

(** SensorSample(): a zero sample with the timestamp 0. *)
Definition make : t := {| sample := Zero3; timestamp_s := 0 |}.

End SensorSample.

(** Eigen::Matrix<double, 7, 1>, the filter state: the quaternion from the
    world to the sensor, head<4>(), and the gyroscope bias, tail<3>(). *)
Record Vector7d := { quaternion : Vector4d; gyro_bias : Vector3d }.

(** The member objects of the classes mahony_filter::LowPassFilter and
    mahony_filter::StationaryDetector, by the operations that the filter
    calls on them.  The filter hands them samples and reads vectors and
    flags back; the quaternion of the state never passes through them. *)
Class LowPassFilterOps (LowPassFilter : Type) := {
  NewLowPassFilter : R -> LowPassFilter;
  AddSampleData : LowPassFilter -> Vector3d -> R -> LowPassFilter;
  IsInitialized : LowPassFilter -> bool;
  GetFilteredData : LowPassFilter -> Vector3d;
  SetIsStatic : LowPassFilter -> bool -> LowPassFilter;
  GetIsStaticForN : LowPassFilter -> Z -> bool
}.

Class StationaryDetectorOps (StationaryDetector : Type) := {
  NewStationaryDetector : R -> StationaryDetector;
  DetectorAddAccelMeasurement : StationaryDetector -> Vector3d -> R -> StationaryDetector;
  DetectorAddGyroMeasurement : StationaryDetector -> Vector3d -> R -> StationaryDetector;
  GetGyroBiasCorrection :
    StationaryDetector -> Vector3d -> R -> Vector3d * StationaryDetector
}.

Section Members.

Context {LowPassFilter StationaryDetector : Type}.
Context {low_pass_filter : LowPassFilterOps LowPassFilter}.
Context {stationary_detector : StationaryDetectorOps StationaryDetector}.

(** What an Eigen vector holds that has been declared and not assigned:
    the vector that ComputeAccelAndMagRateCorrection returns as
    Eigen::Vector3d(), and the members state_from_previous_mag_ and
    projected_mag_measurement_vector_ after the constructor. *)
Variable uninitialized_vector : Vector3d.
Variable uninitialized_state : Vector7d.

Record t := {
  config_ : OrientationFilterConfiguration;
  state_ : Vector7d;
  next_state_ : Vector7d;
  state_from_previous_mag_ : Vector7d;
  current_accel_measurement_ : SensorSample.t;
  current_gyro_measurement_ : SensorSample.t;
  current_mag_measurement_ : SensorSample.t;
  previous_mag_measurement_ : SensorSample.t;
  previous_gyro_measurement_ : SensorSample.t;
  is_orientation_initialized_ : bool;
  first_accel_timestamp_s_ : R;
  has_received_gyro_sample_ : bool;
  mag_is_available_ : bool;
  on_bad_mag_calibration_detected_callbacks_ : list nat;
  mag_low_pass_filter_ : LowPassFilter;
  accel_aligned_R_yaw_mag_aligned_ : Matrix3d;
  num_mag_measurements_for_yaw_initialization_ : Z;
  mag_meas_for_init_index_ : Z;
  projected_mag_measurement_vector_ : list Vector3d;
  mag_bias_ : Vector3d;
  new_mag_calibration_available_ : bool;
  mag_status_ : MagStatus;
  accumulated_num_of_outlier_mag_measurement_ : Z;
  current_mag_sample_fits_calibration_ : bool;
  stationary_detector_ : StationaryDetector
}.

(** Assignments to one member. *)
Definition set_state_ (f : t) (v : Vector7d) : t :=
  {| config_ := config_ f; state_ := v; next_state_ := next_state_ f;
     state_from_previous_mag_ := state_from_previous_mag_ f;
     current_accel_measurement_ := current_accel_measurement_ f;
     current_gyro_measurement_ := current_gyro_measurement_ f;
     current_mag_measurement_ := current_mag_measurement_ f;
     previous_mag_measurement_ := previous_mag_measurement_ f;
     previous_gyro_measurement_ := previous_gyro_measurement_ f;
     is_orientation_initialized_ := is_orientation_initialized_ f;
     first_accel_timestamp_s_ := first_accel_timestamp_s_ f;
     has_received_gyro_sample_ := has_received_gyro_sample_ f;
     mag_is_available_ := mag_is_available_ f;
     on_bad_mag_calibration_detected_callbacks_ := on_bad_mag_calibration_detected_callbacks_ f;
     mag_low_pass_filter_ := mag_low_pass_filter_ f;
     accel_aligned_R_yaw_mag_aligned_ := accel_aligned_R_yaw_mag_aligned_ f;
     num_mag_measurements_for_yaw_initialization_ := num_mag_measurements_for_yaw_initialization_ f;
     mag_meas_for_init_index_ := mag_meas_for_init_index_ f;
     projected_mag_measurement_vector_ := projected_mag_measurement_vector_ f;
     mag_bias_ := mag_bias_ f;
     new_mag_calibration_available_ := new_mag_calibration_available_ f;
     mag_status_ := mag_status_ f;
     accumulated_num_of_outlier_mag_measurement_ := accumulated_num_of_outlier_mag_measurement_ f;
     current_mag_sample_fits_calibration_ := current_mag_sample_fits_calibration_ f;
     stationary_detector_ := stationary_detector_ f |}.
Definition set_next_state_ (f : t) (v : Vector7d) : t :=
  {| config_ := config_ f; state_ := state_ f; next_state_ := v;
     state_from_previous_mag_ := state_from_previous_mag_ f;
     current_accel_measurement_ := current_accel_measurement_ f;
     current_gyro_measurement_ := current_gyro_measurement_ f;
     current_mag_measurement_ := current_mag_measurement_ f;
     previous_mag_measurement_ := previous_mag_measurement_ f;
     previous_gyro_measurement_ := previous_gyro_measurement_ f;
     is_orientation_initialized_ := is_orientation_initialized_ f;
     first_accel_timestamp_s_ := first_accel_timestamp_s_ f;
     has_received_gyro_sample_ := has_received_gyro_sample_ f;
     mag_is_available_ := mag_is_available_ f;
     on_bad_mag_calibration_detected_callbacks_ := on_bad_mag_calibration_detected_callbacks_ f;
     mag_low_pass_filter_ := mag_low_pass_filter_ f;
     accel_aligned_R_yaw_mag_aligned_ := accel_aligned_R_yaw_mag_aligned_ f;
     num_mag_measurements_for_yaw_initialization_ := num_mag_measurements_for_yaw_initialization_ f;
     mag_meas_for_init_index_ := mag_meas_for_init_index_ f;
     projected_mag_measurement_vector_ := projected_mag_measurement_vector_ f;
     mag_bias_ := mag_bias_ f;
     new_mag_calibration_available_ := new_mag_calibration_available_ f;
     mag_status_ := mag_status_ f;
     accumulated_num_of_outlier_mag_measurement_ := accumulated_num_of_outlier_mag_measurement_ f;
     current_mag_sample_fits_calibration_ := current_mag_sample_fits_calibration_ f;
     stationary_detector_ := stationary_detector_ f |}.
Definition set_state_from_previous_mag_ (f : t) (v : Vector7d) : t :=
  {| config_ := config_ f; state_ := state_ f; next_state_ := next_state_ f;
     state_from_previous_mag_ := v;
     current_accel_measurement_ := current_accel_measurement_ f;
     current_gyro_measurement_ := current_gyro_measurement_ f;
     current_mag_measurement_ := current_mag_measurement_ f;
     previous_mag_measurement_ := previous_mag_measurement_ f;
     previous_gyro_measurement_ := previous_gyro_measurement_ f;
     is_orientation_initialized_ := is_orientation_initialized_ f;
     first_accel_timestamp_s_ := first_accel_timestamp_s_ f;
     has_received_gyro_sample_ := has_received_gyro_sample_ f;
     mag_is_available_ := mag_is_available_ f;
     on_bad_mag_calibration_detected_callbacks_ := on_bad_mag_calibration_detected_callbacks_ f;
     mag_low_pass_filter_ := mag_low_pass_filter_ f;
     accel_aligned_R_yaw_mag_aligned_ := accel_aligned_R_yaw_mag_aligned_ f;
     num_mag_measurements_for_yaw_initialization_ := num_mag_measurements_for_yaw_initialization_ f;
     mag_meas_for_init_index_ := mag_meas_for_init_index_ f;
     projected_mag_measurement_vector_ := projected_mag_measurement_vector_ f;
     mag_bias_ := mag_bias_ f;
     new_mag_calibration_available_ := new_mag_calibration_available_ f;
     mag_status_ := mag_status_ f;
     accumulated_num_of_outlier_mag_measurement_ := accumulated_num_of_outlier_mag_measurement_ f;
     current_mag_sample_fits_calibration_ := current_mag_sample_fits_calibration_ f;
     stationary_detector_ := stationary_detector_ f |}.
Definition set_current_accel_measurement_ (f : t) (v : SensorSample.t) : t :=
  {| config_ := config_ f; state_ := state_ f; next_state_ := next_state_ f;
     state_from_previous_mag_ := state_from_previous_mag_ f;
     current_accel_measurement_ := v;
     current_gyro_measurement_ := current_gyro_measurement_ f;
     current_mag_measurement_ := current_mag_measurement_ f;
     previous_mag_measurement_ := previous_mag_measurement_ f;
     previous_gyro_measurement_ := previous_gyro_measurement_ f;
     is_orientation_initialized_ := is_orientation_initialized_ f;
     first_accel_timestamp_s_ := first_accel_timestamp_s_ f;
     has_received_gyro_sample_ := has_received_gyro_sample_ f;
     mag_is_available_ := mag_is_available_ f;
     on_bad_mag_calibration_detected_callbacks_ := on_bad_mag_calibration_detected_callbacks_ f;
     mag_low_pass_filter_ := mag_low_pass_filter_ f;
     accel_aligned_R_yaw_mag_aligned_ := accel_aligned_R_yaw_mag_aligned_ f;
     num_mag_measurements_for_yaw_initialization_ := num_mag_measurements_for_yaw_initialization_ f;
     mag_meas_for_init_index_ := mag_meas_for_init_index_ f;
     projected_mag_measurement_vector_ := projected_mag_measurement_vector_ f;
     mag_bias_ := mag_bias_ f;
     new_mag_calibration_available_ := new_mag_calibration_available_ f;
     mag_status_ := mag_status_ f;
     accumulated_num_of_outlier_mag_measurement_ := accumulated_num_of_outlier_mag_measurement_ f;
     current_mag_sample_fits_calibration_ := current_mag_sample_fits_calibration_ f;
     stationary_detector_ := stationary_detector_ f |}.
Definition set_current_gyro_measurement_ (f : t) (v : SensorSample.t) : t :=
  {| config_ := config_ f; state_ := state_ f; next_state_ := next_state_ f;
     state_from_previous_mag_ := state_from_previous_mag_ f;
     current_accel_measurement_ := current_accel_measurement_ f;
     current_gyro_measurement_ := v;
     current_mag_measurement_ := current_mag_measurement_ f;
     previous_mag_measurement_ := previous_mag_measurement_ f;
     previous_gyro_measurement_ := previous_gyro_measurement_ f;
     is_orientation_initialized_ := is_orientation_initialized_ f;
     first_accel_timestamp_s_ := first_accel_timestamp_s_ f;
     has_received_gyro_sample_ := has_received_gyro_sample_ f;
     mag_is_available_ := mag_is_available_ f;
     on_bad_mag_calibration_detected_callbacks_ := on_bad_mag_calibration_detected_callbacks_ f;
     mag_low_pass_filter_ := mag_low_pass_filter_ f;
     accel_aligned_R_yaw_mag_aligned_ := accel_aligned_R_yaw_mag_aligned_ f;
     num_mag_measurements_for_yaw_initialization_ := num_mag_measurements_for_yaw_initialization_ f;
     mag_meas_for_init_index_ := mag_meas_for_init_index_ f;
     projected_mag_measurement_vector_ := projected_mag_measurement_vector_ f;
     mag_bias_ := mag_bias_ f;
     new_mag_calibration_available_ := new_mag_calibration_available_ f;
     mag_status_ := mag_status_ f;
     accumulated_num_of_outlier_mag_measurement_ := accumulated_num_of_outlier_mag_measurement_ f;
     current_mag_sample_fits_calibration_ := current_mag_sample_fits_calibration_ f;
     stationary_detector_ := stationary_detector_ f |}.
Definition set_previous_gyro_measurement_ (f : t) (v : SensorSample.t) : t :=
  {| config_ := config_ f; state_ := state_ f; next_state_ := next_state_ f;
     state_from_previous_mag_ := state_from_previous_mag_ f;
     current_accel_measurement_ := current_accel_measurement_ f;
     current_gyro_measurement_ := current_gyro_measurement_ f;
     current_mag_measurement_ := current_mag_measurement_ f;
     previous_mag_measurement_ := previous_mag_measurement_ f;
     previous_gyro_measurement_ := v;
     is_orientation_initialized_ := is_orientation_initialized_ f;
     first_accel_timestamp_s_ := first_accel_timestamp_s_ f;
     has_received_gyro_sample_ := has_received_gyro_sample_ f;
     mag_is_available_ := mag_is_available_ f;
     on_bad_mag_calibration_detected_callbacks_ := on_bad_mag_calibration_detected_callbacks_ f;
     mag_low_pass_filter_ := mag_low_pass_filter_ f;
     accel_aligned_R_yaw_mag_aligned_ := accel_aligned_R_yaw_mag_aligned_ f;
     num_mag_measurements_for_yaw_initialization_ := num_mag_measurements_for_yaw_initialization_ f;
     mag_meas_for_init_index_ := mag_meas_for_init_index_ f;
     projected_mag_measurement_vector_ := projected_mag_measurement_vector_ f;
     mag_bias_ := mag_bias_ f;
     new_mag_calibration_available_ := new_mag_calibration_available_ f;
     mag_status_ := mag_status_ f;
     accumulated_num_of_outlier_mag_measurement_ := accumulated_num_of_outlier_mag_measurement_ f;
     current_mag_sample_fits_calibration_ := current_mag_sample_fits_calibration_ f;
     stationary_detector_ := stationary_detector_ f |}.
Definition set_is_orientation_initialized_ (f : t) (v : bool) : t :=
  {| config_ := config_ f; state_ := state_ f; next_state_ := next_state_ f;
     state_from_previous_mag_ := state_from_previous_mag_ f;
     current_accel_measurement_ := current_accel_measurement_ f;
     current_gyro_measurement_ := current_gyro_measurement_ f;
     current_mag_measurement_ := current_mag_measurement_ f;
     previous_mag_measurement_ := previous_mag_measurement_ f;
     previous_gyro_measurement_ := previous_gyro_measurement_ f;
     is_orientation_initialized_ := v;
     first_accel_timestamp_s_ := first_accel_timestamp_s_ f;
     has_received_gyro_sample_ := has_received_gyro_sample_ f;
     mag_is_available_ := mag_is_available_ f;
     on_bad_mag_calibration_detected_callbacks_ := on_bad_mag_calibration_detected_callbacks_ f;
     mag_low_pass_filter_ := mag_low_pass_filter_ f;
     accel_aligned_R_yaw_mag_aligned_ := accel_aligned_R_yaw_mag_aligned_ f;
     num_mag_measurements_for_yaw_initialization_ := num_mag_measurements_for_yaw_initialization_ f;
     mag_meas_for_init_index_ := mag_meas_for_init_index_ f;
     projected_mag_measurement_vector_ := projected_mag_measurement_vector_ f;
     mag_bias_ := mag_bias_ f;
     new_mag_calibration_available_ := new_mag_calibration_available_ f;
     mag_status_ := mag_status_ f;
     accumulated_num_of_outlier_mag_measurement_ := accumulated_num_of_outlier_mag_measurement_ f;
     current_mag_sample_fits_calibration_ := current_mag_sample_fits_calibration_ f;
     stationary_detector_ := stationary_detector_ f |}.
Definition set_first_accel_timestamp_s_ (f : t) (v : R) : t :=
  {| config_ := config_ f; state_ := state_ f; next_state_ := next_state_ f;
     state_from_previous_mag_ := state_from_previous_mag_ f;
     current_accel_measurement_ := current_accel_measurement_ f;
     current_gyro_measurement_ := current_gyro_measurement_ f;
     current_mag_measurement_ := current_mag_measurement_ f;
     previous_mag_measurement_ := previous_mag_measurement_ f;
     previous_gyro_measurement_ := previous_gyro_measurement_ f;
     is_orientation_initialized_ := is_orientation_initialized_ f;
     first_accel_timestamp_s_ := v;
     has_received_gyro_sample_ := has_received_gyro_sample_ f;
     mag_is_available_ := mag_is_available_ f;
     on_bad_mag_calibration_detected_callbacks_ := on_bad_mag_calibration_detected_callbacks_ f;
     mag_low_pass_filter_ := mag_low_pass_filter_ f;
     accel_aligned_R_yaw_mag_aligned_ := accel_aligned_R_yaw_mag_aligned_ f;
     num_mag_measurements_for_yaw_initialization_ := num_mag_measurements_for_yaw_initialization_ f;
     mag_meas_for_init_index_ := mag_meas_for_init_index_ f;
     projected_mag_measurement_vector_ := projected_mag_measurement_vector_ f;
     mag_bias_ := mag_bias_ f;
     new_mag_calibration_available_ := new_mag_calibration_available_ f;
     mag_status_ := mag_status_ f;
     accumulated_num_of_outlier_mag_measurement_ := accumulated_num_of_outlier_mag_measurement_ f;
     current_mag_sample_fits_calibration_ := current_mag_sample_fits_calibration_ f;
     stationary_detector_ := stationary_detector_ f |}.
Definition set_has_received_gyro_sample_ (f : t) (v : bool) : t :=
  {| config_ := config_ f; state_ := state_ f; next_state_ := next_state_ f;
     state_from_previous_mag_ := state_from_previous_mag_ f;
     current_accel_measurement_ := current_accel_measurement_ f;
     current_gyro_measurement_ := current_gyro_measurement_ f;
     current_mag_measurement_ := current_mag_measurement_ f;
     previous_mag_measurement_ := previous_mag_measurement_ f;
     previous_gyro_measurement_ := previous_gyro_measurement_ f;
     is_orientation_initialized_ := is_orientation_initialized_ f;
     first_accel_timestamp_s_ := first_accel_timestamp_s_ f;
     has_received_gyro_sample_ := v;
     mag_is_available_ := mag_is_available_ f;
     on_bad_mag_calibration_detected_callbacks_ := on_bad_mag_calibration_detected_callbacks_ f;
     mag_low_pass_filter_ := mag_low_pass_filter_ f;
     accel_aligned_R_yaw_mag_aligned_ := accel_aligned_R_yaw_mag_aligned_ f;
     num_mag_measurements_for_yaw_initialization_ := num_mag_measurements_for_yaw_initialization_ f;
     mag_meas_for_init_index_ := mag_meas_for_init_index_ f;
     projected_mag_measurement_vector_ := projected_mag_measurement_vector_ f;
     mag_bias_ := mag_bias_ f;
     new_mag_calibration_available_ := new_mag_calibration_available_ f;
     mag_status_ := mag_status_ f;
     accumulated_num_of_outlier_mag_measurement_ := accumulated_num_of_outlier_mag_measurement_ f;
     current_mag_sample_fits_calibration_ := current_mag_sample_fits_calibration_ f;
     stationary_detector_ := stationary_detector_ f |}.
Definition set_mag_is_available_ (f : t) (v : bool) : t :=
  {| config_ := config_ f; state_ := state_ f; next_state_ := next_state_ f;
     state_from_previous_mag_ := state_from_previous_mag_ f;
     current_accel_measurement_ := current_accel_measurement_ f;
     current_gyro_measurement_ := current_gyro_measurement_ f;
     current_mag_measurement_ := current_mag_measurement_ f;
     previous_mag_measurement_ := previous_mag_measurement_ f;
     previous_gyro_measurement_ := previous_gyro_measurement_ f;
     is_orientation_initialized_ := is_orientation_initialized_ f;
     first_accel_timestamp_s_ := first_accel_timestamp_s_ f;
     has_received_gyro_sample_ := has_received_gyro_sample_ f;
     mag_is_available_ := v;
     on_bad_mag_calibration_detected_callbacks_ := on_bad_mag_calibration_detected_callbacks_ f;
     mag_low_pass_filter_ := mag_low_pass_filter_ f;
     accel_aligned_R_yaw_mag_aligned_ := accel_aligned_R_yaw_mag_aligned_ f;
     num_mag_measurements_for_yaw_initialization_ := num_mag_measurements_for_yaw_initialization_ f;
     mag_meas_for_init_index_ := mag_meas_for_init_index_ f;
     projected_mag_measurement_vector_ := projected_mag_measurement_vector_ f;
     mag_bias_ := mag_bias_ f;
     new_mag_calibration_available_ := new_mag_calibration_available_ f;
     mag_status_ := mag_status_ f;
     accumulated_num_of_outlier_mag_measurement_ := accumulated_num_of_outlier_mag_measurement_ f;
     current_mag_sample_fits_calibration_ := current_mag_sample_fits_calibration_ f;
     stationary_detector_ := stationary_detector_ f |}.
Definition set_on_bad_mag_calibration_detected_callbacks_ (f : t) (v : list nat) : t :=
  {| config_ := config_ f; state_ := state_ f; next_state_ := next_state_ f;
     state_from_previous_mag_ := state_from_previous_mag_ f;
     current_accel_measurement_ := current_accel_measurement_ f;
     current_gyro_measurement_ := current_gyro_measurement_ f;
     current_mag_measurement_ := current_mag_measurement_ f;
     previous_mag_measurement_ := previous_mag_measurement_ f;
     previous_gyro_measurement_ := previous_gyro_measurement_ f;
     is_orientation_initialized_ := is_orientation_initialized_ f;
     first_accel_timestamp_s_ := first_accel_timestamp_s_ f;
     has_received_gyro_sample_ := has_received_gyro_sample_ f;
     mag_is_available_ := mag_is_available_ f;
     on_bad_mag_calibration_detected_callbacks_ := v;
     mag_low_pass_filter_ := mag_low_pass_filter_ f;
     accel_aligned_R_yaw_mag_aligned_ := accel_aligned_R_yaw_mag_aligned_ f;
     num_mag_measurements_for_yaw_initialization_ := num_mag_measurements_for_yaw_initialization_ f;
     mag_meas_for_init_index_ := mag_meas_for_init_index_ f;
     projected_mag_measurement_vector_ := projected_mag_measurement_vector_ f;
     mag_bias_ := mag_bias_ f;
     new_mag_calibration_available_ := new_mag_calibration_available_ f;
     mag_status_ := mag_status_ f;
     accumulated_num_of_outlier_mag_measurement_ := accumulated_num_of_outlier_mag_measurement_ f;
     current_mag_sample_fits_calibration_ := current_mag_sample_fits_calibration_ f;
     stationary_detector_ := stationary_detector_ f |}.
Definition set_mag_low_pass_filter_ (f : t) (v : LowPassFilter) : t :=
  {| config_ := config_ f; state_ := state_ f; next_state_ := next_state_ f;
     state_from_previous_mag_ := state_from_previous_mag_ f;
     current_accel_measurement_ := current_accel_measurement_ f;
     current_gyro_measurement_ := current_gyro_measurement_ f;
     current_mag_measurement_ := current_mag_measurement_ f;
     previous_mag_measurement_ := previous_mag_measurement_ f;
     previous_gyro_measurement_ := previous_gyro_measurement_ f;
     is_orientation_initialized_ := is_orientation_initialized_ f;
     first_accel_timestamp_s_ := first_accel_timestamp_s_ f;
     has_received_gyro_sample_ := has_received_gyro_sample_ f;
     mag_is_available_ := mag_is_available_ f;
     on_bad_mag_calibration_detected_callbacks_ := on_bad_mag_calibration_detected_callbacks_ f;
     mag_low_pass_filter_ := v;
     accel_aligned_R_yaw_mag_aligned_ := accel_aligned_R_yaw_mag_aligned_ f;
     num_mag_measurements_for_yaw_initialization_ := num_mag_measurements_for_yaw_initialization_ f;
     mag_meas_for_init_index_ := mag_meas_for_init_index_ f;
     projected_mag_measurement_vector_ := projected_mag_measurement_vector_ f;
     mag_bias_ := mag_bias_ f;
     new_mag_calibration_available_ := new_mag_calibration_available_ f;
     mag_status_ := mag_status_ f;
     accumulated_num_of_outlier_mag_measurement_ := accumulated_num_of_outlier_mag_measurement_ f;
     current_mag_sample_fits_calibration_ := current_mag_sample_fits_calibration_ f;
     stationary_detector_ := stationary_detector_ f |}.
Definition set_accel_aligned_R_yaw_mag_aligned_ (f : t) (v : Matrix3d) : t :=
  {| config_ := config_ f; state_ := state_ f; next_state_ := next_state_ f;
     state_from_previous_mag_ := state_from_previous_mag_ f;
     current_accel_measurement_ := current_accel_measurement_ f;
     current_gyro_measurement_ := current_gyro_measurement_ f;
     current_mag_measurement_ := current_mag_measurement_ f;
     previous_mag_measurement_ := previous_mag_measurement_ f;
     previous_gyro_measurement_ := previous_gyro_measurement_ f;
     is_orientation_initialized_ := is_orientation_initialized_ f;
     first_accel_timestamp_s_ := first_accel_timestamp_s_ f;
     has_received_gyro_sample_ := has_received_gyro_sample_ f;
     mag_is_available_ := mag_is_available_ f;
     on_bad_mag_calibration_detected_callbacks_ := on_bad_mag_calibration_detected_callbacks_ f;
     mag_low_pass_filter_ := mag_low_pass_filter_ f;
     accel_aligned_R_yaw_mag_aligned_ := v;
     num_mag_measurements_for_yaw_initialization_ := num_mag_measurements_for_yaw_initialization_ f;
     mag_meas_for_init_index_ := mag_meas_for_init_index_ f;
     projected_mag_measurement_vector_ := projected_mag_measurement_vector_ f;
     mag_bias_ := mag_bias_ f;
     new_mag_calibration_available_ := new_mag_calibration_available_ f;
     mag_status_ := mag_status_ f;
     accumulated_num_of_outlier_mag_measurement_ := accumulated_num_of_outlier_mag_measurement_ f;
     current_mag_sample_fits_calibration_ := current_mag_sample_fits_calibration_ f;
     stationary_detector_ := stationary_detector_ f |}.
Definition set_mag_meas_for_init_index_ (f : t) (v : Z) : t :=
  {| config_ := config_ f; state_ := state_ f; next_state_ := next_state_ f;
     state_from_previous_mag_ := state_from_previous_mag_ f;
     current_accel_measurement_ := current_accel_measurement_ f;
     current_gyro_measurement_ := current_gyro_measurement_ f;
     current_mag_measurement_ := current_mag_measurement_ f;
     previous_mag_measurement_ := previous_mag_measurement_ f;
     previous_gyro_measurement_ := previous_gyro_measurement_ f;
     is_orientation_initialized_ := is_orientation_initialized_ f;
     first_accel_timestamp_s_ := first_accel_timestamp_s_ f;
     has_received_gyro_sample_ := has_received_gyro_sample_ f;
     mag_is_available_ := mag_is_available_ f;
     on_bad_mag_calibration_detected_callbacks_ := on_bad_mag_calibration_detected_callbacks_ f;
     mag_low_pass_filter_ := mag_low_pass_filter_ f;
     accel_aligned_R_yaw_mag_aligned_ := accel_aligned_R_yaw_mag_aligned_ f;
     num_mag_measurements_for_yaw_initialization_ := num_mag_measurements_for_yaw_initialization_ f;
     mag_meas_for_init_index_ := v;
     projected_mag_measurement_vector_ := projected_mag_measurement_vector_ f;
     mag_bias_ := mag_bias_ f;
     new_mag_calibration_available_ := new_mag_calibration_available_ f;
     mag_status_ := mag_status_ f;
     accumulated_num_of_outlier_mag_measurement_ := accumulated_num_of_outlier_mag_measurement_ f;
     current_mag_sample_fits_calibration_ := current_mag_sample_fits_calibration_ f;
     stationary_detector_ := stationary_detector_ f |}.
Definition set_projected_mag_measurement_vector_ (f : t) (v : list Vector3d) : t :=
  {| config_ := config_ f; state_ := state_ f; next_state_ := next_state_ f;
     state_from_previous_mag_ := state_from_previous_mag_ f;
     current_accel_measurement_ := current_accel_measurement_ f;
     current_gyro_measurement_ := current_gyro_measurement_ f;
     current_mag_measurement_ := current_mag_measurement_ f;
     previous_mag_measurement_ := previous_mag_measurement_ f;
     previous_gyro_measurement_ := previous_gyro_measurement_ f;
     is_orientation_initialized_ := is_orientation_initialized_ f;
     first_accel_timestamp_s_ := first_accel_timestamp_s_ f;
     has_received_gyro_sample_ := has_received_gyro_sample_ f;
     mag_is_available_ := mag_is_available_ f;
     on_bad_mag_calibration_detected_callbacks_ := on_bad_mag_calibration_detected_callbacks_ f;
     mag_low_pass_filter_ := mag_low_pass_filter_ f;
     accel_aligned_R_yaw_mag_aligned_ := accel_aligned_R_yaw_mag_aligned_ f;
     num_mag_measurements_for_yaw_initialization_ := num_mag_measurements_for_yaw_initialization_ f;
     mag_meas_for_init_index_ := mag_meas_for_init_index_ f;
     projected_mag_measurement_vector_ := v; mag_bias_ := mag_bias_ f;
     new_mag_calibration_available_ := new_mag_calibration_available_ f;
     mag_status_ := mag_status_ f;
     accumulated_num_of_outlier_mag_measurement_ := accumulated_num_of_outlier_mag_measurement_ f;
     current_mag_sample_fits_calibration_ := current_mag_sample_fits_calibration_ f;
     stationary_detector_ := stationary_detector_ f |}.
Definition set_mag_bias_ (f : t) (v : Vector3d) : t :=
  {| config_ := config_ f; state_ := state_ f; next_state_ := next_state_ f;
     state_from_previous_mag_ := state_from_previous_mag_ f;
     current_accel_measurement_ := current_accel_measurement_ f;
     current_gyro_measurement_ := current_gyro_measurement_ f;
     current_mag_measurement_ := current_mag_measurement_ f;
     previous_mag_measurement_ := previous_mag_measurement_ f;
     previous_gyro_measurement_ := previous_gyro_measurement_ f;
     is_orientation_initialized_ := is_orientation_initialized_ f;
     first_accel_timestamp_s_ := first_accel_timestamp_s_ f;
     has_received_gyro_sample_ := has_received_gyro_sample_ f;
     mag_is_available_ := mag_is_available_ f;
     on_bad_mag_calibration_detected_callbacks_ := on_bad_mag_calibration_detected_callbacks_ f;
     mag_low_pass_filter_ := mag_low_pass_filter_ f;
     accel_aligned_R_yaw_mag_aligned_ := accel_aligned_R_yaw_mag_aligned_ f;
     num_mag_measurements_for_yaw_initialization_ := num_mag_measurements_for_yaw_initialization_ f;
     mag_meas_for_init_index_ := mag_meas_for_init_index_ f;
     projected_mag_measurement_vector_ := projected_mag_measurement_vector_ f;
     mag_bias_ := v;
     new_mag_calibration_available_ := new_mag_calibration_available_ f;
     mag_status_ := mag_status_ f;
     accumulated_num_of_outlier_mag_measurement_ := accumulated_num_of_outlier_mag_measurement_ f;
     current_mag_sample_fits_calibration_ := current_mag_sample_fits_calibration_ f;
     stationary_detector_ := stationary_detector_ f |}.
Definition set_new_mag_calibration_available_ (f : t) (v : bool) : t :=
  {| config_ := config_ f; state_ := state_ f; next_state_ := next_state_ f;
     state_from_previous_mag_ := state_from_previous_mag_ f;
     current_accel_measurement_ := current_accel_measurement_ f;
     current_gyro_measurement_ := current_gyro_measurement_ f;
     current_mag_measurement_ := current_mag_measurement_ f;
     previous_mag_measurement_ := previous_mag_measurement_ f;
     previous_gyro_measurement_ := previous_gyro_measurement_ f;
     is_orientation_initialized_ := is_orientation_initialized_ f;
     first_accel_timestamp_s_ := first_accel_timestamp_s_ f;
     has_received_gyro_sample_ := has_received_gyro_sample_ f;
     mag_is_available_ := mag_is_available_ f;
     on_bad_mag_calibration_detected_callbacks_ := on_bad_mag_calibration_detected_callbacks_ f;
     mag_low_pass_filter_ := mag_low_pass_filter_ f;
     accel_aligned_R_yaw_mag_aligned_ := accel_aligned_R_yaw_mag_aligned_ f;
     num_mag_measurements_for_yaw_initialization_ := num_mag_measurements_for_yaw_initialization_ f;
     mag_meas_for_init_index_ := mag_meas_for_init_index_ f;
     projected_mag_measurement_vector_ := projected_mag_measurement_vector_ f;
     mag_bias_ := mag_bias_ f; new_mag_calibration_available_ := v;
     mag_status_ := mag_status_ f;
     accumulated_num_of_outlier_mag_measurement_ := accumulated_num_of_outlier_mag_measurement_ f;
     current_mag_sample_fits_calibration_ := current_mag_sample_fits_calibration_ f;
     stationary_detector_ := stationary_detector_ f |}.
Definition set_mag_status_ (f : t) (v : MagStatus) : t :=
  {| config_ := config_ f; state_ := state_ f; next_state_ := next_state_ f;
     state_from_previous_mag_ := state_from_previous_mag_ f;
     current_accel_measurement_ := current_accel_measurement_ f;
     current_gyro_measurement_ := current_gyro_measurement_ f;
     current_mag_measurement_ := current_mag_measurement_ f;
     previous_mag_measurement_ := previous_mag_measurement_ f;
     previous_gyro_measurement_ := previous_gyro_measurement_ f;
     is_orientation_initialized_ := is_orientation_initialized_ f;
     first_accel_timestamp_s_ := first_accel_timestamp_s_ f;
     has_received_gyro_sample_ := has_received_gyro_sample_ f;
     mag_is_available_ := mag_is_available_ f;
     on_bad_mag_calibration_detected_callbacks_ := on_bad_mag_calibration_detected_callbacks_ f;
     mag_low_pass_filter_ := mag_low_pass_filter_ f;
     accel_aligned_R_yaw_mag_aligned_ := accel_aligned_R_yaw_mag_aligned_ f;
     num_mag_measurements_for_yaw_initialization_ := num_mag_measurements_for_yaw_initialization_ f;
     mag_meas_for_init_index_ := mag_meas_for_init_index_ f;
     projected_mag_measurement_vector_ := projected_mag_measurement_vector_ f;
     mag_bias_ := mag_bias_ f;
     new_mag_calibration_available_ := new_mag_calibration_available_ f;
     mag_status_ := v;
     accumulated_num_of_outlier_mag_measurement_ := accumulated_num_of_outlier_mag_measurement_ f;
     current_mag_sample_fits_calibration_ := current_mag_sample_fits_calibration_ f;
     stationary_detector_ := stationary_detector_ f |}.
Definition set_accumulated_num_of_outlier_mag_measurement_ (f : t) (v : Z) : t :=
  {| config_ := config_ f; state_ := state_ f; next_state_ := next_state_ f;
     state_from_previous_mag_ := state_from_previous_mag_ f;
     current_accel_measurement_ := current_accel_measurement_ f;
     current_gyro_measurement_ := current_gyro_measurement_ f;
     current_mag_measurement_ := current_mag_measurement_ f;
     previous_mag_measurement_ := previous_mag_measurement_ f;
     previous_gyro_measurement_ := previous_gyro_measurement_ f;
     is_orientation_initialized_ := is_orientation_initialized_ f;
     first_accel_timestamp_s_ := first_accel_timestamp_s_ f;
     has_received_gyro_sample_ := has_received_gyro_sample_ f;
     mag_is_available_ := mag_is_available_ f;
     on_bad_mag_calibration_detected_callbacks_ := on_bad_mag_calibration_detected_callbacks_ f;
     mag_low_pass_filter_ := mag_low_pass_filter_ f;
     accel_aligned_R_yaw_mag_aligned_ := accel_aligned_R_yaw_mag_aligned_ f;
     num_mag_measurements_for_yaw_initialization_ := num_mag_measurements_for_yaw_initialization_ f;
     mag_meas_for_init_index_ := mag_meas_for_init_index_ f;
     projected_mag_measurement_vector_ := projected_mag_measurement_vector_ f;
     mag_bias_ := mag_bias_ f;
     new_mag_calibration_available_ := new_mag_calibration_available_ f;
     mag_status_ := mag_status_ f;
     accumulated_num_of_outlier_mag_measurement_ := v;
     current_mag_sample_fits_calibration_ := current_mag_sample_fits_calibration_ f;
     stationary_detector_ := stationary_detector_ f |}.
Definition set_stationary_detector_ (f : t) (v : StationaryDetector) : t :=
  {| config_ := config_ f; state_ := state_ f; next_state_ := next_state_ f;
     state_from_previous_mag_ := state_from_previous_mag_ f;
     current_accel_measurement_ := current_accel_measurement_ f;
     current_gyro_measurement_ := current_gyro_measurement_ f;
     current_mag_measurement_ := current_mag_measurement_ f;
     previous_mag_measurement_ := previous_mag_measurement_ f;
     previous_gyro_measurement_ := previous_gyro_measurement_ f;
     is_orientation_initialized_ := is_orientation_initialized_ f;
     first_accel_timestamp_s_ := first_accel_timestamp_s_ f;
     has_received_gyro_sample_ := has_received_gyro_sample_ f;
     mag_is_available_ := mag_is_available_ f;
     on_bad_mag_calibration_detected_callbacks_ := on_bad_mag_calibration_detected_callbacks_ f;
     mag_low_pass_filter_ := mag_low_pass_filter_ f;
     accel_aligned_R_yaw_mag_aligned_ := accel_aligned_R_yaw_mag_aligned_ f;
     num_mag_measurements_for_yaw_initialization_ := num_mag_measurements_for_yaw_initialization_ f;
     mag_meas_for_init_index_ := mag_meas_for_init_index_ f;
     projected_mag_measurement_vector_ := projected_mag_measurement_vector_ f;
     mag_bias_ := mag_bias_ f;
     new_mag_calibration_available_ := new_mag_calibration_available_ f;
     mag_status_ := mag_status_ f;
     accumulated_num_of_outlier_mag_measurement_ := accumulated_num_of_outlier_mag_measurement_ f;
     current_mag_sample_fits_calibration_ := current_mag_sample_fits_calibration_ f;
     stationary_detector_ := v |}.

(** ** The inline members of orientation_filter.h *)


Definition GetGyroBias (f : t) : Vector3d := gyro_bias (state_ f).

Definition GetRotationalVelocity (f : t) : Vector3d :=
  sub3 (SensorSample.sample (current_gyro_measurement_ f)) (GetGyroBias f).

(** state_.block<4, 1>(0, 0) = q and state_.block<3, 1>(4, 0) = b. *)
Definition set_quaternion (f : t) (q : Vector4d) : t :=
  set_state_ f {| quaternion := q; gyro_bias := gyro_bias (state_ f) |}.
Definition set_gyro_bias (f : t) (b : Vector3d) : t :=
  set_state_ f {| quaternion := quaternion (state_ f); gyro_bias := b |}.


Definition SetGyroBias (f : t) (gyro_bias : Vector3d) : t := set_gyro_bias f gyro_bias.

Definition SetMagBias (f : t) (mag_bias : Vector3d) : t :=
  let f := set_mag_bias_ f mag_bias in
  let f := set_new_mag_calibration_available_ f true in
  set_state_from_previous_mag_ f (state_ f).

Definition GetMagBias (f : t) : Vector3d := mag_bias_ f.

Definition SetLastGyroscopeMeasurement (f : t) (gyro_sample : Vector3d)
           (timestamp_s : R) : t :=
  set_previous_gyro_measurement_ f
    {| SensorSample.sample := gyro_sample; SensorSample.timestamp_s := timestamp_s |}.

Definition IsOrientationSet (f : t) : bool := is_orientation_initialized_ f.

Definition IsInitializing (f : t) : bool :=
  IsOrientationSet f
  && Rlt_b (SensorSample.timestamp_s (current_accel_measurement_ f)
            - first_accel_timestamp_s_ f)
           (initialization_period_s (config_ f)).

Definition IsFullyInitialized (f : t) : bool :=
  IsOrientationSet f && negb (IsInitializing f).

Definition ComputeGravityEstimate (f : t) : Vector3d :=
  col2 (QuaternionToRotationMatrix (quaternion (state_ f))).

Definition IsStationaryBiasCorrectionEnabled (f : t) : bool :=
  Rlt_b 0 (stationary_bias_correction_gain (config_ f)).


(** The constructor.  GetStationaryDetectorConfig makes the configuration
    of the detector from the gain. *)
Definition make (config : OrientationFilterConfiguration) : t :=
  let f :=
    {| config_ := config;
       state_ := {| quaternion := {| q0 := 0; q1 := 0; q2 := 0; q3 := 1 |};
                    gyro_bias := Zero3 |};
       next_state_ := {| quaternion := {| q0 := 0; q1 := 0; q2 := 0; q3 := 1 |};
                         gyro_bias := Zero3 |};
       state_from_previous_mag_ := uninitialized_state;
       current_accel_measurement_ := SensorSample.make;
       current_gyro_measurement_ := SensorSample.make;
       current_mag_measurement_ := SensorSample.make;
       previous_mag_measurement_ := SensorSample.make;
       previous_gyro_measurement_ := SensorSample.make;
       is_orientation_initialized_ := false;
       first_accel_timestamp_s_ := 0;
       has_received_gyro_sample_ := false;
       mag_is_available_ := false;
       on_bad_mag_calibration_detected_callbacks_ := [];
       mag_low_pass_filter_ :=
         NewLowPassFilter (magnetometer_low_pass_cutoff_frequency config);
       accel_aligned_R_yaw_mag_aligned_ := Identity3;
       num_mag_measurements_for_yaw_initialization_ := kNumMagForInitialization;
       mag_meas_for_init_index_ := 0;
       projected_mag_measurement_vector_ :=
         repeat uninitialized_vector (Z.to_nat kNumMagForInitialization);
       mag_bias_ := Zero3;
       new_mag_calibration_available_ := false;
       mag_status_ := kInitial;
       accumulated_num_of_outlier_mag_measurement_ := 0;
       current_mag_sample_fits_calibration_ := false;
       stationary_detector_ :=
         NewStationaryDetector (stationary_bias_correction_gain config) |} in
  if negb (Vector3d_eqb (init_mag_bias config) Zero3)
  then SetMagBias f (init_mag_bias config)
  else f.

(** ** orientation_filter.cc *)

(** The callbacks are std::function pointers, here numbers; the filter
    keeps the set of them.  What a callback does when it is run lies outside
    the filter, so BadMagnetometerCalibrationDetectedBroadcast leaves the
    filter as it is. *)
Definition RegisterOnBadMagnetometerCalibrationDetectedCallback (f : t)
           (on_bad_mag_calibration_detected_callback : nat) : t :=
  if existsb (Nat.eqb on_bad_mag_calibration_detected_callback)
             (on_bad_mag_calibration_detected_callbacks_ f)
  then f
  else set_on_bad_mag_calibration_detected_callbacks_ f
         (on_bad_mag_calibration_detected_callback
            :: on_bad_mag_calibration_detected_callbacks_ f).

Definition UnRegisterOnBadMagnetometerCalibrationDetectedCallback (f : t)
           (on_bad_mag_calibration_detected_callback : nat) : t :=
  set_on_bad_mag_calibration_detected_callbacks_ f
    (filter (fun c => negb (Nat.eqb on_bad_mag_calibration_detected_callback c))
            (on_bad_mag_calibration_detected_callbacks_ f)).

Definition BadMagnetometerCalibrationDetectedBroadcast (f : t) : t := f.

(** ComputeIterativeSolution: the Gauss-Newton loop, of at most
    kMaxIteration = 25 rounds.  [mag_vector] is the vector of 2N numbers as
    the list of its N segments of two.  The result is the solution, or
    nothing when the function returns false. *)
Fixpoint GaussNewton (rounds : nat) (mag_vector : list (R * R))
         (current_solution : R) : option R :=
  match rounds with
  | O => None
  | S rounds =>
      let z_est := (- sin current_solution, cos current_solution) in
      let Jacobian := (- cos current_solution, - sin current_solution) in
      let residual :=
        fold_left
          (fun residual m =>
             residual + (fst Jacobian * (fst z_est - fst m)
                         + snd Jacobian * (snd z_est - snd m)))
          mag_vector 0 in
      let hessian :=
        fold_left
          (fun hessian (_ : R * R) =>
             hessian + (fst Jacobian * fst Jacobian + snd Jacobian * snd Jacobian))
          mag_vector 0 in
      let correction := - residual / hessian in
      if Rlt_b hessian kMagInitTolerance then None
      else
        let current_solution := current_solution + correction in
        if Rlt_b (Rabs correction) (1 / 10 ^ 5) then Some current_solution
        else GaussNewton rounds mag_vector current_solution
  end.

Definition ComputeIterativeSolution (mag_vector : list (R * R))
           (initial_solution : R) : option Matrix3d :=
  match GaussNewton 25 mag_vector initial_solution with
  | None => None
  | Some current_solution =>
      Some {| m00 := cos current_solution; m01 := - sin current_solution; m02 := 0;
              m10 := sin current_solution; m11 := cos current_solution; m12 := 0;
              m20 := 0; m21 := 0; m22 := 1 |}
  end.

(** mag_proj.col(i).head<2>(), and its normalized(). *)
Definition head2 (v : Vector3d) : R * R := (w0 v, w1 v).
Definition squaredNorm2 (v : R * R) : R := fst v * fst v + snd v * snd v.
Definition normalized2 (v : R * R) : R * R :=
  if Rlt_b 0 (squaredNorm2 v)
  then (fst v / sqrt (squaredNorm2 v), snd v / sqrt (squaredNorm2 v))
  else v.

(** ComputeYawAlignmentMatrix: the matrix, or nothing when the function
    returns false. *)
Definition ComputeYawAlignmentMatrix (mag_proj : list Vector3d) : option Matrix3d :=
  if existsb (fun c => Rlt_b (squaredNorm2 (head2 c)) kMagInitTolerance) mag_proj
  then None
  else
    let mag_vector := map (fun c => normalized2 (head2 c)) mag_proj in
    let init_solution :=
      - atan2 (fst (hd (0, 0) mag_vector)) (snd (hd (0, 0) mag_vector)) in
    ComputeIterativeSolution mag_vector init_solution.

(** OrientationFromAccelAndMag: the value returned and the filter. *)
Definition OrientationFromAccelAndMag (f : t) : bool * t :=
  let L_z := normalized3 (SensorSample.sample (current_accel_measurement_ f)) in
  let L_y :=
    match init_config (config_ f) with
    | kDontUseMagToInitOrientation =>
        let '(L_y, canonical_down) :=
          if Rlt_b (Rabs (dot3 L_z UnitY)) (Rabs (dot3 L_z UnitX))
          then (UnitY, UnitX)
          else (neg3 UnitX, UnitY) in
        if Rlt_b (dot3 L_z canonical_down) 0 then neg3 L_y else L_y
    | kUseMagToInitOrientation =>
        let L_y := normalized3 (SensorSample.sample (current_mag_measurement_ f)) in
        remove_along L_z L_y
    end in
  let L_x := neg3 (cross3 L_z L_y) in
  if Req_b (norm3 L_x) 0 then (false, f)
  else
    let L_x := div3 L_x (norm3 L_x) in
    let L_y := cross3 L_z L_x in
    if Req_b (norm3 L_y) 0 then (false, f)
    else
      let L_R_G := from_columns L_x L_y L_z in
      let f := set_quaternion f (RotationMatrixToQuaternion L_R_G) in
      let f := set_state_from_previous_mag_ f (state_ f) in
      let f := set_mag_is_available_ f false in
      (true, f).

(** EstimateBiasUpdateUsingMag: the vector returned and the filter. *)
Definition EstimateBiasUpdateUsingMag (f : t) : Vector3d * t :=
  if negb (IsInitialized (mag_low_pass_filter_ f)) then (Zero3, f)
  else
    let is_gyro_static :=
      Rlt_b (norm3 (SensorSample.sample (current_gyro_measurement_ f)))
            (maximum_allowed_gyro_norm_changed_for_mag_bias_correction (config_ f)) in
    let is_mag_static :=
      Rlt_b (norm3 (sub3 (SensorSample.sample (previous_mag_measurement_ f))
                         (GetFilteredData (mag_low_pass_filter_ f))))
            (maximum_allowed_magnitude_magnetometer_change_mt (config_ f)) in
    let f :=
      set_mag_low_pass_filter_ f
        (SetIsStatic (mag_low_pass_filter_ f) (is_gyro_static && is_mag_static)) in
    if negb (GetIsStaticForN (mag_low_pass_filter_ f) kMagBiasCorrectionStaticCount)
    then (Zero3, f)
    else
      let previous_accel_est :=
        col2 (QuaternionToRotationMatrix (quaternion (state_from_previous_mag_ f))) in
      let previous_mag_est :=
        col1 (QuaternionToRotationMatrix (quaternion (state_from_previous_mag_ f))) in
      let current_accel_est :=
        col2 (QuaternionToRotationMatrix (quaternion (state_ f))) in
      let current_mag_est :=
        col1 (QuaternionToRotationMatrix (quaternion (state_ f))) in
      let previous_mag_meas := SensorSample.sample (previous_mag_measurement_ f) in
      let previous_mag_meas := remove_along previous_accel_est previous_mag_meas in
      let previous_mag_meas := normalized3 previous_mag_meas in
      let mag_meas := GetFilteredData (mag_low_pass_filter_ f) in
      let mag_meas := remove_along current_accel_est mag_meas in
      let mag_meas := normalized3 mag_meas in
      (sub3 (cross3 mag_meas previous_mag_meas) (cross3 current_mag_est previous_mag_est),
       f).

(** projected_mag_measurement_vector_.col(i) = v; an index outside the
    matrix leaves it as it is. *)
Fixpoint set_col (l : list Vector3d) (i : nat) (v : Vector3d) : list Vector3d :=
  match l, i with
  | [], _ => []
  | _ :: l', O => v :: l'
  | c :: l', S i' => c :: set_col l' i' v
  end.

(** The use of a magnetometer sample in ComputeAccelAndMagRateCorrection,
    from the test of the calibration to the return. *)
Definition MagRateCorrection (f : t) (accel_meas accel_est : Vector3d)
           (L_R_G_accel_aligned : Matrix3d) (rate_correction_vector : Vector3d)
  : Vector3d * t :=
  let f :=
    if new_mag_calibration_available_ f then
      let f := set_mag_status_ f kAligning in
      let f := set_mag_meas_for_init_index_ f 0 in
      set_new_mag_calibration_available_ f false
    else f in
  let current_calibrated_mag_measurement :=
    sub3 (SensorSample.sample (current_mag_measurement_ f)) (mag_bias_ f) in
  let mag_est_projection := current_calibrated_mag_measurement in
  let mag_est_projection := remove_along accel_est mag_est_projection in
  let mag_est_projection := normalized3 mag_est_projection in
  let f :=
    match mag_status_ f with
    | kAligning =>
        let f :=
          set_projected_mag_measurement_vector_ f
            (set_col (projected_mag_measurement_vector_ f)
                     (Z.to_nat (mag_meas_for_init_index_ f))
                     (mulv33 (transpose33 L_R_G_accel_aligned) mag_est_projection)) in
        let f := set_mag_meas_for_init_index_ f (mag_meas_for_init_index_ f + 1)%Z in
        if (mag_meas_for_init_index_ f
            =? num_mag_measurements_for_yaw_initialization_ f)%Z
        then
          match ComputeYawAlignmentMatrix (projected_mag_measurement_vector_ f) with
          | Some accel_aligned_R_yaw_mag_aligned =>
              let f :=
                set_accel_aligned_R_yaw_mag_aligned_ f
                  accel_aligned_R_yaw_mag_aligned in
              set_mag_status_ f kAligned
          | None => set_mag_meas_for_init_index_ f 0
          end
        else f
    | _ => f
    end in
  let mag_meas := current_calibrated_mag_measurement in
  let mag_meas := remove_along accel_meas mag_meas in
  if Rlt_b (norm3 mag_meas) (1 / 10 ^ 6) then (uninitialized_vector, f)
  else
    let mag_meas := normalized3 mag_meas in
    match mag_status_ f with
    | kAligned =>
        let f := set_mag_is_available_ f false in
        let mag_est :=
          col1 (mul33 L_R_G_accel_aligned (accel_aligned_R_yaw_mag_aligned_ f)) in
        let angle_between_est_and_meas := acos (dot3 mag_est_projection mag_est) in
        if Rlt_b kMaxAllowedMagDeviationRadians angle_between_est_and_meas then
          let f :=
            set_accumulated_num_of_outlier_mag_measurement_ f
              (accumulated_num_of_outlier_mag_measurement_ f + 1)%Z in
          if (kNumMagForFilterOutlierRejection
              <? accumulated_num_of_outlier_mag_measurement_ f)%Z
          then
            let f := set_mag_status_ f kAligning in
            let f := set_state_from_previous_mag_ f (state_ f) in
            let f := set_mag_meas_for_init_index_ f 0 in
            let f := BadMagnetometerCalibrationDetectedBroadcast f in
            let f := set_accumulated_num_of_outlier_mag_measurement_ f 0 in
            (rate_correction_vector, f)
          else (rate_correction_vector, f)
        else
          let rate_correction_vector :=
            add3 rate_correction_vector
                 (scale3 (mag_yaw_correction_gain (config_ f))
                         (cross3 mag_meas mag_est)) in
          let f := set_accumulated_num_of_outlier_mag_measurement_ f 0 in
          (rate_correction_vector, f)
    | _ => (rate_correction_vector, f)
    end.

(** ComputeAccelAndMagRateCorrection: the vector returned and the
    filter. *)
Definition ComputeAccelAndMagRateCorrection (f : t) : Vector3d * t :=
  let accel_meas := SensorSample.sample (current_accel_measurement_ f) in
  let accel_magnitude := norm3 accel_meas in
  if Rlt_b accel_magnitude (1 / 10 ^ 6) then (Zero3, f)
  else
    let accel_meas := normalized3 accel_meas in
    let L_R_G_accel_aligned := QuaternionToRotationMatrix (quaternion (state_ f)) in
    let accel_est := col2 L_R_G_accel_aligned in
    let gain := 1 in
    let gyro_norm := norm3 (SensorSample.sample (current_gyro_measurement_ f)) in
    let gain :=
      if negb (IsInitializing f) then
        let gain := gain / (1 + Rabs (accel_magnitude - kMagnitudeOfGravity)) in
        gain * Rmax 0 (Rmin 1 (15 / 10 - 5 * gyro_norm))
      else gain * Rmax 0 (Rmin 1 (15 / 10 - 15 * gyro_norm)) in
    let rate_correction_vector :=
      scale3 (gain / 2 * accel_yaw_correction_gain (config_ f))
             (cross3 accel_meas accel_est) in
    if mag_is_available_ f && current_mag_sample_fits_calibration_ f
       && Rlt_b 0 (mag_yaw_correction_gain (config_ f))
       && Rlt_b 0 (SensorSample.timestamp_s (current_mag_measurement_ f))
    then MagRateCorrection f accel_meas accel_est L_R_G_accel_aligned
                           rate_correction_vector
    else (rate_correction_vector, f).

(** FilterPropagate. *)
Definition FilterPropagate (f : t) : t :=
  let delta_t :=
    SensorSample.timestamp_s (current_gyro_measurement_ f)
    - SensorSample.timestamp_s (previous_gyro_measurement_ f) in
  if negb (IsTimestampDeltaValid delta_t) then f
  else
    let f :=
      if mag_is_available_ f then
        let gyro_time_ahead :=
          SensorSample.timestamp_s (current_gyro_measurement_ f)
          - SensorSample.timestamp_s (current_mag_measurement_ f) in
        if Rlt_b kMaxTimeDifferentInMagAndGyroInSeconds gyro_time_ahead
        then set_mag_is_available_ f false
        else f
      else f in
    let gyro_measurements :=
      {| head3 := SensorSample.sample (previous_gyro_measurement_ f);
         tail3 := SensorSample.sample (current_gyro_measurement_ f) |} in
    let '(rate_correction, f) := ComputeAccelAndMagRateCorrection f in
    let shift :=
      add3 (neg3 (gyro_bias (state_ f)))
           (scale3 (if IsInitializing f
                    then attitude_correction_gain_during_initialization (config_ f)
                    else attitude_correction_gain (config_ f))
                   rate_correction) in
    let gyro_measurements :=
      {| head3 := add3 (head3 gyro_measurements) shift;
         tail3 := add3 (tail3 gyro_measurements) shift |} in
    let current_q := quaternion (state_ f) in
    let next_q := Integrate current_q gyro_measurements delta_t in
    let f :=
      set_next_state_ f
        {| quaternion := next_q;
           gyro_bias :=
             sub3 (gyro_bias (state_ f))
                  (scale3 ((if IsInitializing f then 0
                            else gyroscope_bias_correction_gain (config_ f))
                           * delta_t)
                          rate_correction) |} in
    let f :=
      if IsStationaryBiasCorrectionEnabled f then
        let '(correction, detector) :=
          GetGyroBiasCorrection
            (stationary_detector_ f) (gyro_bias (next_state_ f))
            (SensorSample.timestamp_s (current_gyro_measurement_ f)) in
        let f := set_stationary_detector_ f detector in
        set_next_state_ f
          {| quaternion := quaternion (next_state_ f);
             gyro_bias := sub3 (gyro_bias (next_state_ f)) (scale3 delta_t correction) |}
      else f in
    let f := set_state_ f (next_state_ f) in
    if mag_is_available_ f then
      let mag_delta_t :=
        SensorSample.timestamp_s (current_mag_measurement_ f)
        - SensorSample.timestamp_s (previous_mag_measurement_ f) in
      let f :=
        if negb (IsStationaryBiasCorrectionEnabled f) then
          let '(mag_correction, f) := EstimateBiasUpdateUsingMag f in
          set_gyro_bias f
            (sub3 (gyro_bias (state_ f))
                  (scale3 (mag_delta_t
                           * magnetometer_gain_for_gyroscope_bias_estimation (config_ f))
                          mag_correction))
        else f in
      let f := set_state_from_previous_mag_ f (state_ f) in
      set_mag_is_available_ f false
    else f.

(** Run. *)
Definition Run (f : t) : t :=
  let f :=
    if negb (is_orientation_initialized_ f)
       && Rlt_b 0 (SensorSample.timestamp_s (current_accel_measurement_ f))
       && (match init_config (config_ f) with
           | kDontUseMagToInitOrientation => true
           | kUseMagToInitOrientation => false
           end
           || Rlt_b 0 (SensorSample.timestamp_s (current_mag_measurement_ f)))
    then
      let '(initialized, f) := OrientationFromAccelAndMag f in
      set_is_orientation_initialized_ f initialized
    else f in
  if is_orientation_initialized_ f then FilterPropagate f else f.

(** AddAccelMeasurement. *)
Definition AddAccelMeasurement (f : t) (sample : Vector3d) (timestamp_s : R) : t :=
  let f :=
    if Req_b (first_accel_timestamp_s_ f) 0 then
      let f := set_first_accel_timestamp_s_ f timestamp_s in
      if is_orientation_initialized_ f then
        let g_from_acc := normalized3 sample in
        let g_est := ComputeGravityEstimate f in
        let dot_product := dot3 g_from_acc g_est in
        let dot_product :=
          if Rlt_b 1 (Rabs dot_product)
          then (if Rlt_b 0 dot_product then 1 else -1)
          else dot_product in
        let angular_error_deg := 180 / PI * acos dot_product in
        if Rlt_b 44 (Rabs angular_error_deg) then
          let correction_quat := RotateInto g_est g_from_acc in
          set_quaternion f
            (QuaternionMultiplication correction_quat (quaternion (state_ f)))
        else f
      else f
    else f in
  let f :=
    set_current_accel_measurement_ f
      {| SensorSample.sample := sample; SensorSample.timestamp_s := timestamp_s |} in
  let f :=
    if IsStationaryBiasCorrectionEnabled f then
      set_stationary_detector_ f
        (DetectorAddAccelMeasurement
           (stationary_detector_ f)
           (SensorSample.sample (current_accel_measurement_ f)) timestamp_s)
    else f in
  if negb (has_received_gyro_sample_ f) then
    let f :=
      set_current_gyro_measurement_ f
        {| SensorSample.sample := Zero3; SensorSample.timestamp_s := timestamp_s |} in
    Run f
  else f.

(** AddGyroMeasurement. *)
Definition AddGyroMeasurement (f : t) (sample : Vector3d) (timestamp_s : R) : t :=
  let f :=
    set_current_gyro_measurement_ f
      {| SensorSample.sample := sample; SensorSample.timestamp_s := timestamp_s |} in
  let f :=
    if IsStationaryBiasCorrectionEnabled f then
      set_stationary_detector_ f
        (DetectorAddGyroMeasurement
           (stationary_detector_ f)
           (SensorSample.sample (current_gyro_measurement_ f)) timestamp_s)
    else f in
  let delta_t_s :=
    timestamp_s - SensorSample.timestamp_s (previous_gyro_measurement_ f) in
  let f :=
    if IsTimestampDeltaValid delta_t_s then
      let f :=
        if negb (has_received_gyro_sample_ f)
        then set_has_received_gyro_sample_ f true
        else f in
      Run f
    else f in
  set_previous_gyro_measurement_ f (current_gyro_measurement_ f).



End Members.

End OrientationFilter.

(** * Vocabulary for the properties of the orientation filter *)

Module OrientationFilterSpec.

Import Orientation.
Import Geometry.
Import GeometrySpec.
Import OrientationFilter.
Local Open Scope R_scope.




(** A low-pass filter that has taken no sample and a stationary detector
    that is never stationary, for examples in which the filter does not
    depend on them. *)
#[export] Instance idle_low_pass_filter : LowPassFilterOps unit :=
  {| NewLowPassFilter := fun _ => tt;
     AddSampleData := fun l _ _ => l;
     IsInitialized := fun _ => false;
     GetFilteredData := fun _ => Zero3;
     SetIsStatic := fun l _ => l;
     GetIsStaticForN := fun _ _ => false |}.

#[export] Instance idle_stationary_detector : StationaryDetectorOps unit :=
  {| NewStationaryDetector := fun _ => tt;
     DetectorAddAccelMeasurement := fun d _ _ => d;
     DetectorAddGyroMeasurement := fun d _ _ => d;
     GetGyroBiasCorrection := fun d _ _ => (Zero3, d) |}.


End OrientationFilterSpec.

(** * Properties of the atom engine *)

Module Mp4Facts.

Import Mp4.
Local Open Scope Z_scope.

(** ** Bytes *)

Lemma Z_of_byte_range (b : byte) : 0 <= Z_of_byte b < 256.
Proof.
  unfold Z_of_byte. pose proof (Byte.to_N_bounded b). lia.
Qed.

Lemma byte_of_Z_of_byte (b : byte) : byte_of_Z (Z_of_byte b) = b.
Proof.
  unfold byte_of_Z. pose proof (Z_of_byte_range b) as Hr.
  rewrite Z.mod_small by lia. unfold Z_of_byte. rewrite N2Z.id.
  now rewrite Byte.of_to_N.
Qed.

Lemma Z_of_byte_of_Z (v : Z) : Z_of_byte (byte_of_Z v) = v mod 256.
Proof.
  unfold byte_of_Z, Z_of_byte.
  pose proof (Z.mod_pos_bound v 256 ltac:(lia)) as Hr.
  destruct (Byte.of_N (Z.to_N (v mod 256))) eqn:E.
  - apply Byte.to_of_N in E. rewrite E. lia.
  - apply Byte.of_N_None_iff in E. lia.
Qed.

Lemma len_nonneg {A} (l : list A) : 0 <= len l.
Proof. unfold len. lia. Qed.

Lemma len_app {A} (l1 l2 : list A) : len (l1 ++ l2) = len l1 + len l2.
Proof. unfold len. rewrite length_app. lia. Qed.

Lemma len_cons {A} (x : A) (l : list A) : len (x :: l) = 1 + len l.
Proof. unfold len. simpl List.length. lia. Qed.

Lemma len_nil {A} : len (@nil A) = 0.
Proof. reflexivity. Qed.

Lemma len_be_bytes (n : nat) (v : Z) : len (be_bytes n v) = Z.of_nat n.
Proof.
  unfold len. f_equal. induction n; simpl; congruence.
Qed.

Lemma be_value_snoc (bs : list byte) (b : byte) :
  be_value (bs ++ [b]) = be_value bs * 256 + Z_of_byte b.
Proof. unfold be_value. now rewrite fold_left_app. Qed.

Lemma be_value_fold (bs : list byte) (acc : Z) :
  fold_left (fun acc b => acc * 256 + Z_of_byte b) bs acc
  = acc * 2 ^ (8 * len bs) + be_value bs.
Proof.
  revert acc. induction bs as [|b bs IH]; intro acc.
  - simpl. change (len (@nil byte)) with 0. simpl. unfold be_value. simpl. lia.
  - unfold be_value. cbn [fold_left]. rewrite IH, (IH (0 * 256 + Z_of_byte b)).
    rewrite len_cons.
    replace (8 * (1 + len bs)) with (8 + 8 * len bs) by lia.
    rewrite Z.pow_add_r by (pose proof (len_nonneg bs); lia).
    change (2 ^ 8) with 256. unfold be_value. lia.
Qed.

Lemma be_value_cons (b : byte) (bs : list byte) :
  be_value (b :: bs) = Z_of_byte b * 2 ^ (8 * len bs) + be_value bs.
Proof.
  unfold be_value at 1. cbn [fold_left]. rewrite be_value_fold. lia.
Qed.

Lemma be_value_range (bs : list byte) : 0 <= be_value bs < 2 ^ (8 * len bs).
Proof.
  induction bs as [|b bs IH].
  - unfold be_value. simpl. change (len (@nil byte)) with 0. simpl. lia.
  - rewrite be_value_cons, len_cons.
    pose proof (Z_of_byte_range b). pose proof (len_nonneg bs).
    replace (8 * (1 + len bs)) with (8 + 8 * len bs) by lia.
    rewrite Z.pow_add_r by lia. change (2 ^ 8) with 256.
    assert (0 < 2 ^ (8 * len bs)) by (apply Z.pow_pos_nonneg; lia).
    nia.
Qed.

(** Decoding what was encoded gives the value modulo 2^(8n). *)
Lemma be_value_be_bytes (n : nat) (v : Z) :
  be_value (be_bytes n v) = v mod 2 ^ (8 * Z.of_nat n).
Proof.
  induction n as [|n IH].
  - simpl. unfold be_value. simpl. now rewrite Z.mod_1_r.
  - cbn [be_bytes]. rewrite be_value_cons, IH, len_be_bytes, Z_of_byte_of_Z.
    set (k := 8 * Z.of_nat n).
    replace (8 * Z.of_nat (S n)) with (k + 8) by lia.
    assert (0 <= k) by lia.
    assert (0 < 2 ^ k) by (apply Z.pow_pos_nonneg; lia).
    rewrite Z.pow_add_r by lia. change (2 ^ 8) with 256.
    rewrite Z.rem_mul_r by lia. lia.
Qed.

Lemma be_bytes_add_high (m : nat) (L c w : Z) :
  Z.of_nat m <= L ->
  be_bytes m (c * 2 ^ (8 * L) + w) = be_bytes m w.
Proof.
  induction m as [|m IHm]; intros Hm; [reflexivity|].
  cbn [be_bytes]. rewrite IHm by lia. f_equal.
  unfold byte_of_Z. do 2 f_equal.
  set (k := 8 * Z.of_nat m).
  replace (8 * L) with (k + (8 + 8 * (L - Z.of_nat m - 1))) by lia.
  rewrite !Z.pow_add_r by lia. change (2 ^ 8) with 256.
  assert (0 < 2 ^ k) by (apply Z.pow_pos_nonneg; lia).
  replace (c * (2 ^ k * (256 * 2 ^ (8 * (L - Z.of_nat m - 1)))) + w)
    with (w + (c * 256 * 2 ^ (8 * (L - Z.of_nat m - 1))) * 2 ^ k) by ring.
  rewrite Z.div_add by lia.
  replace (c * 256 * 2 ^ (8 * (L - Z.of_nat m - 1)))
    with (c * 2 ^ (8 * (L - Z.of_nat m - 1)) * 256) by ring.
  now rewrite Z.mod_add by lia.
Qed.

(** Encoding what was decoded gives the bytes back. *)
Lemma be_bytes_be_value (bs : list byte) :
  be_bytes (List.length bs) (be_value bs) = bs.
Proof.
  induction bs as [|b bs IH].
  - reflexivity.
  - cbn [be_bytes List.length]. rewrite be_value_cons.
    pose proof (be_value_range bs) as Hr. pose proof (Z_of_byte_range b) as Hb.
    fold (len bs).
    assert (0 < 2 ^ (8 * len bs)) by (apply Z.pow_pos_nonneg; pose proof (len_nonneg bs); lia).
    f_equal.
    + rewrite Z.div_add_l by lia. rewrite Z.div_small by lia.
      rewrite Z.add_0_r. apply byte_of_Z_of_byte.
    + rewrite be_bytes_add_high by (unfold len; lia). exact IH.
Qed.

(** ** Atom::AddChildAt and Atom::DeleteChild *)

(** C10.  AddChildAt with an index outside [0, NumChildren()] gives back the
    atom as it was (children, data_size and header_size included) and drops
    the child; DeleteChild with an index outside [0, NumChildren()) returns
    nullptr and gives back the atom as it was.  Neither has a status to
    return: the result types are the atom, and the deleted child. *)
Theorem child_index_out_of_bounds (a child : Atom) (i : Z) :
  (i < 0 \/ NumChildren a < i ->
   AddChildAt a child i = a
   /\ children_ (AddChildAt a child i) = children_ a
   /\ data_size (AddChildAt a child i) = data_size a
   /\ header_size (AddChildAt a child i) = header_size a)
  /\ (i < 0 \/ NumChildren a <= i ->
      DeleteChild a i = (None, a)).
Proof.
  split; intros H.
  - assert (E : AddChildAt a child i = a).
    { unfold AddChildAt.
      destruct (i <? 0) eqn:E1; [reflexivity|].
      destruct (i >? NumChildren a) eqn:E2; [reflexivity|]. lia. }
    now rewrite E.
  - unfold DeleteChild.
    destruct (i <? 0) eqn:E1; [reflexivity|].
    destruct (i >=? NumChildren a) eqn:E2; [reflexivity|]. lia.
Qed.

Lemma child_index_out_of_bounds_witness :
  AddChildAt (CreateAtom 8 0 "moov") (CreateAtom 8 0 "free") 1 = CreateAtom 8 0 "moov"
  /\ DeleteChild (CreateAtom 8 0 "moov") 1 = (None, CreateAtom 8 0 "moov").
Proof.
  destruct (child_index_out_of_bounds (CreateAtom 8 0 "moov") (CreateAtom 8 0 "free") 1)
    as [H1 H2].
  split.
  - apply H1. right. vm_compute. reflexivity.
  - apply H2. right. vm_compute. intro E. discriminate E.
Defined.

(** ** AtomSDTP::PopulateFromKeyFrameIndices *)

Lemma PopulateLoop_spec (n : nat) :
  forall (pre post : list Z) (i : Z) (acc : list Z),
    Forall (fun x => x <= i) pre ->
    StronglySorted Z.lt post ->
    Forall (fun x => i < x <= UINT32_MAX) post ->
    0 <= i -> i + Z.of_nat n <= UINT32_MAX ->
    exists new,
      PopulateLoop (pre ++ post) n i (len pre) acc = acc ++ new
      /\ List.length new = n
      /\ forall j, (j < n)%nat ->
           (In (i + Z.of_nat j + 1) (pre ++ post) -> nth j new 0 = kIFrameDescription)
           /\ (~ In (i + Z.of_nat j + 1) (pre ++ post) -> nth j new 0 = kPFrameDescription).
Proof.
  induction n as [|n IH]; intros pre post i acc Hpre Hs Hpost Hi Hn.
  - exists []. cbn. rewrite app_nil_r. repeat split; intros; lia.
  - cbn [PopulateLoop].
    assert (Hnth : nth (Z.to_nat (len pre)) (pre ++ post) 0 = hd 0 post).
    { unfold len. rewrite Nat2Z.id, app_nth2 by lia.
      rewrite Nat.sub_diag. now destruct post. }
    rewrite Hnth.
    destruct post as [|x post'].
    + (* no key frame left *)
      cbn [hd]. change (uint32_t (0 - 1)) with UINT32_MAX.
      destruct (i =? UINT32_MAX) eqn:E; [lia|].
      assert (Hpre1 : Forall (fun x => x <= i + 1) pre).
      { eapply Forall_impl; [|exact Hpre]. cbn. intros; lia. }
      destruct (IH pre [] (i + 1) (acc ++ [kPFrameDescription])
                   Hpre1 Hs (Forall_nil _) ltac:(lia) ltac:(lia))
        as (new & E1 & E2 & E3).
      exists (kPFrameDescription :: new). rewrite E1, <- app_assoc.
      split; [reflexivity|]. split; [cbn; lia|].
      intros [|j] Hj.
      * split; [|reflexivity]. rewrite app_nil_r. intro Hin.
        rewrite Forall_forall in Hpre. apply Hpre in Hin. lia.
      * replace (i + Z.of_nat (S j) + 1) with (i + 1 + Z.of_nat j + 1) by lia.
        apply E3. lia.
    + cbn [hd].
      inversion Hpost as [|? ? Hx Hpost']; subst.
      inversion Hs as [|? ? Hs' Hlt]; subst.
      assert (Eu : uint32_t (x - 1) = x - 1).
      { unfold uint32_t. apply Z.mod_small. unfold UINT32_MAX in *. lia. }
      rewrite Eu.
      destruct (i =? x - 1) eqn:E.
      * (* a key frame *)
        assert (x = i + 1) by lia. subst x.
        assert (Hpre1 : Forall (fun x => x <= i + 1) (pre ++ [i + 1])).
        { apply Forall_app. split.
          - eapply Forall_impl; [|exact Hpre]. cbn. intros; lia.
          - constructor; [lia|constructor]. }
        assert (Hpost1 : Forall (fun x => i + 1 < x <= UINT32_MAX) post').
        { rewrite Forall_forall in *. intros y Hy.
          specialize (Hlt y Hy). specialize (Hpost' y Hy). lia. }
        destruct (IH (pre ++ [i + 1]) post' (i + 1) (acc ++ [kIFrameDescription])
                     Hpre1 Hs' Hpost1 ltac:(lia) ltac:(lia))
          as (new & E1 & E2 & E3).
        rewrite len_app in E1. change (len [i + 1]) with 1 in E1.
        rewrite <- app_assoc in E1. cbn [app] in E1.
        exists (kIFrameDescription :: new). rewrite E1, <- app_assoc.
        split; [reflexivity|]. split; [cbn; lia|].
        intros [|j] Hj.
        -- split; [reflexivity|]. intro Hnin. exfalso. apply Hnin.
           apply in_or_app. right. left. lia.
        -- replace (i + Z.of_nat (S j) + 1) with (i + 1 + Z.of_nat j + 1) by lia.
           specialize (E3 j ltac:(lia)).
           rewrite <- app_assoc in E3. exact E3.
      * (* not a key frame *)
        assert (Hpre1 : Forall (fun x => x <= i + 1) pre).
        { eapply Forall_impl; [|exact Hpre]. cbn. intros; lia. }
        assert (Hpost1 : Forall (fun y => i + 1 < y <= UINT32_MAX) (x :: post')).
        { constructor; [lia|].
          rewrite Forall_forall in *. intros y Hy.
          specialize (Hlt y Hy). specialize (Hpost' y Hy). lia. }
        destruct (IH pre (x :: post') (i + 1) (acc ++ [kPFrameDescription])
                     Hpre1 Hs Hpost1 ltac:(lia) ltac:(lia))
          as (new & E1 & E2 & E3).
        exists (kPFrameDescription :: new). rewrite E1, <- app_assoc.
        split; [reflexivity|]. split; [cbn; lia|].
        intros [|j] Hj.
        -- split; [|reflexivity]. intro Hin. exfalso.
           apply in_app_or in Hin. destruct Hin as [Hin|[Hin|Hin]].
           ++ rewrite Forall_forall in Hpre. apply Hpre in Hin. lia.
           ++ lia.
           ++ rewrite Forall_forall in Hlt. apply Hlt in Hin. lia.
        -- replace (i + Z.of_nat (S j) + 1) with (i + 1 + Z.of_nat j + 1) by lia.
           apply E3. lia.
Qed.

(** C9.  For a non-empty, strictly increasing list of 1-based key-frame
    indices (uint32_t values) whose last element is n,
    PopulateFromKeyFrameIndices leaves exactly n frame-description bytes,
    byte i being 0x20 when i+1 is in the list and 0x18 otherwise; the list
    [1, 13, 25] gives 25 bytes with 0x20 at positions 0, 12 and 24. *)
Theorem PopulateFromKeyFrameIndices_spec (a : Atom) (indices : list Z) (n : Z) :
  typeid a = AtomSDTP ->
  indices <> [] ->
  StronglySorted Z.lt indices ->
  Forall (fun k => 1 <= k <= UINT32_MAX) indices ->
  last indices 0 = n ->
  let fd := frame_description (PopulateFromKeyFrameIndices a indices) in
  len fd = n
  /\ (forall i, 0 <= i < n ->
        (In (i + 1) indices -> nth (Z.to_nat i) fd 0 = 32)
        /\ (~ In (i + 1) indices -> nth (Z.to_nat i) fd 0 = 24))
  /\ frame_description (PopulateFromKeyFrameIndices a [1; 13; 25])
     = [32; 24; 24; 24; 24; 24; 24; 24; 24; 24; 24; 24;
        32; 24; 24; 24; 24; 24; 24; 24; 24; 24; 24; 24; 32].
Proof.
  intros Ht Hne Hs Hr Hl fd.
  assert (Hfd : forall l, frame_description (PopulateFromKeyFrameIndices a l)
                          = PopulateLoop l (Z.to_nat (last l 0)) 0 0 []).
  { intro l. unfold PopulateFromKeyFrameIndices, frame_description, typeid in *.
    destruct (fields a) as [| [] | | | | | | | | | | |]; try discriminate Ht.
    reflexivity. }
  assert (Hn : 1 <= n <= UINT32_MAX).
  { rewrite Forall_forall in Hr. apply Hr. subst n.
    destruct indices as [|x l]; [congruence|].
    clear. revert x. induction l as [|y l IH]; intro x; [now left|].
    right. apply IH. }
  assert (Hr0 : Forall (fun x => 0 < x <= UINT32_MAX) indices).
  { eapply Forall_impl; [|exact Hr]. cbn. intros; lia. }
  destruct (PopulateLoop_spec (Z.to_nat n) [] indices 0 []
              (Forall_nil _) Hs Hr0 ltac:(lia) ltac:(lia))
    as (new & E1 & E2 & E3).
  cbn [app] in E1.
  change (len (@nil Z)) with 0 in E1.
  subst fd. rewrite Hfd, Hl, E1.
  split; [unfold len; lia|]. split.
  - intros i Hi. specialize (E3 (Z.to_nat i) ltac:(lia)).
    cbn [app] in E3. rewrite Z2Nat.id in E3 by lia. exact E3.
  - rewrite Hfd. reflexivity.
Qed.

Lemma PopulateFromKeyFrameIndices_spec_witness :
  let fd := frame_description
              (PopulateFromKeyFrameIndices (CreateAtom 8 0 "sdtp") [2; 3]) in
  len fd = 3
  /\ (forall i, 0 <= i < 3 ->
        (In (i + 1) [2; 3] -> nth (Z.to_nat i) fd 0 = 32)
        /\ (~ In (i + 1) [2; 3] -> nth (Z.to_nat i) fd 0 = 24)).
Proof.
  pose proof (PopulateFromKeyFrameIndices_spec (CreateAtom 8 0 "sdtp") [2; 3] 3) as H.
  cbv zeta in H |- *.
  refine ((fun P => conj (proj1 P) (proj1 (proj2 P))) (H _ _ _ _ _)).
  - reflexivity.
  - discriminate.
  - repeat constructor.
  - repeat constructor; vm_compute; discriminate.
  - reflexivity.
Defined.

(** ** AtomSTCO::AdjustChunkOffsets *)

Import Mp4Spec.

Lemma fields_UpdateSize (a : Atom) : fields (UpdateSize a) = fields a.
Proof. reflexivity. Qed.

Lemma atom_type_UpdateSize (a : Atom) : atom_type (UpdateSize a) = atom_type a.
Proof. reflexivity. Qed.

Lemma children_UpdateSize (a : Atom) : children_ (UpdateSize a) = children_ a.
Proof. reflexivity. Qed.

Lemma data_size_UpdateSize (a : Atom) :
  data_size (UpdateSize a)
  = uint64_t (GetDataSizeWithoutChildren a + children_size (children_ a)
              + (if has_null_terminator_ a then 4 else 0)).
Proof. reflexivity. Qed.

Lemma header_size_UpdateSize (a : Atom) :
  header_size (UpdateSize a)
  = if uint64_t (8 + data_size (UpdateSize a)) >? UINT32_MAX then 16 else 8.
Proof.
  unfold UpdateSize, ComputeHeaderSize, header_size, data_size.
  cbn [header_size_ data_size_ set_header_size set_data_size].
  unfold kSizeOf32bitSize, kAtomTypeSize. cbn [Z.add Pos.add].
  destruct (_ >? _); reflexivity.
Qed.

Lemma be_bytes_mod (n : nat) (m v : Z) :
  Z.of_nat n <= m -> be_bytes n (v mod 2 ^ (8 * m)) = be_bytes n v.
Proof.
  intro H.
  rewrite (Z.div_mod v (2 ^ (8 * m))) at 2 by (apply Z.pow_nonzero; lia).
  rewrite (Z.mul_comm (2 ^ (8 * m))).
  now rewrite be_bytes_add_high.
Qed.

Lemma PutUInt32_uint32_t (v : Z) : PutUInt32 (uint32_t v) = PutUInt32 v.
Proof. apply (be_bytes_mod 4 4). lia. Qed.

Lemma PutUInt32_uint64_t (v : Z) : PutUInt32 (uint64_t v) = PutUInt32 v.
Proof. apply (be_bytes_mod 4 8). lia. Qed.

Lemma PutUInt64_uint64_t (v : Z) : PutUInt64 (uint64_t v) = PutUInt64 v.
Proof. apply (be_bytes_mod 8 8). lia. Qed.

Lemma PutUInt16_uint16_t (v : Z) : PutUInt16 (uint16_t v) = PutUInt16 v.
Proof. apply (be_bytes_mod 2 2). lia. Qed.

Lemma PutUInt8_uint8_t (v : Z) : PutUInt8 (uint8_t v) = PutUInt8 v.
Proof. apply (be_bytes_mod 1 1). lia. Qed.

(** One call: the delta is accumulated, the offsets and their maximum stay,
    and the type becomes co64 if the new maximum does not fit 32 bits. *)
Lemma AdjustChunkOffsets_step (a : Atom) (fa : FullAtom) (offs : list Z) (d m x : Z) :
  fields a = STCOFields fa offs d m ->
  fields (AdjustChunkOffsets a x) = STCOFields fa offs (int64_t (d + x)) m
  /\ atom_type (AdjustChunkOffsets a x)
     = (if int64_t (m + int64_t (d + x)) >? UINT32_MAX then kType64 else atom_type a).
Proof.
  intro Hf. unfold AdjustChunkOffsets. rewrite Hf.
  unfold ReviewAtomType. cbn [fields set_fields].
  destruct (int64_t (m + int64_t (d + x)) >? UINT32_MAX); split; reflexivity.
Qed.

Lemma AdjustChunkOffsets_all (adjustments : list Z) :
  forall (a : Atom) (fa : FullAtom) (offs : list Z) (d m : Z),
    fields a = STCOFields fa offs d m ->
    let a' := fold_left AdjustChunkOffsets adjustments a in
    fields a' = STCOFields fa offs (accumulated_delta d adjustments) m
    /\ (atom_type a' = kType64 <->
        atom_type a = kType64
        \/ exists k, (0 < k <= List.length adjustments)%nat
             /\ int64_t (m + accumulated_delta d (firstn k adjustments)) > UINT32_MAX)
    /\ (atom_type a' = atom_type a \/ atom_type a' = kType64).
Proof.
  induction adjustments as [|x l IH]; intros a fa offs d m Hf; cbn zeta.
  - cbn. split; [exact Hf|]. split; [|now left].
    split; [now left|]. intros [H|(k & Hk & _)]; [exact H|cbn in Hk; lia].
  - cbn [fold_left].
    destruct (AdjustChunkOffsets_step a fa offs d m x Hf) as [Hf1 Ht1].
    destruct (IH _ _ _ _ _ Hf1) as (Hf' & Hiff & Hor).
    split; [exact Hf'|]. split.
    + rewrite Hiff, Ht1. split.
      * intros [H|(k & Hk & Hgt)].
        -- destruct (int64_t (m + int64_t (d + x)) >? UINT32_MAX) eqn:E.
           ++ right. exists 1%nat. cbn. split; [lia|]. lia.
           ++ now left.
        -- right. exists (S k). cbn [List.length firstn]. split; [lia|exact Hgt].
      * intros [H|(k & Hk & Hgt)].
        -- left. destruct (_ >? _); [reflexivity|exact H].
        -- destruct k as [|k]; [lia|]. cbn [firstn] in Hgt.
           destruct k as [|k].
           ++ left. cbn in Hgt.
              destruct (int64_t (m + int64_t (d + x)) >? UINT32_MAX) eqn:E;
                [reflexivity|lia].
           ++ right. exists (S k). cbn [List.length] in Hk. split; [lia|exact Hgt].
    + rewrite Ht1 in Hor.
      destruct (int64_t (m + int64_t (d + x)) >? UINT32_MAX);
        destruct Hor as [H|H]; auto.
Qed.

(** C5 (as amended).  After any sequence of AdjustChunkOffsets calls the
    atom writes each stored chunk offset increased by the accumulated delta,
    as 4-byte entries when its type is stco and as 8-byte entries otherwise,
    each entry holding the sum modulo 2^32 or 2^64.  The type is co64 exactly
    when it was co64 to begin with or max_chunk_offset plus the delta
    accumulated so far exceeded 2^32-1 after one of the calls: the promotion
    is never undone. *)
Theorem AdjustChunkOffsets_spec (st : Streams) (a : Atom) (adjustments : list Z) :
  typeid a = AtomSTCO ->
  let a' := fold_left AdjustChunkOffsets adjustments a in
  let delta := accumulated_delta (moov_size_delta a) adjustments in
  (atom_type a' = kType64 <->
   atom_type a = kType64
   \/ exists k, (0 < k <= List.length adjustments)%nat
        /\ int64_t (max_chunk_offset a
                    + accumulated_delta (moov_size_delta a) (firstn k adjustments))
           > UINT32_MAX)
  /\ (atom_type a' = atom_type a \/ atom_type a' = kType64)
  /\ chunk_offsets a' = chunk_offsets a
  /\ moov_size_delta a' = delta
  /\ exists fa,
       full_atom a = Some fa
       /\ WriteDataWithoutChildren st a'
          = (OK, VersionAndFlags fa ++ PutUInt32 (len (chunk_offsets a))
                 ++ List.concat
                      (map (fun o => be_bytes (if String.eqb (atom_type a') kType32
                                               then 4 else 8) (o + delta))
                           (chunk_offsets a))).
Proof.
  intros Ht a' delta.
  assert (Hf : exists fa offs d m, fields a = STCOFields fa offs d m).
  { unfold typeid in Ht.
    destruct (fields a) as [| [] | | | | | | | | | | |]; try discriminate Ht.
    eauto. }
  destruct Hf as (fa & offs & d & m & Hf).
  destruct (AdjustChunkOffsets_all adjustments a fa offs d m Hf) as (Hf' & Hiff & Hor).
  fold a' in Hf', Hiff, Hor.
  unfold max_chunk_offset, moov_size_delta, chunk_offsets, full_atom in *.
  subst delta. rewrite Hf, Hf'.
  split; [exact Hiff|]. split; [exact Hor|].
  split; [reflexivity|]. split; [reflexivity|].
  exists fa. split; [reflexivity|].
  unfold WriteDataWithoutChildren. rewrite Hf'. unfold emit, OkStatus.
    rewrite PutUInt32_uint32_t.
    destruct (String.eqb (atom_type a') kType32); do 4 f_equal;
      apply map_ext; intro o.
    + now rewrite PutUInt32_uint32_t, PutUInt32_uint64_t.
    + now rewrite PutUInt64_uint64_t.
Qed.

Lemma AdjustChunkOffsets_spec_witness :
  let a := Examples.stco_atom in
  let a' := fold_left AdjustChunkOffsets [1; -1] a in
  atom_type a' = kType64
  /\ moov_size_delta a' = 0
  /\ chunk_offsets a' = [UINT32_MAX].
Proof.
  pose proof (AdjustChunkOffsets_spec Examples.no_streams Examples.stco_atom [1; -1]
                ltac:(reflexivity)) as H.
  cbv zeta in H |- *.
  destruct H as (H1 & _ & H3 & H4 & _).
  split; [|split].
  - apply H1. right. exists 1%nat. split; [cbn; lia|]. vm_compute. reflexivity.
  - rewrite H4. reflexivity.
  - rewrite H3. reflexivity.
Defined.

(** C5, as stated, fails: an stco atom with the chunk offset 2^32-1 is
    promoted to co64 by AdjustChunkOffsets(1) and stays co64 after
    AdjustChunkOffsets(-1), when max_chunk_offset + delta is 2^32-1 again
    and does not exceed the bound. *)
Lemma stco_promotion_is_not_undone :
  let a := fold_left AdjustChunkOffsets [1; -1] Examples.stco_atom in
  typeid a = AtomSTCO
  /\ ~ (atom_type a = kType64 <->
        max_chunk_offset a + moov_size_delta a > UINT32_MAX).
Proof.
  cbv zeta. split; [reflexivity|].
  intros [H _]. specialize (H ltac:(reflexivity)).
  vm_compute in H. discriminate H.
Qed.

(** ** Reading back what was written *)

Lemma drop_app_len {A} (pre l : list A) : drop (len pre) (pre ++ l) = l.
Proof.
  unfold drop, len. rewrite Nat2Z.id, skipn_app, Nat.sub_diag, skipn_all.
  reflexivity.
Qed.

Lemma take_app_len {A} (l post : list A) : take (len l) (l ++ post) = l.
Proof.
  unfold take, len. rewrite Nat2Z.id, firstn_app, Nat.sub_diag, firstn_all.
  cbn. now rewrite app_nil_r.
Qed.

Lemma reads_to_ReadBytes (bs : list byte) : reads_to (ReadBytes (len bs)) bs bs.
Proof.
  intros pre post. unfold ReadBytes.
  pose proof (len_nonneg pre). pose proof (len_nonneg bs). pose proof (len_nonneg post).
  rewrite !len_app.
  destruct (0 <=? len pre) eqn:E1; [|lia].
  destruct (0 <=? len bs) eqn:E2; [|lia].
  destruct (len pre + len bs <=? len pre + (len bs + len post)) eqn:E3; [|lia].
  cbn [andb]. unfold slice. now rewrite drop_app_len, take_app_len.
Qed.

Lemma reads_to_ret {A} (v : A) : reads_to (rret v) [] v.
Proof. intros pre post. unfold rret. cbn. f_equal. change (len (@nil byte)) with 0. lia. Qed.

Lemma reads_to_bind {A B} (r : Reader A) (k : A -> Reader B)
      (b1 b2 : list byte) (v : A) (w : B) :
  reads_to r b1 v -> reads_to (k v) b2 w ->
  reads_to (rbind r k) (b1 ++ b2) w.
Proof.
  intros H1 H2 pre post. unfold rbind.
  rewrite <- app_assoc, H1.
  specialize (H2 (pre ++ b1) post).
  rewrite <- app_assoc, len_app in H2. rewrite H2, len_app. f_equal. lia.
Qed.

Lemma reads_to_be (n : nat) (v : Z) :
  reads_to (bs <- ReadBytes (Z.of_nat n) ;; rret (be_value bs)) (be_bytes n v)
           (v mod 2 ^ (8 * Z.of_nat n)).
Proof.
  rewrite <- (app_nil_r (be_bytes n v)).
  eapply reads_to_bind.
  - rewrite <- (len_be_bytes n v). apply reads_to_ReadBytes.
  - cbv beta. rewrite be_value_be_bytes. apply reads_to_ret.
Qed.

Lemma reads_to_ReadUInt8 (v : Z) : reads_to ReadUInt8 (PutUInt8 v) (v mod 2 ^ 8).
Proof. exact (reads_to_be 1 v). Qed.
Lemma reads_to_ReadUInt16 (v : Z) : reads_to ReadUInt16 (PutUInt16 v) (v mod 2 ^ 16).
Proof. exact (reads_to_be 2 v). Qed.
Lemma reads_to_ReadUInt24 (v : Z) : reads_to ReadUInt24 (PutUInt24 v) (v mod 2 ^ 24).
Proof. exact (reads_to_be 3 v). Qed.
Lemma reads_to_ReadUInt32 (v : Z) : reads_to ReadUInt32 (PutUInt32 v) (v mod 2 ^ 32).
Proof. exact (reads_to_be 4 v). Qed.
Lemma reads_to_ReadUInt64 (v : Z) : reads_to ReadUInt64 (PutUInt64 v) (v mod 2 ^ 64).
Proof. exact (reads_to_be 8 v). Qed.

Lemma reads_to_read_n {A} (r : Reader A) (enc : A -> list byte) (l : list A) :
  Forall (fun x => reads_to r (enc x) x) l ->
  reads_to (read_n (List.length l) r) (List.concat (map enc l)) l.
Proof.
  induction 1 as [|x l Hx Hl IH]; cbn [List.length read_n map List.concat].
  - apply reads_to_ret.
  - eapply reads_to_bind; [exact Hx|]. cbv beta.
    rewrite <- (app_nil_r (List.concat (map enc l))).
    eapply reads_to_bind; [exact IH|]. apply reads_to_ret.
Qed.

Lemma reads_to_ReadVersionAndFlags (fa : FullAtom) :
  reads_to ReadVersionAndFlags (VersionAndFlags fa)
           {| version_ := version_ fa mod 2 ^ 8; flags_ := flags_ fa mod 2 ^ 24 |}.
Proof.
  unfold ReadVersionAndFlags, VersionAndFlags.
  eapply reads_to_bind; [apply reads_to_ReadUInt8|]. cbv beta.
  rewrite <- (app_nil_r (PutUInt24 _)).
  eapply reads_to_bind; [apply reads_to_ReadUInt24|]. apply reads_to_ret.
Qed.

Lemma int64_t_of_uint64 (v : Z) :
  - 2 ^ 63 <= v < 2 ^ 63 -> int64_t (v mod 2 ^ 64) = v.
Proof.
  intro H. unfold int64_t.
  change (2 ^ 63) with 9223372036854775808 in *.
  change (2 ^ 64) with 18446744073709551616 in *.
  Z.div_mod_to_equations. lia.
Qed.

Lemma int16_t_of_uint16 (v : Z) :
  - 2 ^ 15 <= v < 2 ^ 15 -> int16_t (v mod 2 ^ 16) = v.
Proof.
  intro H. unfold int16_t.
  change (2 ^ 15) with 32768 in *. change (2 ^ 16) with 65536 in *.
  Z.div_mod_to_equations. lia.
Qed.

(** A version 1 entry is read back as it was written. *)
Lemma reads_to_ReadEntry (fa fa' : FullAtom) (e : Entry) :
  version fa = 1 -> version fa' = 1 -> Entry_in_range e ->
  reads_to (ReadEntry fa') (WriteEntry fa e) e.
Proof.
  intros Hv Hv' (Hd & Hm & Hi & Hf).
  unfold ReadEntry, WriteEntry. rewrite Hv, Hv'. cbn [Z.eqb Pos.eqb].
  rewrite PutUInt64_uint64_t, !PutUInt16_uint16_t.
  eapply reads_to_bind.
  { eapply reads_to_bind; [apply reads_to_ReadUInt64|]. cbv beta.
    rewrite <- (app_nil_r (PutUInt64 (media_time e))).
    eapply reads_to_bind; [apply reads_to_ReadUInt64|]. apply reads_to_ret. }
  cbv beta. cbn [fst snd].
  eapply reads_to_bind; [apply reads_to_ReadUInt16|]. cbv beta.
  rewrite <- (app_nil_r (PutUInt16 (media_rate_fraction e))).
  eapply reads_to_bind; [apply reads_to_ReadUInt16|].
  rewrite int64_t_of_uint64, !int16_t_of_uint16 by assumption.
  rewrite Z.mod_small by (unfold UINT64_MAX in Hd; lia).
  destruct e. apply reads_to_ret.
Qed.

(** ** AtomELST::AddEntry *)

(** C8.  AddEntry sets the version to 1 when the entry's segment_duration
    exceeds 2^32-1 or its media_time is outside [-2^31, 2^31-1]; and after
    adding an entry with media_time > 2^31-1, what WriteDataWithoutChildren
    writes is read by ReadDataWithoutChildren, on a new AtomELST with the
    sizes of the written atom, into the same list of entries.  The entries
    hold values of their C++ types, there are fewer than 2^32 of them, and
    the size of the atom fits 64 bits. *)
Theorem AddEntry_version_and_round_trip
        (st : Streams) (sid : nat) (a : Atom) (entry : Entry) :
  typeid a = AtomELST ->
  Forall Entry_in_range (entries a) ->
  Entry_in_range entry ->
  len (entries a) < UINT32_MAX ->
  kConstELSTSize + (len (entries a) + 1) * kEntryV1Size
    + children_size (children_ a) + 4 <= UINT64_MAX ->
  0 <= children_size (children_ a) ->
  let a' := AddEntry a entry in
  (segment_duration entry > UINT32_MAX \/ media_time entry > INT32_MAX
   \/ media_time entry < INT32_MIN -> atom_version a' = 1)
  /\ (media_time entry > INT32_MAX ->
      entries a' = entries a ++ [entry]
      /\ exists payload b,
           WriteDataWithoutChildren st a' = (OK, payload)
           /\ ReadDataWithoutChildren sid
                (NewAtom (header_size a') (data_size a') (atom_type a')
                         (ELSTFields NewFullAtom []))
                payload 0 = ROk b (len payload)
           /\ entries b = entries a').
Proof.
  intros Ht Hes He Hn Hsz Hcs a'.
  assert (Hf : exists fa es, fields a = ELSTFields fa es).
  { unfold typeid in Ht.
    destruct (fields a) as [| [] | | | | | | | | | | |]; try discriminate Ht.
    eauto. }
  destruct Hf as (fa & es & Hf).
  unfold entries in Hes, Hn, Hsz. rewrite Hf in Hes, Hn, Hsz.
  assert (Hpromoted :
            segment_duration entry > UINT32_MAX \/ media_time entry > INT32_MAX
            \/ media_time entry < INT32_MIN ->
            fields a' = ELSTFields {| version_ := 1; flags_ := flags_ fa |} (es ++ [entry])
            /\ header_size a' <> 0
            /\ data_size a'
               = kConstELSTSize + (len es + 1) * kEntryV1Size
                 + children_size (children_ a)
                 + (if has_null_terminator_ a then 4 else 0)
            /\ atom_type a' = atom_type a).
  { intro Hc. subst a'. unfold AddEntry. rewrite Hf.
    assert (Hb : (segment_duration entry >? UINT32_MAX)
                 || (media_time entry >? INT32_MAX)
                 || (media_time entry <? INT32_MIN) = true).
    { apply orb_true_iff. rewrite orb_true_iff.
      destruct Hc as [H|[H|H]]; [left; left|left; right|right]; lia. }
    rewrite Hb. unfold set_version, full_atom. rewrite Hf.
    cbn [fields UpdateSize set_fields with_full_atom ComputeHeaderSize set_data_size
         set_header_size flags_].
    split; [reflexivity|]. split.
    { rewrite header_size_UpdateSize.
      match goal with |- context [if ?c then 16 else 8] => destruct c end; lia. }
    split; [|reflexivity].
    rewrite data_size_UpdateSize.
    unfold GetDataSizeWithoutChildren.
    cbn [fields set_fields has_null_terminator_ children_ UpdateSize
         ComputeHeaderSize set_header_size set_data_size].
    unfold EntrySize, version. cbn [version_]. change (uint8_t 1 =? 1) with true.
    cbv iota. rewrite len_app. change (len [entry]) with 1.
    pose proof (len_nonneg es).
    unfold uint32_t, uint64_t, kConstELSTSize, kEntryV1Size, UINT32_MAX, UINT64_MAX in *.
    rewrite (Z.mod_small (len es + 1)) by lia.
    rewrite (Z.mod_small (8 + (len es + 1) * 20)) by lia.
    destruct (has_null_terminator_ a); rewrite Z.mod_small; lia. }
  split.
  - intro Hc. destruct (Hpromoted Hc) as (Hf' & _).
    unfold atom_version, full_atom. now rewrite Hf'.
  - intro Hm. destruct (Hpromoted (or_intror (or_introl Hm))) as (Hf' & Hh & Hd & Hty).
    unfold entries at 1 2. rewrite Hf', Hf. split; [reflexivity|].
    set (fa1 := {| version_ := 1; flags_ := flags_ fa |}) in *.
    set (es' := es ++ [entry]) in *.
    assert (Hes' : Forall Entry_in_range es').
    { apply Forall_app. split; [exact Hes|]. constructor; [exact He|constructor]. }
    assert (Hlen : len es' = len es + 1).
    { subst es'. now rewrite len_app. }
    pose proof (len_nonneg es) as Hge.
    assert (Hcount : uint32_t (len es') = len es').
    { unfold uint32_t. apply Z.mod_small. unfold UINT32_MAX in *. lia. }
    assert (Htake : take (len es') es' = es').
    { unfold take, len. rewrite Nat2Z.id. apply firstn_all. }
    set (payload := VersionAndFlags fa1 ++ PutUInt32 (len es')
                    ++ List.concat (map (WriteEntry fa1) es') ++ []).
    exists payload.
    eexists. split.
    { unfold WriteDataWithoutChildren. rewrite Hf'. unfold emit, OkStatus.
      rewrite Hcount, Htake. subst payload. now rewrite app_nil_r. }
    assert (Hnew : NewAtom (header_size a') (data_size a') (atom_type a')
                           (ELSTFields NewFullAtom [])
                   = MkAtom (atom_type a') (header_size a') (data_size a') [] false
                            (ELSTFields NewFullAtom [])).
    { unfold NewAtom. destruct (header_size a' =? 0) eqn:E; [lia|reflexivity]. }
    rewrite Hnew.
    set (fa2 := {| version_ := version_ fa1 mod 2 ^ 8; flags_ := flags_ fa1 mod 2 ^ 24 |}).
    assert (Hread :
              reads_to (ReadDataWithoutChildren sid
                          (MkAtom (atom_type a') (header_size a') (data_size a') []
                                  false (ELSTFields NewFullAtom [])))
                       payload
                       (MkAtom (atom_type a') (header_size a') (data_size a') []
                               false (ELSTFields fa2 es'))).
    { unfold ReadDataWithoutChildren. cbn [fields]. subst payload.
      eapply reads_to_bind; [apply reads_to_ReadVersionAndFlags|]. cbv beta.
      eapply reads_to_bind; [apply reads_to_ReadUInt32|]. cbv beta.
      fold fa2.
      assert (Hv2 : version fa2 = 1) by reflexivity.
      unfold EntrySize. rewrite Hv2. cbn [Z.eqb Pos.eqb].
      fold (uint32_t (len es')). rewrite Hcount.
      cbn [data_size data_size_]. fold (data_size a'). rewrite Hd.
      assert (Hchk : (kConstELSTSize + (len es + 1) * kEntryV1Size
                      + children_size (children_ a)
                      + (if has_null_terminator_ a then 4 else 0)
                      <? uint64_t (kConstELSTSize + len es' * kEntryV1Size)) = false).
      { rewrite Hlen. unfold uint64_t.
        unfold kConstELSTSize, kEntryV1Size, UINT32_MAX, UINT64_MAX in *.
        rewrite Z.mod_small by lia.
        destruct (has_null_terminator_ a); lia. }
      rewrite Hchk.
      eapply reads_to_bind.
      - unfold len. rewrite Nat2Z.id.
        apply reads_to_read_n.
        eapply Forall_impl; [|exact Hes'].
        intros e0 He0. now apply reads_to_ReadEntry.
      - cbv beta. cbn [app set_fields atom_type_ header_size_ data_size_ children_
                       has_null_terminator_ fields].
        apply reads_to_ret. }
    specialize (Hread [] []). cbn [app] in Hread.
    rewrite app_nil_r in Hread. change (len (@nil byte)) with 0 in Hread.
    rewrite Z.add_0_l in Hread.
    split; [exact Hread|]. unfold entries. now rewrite Hf'.
Qed.

Lemma AddEntry_version_and_round_trip_witness :
  let a := CreateAtom 8 8 "elst" in
  let e := {| segment_duration := 100; media_time := 2147483648;
              media_rate_integer := 1; media_rate_fraction := 0 |} in
  atom_version (AddEntry a e) = 1 /\ entries (AddEntry a e) = [e].
Proof.
  cbv zeta.
  pose proof
    (AddEntry_version_and_round_trip
       Examples.no_streams 0 (CreateAtom 8 8 "elst")
       {| segment_duration := 100; media_time := 2147483648;
          media_rate_integer := 1; media_rate_fraction := 0 |}) as H.
  cbv zeta in H.
  refine ((fun P => conj (proj1 P (or_intror (or_introl _)))
                         (proj1 (proj2 P _))) (H _ _ _ _ _ _)).
  - vm_compute. reflexivity.
  - vm_compute. reflexivity.
  - reflexivity.
  - constructor.
  - repeat split; vm_compute; first [reflexivity | intro E; discriminate E].
  - vm_compute. reflexivity.
  - vm_compute. intro E. discriminate E.
  - vm_compute. intro E. discriminate E.
Defined.

(** ** Writing back what was read *)

Lemma Consumed_nil (data : list byte) (pos : Z) :
  0 <= pos <= len data -> Consumed data pos [] pos.
Proof.
  intros H. unfold Consumed. change (len (@nil byte)) with 0.
  repeat split; lia.
Qed.

Lemma firstn_plus {A} (n m : nat) (l : list A) :
  firstn (n + m) l = firstn n l ++ firstn m (skipn n l).
Proof.
  revert l. induction n as [|n IH]; intro l; [reflexivity|].
  destruct l as [|x l]; cbn.
  - now rewrite firstn_nil.
  - now rewrite IH.
Qed.

Lemma slice_app_add {A} (data : list A) (pos n m : Z) :
  0 <= pos -> 0 <= n -> 0 <= m ->
  slice pos (n + m) data = slice pos n data ++ slice (pos + n) m data.
Proof.
  intros Hp Hn Hm. unfold slice, take, drop.
  rewrite !Z2Nat.inj_add by lia.
  rewrite firstn_plus, skipn_skipn.
  now rewrite (Nat.add_comm (Z.to_nat n)).
Qed.

Lemma Consumed_app (data : list byte) (p p1 p2 : Z) (b1 b2 : list byte) :
  Consumed data p b1 p1 -> Consumed data p1 b2 p2 ->
  Consumed data p (b1 ++ b2) p2.
Proof.
  intros (H1 & H2 & H3 & H4) (H5 & H6 & H7 & H8).
  unfold Consumed. rewrite len_app.
  pose proof (len_nonneg b1). pose proof (len_nonneg b2).
  repeat split; try lia.
  rewrite slice_app_add by lia. rewrite H4. subst p1. now rewrite H8.
Qed.

Lemma Consumed_range (data : list byte) (p p' : Z) (bs : list byte) :
  Consumed data p bs p' -> 0 <= p <= p' /\ p' <= len data.
Proof.
  intros (H1 & H2 & H3 & H4). pose proof (len_nonneg bs). lia.
Qed.

Lemma len_slice {A} (data : list A) (pos n : Z) :
  0 <= pos -> 0 <= n -> pos + n <= len data -> len (slice pos n data) = n.
Proof.
  intros Hp Hn Hl. unfold slice, take, drop, len in *.
  rewrite firstn_length_le; [lia|]. rewrite length_skipn. lia.
Qed.

Lemma ReadBytes_ok (n : Z) (data : list byte) (pos : Z) (bs : list byte) (pos' : Z) :
  ReadBytes n data pos = ROk bs pos' ->
  Consumed data pos bs pos' /\ len bs = n /\ bs = slice pos n data.
Proof.
  unfold ReadBytes.
  destruct (0 <=? pos) eqn:E1; [|discriminate].
  destruct (0 <=? n) eqn:E2; [|discriminate].
  destruct (pos + n <=? len data) eqn:E3; [|discriminate].
  cbn [andb]. intro H. injection H as <- <-.
  assert (L : len (slice pos n data) = n) by (apply len_slice; lia).
  unfold Consumed. rewrite L. repeat split; lia || reflexivity.
Qed.

Lemma rbind_ok {A B} (r : Reader A) (k : A -> Reader B) data pos v pos' :
  rbind r k data pos = ROk v pos' ->
  exists x p, r data pos = ROk x p /\ k x data p = ROk v pos'.
Proof.
  unfold rbind. destruct (r data pos) as [x p|e]; [|discriminate]. eauto.
Qed.

Lemma rret_ok {A} (x : A) data pos v pos' :
  rret x data pos = ROk v pos' -> v = x /\ pos' = pos.
Proof. unfold rret. intro H. injection H as <- <-. auto. Qed.

Lemma read_be_ok (n : nat) data pos v pos' :
  (bs <- ReadBytes (Z.of_nat n) ;; rret (be_value bs)) data pos = ROk v pos' ->
  Consumed data pos (be_bytes n v) pos' /\ 0 <= v < 2 ^ (8 * Z.of_nat n)
  /\ v = be_value (slice pos (Z.of_nat n) data).
Proof.
  intro H. apply rbind_ok in H. destruct H as (bs & p & H1 & H2).
  apply rret_ok in H2. destruct H2 as [-> ->].
  apply ReadBytes_ok in H1. destruct H1 as (Hc & Hl & Hs).
  assert (Hn : List.length bs = n) by (unfold len in Hl; lia).
  rewrite <- Hn at 1. rewrite be_bytes_be_value.
  split; [exact Hc|]. split.
  - pose proof (be_value_range bs). now rewrite Hl in H.
  - now rewrite Hs.
Qed.

Lemma ReadUInt_ok (n : nat) (r : Reader Z) data pos v pos' :
  r = (bs <- ReadBytes (Z.of_nat n) ;; rret (be_value bs)) ->
  r data pos = ROk v pos' ->
  Consumed data pos (be_bytes n v) pos' /\ pos' = pos + Z.of_nat n
  /\ 0 <= v < 2 ^ (8 * Z.of_nat n) /\ v = be_value (slice pos (Z.of_nat n) data).
Proof.
  intros -> H. apply read_be_ok in H. destruct H as (Hc & Hr & Hv).
  split; [exact Hc|]. split; [|split; [exact Hr|exact Hv]].
  destruct Hc as (_ & Hp & _). now rewrite len_be_bytes in Hp.
Qed.

Lemma ReadUInt8_ok data pos v pos' :
  ReadUInt8 data pos = ROk v pos' ->
  Consumed data pos (PutUInt8 v) pos' /\ pos' = pos + 1
  /\ 0 <= v < 2 ^ 8 /\ v = be_value (slice pos 1 data).
Proof. apply (ReadUInt_ok 1). reflexivity. Qed.

Lemma ReadUInt16_ok data pos v pos' :
  ReadUInt16 data pos = ROk v pos' ->
  Consumed data pos (PutUInt16 v) pos' /\ pos' = pos + 2
  /\ 0 <= v < 2 ^ 16 /\ v = be_value (slice pos 2 data).
Proof. apply (ReadUInt_ok 2). reflexivity. Qed.

Lemma ReadUInt24_ok data pos v pos' :
  ReadUInt24 data pos = ROk v pos' ->
  Consumed data pos (PutUInt24 v) pos' /\ pos' = pos + 3
  /\ 0 <= v < 2 ^ 24 /\ v = be_value (slice pos 3 data).
Proof. apply (ReadUInt_ok 3). reflexivity. Qed.

Lemma ReadUInt32_ok data pos v pos' :
  ReadUInt32 data pos = ROk v pos' ->
  Consumed data pos (PutUInt32 v) pos' /\ pos' = pos + 4
  /\ 0 <= v < 2 ^ 32 /\ v = be_value (slice pos 4 data).
Proof. apply (ReadUInt_ok 4). reflexivity. Qed.

Lemma ReadUInt64_ok data pos v pos' :
  ReadUInt64 data pos = ROk v pos' ->
  Consumed data pos (PutUInt64 v) pos' /\ pos' = pos + 8
  /\ 0 <= v < 2 ^ 64 /\ v = be_value (slice pos 8 data).
Proof. apply (ReadUInt_ok 8). reflexivity. Qed.

Lemma ReadString_ok (n : Z) data pos bs pos' :
  ReadString n data pos = ROk bs pos' ->
  Consumed data pos (PutString bs) pos' /\ pos' = pos + uint64_t n
  /\ len bs = uint64_t n.
Proof.
  intros H. unfold ReadString in H.
  apply ReadBytes_ok in H. destruct H as (Hc & Hl & _).
  split; [exact Hc|]. split; [|exact Hl].
  destruct Hc as (_ & Hp & _). now rewrite Hl in Hp.
Qed.

Lemma Tell_ok data pos v pos' :
  Tell data pos = ROk v pos' -> v = pos /\ pos' = pos.
Proof. unfold Tell. intro H. injection H as <- <-. auto. Qed.

Lemma read_n_ok {A} (r : Reader A) (enc : A -> list byte) (k : Z) data :
  (forall x p p', r data p = ROk x p' -> Consumed data p (enc x) p' /\ p' = p + k) ->
  forall (n : nat) (pos : Z) (l : list A) (pos' : Z),
    0 <= pos <= len data ->
    read_n n r data pos = ROk l pos' ->
    Consumed data pos (List.concat (map enc l)) pos'
    /\ pos' = pos + k * Z.of_nat n /\ List.length l = n.
Proof.
  intros Hr. induction n as [|n IH]; intros pos l pos' Hp H; cbn [read_n] in H.
  - apply rret_ok in H. destruct H as [-> ->]. split; [|split; [lia|reflexivity]].
    now apply Consumed_nil.
  - apply rbind_ok in H. destruct H as (x & p1 & H1 & H).
    apply rbind_ok in H. destruct H as (xs & p2 & H2 & H).
    apply rret_ok in H. destruct H as [-> ->].
    apply Hr in H1. destruct H1 as [H1 Hk].
    pose proof (Consumed_range _ _ _ _ H1).
    apply IH in H2; [|lia]. destruct H2 as (H2 & H3 & H4).
    cbn [map List.concat List.length]. split; [|split; [lia|lia]].
    eapply Consumed_app; eassumption.
Qed.

Ltac read_inv :=
  repeat match goal with
  | H : rbind _ _ _ _ = ROk _ _ |- _ =>
      let x := fresh "x" in let p := fresh "p" in let H1 := fresh "Hr" in
      apply rbind_ok in H; destruct H as (x & p & H1 & H)
  | H : rret _ _ _ = ROk _ _ |- _ => apply rret_ok in H; destruct H as [-> ->]
  | H : rfail _ _ _ = ROk _ _ |- _ => discriminate H
  | H : Tell _ _ = ROk _ _ |- _ => apply Tell_ok in H; destruct H as [-> ->]
  | H : ReadUInt8 _ _ = ROk _ _ |- _ =>
      apply ReadUInt8_ok in H; destruct H as (? & ? & ? & ?)
  | H : ReadUInt16 _ _ = ROk _ _ |- _ =>
      apply ReadUInt16_ok in H; destruct H as (? & ? & ? & ?)
  | H : ReadUInt24 _ _ = ROk _ _ |- _ =>
      apply ReadUInt24_ok in H; destruct H as (? & ? & ? & ?)
  | H : ReadUInt32 _ _ = ROk _ _ |- _ =>
      apply ReadUInt32_ok in H; destruct H as (? & ? & ? & ?)
  | H : ReadUInt64 _ _ = ROk _ _ |- _ =>
      apply ReadUInt64_ok in H; destruct H as (? & ? & ? & ?)
  | H : ReadString _ _ _ = ROk _ _ |- _ =>
      apply ReadString_ok in H; destruct H as (? & ? & ?)
  | H : (if ?c then _ else _) _ _ = ROk _ _ |- _ =>
      let E := fresh "E" in revert H; destruct c eqn:E; intro H
  end.

Ltac consumed :=
  rewrite <- ?app_assoc;
  repeat (eapply Consumed_app; [eassumption|]); eassumption.

Lemma ReadVersionAndFlags_ok data pos fa pos' :
  ReadVersionAndFlags data pos = ROk fa pos' ->
  Consumed data pos (VersionAndFlags fa) pos' /\ pos' = pos + 4.
Proof.
  unfold ReadVersionAndFlags. intro H. read_inv.
  split; [|lia]. unfold VersionAndFlags. cbn [version_ flags_]. consumed.
Qed.

Lemma be_bytes_congr (n : nat) (v w : Z) :
  v mod 2 ^ (8 * Z.of_nat n) = w mod 2 ^ (8 * Z.of_nat n) ->
  be_bytes n v = be_bytes n w.
Proof.
  intro H. rewrite <- (be_bytes_mod n (Z.of_nat n) v), H by lia.
  apply be_bytes_mod. lia.
Qed.

Lemma PutUInt64_int64_t (v : Z) : PutUInt64 (uint64_t (int64_t v)) = PutUInt64 v.
Proof.
  rewrite PutUInt64_uint64_t. apply be_bytes_congr.
  unfold int64_t. change (8 * Z.of_nat 8) with 64.
  change (2 ^ 63) with 9223372036854775808. change (2 ^ 64) with 18446744073709551616.
  Z.div_mod_to_equations. lia.
Qed.

Lemma PutUInt16_int16_t (v : Z) : PutUInt16 (uint16_t (int16_t v)) = PutUInt16 v.
Proof.
  rewrite PutUInt16_uint16_t. apply be_bytes_congr.
  unfold int16_t. change (8 * Z.of_nat 2) with 16.
  change (2 ^ 15) with 32768. change (2 ^ 16) with 65536.
  Z.div_mod_to_equations. lia.
Qed.

Lemma PutUInt32_land (v : Z) :
  PutUInt32 (uint32_t (Z.land v UINT32_MAX)) = PutUInt32 v.
Proof.
  rewrite PutUInt32_uint32_t. change UINT32_MAX with (Z.ones 32).
  rewrite Z.land_ones by lia. apply (be_bytes_mod 4 4). lia.
Qed.

Lemma ReadEntry_ok fa data pos e pos' :
  ReadEntry fa data pos = ROk e pos' ->
  Consumed data pos (WriteEntry fa e) pos' /\ pos' = pos + EntrySize fa.
Proof.
  unfold ReadEntry, EntrySize, kEntryV1Size, kEntryV0Size. intro H. read_inv.
  - split; [|lia]. unfold WriteEntry. rewrite E.
    cbn [segment_duration media_time media_rate_integer media_rate_fraction fst snd].
    rewrite PutUInt64_int64_t, !PutUInt16_int16_t. consumed.
  - split; [|lia]. unfold WriteEntry. rewrite E.
    cbn [segment_duration media_time media_rate_integer media_rate_fraction fst snd].
    rewrite !PutUInt32_land, !PutUInt16_int16_t. consumed.
Qed.

Lemma PutUInt32_shift (v : Z) :
  v mod 2 ^ 16 = 0 ->
  PutUInt32 (uint32_t (Z.shiftl (Z.shiftr v 16) 16)) = PutUInt32 v.
Proof.
  intro H. rewrite PutUInt32_uint32_t. f_equal.
  rewrite Z.shiftr_div_pow2, Z.shiftl_mul_pow2 by lia.
  pose proof (Z.div_mod v (2 ^ 16) ltac:(lia)). lia.
Qed.

Lemma ReadTKHD_ok fa data p0 pos t pos' :
  Consumed data p0 (VersionAndFlags fa) pos -> pos = p0 + 4 ->
  ReadTKHD fa data pos = ROk t pos' ->
  let g := if version fa =? 1 then 96 else 84 in
  pos' = p0 + g /\ pos' <= len data
  /\ ((be_value (slice (p0 + g - 8) 4 data) mod 2 ^ 16 =? 0)
      && (be_value (slice (p0 + g - 4) 4 data) mod 2 ^ 16 =? 0) = true ->
      Consumed data p0 (WriteTKHD fa t) pos').
Proof.
  intros Hfa Hpos H g. unfold ReadTKHD in H. read_inv.
  all: match goal with
       | H : read_n 9 ReadUInt32 _ ?p = ROk _ _ |- _ =>
           apply (read_n_ok ReadUInt32 PutUInt32 4) in H;
             [ destruct H as (? & ? & ?)
             | intros ? ? ? HH; apply ReadUInt32_ok in HH; tauto
             | match goal with
               | C : Consumed _ _ _ p |- _ => apply Consumed_range in C; lia
               end ]
       end.
  all: change (Z.of_nat 9) with 9 in *; subst g.
  all: split; [lia|].
  all: split;
    [ match goal with
      | C : Consumed _ _ _ ?q |- ?q <= _ =>
          pose proof (Consumed_range _ _ _ _ C); lia
      end | ].
  all: intro Hc; apply andb_prop in Hc; destruct Hc as [Hw Hh].
  all: apply Z.eqb_eq in Hw, Hh.
  all: match goal with
       | |- Consumed _ _ _ ?pe =>
           match goal with
           | Hp : pe = ?ph + 4, Hq : ?ph = ?pw + 4,
             Hx : _ = be_value (slice ?pw 4 _),
             Hy : _ = be_value (slice ?ph 4 _) |- _ =>
               match type of Hw with
               | context [slice ?q 4 _] => replace q with pw in Hw by lia
               end;
               match type of Hh with
               | context [slice ?q 4 _] => replace q with ph in Hh by lia
               end;
               rewrite <- Hx in Hw; rewrite <- Hy in Hh
           end
       end.
  all: unfold WriteTKHD; rewrite E.
  all: cbn [created_date_ modified_date_ track_id_ reserved32_1_ duration_
            reserved32_2_ reserved32_3_ layer_ group_ volume_ reserved16_
            matrix_ tkhd_width_ tkhd_height_].
  all: rewrite ?PutUInt32_land, !PutUInt32_shift by assumption.
  all: consumed.
Qed.

Lemma len_VersionAndFlags (fa : FullAtom) : len (VersionAndFlags fa) = 4.
Proof.
  unfold VersionAndFlags, PutUInt8, PutUInt24.
  now rewrite len_app, !len_be_bytes.
Qed.

Lemma CapSize_fits (value : list byte) (max_size : Z) :
  len value <= uint64_t (int32_t max_size) -> CapSize value max_size = value.
Proof.
  intro H. unfold CapSize.
  destruct (len value <=? uint64_t (int32_t max_size)) eqn:E; [reflexivity|lia].
Qed.

Lemma ReadHDLR_ok ds data pos r pos' :
  0 <= ds < 2 ^ 64 -> len data < INT64_MAX ->
  ReadHDLR ds data pos = ROk r pos' ->
  24 <= ds /\ pos' = pos + ds /\ pos' <= len data
  /\ 12 + len (component_type_ (snd r)) + len (component_subtype_ (snd r))
     + len (component_manufacturer_ (snd r)) + len (component_name_ (snd r)) = ds
  /\ (ds < 2 ^ 31 -> Consumed data pos (WriteHDLR ds (fst r) (snd r)) pos').
Proof.
  intros Hds Hlen H. unfold ReadHDLR in H. read_inv.
  match goal with
  | H : ReadVersionAndFlags _ _ = ROk _ _ |- _ =>
      apply ReadVersionAndFlags_ok in H; destruct H as [Hfa Hp]
  end.
  change (uint64_t 4) with 4 in *.
  cbn [fst snd component_type_ component_subtype_ component_manufacturer_
       component_name_].
  match goal with
  | C : Consumed _ ?p (PutString ?nm) ?q, L : len ?nm = uint64_t _ |- _ =>
      pose proof (Consumed_range _ _ _ _ C) as Hrange;
      assert (Hname : len nm = ds - 24 /\ 24 <= ds)
        by (rewrite L in *; unfold uint64_t, INT64_MAX in *;
            change (2 ^ 64) with 18446744073709551616 in *;
            Z.div_mod_to_equations; lia);
      rewrite L in *
  end.
  destruct Hname as [Hname H24].
  split; [lia|]. split; [unfold uint64_t in *; lia|]. split; [lia|].
  split; [lia|].
  intro Hsmall. unfold WriteHDLR.
  cbn [component_type_ component_subtype_ component_manufacturer_
       component_flags_ component_flags_mask_ component_name_].
  rewrite !(CapSize_fits _ 4)
    by (change (uint64_t (int32_t 4)) with 4; unfold PutString; lia).
  rewrite CapSize_fits.
  - consumed.
  - rewrite !len_app, len_VersionAndFlags. unfold PutString, PutUInt32.
    rewrite !len_be_bytes.
    match goal with
    | L1 : len ?a = 4, L2 : len ?b = 4, L3 : len ?c = 4 |- _ =>
        rewrite ?L1, ?L2, ?L3
    end.
    unfold uint64_t, int32_t in *.
    change (2 ^ 64) with 18446744073709551616 in *.
    change (2 ^ 31) with 2147483648 in *.
    change (2 ^ 32) with 4294967296 in *.
    change (Z.of_nat 4) with 4.
    Z.div_mod_to_equations. lia.
Qed.

Lemma ReadVisualSampleEntry_ok data pos v pos' :
  ReadVisualSampleEntry data pos = ROk v pos' ->
  pos' = pos + 78 /\ pos' <= len data
  /\ ((be_value (slice (pos + 28) 4 data) mod 2 ^ 16 =? 0)
      && (be_value (slice (pos + 32) 4 data) mod 2 ^ 16 =? 0) = true ->
      Consumed data pos (WriteVisualSampleEntry v) pos').
Proof.
  intro H. unfold ReadVisualSampleEntry in H. read_inv.
  change (uint64_t 4) with 4 in *. change (uint64_t 31) with 31 in *.
  split; [lia|].
  split;
    [ match goal with
      | C : Consumed _ _ _ ?q |- ?q <= _ =>
          pose proof (Consumed_range _ _ _ _ C); lia
      end | ].
  intro Hc; apply andb_prop in Hc; destruct Hc as [Hw Hh].
  apply Z.eqb_eq in Hw, Hh.
  repeat match goal with
         | Hx : ?w = be_value (slice ?pw 4 _) |- _ =>
             match type of Hw with
             | context [slice ?q 4 _] =>
                 replace q with pw in Hw by lia; rewrite <- Hx in Hw; clear Hx
             end
         | Hx : ?w = be_value (slice ?pw 4 _) |- _ =>
             match type of Hh with
             | context [slice ?q 4 _] =>
                 replace q with pw in Hh by lia; rewrite <- Hx in Hh; clear Hx
             end
         end.
  unfold WriteVisualSampleEntry.
  cbn [reserved_32_ reserved_16_ vse_data_reference_index_ visual_version_
       revision_ vendor_ temporal_quality_ spatial_quality_ width_ height_
       horizontal_res_ vertical_res_ entry_data_size_ frames_per_sample_
       encoder_name_size_ encoder_name_ bit_depth_ color_table_id_].
  rewrite !PutUInt32_shift by assumption.
  consumed.
Qed.

Ltac read_fa :=
  match goal with
  | H : ReadVersionAndFlags _ _ = ROk _ _ |- _ =>
      apply ReadVersionAndFlags_ok in H; destruct H as [? ?]
  end.

Ltac shape_A :=
  left; split;
  [ lia
  | let af := fresh "af" in let Hf := fresh "Hf" in let Hty := fresh "Hty" in
    unfold sized_by_payload; cbn [fields atom_type atom_type_];
    intros af Hf Hty; unfold GetDataSizeWithoutChildren; rewrite Hf ].

Ltac write_it :=
  let Hst := fresh "Hst" in let af := fresh "af" in let Hf := fresh "Hf" in
  let Hty := fresh "Hty" in let Hd := fresh "Hd" in let Hle := fresh "Hle" in
  let Hpl := fresh "Hpl" in
  intros Hst af Hf Hty Hd Hle Hpl;
  unfold WriteDataWithoutChildren; unfold payload_lossless in Hpl;
  rewrite Hf in Hpl |- *.

Ltac read_loop r enc k lem :=
  match goal with
  | H : read_n _ _ ?d ?p = ROk _ _ |- _ =>
      let Hp := fresh "Hp" in
      assert (Hp : 0 <= p <= len d)
        by (match goal with
            | C : Consumed _ _ _ p |- _ => apply Consumed_range in C; lia
            end);
      apply (read_n_ok r enc k) in H;
        [ destruct H as (Hc & Hq & Hn);
          pose proof (Consumed_range _ _ _ _ Hc)
        | intros ? ? ? HH; apply lem in HH; tauto
        | exact Hp ]
  end.

Ltac end_range :=
  match goal with
  | |- _ /\ (0 <= ?q <= _) /\ _ =>
      match goal with
      | C : Consumed _ _ _ q |- _ => pose proof (Consumed_range _ _ _ _ C)
      end
  end.

Lemma take_all {A} (l : list A) (n : Z) : len l <= n -> take n l = l.
Proof. intro H. unfold take. apply firstn_all2. unfold len in H. lia. Qed.

Lemma ReadData_facts st sid data ty hs ds f0 pos1 a1 pos2 :
  fresh_fields f0 -> 0 <= ds < 2 ^ 64 -> len data < INT64_MAX ->
  0 <= pos1 <= len data ->
  ReadDataWithoutChildren sid (MkAtom ty hs ds [] false f0) data pos1 = ROk a1 pos2 ->
  a1 = MkAtom ty hs ds [] false (fields a1)
  /\ 0 <= pos2 <= len data
  /\ payload_shape pos1 pos2 a1
  /\ (holds st sid data ->
      forall af, fields af = fields a1 -> atom_type af = ty ->
                 data_size af = ds -> pos1 + ds <= len data ->
                 payload_lossless data pos1 af = true ->
                 exists bs, WriteDataWithoutChildren st af = (OK, bs)
                            /\ Consumed data pos1 bs pos2).
Proof.
  intros Hfresh Hds Hlen Hpos1 H.
  unfold ReadDataWithoutChildren in H. unfold INT64_MAX in Hlen.
  change (2 ^ 64) with 18446744073709551616 in Hds.
  destruct f0; cbn [fields] in H; read_inv; try read_fa;
    unfold set_fields, payload_shape;
    cbn [fields atom_type_ header_size_ data_size_ children_
         has_null_terminator_ data_size atom_type] in *.
  - (* AtomDefault *)
    unfold Seek in *.
    destruct (uint64_t (pos1 + ds) <=? len data) eqn:E; [|discriminate].
    match goal with H : ROk _ _ = ROk _ _ |- _ => injection H as _ <- end.
    assert (0 <= uint64_t (pos1 + ds))
      by (unfold uint64_t; Z.div_mod_to_equations; lia).
    split; [reflexivity|]. split; [lia|]. split.
    + right; left. eauto.
    + write_it. rewrite Hd. unfold PutData. cbn [stream_ pos_]. rewrite Hst.
      cbn [content failbit].
      replace (pos1 <? 0) with false by lia.
      replace (len data <? pos1) with false by lia.
      replace (pos1 + ds <=? len data) with true by lia.
      cbn [orb]. eexists. split; [reflexivity|].
      assert (L : len (slice pos1 ds data) = ds) by (apply len_slice; lia).
      unfold Consumed. rewrite L.
      unfold uint64_t. rewrite Z.mod_small by lia. repeat split; lia.
  - (* containers *)
    split; [reflexivity|]. split; [lia|]. split.
    + shape_A. lia.
    + write_it. eexists. split; [reflexivity|]. now apply Consumed_nil.
  - (* AtomSTCO *)
    cbn [fresh_fields] in Hfresh. subst moov_size_delta_.
    match goal with
    | H : read_n _ _ _ ?p = ROk _ _ |- _ =>
        assert (Hp : 0 <= p <= len data)
          by (match goal with
              | C : Consumed _ _ _ p |- _ => apply Consumed_range in C; lia
              end)
    end.
    destruct (String.eqb ty kType32) eqn:Ety.
    + match goal with
      | H : read_n _ _ _ _ = ROk _ _ |- _ =>
          apply (read_n_ok ReadUInt32 PutUInt32 4) in H;
            [ destruct H as (Hc & Hq & Hn)
            | intros ? ? ? HH; apply ReadUInt32_ok in HH; tauto
            | exact Hp ]
      end.
      pose proof (Consumed_range _ _ _ _ Hc).
      assert (Hl : len x1 = x0) by (unfold len; rewrite Hn; lia).
      split; [reflexivity|]. split; [lia|]. split.
      * shape_A. rewrite Hty, Ety, Hl.
        unfold kConstSTCOBaseSize, kChunkOffsetSize32, uint64_t.
        rewrite Z.mod_small; lia.
      * write_it. rewrite Hty, Ety, Hl, PutUInt32_uint32_t.
        eexists. split; [reflexivity|].
        erewrite map_ext
          by (intro o; rewrite PutUInt32_uint32_t, PutUInt32_uint64_t, Z.add_0_r;
              reflexivity).
        consumed.
    + match goal with
      | H : read_n _ _ _ _ = ROk _ _ |- _ =>
          apply (read_n_ok ReadUInt64 PutUInt64 8) in H;
            [ destruct H as (Hc & Hq & Hn)
            | intros ? ? ? HH; apply ReadUInt64_ok in HH; tauto
            | exact Hp ]
      end.
      pose proof (Consumed_range _ _ _ _ Hc).
      assert (Hl : len x1 = x0) by (unfold len; rewrite Hn; lia).
      split; [reflexivity|]. split; [lia|]. split.
      * shape_A. rewrite Hty, Ety, Hl.
        unfold kConstSTCOBaseSize, kChunkOffsetSize64, uint64_t.
        rewrite Z.mod_small; lia.
      * write_it. rewrite Hty, Ety, Hl, PutUInt32_uint32_t.
        eexists. split; [reflexivity|].
        erewrite map_ext
          by (intro o; rewrite PutUInt64_uint64_t, Z.add_0_r; reflexivity).
        consumed.
  - (* AtomELST *)
    cbn [fresh_fields] in Hfresh. subst entries_. cbn [app].
    read_loop (ReadEntry x) (WriteEntry x) (EntrySize x) ReadEntry_ok.
    assert (Hl : len x1 = x0) by (unfold len; rewrite Hn; lia).
    rewrite Z2Nat.id in Hq by lia.
    assert (He : EntrySize x = 12 \/ EntrySize x = 20)
      by (unfold EntrySize, kEntryV1Size, kEntryV0Size;
          destruct (version x =? 1); auto).
    change (2 ^ 32) with 4294967296 in *.
    split; [reflexivity|]. split; [lia|]. split.
    + shape_A. rewrite Hl. unfold kConstELSTSize, uint64_t, uint32_t.
      rewrite (Z.mod_small x0) by lia.
      change (2 ^ 64) with 18446744073709551616.
      destruct He as [He | He]; rewrite He in *; rewrite Z.mod_small; lia.
    + write_it. cbv zeta. rewrite Hl. unfold uint32_t.
      rewrite (Z.mod_small x0) by lia. rewrite take_all by lia.
      eexists. split; [reflexivity|]. consumed.
  - (* AtomSDTP *)
    read_loop ReadUInt8 PutUInt8 1 ReadUInt8_ok.
    assert (Hl : len x0 = p0 - p) by (unfold len; rewrite Hn; lia).
    split; [reflexivity|]. split; [lia|]. split.
    + shape_A. rewrite Hl. unfold kFlagAndVersionSize, uint64_t.
      change (2 ^ 64) with 18446744073709551616.
      rewrite Z.mod_small; lia.
    + write_it. eexists. split; [reflexivity|]. consumed.
  - (* AtomSTSS *)
    cbn [fresh_fields] in Hfresh. subst key_frame_indices_. cbn [app].
    read_loop ReadUInt32 PutUInt32 4 ReadUInt32_ok.
    assert (Hl : len x1 = x0) by (unfold len; rewrite Hn; lia).
    split; [reflexivity|]. split; [lia|]. split.
    + right; right; left. split; [eauto|lia].
    + write_it. rewrite Hl, PutUInt32_uint32_t.
      eexists. split; [reflexivity|]. consumed.
  - (* AtomSTSD *)
    end_range.
    split; [reflexivity|]. split; [lia|]. split.
    + shape_A. unfold kConstSTSDSize. lia.
    + write_it. apply Z.eqb_eq in Hpl.
      replace (pos1 + 4) with p in Hpl by lia.
      match goal with
      | Hx : x0 = be_value _ |- _ => rewrite <- Hx in Hpl
      end.
      rewrite <- Hpl, PutUInt32_uint32_t.
      eexists. split; [reflexivity|]. consumed.
  - (* AtomTKHD *)
    eapply ReadTKHD_ok in Hr0; [|eassumption|lia].
    cbv zeta in Hr0. destruct Hr0 as (Hq & Hp0 & Hw).
    destruct (version x =? 1) eqn:Ev.
    all: split; [reflexivity|]; split; [lia|]; split;
      [ shape_A; rewrite Ev; lia
      | write_it; unfold GetDataSizeWithoutChildren in Hpl; rewrite Hf in Hpl;
        cbv zeta in Hpl; rewrite Ev in Hpl; apply Hw in Hpl;
        eexists; split; [reflexivity|exact Hpl] ].
  - (* AtomHDLR *)
    match goal with
    | H : ReadHDLR _ _ _ = ROk _ _ |- _ =>
        apply ReadHDLR_ok in H;
          [ destruct H as (H24 & Hq & Hp0 & Hsum & Hw) | lia | unfold INT64_MAX; lia ]
    end.
    cbn [fst snd] in *.
    split; [reflexivity|]. split; [lia|]. split.
    + destruct (Z.lt_ge_cases ds (2 ^ 32)) as [Hsmall | Hbig].
      * shape_A. rewrite Hsum. unfold uint32_t. rewrite Z.mod_small; lia.
      * right; right; right. split; [exact Hq|].
        unfold GetDataSizeWithoutChildren. cbn [fields]. rewrite Hsum.
        unfold uint32_t. change (2 ^ 32) with 4294967296 in *.
        Z.div_mod_to_equations. lia.
    + write_it. rewrite Hd. apply Z.ltb_lt in Hpl.
      eexists. split; [reflexivity|]. apply Hw. lia.
  - (* AtomUUID *)
    change (uint64_t 16) with 16 in *.
    end_range.
    match goal with
    | L : len _ = uint64_t _ |- _ => rewrite <- L in *
    end.
    split; [reflexivity|]. split; [lia|]. split.
    + shape_A.
      match goal with L : len _ = 16 |- _ => rewrite L end.
      unfold uint64_t. change (2 ^ 64) with 18446744073709551616.
      pose proof (len_nonneg x0). rewrite Z.mod_small; lia.
    + write_it.
      match goal with L : len _ = 16 |- _ => rewrite L end.
      cbn [Z.eqb Pos.eqb]. eexists. split; [reflexivity|]. consumed.
  - (* AtomCAMM *)
    change (uint64_t 6) with 6 in *.
    end_range.
    split; [reflexivity|]. split; [lia|]. split.
    + shape_A.
      match goal with L : len _ = 6 |- _ => rewrite L end.
      change (uint64_t (6 + 2)) with 8. lia.
    + write_it. eexists. split; [reflexivity|]. consumed.
  - (* AtomST3D *)
    end_range.
    split; [reflexivity|]. split; [lia|]. split.
    + shape_A. lia.
    + write_it. rewrite PutUInt8_uint8_t.
      eexists. split; [reflexivity|]. consumed.
  - (* VisualSampleEntry *)
    match goal with
    | H : ReadVisualSampleEntry _ _ = ROk _ _ |- _ =>
        apply ReadVisualSampleEntry_ok in H; destruct H as (Hq & Hp0 & Hw)
    end.
    split; [reflexivity|]. split; [lia|]. split.
    + shape_A. unfold kVisualSampleEntryConstSize. lia.
    + write_it. eexists. split; [reflexivity|]. exact (Hw Hpl).
Qed.

Ltac rets :=
  unfold rret in *;
  repeat match goal with
         | H : ROk _ _ = ROk _ _ |- _ => inversion H; clear H
         end;
  repeat match goal with
         | H : ?x = _ |- _ => is_var x; subst x
         | H : _ = ?x |- _ => is_var x; subst x
         end.

Lemma ReadHeader_ok data pos hs ds ty pos1 :
  ReadHeader data pos = ROk (hs, ds, ty) pos1 ->
  0 <= pos /\ pos1 = pos + hs /\ pos1 <= len data
  /\ (hs = 8 \/ hs = 16) /\ 0 <= ds /\ hs + ds < 2 ^ 64
  /\ (size_field data pos <> 0 ->
      (size_field data pos = 1 <-> hs = 16)
      /\ forall a, atom_type a = ty -> header_size a = hs -> data_size a = ds ->
                   exists bs, WriteAtomHeader a = (OK, bs)
                              /\ Consumed data pos bs pos1).
Proof.
  unfold ReadHeader, size_field. cbv zeta. intro H.
  apply rbind_ok in H. destruct H as (s32 & p1 & H1 & H).
  apply rbind_ok in H. destruct H as (tb & p2 & H2 & H).
  apply rbind_ok in H. destruct H as ([hb s64] & p3 & H3 & H).
  apply ReadUInt32_ok in H1. destruct H1 as (C1 & P1 & R1 & V1).
  apply ReadString_ok in H2. destruct H2 as (C2 & P2 & L2).
  change (uint64_t kAtomTypeSize) with 4 in *.
  unfold kSizeOf32bitSize, kAtomTypeSize, kIndicateSizeIs64,
    kIndicateSizeIsToEndOfFile in *.
  change (4 + 4) with 8 in *. change (8 + 8) with 16 in *.
  rewrite <- V1.
  pose proof (Consumed_range _ _ _ _ C1). pose proof (Consumed_range _ _ _ _ C2).
  change (2 ^ 32) with 4294967296 in *. change (2 ^ 64) with 18446744073709551616.
  destruct (s32 =? 1) eqn:E1.
  - apply Z.eqb_eq in E1. read_inv.
    match goal with
    | C : Consumed _ p2 _ _ |- _ => pose proof (Consumed_range _ _ _ _ C)
    end.
    rets.
    change (2 ^ 64) with 18446744073709551616 in *.
    do 6 (split; [lia|]). intros _. split; [tauto|].
    intros a Hty Hhs Hd. unfold WriteAtomHeader, size. rewrite Hty, Hhs, Hd.
    change (uint64_t (16 - kAtomTypeSize)) with 12.
    change (12 =? kSizeOf32bitSize) with false.
    change (12 =? kSizeOf32bitSize + 8) with true.
    cbn [orb negb].
    match goal with
    | |- context [16 + (?v - 16)] => replace (16 + (v - 16)) with v by lia
    end.
    rewrite PutUInt64_uint64_t, list_byte_of_string_of_list_byte.
    eexists. split; [reflexivity|]. unfold kIndicateSizeIs64.
    rewrite E1 in C1. consumed.
  - apply Z.eqb_neq in E1.
    destruct (s32 =? 0) eqn:E0.
    + apply Z.eqb_eq in E0. unfold StreamSize in H3. read_inv. rets.
      pose proof (Z.mod_pos_bound (Size data - (pos + 4 + 4) + 8)
                    18446744073709551616 ltac:(lia)).
      unfold uint64_t in *. change (2 ^ 64) with 18446744073709551616 in *.
      do 6 (split; [lia|]). intro Hne. lia.
    + apply Z.eqb_neq in E0. read_inv. rets.
      do 6 (split; [lia|]). intros _. split; [lia|].
      intros a Hty Hhs Hd. unfold WriteAtomHeader, size. rewrite Hty, Hhs, Hd.
      change (uint64_t (8 - kAtomTypeSize)) with 4.
      change (4 =? kSizeOf32bitSize) with true.
      cbn [orb negb].
      match goal with
      | |- context [8 + (?v - 8)] => replace (8 + (v - 8)) with v by lia
      end.
      rewrite PutUInt32_uint32_t, PutUInt32_uint64_t,
        list_byte_of_string_of_list_byte, app_nil_r.
      eexists. split; [reflexivity|]. consumed.
Qed.

(** ** The atom engine: ReadAtom and WriteAtom *)

Lemma AddChild_eq (a c : Atom) :
  AddChild a c = UpdateSize (set_children a (children_ a ++ [c])).
Proof.
  unfold AddChild, AddChildAt, NumChildren.
  pose proof (len_nonneg (children_ a)).
  replace (len (children_ a) <? 0) with false by lia.
  replace (len (children_ a) >? len (children_ a)) with false by lia.
  cbn [orb]. rewrite take_all by lia.
  unfold drop, len. rewrite Nat2Z.id, skipn_all. reflexivity.
Qed.

Lemma UpdateSize_resized (a : Atom) (g : Z) :
  sized_by_payload a g ->
  UpdateSize a = resized a g (children_ a) (has_null_terminator_ a).
Proof.
  intro H. unfold UpdateSize, resized, ComputeHeaderSize, set_header_size,
             set_data_size, data_size.
  cbn [atom_type_ header_size_ data_size_ children_ has_null_terminator_ fields].
  rewrite (H a eq_refl eq_refl). reflexivity.
Qed.

Lemma sized_resized (a : Atom) (g g' : Z) (cs : list Atom) (t : bool) :
  sized_by_payload a g -> sized_by_payload (resized a g' cs t) g.
Proof. intros H af Hf Hty. apply H; assumption. Qed.

Lemma fold_AddChild (cs : list Atom) :
  forall (a : Atom) (g : Z),
    sized_by_payload a g -> cs <> [] ->
    fold_left AddChild cs a
    = resized a g (children_ a ++ cs) (has_null_terminator_ a).
Proof.
  induction cs as [|c cs IH]; intros a g Hg Hne; [congruence|].
  cbn [fold_left]. rewrite AddChild_eq.
  rewrite (UpdateSize_resized _ g) by exact Hg.
  cbn [set_children children_ has_null_terminator_].
  destruct cs as [|c' cs]; [reflexivity|].
  rewrite (IH _ g); [| apply sized_resized; exact Hg | discriminate].
  unfold resized. cbn [atom_type_ fields children_ has_null_terminator_].
  now rewrite <- app_assoc.
Qed.

Lemma set_terminator_resized (a : Atom) (g : Z) :
  sized_by_payload a g -> has_null_terminator_ a = false ->
  set_has_null_terminator a true = resized a g (children_ a) true.
Proof.
  intros Hg Ht. unfold set_has_null_terminator. rewrite Ht. cbn [Bool.eqb].
  rewrite (UpdateSize_resized _ g) by (intros af Hf Hty; apply Hg; assumption).
  reflexivity.
Qed.

Lemma ReadChildAtoms_ok (f : Z -> AtomResult) :
  forall (n : nat) (csz s : Z) (parent : Atom) (p : Z) (a3 : Atom) (p3 : Z),
    ReadChildAtoms f n csz s parent p = Parsed a3 p3 ->
    exists cs, a3 = fold_left AddChild cs parent
               /\ parsed_chain f p cs p3
               /\ (uint64_t (s + 8) <= csz -> cs <> [])
               /\ (csz < uint64_t (s + 8) -> cs = []).
Proof.
  induction n as [|n IH]; intros csz s parent p a3 p3 H; cbn [ReadChildAtoms] in H;
    change kMinSizeofAtomHeader with 8 in H;
    destruct (uint64_t (s + 8) <=? csz) eqn:E.
  - discriminate.
  - injection H as <- <-. exists []. cbn. repeat split; auto; lia.
  - destruct (f p) as [c q| |] eqn:Ef; try discriminate.
    apply IH in H. destruct H as (cs & Ha & Hc & _).
    exists (c :: cs). split; [exact Ha|]. split; [exists q; auto|].
    split; [discriminate|lia].
  - injection H as <- <-. exists []. cbn. repeat split; auto; lia.
Qed.

Lemma parsed_chain_range (f : Z -> AtomResult) (L : Z) :
  (forall p c q, f p = Parsed c q -> p + 8 <= q <= L) ->
  forall (cs : list Atom) (p p3 : Z),
    parsed_chain f p cs p3 -> p <= L ->
    p <= p3 <= L /\ (cs <> [] -> p + 8 <= p3).
Proof.
  intros Hf. induction cs as [|c cs IH]; intros p p3 H Hp; cbn in H.
  - subst. split; [lia|congruence].
  - destruct H as (q & H1 & H2). apply Hf in H1.
    apply IH in H2; [|lia]. split; [lia|intros _; lia].
Qed.

Lemma registry_fresh (ty : string) : fresh_fields (registry ty).
Proof.
  unfold registry.
  repeat match goal with
         | |- context [if ?c then _ else _] => destruct c
         end; try exact I; try reflexivity.
  destruct (spec_containers ty); exact I.
Qed.

Lemma expected_pos_ok (pos asz : Z) :
  0 <= pos -> 0 <= asz < 2 ^ 64 ->
  let expected := safe_convert_uint64_t_to_int64_t (safe_add pos asz) in
  expected <= INT64_MAX /\ (expected < INT64_MAX -> expected = pos + asz).
Proof.
  intros Hp Ha. cbv zeta.
  unfold safe_convert_uint64_t_to_int64_t, safe_add, uint64_t, INT64_MAX, UINT64_MAX.
  change (2 ^ 64) with 18446744073709551616 in *.
  destruct (_ >? _) eqn:E1; [lia|].
  destruct (_ <? _) eqn:E2 in E1 |- *; [lia|].
  split; [lia|]. intros _.
  apply Z.ltb_ge in E2. 
  assert (pos < 9223372036854775808) by (Z.div_mod_to_equations; lia).
  Z.div_mod_to_equations. lia.
Qed.

Lemma ReadAtom_inv fuel sid data pos af pos4 :
  len data < INT64_MAX ->
  (forall p c q, ReadAtom fuel sid data p = Parsed c q -> p + 8 <= q <= len data) ->
  ReadAtom (S fuel) sid data pos = Parsed af pos4 ->
  exists hs ds ty a1 pos2 cs pos3 (t : bool),
    ReadHeader data pos = ROk (hs, ds, ty) (pos + hs)
    /\ ReadDataWithoutChildren sid (MkAtom ty hs ds [] false (registry ty))
         data (pos + hs) = ROk a1 pos2
    /\ parsed_chain (ReadAtom fuel sid data) pos2 cs pos3
    /\ (safe_sub (data_size a1) (GetDataSizeWithoutChildren a1) < 8 -> cs = [])
    /\ (8 <= safe_sub (data_size a1) (GetDataSizeWithoutChildren a1) -> cs <> [])
    /\ af = (if t then set_has_null_terminator (fold_left AddChild cs a1) true
             else fold_left AddChild cs a1)
    /\ (if t then exists v, ReadUInt32 data pos3 = ROk v pos4 else pos4 = pos3)
    /\ t = (uint64_t (hs + ds - pos3 + pos) =? 4)
    /\ pos4 = pos + hs + ds /\ pos2 <= pos3 <= pos4 /\ pos4 <= len data
    /\ (cs <> [] -> pos2 + 8 <= pos3).
Proof.
  intros Hlen Hadv H. cbn [ReadAtom] in H.
  destruct (ReadHeader data pos) as [[[hs ds] ty] pos1|e] eqn:EH; [|discriminate].
  destruct (ReadHeader_ok _ _ _ _ _ _ EH) as (Hp & Hp1 & Hp1l & Hhs & Hds & Hsz & _).
  assert (Hc : CreateAtom hs ds ty = MkAtom ty hs ds [] false (registry ty)).
  { unfold CreateAtom, NewAtom. destruct Hhs as [-> | ->]; reflexivity. }
  rewrite Hc in H.
  destruct (ReadDataWithoutChildren sid _ data pos1) as [a1 pos2|e] eqn:ED;
    [|discriminate].
  destruct (ReadData_facts Examples.no_streams sid data ty hs ds (registry ty)
              pos1 a1 pos2 (registry_fresh ty) ltac:(lia) Hlen ltac:(lia) ED)
    as (Ha1 & Hp2 & Hshape & _).
  destruct (ReadChildAtoms _ fuel _ 0 a1 pos2) as [a3 pos3| |] eqn:EC;
    try discriminate.
  apply ReadChildAtoms_ok in EC. destruct EC as (cs & Ha3 & Hchain & Hne & He).
  destruct (parsed_chain_range _ _ Hadv _ _ _ Hchain ltac:(lia)) as [Hr3 Hr3'].
  change (uint64_t (0 + 8)) with 8 in *.
  assert (Hasz : uint64_t (hs + ds) = hs + ds)
    by (unfold uint64_t; apply Z.mod_small; lia).
  rewrite Hasz in H.
  destruct (expected_pos_ok pos (hs + ds) Hp ltac:(lia)) as [Hle Hexp].
  cbv zeta in Hle, Hexp.
  set (expected := safe_convert_uint64_t_to_int64_t (safe_add pos (hs + ds))) in *.
  subst pos1.
  destruct (uint64_t (hs + ds - pos3 + pos) =? 4) eqn:ET.
  - destruct (ReadUInt32 data pos3) as [v p4|e] eqn:ER.
    + destruct (p4 =? expected) eqn:EQ; cbn [negb] in H; [|discriminate].
      injection H as <- <-. apply Z.eqb_eq in EQ.
      pose proof ER as ER'. apply ReadUInt32_ok in ER'.
      destruct ER' as (C & P4 & _). apply Consumed_range in C.
      exists hs, ds, ty, a1, pos2, cs, pos3, true.
      rewrite ET. subst a3.
      repeat (split; [first [assumption|reflexivity|eauto|lia]|]);
        first [assumption|lia].
    + replace (UINT64_MAX =? expected) with false in H
        by (unfold UINT64_MAX, INT64_MAX in *; lia).
      discriminate.
  - destruct (pos3 =? expected) eqn:EQ; cbn [negb] in H; [|discriminate].
    injection H as <- <-. apply Z.eqb_eq in EQ.
    exists hs, ds, ty, a1, pos2, cs, pos3, false.
    rewrite ET. subst a3.
    repeat (split; [first [assumption|reflexivity|eauto|lia]|]);
      first [assumption|lia].
Qed.

Lemma ReadAtom_advances sid data :
  len data < INT64_MAX ->
  forall fuel p c q, ReadAtom fuel sid data p = Parsed c q -> p + 8 <= q <= len data.
Proof.
  intros Hlen. induction fuel as [|fuel IH]; intros p c q H; [discriminate|].
  apply ReadAtom_inv in H; [|exact Hlen|exact IH].
  destruct H as (hs & ds & ty & a1 & pos2 & cs & pos3 & t & EH & _ & _ & _ & _
                 & _ & _ & _ & Hq & _ & Hl & _).
  apply ReadHeader_ok in EH. lia.
Qed.

Lemma lossless_eq data pos a :
  lossless data pos a
  = explicit_size data pos a
    && payload_lossless data (pos + header_size a) a
    && lossless_walk data (has_null_terminator a) (children_ a)
         (pos + header_size a + GetDataSizeWithoutChildren a).
Proof.
  destruct a as [ty hs ds cs t f]. cbn [lossless]. f_equal.
  cbn [has_null_terminator has_null_terminator_ children_].
  generalize (pos + header_size (MkAtom ty hs ds cs t f)
              + GetDataSizeWithoutChildren (MkAtom ty hs ds cs t f)).
  induction cs as [|c cs IH]; intro p; cbn [lossless_walk]; [reflexivity|].
  now rewrite IH.
Qed.

Lemma WriteAtom_eq st a :
  WriteAtom st a
  = emit_then (WriteAtomHeader a)
      (emit_then (WriteDataWithoutChildren st a)
         (emit_then (WriteAtoms st (children_ a))
            (if has_null_terminator a then emit (PutUInt32 0) else emit []))).
Proof.
  destruct a as [ty hs ds cs t f]. cbn [WriteAtom]. do 2 f_equal.
  cbn [children_]. f_equal.
  induction cs as [|c cs IH]; cbn [WriteAtoms]; [reflexivity|].
  now rewrite IH.
Qed.

Lemma chain_write st fuel sid data :
  (forall p c q,
      ReadAtom fuel sid data p = Parsed c q -> lossless data p c = true ->
      q = p + size c
      /\ exists bs, WriteAtom st c = (OK, bs) /\ Consumed data p bs q) ->
  forall (t : bool) (cs : list Atom) (p p3 : Z),
    0 <= p <= len data ->
    parsed_chain (ReadAtom fuel sid data) p cs p3 ->
    lossless_walk data t cs p = true ->
    (forall acc, 0 <= acc -> acc + (p3 - p) < 2 ^ 64 ->
                 fold_left (fun acc c => uint64_t (acc + size c)) cs acc
                 = acc + (p3 - p))
    /\ (exists bs, WriteAtoms st cs = (OK, bs) /\ Consumed data p bs p3)
    /\ (t = true -> be_value (slice p3 4 data) = 0)
    /\ p <= p3.
Proof.
  intros IH t. induction cs as [|c cs IHcs]; intros p p3 Hp Hc Hw.
  - cbn in Hc. subst p3. cbn [lossless_walk] in Hw. split; [|split; [|split]].
    + intros acc _ _. cbn. lia.
    + exists []. split; [reflexivity|]. now apply Consumed_nil.
    + intros ->. now apply Z.eqb_eq in Hw.
    + lia.
  - cbn [parsed_chain] in Hc. destruct Hc as (q & Hr & Hc).
    cbn [lossless_walk] in Hw. apply andb_prop in Hw. destruct Hw as [Hlc Hw].
    destruct (IH _ _ _ Hr Hlc) as (Hq & b1 & Hb1 & C1).
    pose proof (Consumed_range _ _ _ _ C1) as R1.
    rewrite <- Hq in Hw.
    destruct (IHcs q p3 ltac:(lia) Hc Hw) as (Hsum & (b2 & Hb2 & C2) & Hz & Hle).
    split; [|split; [|split]].
    + intros acc Hacc Hbound. cbn [fold_left].
      unfold uint64_t at 2. rewrite Z.mod_small by lia.
      rewrite Hsum by lia. lia.
    + exists (b1 ++ b2). cbn [WriteAtoms]. rewrite Hb1, Hb2. split; [reflexivity|].
      eapply Consumed_app; eassumption.
    + exact Hz.
    + lia.
Qed.

Lemma has_null_terminator_UpdateSize (a : Atom) :
  has_null_terminator (UpdateSize a) = has_null_terminator a.
Proof. reflexivity. Qed.

Lemma ReadAtom_write st sid data :
  holds st sid data -> len data < INT64_MAX ->
  forall fuel pos af pos4,
    ReadAtom fuel sid data pos = Parsed af pos4 ->
    lossless data pos af = true ->
    pos4 = pos + size af
    /\ exists bs, WriteAtom st af = (OK, bs) /\ Consumed data pos bs pos4.
Proof.
  intros Hst Hlen. induction fuel as [|fuel IH]; intros pos af pos4 H Hll;
    [discriminate|].
  apply ReadAtom_inv in H; [|exact Hlen|apply ReadAtom_advances; exact Hlen].
  destruct H as (hs & ds & ty & a1 & pos2 & cs & pos3 & t & EH & ED & Hchain
                 & Hnil & Hne & Haf & Hterm & Ht & Hp4 & Hord & Hp4l & Hadv).
  destruct (ReadHeader_ok _ _ _ _ _ _ EH)
    as (Hp & _ & Hp1l & Hhs & Hds & Hsz & Hhdr).
  destruct (ReadData_facts st sid data ty hs ds (registry ty) (pos + hs) a1 pos2
              (registry_fresh ty) ltac:(lia) Hlen ltac:(lia) ED)
    as (Ha1 & Hp2 & Hshape & Hw).
  change (2 ^ 64) with 18446744073709551616 in Hsz.
  pose proof Hlen as Hlen'. unfold INT64_MAX in Hlen'.
  rewrite lossless_eq in Hll.
  apply andb_prop in Hll. destruct Hll as [Hll Hwalk].
  apply andb_prop in Hll. destruct Hll as [Hex Hpl].
  unfold explicit_size in Hex. apply andb_prop in Hex. destruct Hex as [Hnz Hwide].
  apply negb_true_iff, Z.eqb_neq in Hnz. apply eqb_prop in Hwide.
  destruct (Hhdr Hnz) as [Hiff Hwh]. clear Hhdr.
  assert (Hd1 : data_size a1 = ds) by (rewrite Ha1; reflexivity).
  assert (Ht1 : has_null_terminator_ a1 = false) by (rewrite Ha1; reflexivity).
  assert (Hc1 : children_ a1 = []) by (rewrite Ha1; reflexivity).
  assert (Hty1 : atom_type a1 = ty) by (rewrite Ha1; reflexivity).
  assert (Hh1 : header_size a1 = hs) by (rewrite Ha1; reflexivity).
  assert (Hpos4 : pos4 = pos3 + (if t then 4 else 0)).
  { destruct t; [|lia]. destruct Hterm as [v Hv].
    apply ReadUInt32_ok in Hv. lia. }
  (* the atom that was built *)
  assert (Hcases :
            (cs = [] /\ t = false /\ af = a1 /\ pos2 = pos + hs + ds)
            \/ (exists g, sized_by_payload a1 g /\ g = pos2 - (pos + hs)
                          /\ af = resized a1 g cs t)).
  { assert (Hleft : cs = [] -> t = false -> af = a1 /\ pos2 = pos + hs + ds).
    { intros -> ->. cbn in Hchain, Haf, Hpos4. split; [exact Haf|lia]. }
    destruct Hshape as [[Hle Hg] | [[[r Hr] Hq] | [[(fa & ks & Hr) Hle] | [Hq Hbig]]]].
    - assert (Hfold : cs <> [] ->
                      fold_left AddChild cs a1
                      = resized a1 (pos2 - (pos + hs)) cs false).
      { intro Hcs. rewrite (fold_AddChild cs a1 _ Hg Hcs), Hc1, Ht1. reflexivity. }
      destruct cs as [|c cs].
      + destruct t.
        * right. exists (pos2 - (pos + hs)). split; [exact Hg|]. split; [reflexivity|].
          cbn [fold_left] in Haf.
          rewrite Haf. rewrite (set_terminator_resized a1 _ Hg Ht1), Hc1.
          reflexivity.
        * left. destruct (Hleft eq_refl eq_refl). auto.
      + right. exists (pos2 - (pos + hs)). split; [exact Hg|]. split; [reflexivity|].
        rewrite Hfold in Haf by discriminate.
        destruct t; [|exact Haf].
        rewrite Haf.
        rewrite (set_terminator_resized _ (pos2 - (pos + hs)))
          by (try apply sized_resized; auto).
        reflexivity.
    - left.
      assert (Hcs : cs = []).
      { apply Hnil. unfold GetDataSizeWithoutChildren. rewrite Hr.
        unfold safe_sub. rewrite Z.ltb_irrefl. lia. }
      assert (Htf : t = false).
      { rewrite Ht. subst cs. cbn in Hchain. subst pos3. rewrite Hq, Hd1.
        apply Z.eqb_neq. unfold uint64_t.
        change (2 ^ 64) with 18446744073709551616.
        Z.div_mod_to_equations. lia. }
      destruct (Hleft Hcs Htf). auto.
    - left.
      assert (Hcs : cs = []).
      { apply Hnil. unfold GetDataSizeWithoutChildren. rewrite Hr.
        unfold safe_sub. rewrite Z.ltb_irrefl. lia. }
      destruct t; [|destruct (Hleft Hcs eq_refl); auto].
      exfalso. subst cs. cbn [fold_left] in Haf.
      unfold payload_lossless in Hpl.
      assert (Hfa : fields af = fields a1).
      { rewrite Haf. unfold set_has_null_terminator. rewrite Ht1. cbn [Bool.eqb].
        now rewrite fields_UpdateSize. }
      assert (Hta : has_null_terminator af = true).
      { rewrite Haf. unfold set_has_null_terminator. rewrite Ht1. cbn [Bool.eqb].
        now rewrite has_null_terminator_UpdateSize. }
      rewrite Hfa, Hr, Hta in Hpl. discriminate.
    - exfalso.
      assert (Hcs : cs <> []).
      { apply Hne. unfold safe_sub. rewrite Hd1 in *.
        destruct (ds <? GetDataSizeWithoutChildren a1) eqn:E; lia. }
      specialize (Hadv Hcs). rewrite Hd1 in Hq. lia. }
  assert (K : header_size af = hs /\ data_size af = ds /\ atom_type af = ty
              /\ fields af = fields a1 /\ children_ af = cs
              /\ has_null_terminator af = t
              /\ (exists cb, WriteAtoms st cs = (OK, cb) /\ Consumed data pos2 cb pos3)
              /\ (t = true -> be_value (slice pos3 4 data) = 0)).
  { destruct Hcases as [(-> & -> & -> & Hq) | (g & Hg & Hgq & Hres)].
    - cbn in Hchain. subst pos3.
      do 6 (split; [first [assumption|reflexivity]|]). split; [|discriminate].
      exists []. split; [reflexivity|]. apply Consumed_nil. lia.
    - assert (Hfa : fields af = fields a1) by (rewrite Hres; reflexivity).
      assert (Htya : atom_type af = ty) by (rewrite Hres; exact Hty1).
      assert (Hca : children_ af = cs) by (rewrite Hres; reflexivity).
      assert (Hta : has_null_terminator af = t) by (rewrite Hres; reflexivity).
      assert (Hga : GetDataSizeWithoutChildren af = g)
        by (apply Hg; [exact Hfa | now rewrite Htya, Hty1]).
      assert (Hha : header_size af = hs).
      { assert (header_size af = 8 \/ header_size af = 16).
        { rewrite Hres. unfold resized, header_size. cbn [header_size_].
          destruct (_ >? _); auto. }
        destruct (header_size af =? 16) eqn:E16;
          [apply Z.eqb_eq in E16|apply Z.eqb_neq in E16];
          destruct (size_field data pos =? 1) eqn:E1; try discriminate;
          [apply Z.eqb_eq in E1|apply Z.eqb_neq in E1]; lia. }
      rewrite Hha, Hga, Hca, Hta in Hwalk.
      replace (pos + hs + g) with pos2 in Hwalk by lia.
      destruct (chain_write st fuel sid data IH t cs pos2 pos3 ltac:(lia) Hchain Hwalk)
        as (Hsum & Hcb & Hz & _).
      assert (Hda : data_size af = ds).
      { rewrite Hres. unfold resized, data_size. cbn [data_size_].
        change (2 ^ 64) with 18446744073709551616 in Hsum.
        unfold children_size. rewrite Hsum by lia.
        unfold uint64_t. change (2 ^ 64) with 18446744073709551616.
        rewrite Z.mod_small; destruct t; lia. }
      do 6 (split; [assumption|]). split; [exact Hcb|exact Hz]. }
  destruct K as (Hha & Hda & Htya & Hfa & Hca & Hta & (cb & Hcb & Ccb) & Hz).
  assert (Hsize : size af = hs + ds).
  { unfold size. rewrite Hha, Hda. unfold uint64_t. apply Z.mod_small. lia. }
  split; [lia|].
  destruct (Hwh af Htya Hha Hda) as (hb & Hhb & Chb).
  destruct (Hw Hst af Hfa Htya Hda ltac:(lia) ltac:(now rewrite <- Hha))
    as (pb & Hpb & Cpb).
  rewrite WriteAtom_eq, Hhb, Hpb, Hca, Hcb, Hta.
  destruct t.
  - destruct Hterm as [v Hv]. apply ReadUInt32_ok in Hv.
    destruct Hv as (Cv & _ & _ & Hv). rewrite <- Hv in Hz. rewrite (Hz eq_refl) in Cv.
    eexists. split; [reflexivity|]. cbn [fst snd emit].
    repeat (eapply Consumed_app; [eassumption|]). exact Cv.
  - unfold emit, OkStatus. cbn [emit_then fst snd]. rewrite app_nil_r.
    eexists. split; [reflexivity|].
    replace pos4 with pos3 by lia.
    repeat (eapply Consumed_app; [eassumption|]). exact Ccb.
Qed.

(** ** ReadAtoms followed by WriteAtoms *)

Lemma ReadAtomsLoop_ok fuel sid data :
  forall n pos acc top,
    ReadAtomsLoop fuel n sid data pos acc = Some top -> at_end top = true ->
    exists cs p_end,
      atoms top = acc ++ cs
      /\ parsed_chain (ReadAtom fuel sid data) pos cs p_end
      /\ len data <= p_end.
Proof.
  induction n as [|n IH]; intros pos acc top H Hend; cbn [ReadAtomsLoop] in H;
    unfold Size in H; destruct (pos <? len data) eqn:E.
  - discriminate.
  - injection H as <-. exists [], pos. rewrite app_nil_r. cbn. repeat split; lia.
  - destruct (ReadAtom fuel sid data pos) as [a q|failed|] eqn:Er.
    + apply IH in H; [|exact Hend]. destruct H as (cs & pe & Ha & Hc & Hl).
      exists (a :: cs), pe. rewrite Ha, <- app_assoc. split; [reflexivity|].
      split; [|exact Hl]. exists q. auto.
    + injection H as <-. discriminate Hend.
    + discriminate.
  - injection H as <-. exists [], pos. rewrite app_nil_r. cbn. repeat split; lia.
Qed.

Lemma lossless_top_walk data l : forall p,
  lossless_top data p l = lossless_walk data false l p.
Proof.
  induction l as [|a l IH]; intro p; cbn [lossless_top lossless_walk];
    [reflexivity|]. now rewrite IH.
Qed.

Lemma Consumed_all (data bs : list byte) :
  Consumed data 0 bs (len data) -> bs = data.
Proof.
  intros (_ & Hl & _ & Hs). rewrite <- Hs.
  replace (len bs) with (len data) by lia.
  unfold slice, drop. cbn [Z.to_nat skipn]. apply take_all. lia.
Qed.

(** The bound on the recursion that ReadAtoms uses is never reached:
    ReadAtom consumes at least the 8 bytes of a header before it reads a
    child. *)
Lemma ReadChildAtoms_fuel (f : Z -> AtomResult) (L : Z) :
  (forall q c q', f q = Parsed c q' -> q + 8 <= q' <= L) ->
  forall (n : nat) (csz s : Z) (parent : Atom) (p : Z),
    (forall q, p <= q <= L -> f q <> OutOfFuel) ->
    p <= L -> L - p < Z.of_nat n ->
    ReadChildAtoms f n csz s parent p <> OutOfFuel.
Proof.
  intros Hadv. induction n as [|n IH]; intros csz s parent p Hf Hp Hn; [lia|].
  cbn [ReadChildAtoms].
  destruct (uint64_t (s + kMinSizeofAtomHeader) <=? csz); [|discriminate].
  destruct (f p) as [c q|failed|] eqn:E.
  - apply Hadv in E. apply IH; [|lia|lia].
    intros q' Hq'. apply Hf. lia.
  - discriminate.
  - exfalso. apply (Hf p); [lia|exact E].
Qed.

Lemma ReadAtom_fuel sid data :
  len data < INT64_MAX ->
  forall fuel pos,
    pos <= len data -> len data - pos < Z.of_nat fuel ->
    ReadAtom fuel sid data pos <> OutOfFuel.
Proof.
  intros Hlen. induction fuel as [|fuel IH]; intros pos Hp Hf; [lia|].
  cbn [ReadAtom].
  destruct (ReadHeader data pos) as [[[hs ds] ty] pos1|e] eqn:EH; [|discriminate].
  destruct (ReadHeader_ok _ _ _ _ _ _ EH) as (Hp0 & Hp1 & Hp1l & Hhs & Hds & Hsz & _).
  assert (Hc : CreateAtom hs ds ty = MkAtom ty hs ds [] false (registry ty)).
  { unfold CreateAtom, NewAtom. destruct Hhs as [-> | ->]; reflexivity. }
  rewrite Hc.
  destruct (ReadDataWithoutChildren sid _ data pos1) as [a1 pos2|e] eqn:ED;
    [|discriminate].
  destruct (ReadData_facts Examples.no_streams sid data ty hs ds (registry ty)
              pos1 a1 pos2 (registry_fresh ty) ltac:(lia) Hlen ltac:(lia) ED)
    as (Ha1 & Hp2 & Hshape & _).
  assert (Hloop : ReadChildAtoms (ReadAtom fuel sid data) fuel
                    (safe_sub (data_size a1) (GetDataSizeWithoutChildren a1))
                    0 a1 pos2 <> OutOfFuel).
  { assert (Hge : pos1 <= pos2 ->
                  ReadChildAtoms (ReadAtom fuel sid data) fuel
                    (safe_sub (data_size a1) (GetDataSizeWithoutChildren a1))
                    0 a1 pos2 <> OutOfFuel).
    { intro Hle.
      apply (ReadChildAtoms_fuel _ (len data)); [|  |lia|lia].
      - apply ReadAtom_advances. exact Hlen.
      - intros q Hq. apply IH; lia. }
    destruct Hshape as [[Hle _] | [[[r Hr] _] | [[_ Hle] | [Hq _]]]].
    - auto.
    - unfold GetDataSizeWithoutChildren. rewrite Hr. unfold safe_sub.
      rewrite Z.ltb_irrefl, Z.sub_diag.
      destruct fuel; cbn [ReadChildAtoms]; discriminate.
    - auto.
    - apply Hge. rewrite Ha1 in Hq. cbn [data_size data_size_] in Hq. lia. }
  destruct (ReadChildAtoms _ fuel _ 0 a1 pos2) as [a3 pos3| |];
    [|discriminate|congruence].
  destruct (uint64_t (uint64_t (hs + ds) - pos3 + pos) =? 4).
  - destruct (ReadUInt32 data pos3); destruct (negb _); discriminate.
  - destruct (negb _); discriminate.
Qed.

Lemma ReadAtomsLoop_fuel sid data (fuel : nat) :
  len data < INT64_MAX ->
  forall n pos acc,
    len data < Z.of_nat fuel -> 0 <= pos -> len data - pos < Z.of_nat n ->
    ReadAtomsLoop fuel n sid data pos acc <> None.
Proof.
  intros Hlen. induction n as [|n IH]; intros pos acc Hf Hp Hn;
    cbn [ReadAtomsLoop]; unfold Size; destruct (pos <? len data) eqn:E;
    try discriminate; [lia|].
  destruct (ReadAtom fuel sid data pos) as [a q|failed|] eqn:Er.
  - apply ReadAtom_advances in Er; [|exact Hlen]. apply IH; lia.
  - discriminate.
  - exfalso. apply (ReadAtom_fuel sid data Hlen fuel pos); [lia|lia|exact Er].
Qed.

Lemma ReadAtoms_bounds sid data :
  len data < INT64_MAX ->
  exists top,
    ReadAtomsLoop (S (List.length data)) (S (List.length data)) sid data 0 []
    = Some top
    /\ ReadAtoms sid data = top.
Proof.
  intro Hlen. unfold ReadAtoms.
  destruct (ReadAtomsLoop _ _ sid data 0 []) as [top|] eqn:E.
  - eauto.
  - exfalso. revert E. apply ReadAtomsLoop_fuel; unfold len in *; lia.
Qed.

(** C1 (as amended).  When ReadAtoms parses the whole input (it stops at
    the end of the stream, not on a nullptr) and every parsed atom is
    lossless, that is: its header gives its size explicitly, in the width
    that the parsed atom records, the entry count of an stsd is its number
    of children, the 16.16 width and height of a tkhd and the resolutions of
    a visual sample entry are whole numbers, an stss has no null
    terminator, an hdlr is shorter than 2 GB and null terminators are zero,
    then writing the atoms with WriteAtom, the stream still readable for the
    default atoms that copy their payload from it, yields exactly the input
    bytes. *)
Theorem ReadAtoms_WriteAtoms_round_trip (st : Streams) (sid : nat) (input : list byte) :
  holds st sid input ->
  len input < INT64_MAX ->
  at_end (ReadAtoms sid input) = true ->
  lossless_top input 0 (atoms (ReadAtoms sid input)) = true ->
  WriteAtoms st (atoms (ReadAtoms sid input)) = (OK, input).
Proof.
  intros Hst Hlen Hend Hll.
  destruct (ReadAtoms_bounds sid input Hlen) as (top & Hloop & Htop).
  rewrite Htop in *.
  apply ReadAtomsLoop_ok in Hloop; [|exact Hend].
  destruct Hloop as (cs & pe & Ha & Hc & Hl). cbn [app] in Ha. rewrite Ha in *.
  pose proof (len_nonneg input).
  destruct (parsed_chain_range _ _ (ReadAtom_advances sid input Hlen _) _ _ _ Hc
              ltac:(lia)) as [Hr _].
  rewrite lossless_top_walk in Hll.
  destruct (chain_write st _ sid input (ReadAtom_write st sid input Hst Hlen _)
              false cs 0 pe ltac:(lia) Hc Hll) as (_ & (bs & Hbs & C) & _).
  rewrite Hbs. f_equal. apply Consumed_all.
  replace (len input) with pe by lia. exact C.
Qed.

Lemma ReadAtoms_WriteAtoms_round_trip_witness :
  WriteAtoms (with_stream Examples.no_streams 0 Examples.moov_then_mdat false)
             (atoms (ReadAtoms 0 Examples.moov_then_mdat))
  = (OK, Examples.moov_then_mdat).
Proof.
  apply (ReadAtoms_WriteAtoms_round_trip
           (with_stream Examples.no_streams 0 Examples.moov_then_mdat false) 0
           Examples.moov_then_mdat).
  - reflexivity.
  - vm_compute. reflexivity.
  - vm_compute. reflexivity.
  - vm_compute. reflexivity.
Defined.

(** C1, as stated, fails: a file that is one mdat atom whose size field is
    0 (the atom extends to the end of the file) is parsed to its end without
    error, and written back with the size field 8. *)
Lemma size_to_end_of_file_is_rewritten :
  let input := Examples.mdat_to_end_of_file in
  let st := with_stream Examples.no_streams 0 input false in
  let top := ReadAtoms 0 input in
  at_end top = true /\ stream_failed_ top = false
  /\ List.length (atoms top) = 1%nat
  /\ WriteAtoms st (atoms top) = (OK, PutUInt32 8 ++ list_byte_of_string "mdat")
  /\ WriteAtoms st (atoms top) <> (OK, input).
Proof.
  cbv zeta. repeat split; try (vm_compute; reflexivity).
  vm_compute. intro H. discriminate H.
Qed.

(** ** ModifyMoov *)

(** C3.  On the input [mdat_then_moov] (an mdat atom at byte 0, then a moov
    whose track has the chunk offset 2^32-16 in an stco table), ModifyMoov
    with a modifier that changes nothing returns OK and writes the moov
    first and the mdat after it, at byte 64: the mdat has moved by 64 bytes.
    The chunk offset it writes is the old one plus 60, the size of the moov
    before AdjustChunkOffsets turned its stco table into a co64 table, which
    is 4 bytes longer. *)
Theorem ModifyMoov_promotion_moves_mdat_further :
  let input := Examples.mdat_then_moov in
  let before := atoms (ReadAtoms 0 input) in
  let moov_written := Examples.moov_co64_box (4294967280 + 60) in
  input = Examples.box "mdat" [] ++ Examples.moov_box 4294967280
  /\ map atom_type before = ["mdat"; "moov"]%string
  /\ GetAtomPosition before kMdatType = 0
  /\ ModifyMoov Examples.no_streams Examples.identity_modifier 0 input
     = (OK, moov_written ++ Examples.box "mdat" [])
  /\ len moov_written = 64
  /\ map atom_type (atoms (ReadAtoms 0 (moov_written ++ Examples.box "mdat" [])))
     = ["moov"; "mdat"]%string
  /\ GetAtomPosition (atoms (ReadAtoms 0 (moov_written ++ Examples.box "mdat" [])))
       kMdatType = 64.
Proof.
  cbv zeta. repeat split; vm_compute; reflexivity.
Qed.

(** ** ModifyMoovInPlace *)




Lemma GetAtomPositionFrom_nonneg (l : list Atom) (type : string) :
  forall p, 0 <= p -> 0 <= GetAtomPositionFrom l type p.
Proof.
  induction l as [|a l IH]; intros p Hp; cbn [GetAtomPositionFrom]; [exact Hp|].
  destruct (String.eqb (atom_type a) type); [exact Hp|].
  apply IH. unfold uint64_t. apply Z.mod_pos_bound. lia.
Qed.



End Mp4Facts.

(** * Properties of the stationary detector *)

Module MahonyFacts.

Import Mahony.
Import StationaryDetector.
Import MahonySpec.
Local Open Scope Q_scope.

Lemma AddGyroMeasurement_eq (d : t) (g : Vector3d) (ts : Q) :
  AddGyroMeasurement d g ts
  = set_last_gyro (if gyro_delta_valid d g ts
                   then Update (before_Update d g ts) ts
                   else first_gyro d g ts) g ts.
Proof.
  unfold AddGyroMeasurement, gyro_delta_valid, before_Update, first_gyro.
  cbv zeta. destruct (IsTimeDeltaBetweenSamplesValid _); reflexivity.
Qed.


Lemma watched_first_gyro d g ts : watched (first_gyro d g ts) = watched d.
Proof. unfold first_gyro. destruct d. cbn. destruct is_last_gyro_initialized_0; reflexivity. Qed.

Lemma watched_before_Update d g ts : watched (before_Update d g ts) = watched d.
Proof.
  unfold before_Update. cbv zeta.
  pose proof (watched_first_gyro d g ts) as H.
  destruct (first_gyro d g ts) as [].
  cbn in *. destruct is_stationary_0; exact H.
Qed.


Lemma watched_GetGyroBiasCorrection d b ts :
  watched (snd (GetGyroBiasCorrection d b ts)) = watched d.
Proof.
  unfold GetGyroBiasCorrection. destruct d. cbn.
  destruct (DelayedLowPassFilter.GetFilteredData _); [|reflexivity].
  destruct is_stationary_0; [|reflexivity]. cbn.
  destruct (ConditionTester.IsStable _ _ _ _) as [stable tester]. cbn.
  destruct stable; cbn; destruct (_ && _); reflexivity.
Qed.




Lemma watched_set_exit_tester d c :
  watched (set_exit_tester d c) = (is_stationary_ d, c).
Proof. destruct d; reflexivity. Qed.

Lemma watched_set_is_stationary d b :
  watched (set_is_stationary d b) = (b, exit_condition_tester_ d).
Proof. destruct d; reflexivity. Qed.








(** C2.  After 21 samples at rest, two per second, a detector with the
    default configuration and the gain 1 is stationary, past its
    initialisation and has a bias estimate; asked for the correction of the
    external bias (0.01, 0, 0) at 10 s it returns a vector whose first
    component is 0.01, above max_stationary_gyro_bias_correction (0.0015):
    the results of cwiseMin and cwiseMax are dropped. *)
Theorem GetGyroBiasCorrection_is_not_clamped :
  let d := run d0 (still 21) in
  let r := fst (GetGyroBiasCorrection d ext_bias 10) in
  IsStationary d = true
  /\ IsInitializing d = false
  /\ (exists b, DelayedLowPassFilter.GetFilteredData
                  (gyro_bias_delayed_low_pass_filter_ d) = Some b
                /\ veq b Zero)
  /\ max_stationary_gyro_bias_correction (config_ d) = 15 # 10000
  /\ stationary_bias_correction_gain_ d = 1
  /\ x_ r == 1 # 100
  /\ ~ (x_ r <= 15 # 10000).
Proof.
  cbv zeta. split; [vm_compute; reflexivity|]. split; [vm_compute; reflexivity|].
  split.
  { eexists. split; [vm_compute; reflexivity|]. vm_compute. repeat split. }
  split; [reflexivity|]. split; [reflexivity|].
  split; [vm_compute; reflexivity|].
  vm_compute. intro H. apply H. reflexivity.
Qed.

End MahonyFacts.

(** * Properties of the quaternion integration *)

Module OrientationFacts.

Import Orientation.
Local Open Scope R_scope.







End OrientationFacts.

(** * Further properties of the atom engine *)

Module Mp4Extra.

Import Mp4.
Import Mp4Spec.
Import Mp4Facts.
Local Open Scope Z_scope.

Lemma atom_type_AddChild (a c : Atom) : atom_type (AddChild a c) = atom_type a.
Proof. rewrite AddChild_eq, atom_type_UpdateSize. reflexivity. Qed.

Lemma atom_type_fold_AddChild (cs : list Atom) :
  forall a, atom_type (fold_left AddChild cs a) = atom_type a.
Proof.
  induction cs as [|c cs IH]; intro a; cbn [fold_left]; [reflexivity|].
  now rewrite IH, atom_type_AddChild.
Qed.

Lemma atom_type_set_has_null_terminator (a : Atom) (t : bool) :
  atom_type (set_has_null_terminator a t) = atom_type a.
Proof.
  unfold set_has_null_terminator. destruct (Bool.eqb _ _); [reflexivity|].
  now rewrite atom_type_UpdateSize.
Qed.

(** X1.  An atom that ReadAtom returns has consumed exactly the bytes its
    header declares: the reader ends at the start position plus the header
    size (8 or 16) plus the data size, and the atom has the type of the
    header. *)
Theorem ReadAtom_consumes_declared_size
        (sid : nat) (data : list byte) (fuel : nat) (pos : Z) (a : Atom) (pos' : Z) :
  len data < INT64_MAX ->
  ReadAtom fuel sid data pos = Parsed a pos' ->
  exists hs ds ty,
    ReadHeader data pos = ROk (hs, ds, ty) (pos + hs)
    /\ (hs = 8 \/ hs = 16) /\ 0 <= ds
    /\ pos' = pos + hs + ds
    /\ 0 <= pos
    /\ atom_type a = ty.
Proof.
  intros Hlen H. destruct fuel as [|fuel]; [discriminate|].
  apply ReadAtom_inv in H; [|exact Hlen|apply ReadAtom_advances; exact Hlen].
  destruct H as (hs & ds & ty & a1 & pos2 & cs & pos3 & t & EH & ED & _ & _ & _
                 & Haf & _ & _ & Hp4 & _ & Hp4l & _).
  destruct (ReadHeader_ok _ _ _ _ _ _ EH) as (Hp & _ & Hp1l & Hhs & Hds & Hsz & _).
  destruct (ReadData_facts Examples.no_streams sid data ty hs ds (registry ty)
              (pos + hs) a1 pos2 (registry_fresh ty) ltac:(lia) Hlen ltac:(lia) ED)
    as (Ha1 & _).
  exists hs, ds, ty. repeat (split; [assumption|]).
  rewrite Haf. destruct t.
  - rewrite atom_type_set_has_null_terminator, atom_type_fold_AddChild, Ha1.
    reflexivity.
  - rewrite atom_type_fold_AddChild, Ha1. reflexivity.
Qed.

Lemma ReadAtom_consumes_declared_size_witness :
  exists a, ReadAtom 2 0 (Examples.stco_box 5) 0 = Parsed a 20
            /\ atom_type a = "stco"%string.
Proof.
  destruct (ReadAtom 2 0 (Examples.stco_box 5) 0) as [a p| |] eqn:E;
    try (vm_compute in E; discriminate E).
  destruct (ReadAtom_consumes_declared_size 0 (Examples.stco_box 5) 2 0 a p)
    as (hs & ds & ty & EH & _ & _ & Hp & _ & Hty).
  - vm_compute. reflexivity.
  - exact E.
  - vm_compute in EH. injection EH as <- <- <-.
    exists a. subst p. split; [reflexivity|exact Hty].
Defined.

(** X2.  With fewer than 8 bytes left in the stream ReadAtom returns
    nullptr and leaves the stream failed. *)
Theorem ReadAtom_truncated_header
        (sid : nat) (data : list byte) (fuel : nat) (pos : Z) :
  len data < pos + 8 ->
  ReadAtom (S fuel) sid data pos = Nullptr true.
Proof.
  intro H. cbn [ReadAtom].
  destruct (ReadHeader data pos) as [[[hs ds] ty] p|e] eqn:EH.
  - apply ReadHeader_ok in EH. lia.
  - assert (He : e = FILE_UNEXPECTED_EOF); [|now rewrite He].
    unfold ReadHeader in EH. cbv zeta in EH. unfold rbind in EH.
    destruct (ReadUInt32 data pos) as [s32 p1|e1] eqn:E1.
    + apply ReadUInt32_ok in E1. destruct E1 as (_ & P1 & _).
      unfold ReadString, ReadBytes in EH.
      change (uint64_t kAtomTypeSize) with 4 in EH.
      replace (p1 + 4 <=? len data) with false in EH by lia.
      rewrite andb_false_r in EH. congruence.
    + unfold ReadUInt32, rbind, ReadBytes in E1.
      destruct ((0 <=? pos) && (0 <=? 4) && (pos + 4 <=? len data));
        [discriminate|]. congruence.
Qed.

Lemma ReadAtom_truncated_header_witness :
  ReadAtom 1 0 (PutUInt32 16 ++ PutUInt8 0) 0 = Nullptr true.
Proof.
  apply (ReadAtom_truncated_header 0 (PutUInt32 16 ++ PutUInt8 0) 0 0).
  vm_compute. reflexivity.
Defined.

Lemma ReadBytes_at (n : Z) (data : list byte) (pos : Z) :
  0 <= pos -> 0 <= n -> pos + n <= len data ->
  ReadBytes n data pos = ROk (slice pos n data) (pos + n).
Proof.
  intros H1 H2 H3. unfold ReadBytes.
  destruct (0 <=? pos) eqn:E1; [|lia].
  destruct (0 <=? n) eqn:E2; [|lia].
  destruct (pos + n <=? len data) eqn:E3; [|lia].
  reflexivity.
Qed.

(** X3.  A header that declares a size smaller than the header itself (a
    32-bit size field from 2 to 7, or the 64-bit form with a size below 16)
    makes ReadAtom return nullptr; no read has failed, so the stream is left
    usable. *)
Theorem ReadAtom_undersized_header
        (sid : nat) (data : list byte) (fuel : nat) (pos : Z) :
  0 <= pos -> pos + 8 <= len data ->
  (2 <= size_field data pos < 8
   \/ (size_field data pos = 1 /\ pos + 16 <= len data
       /\ be_value (slice (pos + 8) 8 data) < 16)) ->
  ReadAtom (S fuel) sid data pos = Nullptr false.
Proof.
  intros Hp Hl H. cbn [ReadAtom].
  assert (EH : ReadHeader data pos = RErr FILE_FORMAT_ERROR); [|now rewrite EH].
  unfold ReadHeader. cbv zeta. unfold rbind.
  assert (E1 : ReadUInt32 data pos = ROk (size_field data pos) (pos + 4)).
  { unfold ReadUInt32, rbind, rret. rewrite ReadBytes_at by lia. reflexivity. }
  rewrite E1.
  assert (E2 : ReadString kAtomTypeSize data (pos + 4)
               = ROk (slice (pos + 4) 4 data) (pos + 8)).
  { unfold ReadString. change (uint64_t kAtomTypeSize) with 4.
    rewrite ReadBytes_at by lia. f_equal. lia. }
  rewrite E2.
  unfold kIndicateSizeIs64, kIndicateSizeIsToEndOfFile, kSizeOf32bitSize,
    kAtomTypeSize.
  destruct H as [H | (H1 & H2 & H3)].
  - destruct (size_field data pos =? 1) eqn:Ea; [lia|].
    destruct (size_field data pos =? 0) eqn:Eb; [lia|].
    unfold rret. destruct (size_field data pos <? 4 + 4) eqn:Ec; [|lia].
    reflexivity.
  - rewrite H1. cbn [Z.eqb Pos.eqb].
    assert (E3 : ReadUInt64 data (pos + 8)
                 = ROk (be_value (slice (pos + 8) 8 data)) (pos + 16)).
    { unfold ReadUInt64, rbind, rret. rewrite ReadBytes_at by lia.
      f_equal. lia. }
    rewrite E3. unfold rret.
    destruct (be_value (slice (pos + 8) 8 data) <? 4 + 4 + 8) eqn:Ec; [|lia].
    reflexivity.
Qed.

Lemma ReadAtom_undersized_header_witness :
  ReadAtom 1 0 (PutUInt32 7 ++ list_byte_of_string "free") 0 = Nullptr false.
Proof.
  apply (ReadAtom_undersized_header 0 (PutUInt32 7 ++ list_byte_of_string "free") 0 0).
  - lia.
  - vm_compute. intro E. discriminate E.
  - left. vm_compute. split; [intro E; discriminate E | reflexivity].
Defined.

(** X5.  An integer written with PutUInt8, PutUInt16, PutUInt24, PutUInt32
    or PutUInt64 is read back by the ReadUInt function of the same width,
    anywhere in a stream, as the value reduced modulo 2^8, 2^16, 2^24, 2^32
    or 2^64, and the reader moves on by 1, 2, 3, 4 or 8 bytes. *)
Theorem PutUInt_ReadUInt (pre post : list byte) (v : Z) :
  ReadUInt8 (pre ++ PutUInt8 v ++ post) (len pre) = ROk (uint8_t v) (len pre + 1)
  /\ ReadUInt16 (pre ++ PutUInt16 v ++ post) (len pre) = ROk (uint16_t v) (len pre + 2)
  /\ ReadUInt24 (pre ++ PutUInt24 v ++ post) (len pre) = ROk (v mod 2 ^ 24) (len pre + 3)
  /\ ReadUInt32 (pre ++ PutUInt32 v ++ post) (len pre) = ROk (uint32_t v) (len pre + 4)
  /\ ReadUInt64 (pre ++ PutUInt64 v ++ post) (len pre) = ROk (uint64_t v) (len pre + 8).
Proof.
  repeat split.
  - exact (reads_to_ReadUInt8 v pre post).
  - exact (reads_to_ReadUInt16 v pre post).
  - exact (reads_to_ReadUInt24 v pre post).
  - exact (reads_to_ReadUInt32 v pre post).
  - exact (reads_to_ReadUInt64 v pre post).
Qed.

(** X6.  What ReadUInt32 or ReadUInt64 returns is a value of its width, and
    PutUInt32 or PutUInt64 of that value gives back the 4 or 8 bytes that
    were read; a read that does not fit the stream fails with
    FILE_UNEXPECTED_EOF. *)
Theorem ReadUInt_PutUInt (data : list byte) (pos : Z) :
  (forall v pos', ReadUInt32 data pos = ROk v pos' ->
                  0 <= v <= UINT32_MAX /\ pos' = pos + 4
                  /\ PutUInt32 v = slice pos 4 data)
  /\ (forall v pos', ReadUInt64 data pos = ROk v pos' ->
                     0 <= v <= UINT64_MAX /\ pos' = pos + 8
                     /\ PutUInt64 v = slice pos 8 data)
  /\ (len data < pos + 4 -> ReadUInt32 data pos = RErr FILE_UNEXPECTED_EOF)
  /\ (len data < pos + 8 -> ReadUInt64 data pos = RErr FILE_UNEXPECTED_EOF).
Proof.
  split; [|split; [|split]].
  - intros v pos' H. apply ReadUInt32_ok in H.
    destruct H as ((_ & _ & _ & Hs) & Hp & Hr & _).
    change (len (PutUInt32 v)) with (len (be_bytes 4 v)) in Hs.
    rewrite len_be_bytes in Hs.
    change (2 ^ 32) with 4294967296 in Hr. unfold UINT32_MAX.
    repeat split; try lia. now rewrite <- Hs.
  - intros v pos' H. apply ReadUInt64_ok in H.
    destruct H as ((_ & _ & _ & Hs) & Hp & Hr & _).
    change (len (PutUInt64 v)) with (len (be_bytes 8 v)) in Hs.
    rewrite len_be_bytes in Hs.
    change (2 ^ 64) with 18446744073709551616 in Hr. unfold UINT64_MAX.
    repeat split; try lia. now rewrite <- Hs.
  - intro H. unfold ReadUInt32, rbind, ReadBytes.
    destruct (pos + 4 <=? len data) eqn:E; [lia|].
    now rewrite andb_false_r.
  - intro H. unfold ReadUInt64, rbind, ReadBytes.
    destruct (pos + 8 <=? len data) eqn:E; [lia|].
    now rewrite andb_false_r.
Qed.

Lemma ReadUInt_PutUInt_witness :
  ReadUInt32 (PutUInt8 0) 0 = RErr FILE_UNEXPECTED_EOF.
Proof.
  apply (proj1 (proj2 (proj2 (ReadUInt_PutUInt (PutUInt8 0) 0)))).
  vm_compute. reflexivity.
Defined.

(** ** Children *)

Lemma take_drop_insert {A} (l : list A) (x : A) (i : Z) :
  0 <= i <= len l ->
  take i (take i l ++ x :: drop i l) ++ drop (i + 1) (take i l ++ x :: drop i l) = l
  /\ nth_error (take i l ++ x :: drop i l) (Z.to_nat i) = Some x
  /\ len (take i l ++ x :: drop i l) = len l + 1.
Proof.
  intro H. unfold take, drop, len in *.
  assert (L : List.length (firstn (Z.to_nat i) l) = Z.to_nat i).
  { rewrite firstn_length_le; lia. }
  split; [|split].
  - rewrite firstn_app, L, Nat.sub_diag, firstn_O, app_nil_r.
    rewrite firstn_all2 by lia.
    rewrite skipn_app, L.
    rewrite skipn_all2 by lia.
    replace (Z.to_nat (i + 1) - Z.to_nat i)%nat with 1%nat by lia.
    cbn [skipn app]. apply firstn_skipn.
  - rewrite nth_error_app2 by lia. rewrite L, Nat.sub_diag. reflexivity.
  - rewrite length_app. cbn [List.length]. rewrite L, length_skipn. lia.
Qed.

(** X7.  Deleting the child that AddChildAt has just put at a valid index
    returns that child and leaves the atom with its former children, type
    and fields; for an atom of a class whose own payload size does not
    depend on data_size, the atom is then what UpdateSize makes of the
    original one. *)
Theorem DeleteChild_AddChildAt (a c : Atom) (i : Z) :
  0 <= i <= NumChildren a ->
  let r := DeleteChild (AddChildAt a c i) i in
  fst r = Some c
  /\ children_ (snd r) = children_ a
  /\ fields (snd r) = fields a
  /\ atom_type (snd r) = atom_type a
  /\ (forall g, sized_by_payload a g -> snd r = UpdateSize a).
Proof.
  intros Hi r. subst r. unfold NumChildren in Hi.
  destruct (take_drop_insert (children_ a) c i Hi) as (Hl & Hn & Hlen).
  unfold AddChildAt, NumChildren.
  destruct ((i <? 0) || (i >? len (children_ a))) eqn:E; [lia|].
  set (cs' := take i (children_ a) ++ c :: drop i (children_ a)) in *.
  unfold DeleteChild, NumChildren, GetChild.
  rewrite children_UpdateSize. cbn [set_children children_].
  destruct ((i <? 0) || (i >=? len cs')) eqn:E'; [lia|].
  destruct (i <? 0) eqn:E0; [lia|].
  cbn [fst snd]. rewrite Hn, Hl.
  split; [reflexivity|].
  rewrite children_UpdateSize, fields_UpdateSize, atom_type_UpdateSize.
  cbn [set_children children_ fields atom_type atom_type_].
  rewrite fields_UpdateSize, atom_type_UpdateSize.
  cbn [set_children fields atom_type atom_type_].
  do 3 (split; [reflexivity|]).
  intros g Hg.
  rewrite (UpdateSize_resized _ g), (UpdateSize_resized a g).
  - unfold resized. cbn [set_children atom_type_ children_ has_null_terminator_ fields].
    rewrite has_null_terminator_UpdateSize. cbn [has_null_terminator_ set_children].
    rewrite fields_UpdateSize. cbn [fields set_children].
    reflexivity.
  - exact Hg.
  - intros af Hf Ht. apply Hg.
    + rewrite Hf. cbn [set_children fields]. rewrite fields_UpdateSize. reflexivity.
    + rewrite Ht. cbn [set_children atom_type atom_type_].
      rewrite atom_type_UpdateSize. reflexivity.
Qed.

Lemma DeleteChild_AddChildAt_witness :
  let a := CreateAtom 8 0 "trak" in
  let c := CreateAtom 8 4 "free" in
  DeleteChild (AddChildAt a c 0) 0 = (Some c, UpdateSize a).
Proof.
  cbv zeta.
  destruct (DeleteChild_AddChildAt (CreateAtom 8 0 "trak") (CreateAtom 8 4 "free") 0)
    as (H1 & _ & _ & _ & H5).
  - vm_compute. split; intro E; discriminate E.
  - rewrite (surjective_pairing (DeleteChild _ 0)). rewrite H1.
    rewrite (H5 0); [reflexivity|].
    intros af Hf _. unfold GetDataSizeWithoutChildren. rewrite Hf. reflexivity.
Defined.

(** ** Top-level atoms *)

Lemma GetAtomFrom_spec (type : string) (l : list Atom) :
  forall k p,
    (GetAtomIndexFrom l type k = -1
     /\ Forall (fun a => atom_type a <> type) l
     /\ GetAtomPositionFrom l type p
        = fold_left (fun acc c => uint64_t (acc + size c)) l p)
    \/ (exists j : nat,
           GetAtomIndexFrom l type k = k + Z.of_nat j
           /\ (j < List.length l)%nat
           /\ (forall d, atom_type (nth j l d) = type)
           /\ Forall (fun a => atom_type a <> type) (firstn j l)
           /\ GetAtomPositionFrom l type p
              = fold_left (fun acc c => uint64_t (acc + size c)) (firstn j l) p).
Proof.
  induction l as [|a l IH]; intros k p;
    cbn [GetAtomIndexFrom GetAtomPositionFrom].
  - left. repeat split. constructor.
  - destruct (String.eqb (atom_type a) type) eqn:E.
    + right. exists 0%nat. apply String.eqb_eq in E.
      cbn [firstn fold_left nth List.length].
      repeat split; try lia; auto.
    + apply String.eqb_neq in E.
      destruct (IH (k + 1) (uint64_t (p + size a)))
        as [(H1 & H2 & H3) | (j & H1 & H2 & H3 & H4 & H5)].
      * left. cbn [fold_left]. repeat split; auto.
      * right. exists (S j). cbn [firstn fold_left nth List.length].
        repeat split; auto; lia.
Qed.

(** X8.  GetAtomIndex returns -1 exactly when no top-level atom has the
    type asked for, and GetAtomPosition is then the sum of all the sizes;
    otherwise GetAtomIndex is the index of the first atom of that type and
    GetAtomPosition is the sum of the sizes of the atoms before it (sums of
    uint64_t values). *)
Theorem GetAtomIndex_GetAtomPosition (l : list Atom) (type : string) :
  let i := GetAtomIndex l type in
  (i = -1
   /\ Forall (fun a => atom_type a <> type) l
   /\ GetAtomPosition l type = children_size l)
  \/ (0 <= i < len l
      /\ atom_type (at_index l i) = type
      /\ Forall (fun a => atom_type a <> type) (take i l)
      /\ GetAtomPosition l type = children_size (take i l)).
Proof.
  cbv zeta. unfold GetAtomIndex, GetAtomPosition, children_size.
  destruct (GetAtomFrom_spec type l 0 0)
    as [(H1 & H2 & H3) | (j & H1 & H2 & H3 & H4 & H5)].
  - left. auto.
  - right. rewrite H1. cbn [Z.add]. unfold at_index, take, len.
    rewrite Nat2Z.id. repeat split; auto; lia.
Qed.

(** ** ModifyMoov and ModifyMoovInPlace *)

Lemma replace_nth_same {A} (d : A) (l : list A) :
  forall i, replace_nth i (nth i l d) l = l.
Proof.
  induction l as [|x l IH]; intros [|i]; cbn [replace_nth nth]; try reflexivity.
  now rewrite IH.
Qed.

Lemma ReadAtomsLoop_at_end (fuel : nat) (sid : nat) (data : list byte) :
  forall n pos acc top,
    ReadAtomsLoop fuel n sid data pos acc = Some top -> at_end top = true ->
    stream_failed_ top = false.
Proof.
  induction n as [|n IH]; intros pos acc top H Hend; cbn [ReadAtomsLoop] in H;
    destruct (pos <? Size data); try discriminate.
  - injection H as <-. reflexivity.
  - destruct (ReadAtom fuel sid data pos) as [a q|failed|].
    + eapply IH; eassumption.
    + injection H as <-. discriminate Hend.
    + discriminate.
  - injection H as <-. reflexivity.
Qed.

(** X9.  ModifyMoov with a modifier that returns OK and leaves the moov as
    it is reproduces its input byte for byte, when the moov precedes the
    mdat, ReadAtoms parses the input to its end and every parsed atom is
    lossless (explicit header sizes and payloads that the typed codecs write
    back unchanged): nothing is swapped and no chunk offset is adjusted. *)
Theorem ModifyMoov_unchanged_moov
        (st : Streams) (modifier : MoovModifier) (sid : nat) (input : list byte) :
  let top_level_atoms := atoms (ReadAtoms sid input) in
  let moov_index := GetAtomIndex top_level_atoms kMoovType in
  let mdat_index := GetAtomIndex top_level_atoms kMdatType in
  len input < INT64_MAX ->
  at_end (ReadAtoms sid input) = true ->
  lossless_top input 0 top_level_atoms = true ->
  0 <= moov_index < mdat_index ->
  modifier (at_index top_level_atoms moov_index)
  = (OK, at_index top_level_atoms moov_index) ->
  ModifyMoov st modifier sid input = (OK, input).
Proof.
  cbv zeta. intros Hlen Hend Hll Hidx Hmod.
  unfold ModifyMoov. cbv zeta.
  destruct (ReadAtoms_bounds sid input Hlen) as (top & Hloop & Htop).
  rewrite Htop in *.
  set (l := atoms top) in *.
  set (mi := GetAtomIndex l kMoovType) in *.
  set (di := GetAtomIndex l kMdatType) in *.
  replace ((mi =? -1) || (di =? -1)) with false by lia.
  rewrite Hmod.
  replace (mi >? di) with false by lia.
  unfold at_index. rewrite !replace_nth_same.
  rewrite Z.sub_diag. change (int64_t 0) with 0. cbn [Z.eqb negb].
  rewrite replace_nth_same.
  rewrite (ReadAtomsLoop_at_end _ _ _ _ _ _ _ Hloop Hend).
  set (st' := with_stream st sid input false).
  assert (Hst : holds st' sid input).
  { unfold holds, st', with_stream. now rewrite Nat.eqb_refl. }
  apply ReadAtomsLoop_ok in Hloop; [|exact Hend].
  destruct Hloop as (cs & pe & Ha & Hc & Hl). cbn [app] in Ha.
  fold l in Ha. rewrite Ha in *.
  pose proof (len_nonneg input).
  destruct (parsed_chain_range _ _ (ReadAtom_advances sid input Hlen _) _ _ _ Hc
              ltac:(lia)) as [Hr _].
  rewrite lossless_top_walk in Hll.
  destruct (chain_write st' _ sid input (ReadAtom_write st' sid input Hst Hlen _)
              false cs 0 pe ltac:(lia) Hc Hll) as (_ & (bs & Hbs & C) & _).
  rewrite Hbs. f_equal. apply Consumed_all.
  replace (len input) with pe by lia. exact C.
Qed.

Lemma ModifyMoov_unchanged_moov_witness :
  ModifyMoov Examples.no_streams Examples.identity_modifier 0
             Examples.moov_then_mdat
  = (OK, Examples.moov_then_mdat).
Proof.
  apply (ModifyMoov_unchanged_moov Examples.no_streams Examples.identity_modifier 0
           Examples.moov_then_mdat).
  - vm_compute. reflexivity.
  - vm_compute. reflexivity.
  - vm_compute. reflexivity.
  - vm_compute. split; [intro E; discriminate E | reflexivity].
  - reflexivity.
Defined.

Lemma write_keeps (w : BinaryWriterImpl) (bs : list byte) (P : Z) :
  0 <= P <= tellp w -> P <= len (file_ w) ->
  take P (file_ (write w bs)) = take P (file_ w)
  /\ len (file_ w) <= len (file_ (write w bs))
  /\ tellp w <= tellp (write w bs).
Proof.
  intros HP Hl. unfold write. cbn [file_ tellp].
  pose proof (len_nonneg bs) as Hb.
  split; [|split; [|lia]].
  - unfold take, len in *.
    destruct (Z_le_gt_dec (tellp w) (Z.of_nat (List.length (file_ w)))) as [Hle | Hgt].
    + rewrite firstn_app.
      rewrite firstn_length_le by lia.
      replace (Z.to_nat P - Z.to_nat (tellp w))%nat with 0%nat by lia.
      cbn [firstn]. rewrite app_nil_r, firstn_firstn.
      now replace (Init.Nat.min (Z.to_nat P) (Z.to_nat (tellp w)))
        with (Z.to_nat P) by lia.
    + rewrite (firstn_all2 (n := Z.to_nat (tellp w))) by lia.
      rewrite firstn_app.
      replace (Z.to_nat P - List.length (file_ w))%nat with 0%nat by lia.
      cbn [firstn]. now rewrite app_nil_r.
  - rewrite !len_app. unfold take, drop, zero_bytes, len in *.
    rewrite repeat_length, length_skipn.
    destruct (Z_le_gt_dec (tellp w) (Z.of_nat (List.length (file_ w)))) as [Hle | Hgt].
    + rewrite firstn_length_le by lia. lia.
    + rewrite firstn_all2 by lia. lia.
Qed.

Lemma WriteAtomsInPlace_keeps st failed l a b pos out s w (P : Z) :
  WriteAtomsInPlace st failed l a b pos out = Returns s w ->
  0 <= P <= pos -> P <= len (file_ out) ->
  take P (file_ w) = take P (file_ out)
  /\ len (file_ out) <= len (file_ w)
  /\ (s = OK -> P <= tellp w).
Proof.
  intros H HP Hl. unfold WriteAtomsInPlace in H.
  destruct (WriteToMemory st _) as [[e content]|]; [|discriminate].
  assert (Hsame : Returns e out = Returns s w -> e <> OK ->
                  take P (file_ w) = take P (file_ out)
                  /\ len (file_ out) <= len (file_ w) /\ (s = OK -> P <= tellp w)).
  { intros E Hne. injection E as <- <-. repeat split; [lia|congruence]. }
  destruct e; try (apply Hsame; [exact H|discriminate]).
  destruct (negb _).
  { injection H as <- <-. repeat split; [lia|discriminate]. }
  destruct failed.
  { injection H as <- <-. repeat split; [lia|discriminate]. }
  destruct (WriteAtoms _ _) as [s' bs]. injection H as <- <-.
  destruct (write_keeps (seekp out pos) bs P) as (H1 & H2 & H3);
    cbn [seekp file_ tellp] in *; try lia.
  repeat split; try assumption. intros _. lia.
Qed.

(** X11.  Whatever ModifyMoovInPlace returns, it has not changed a byte
    in front of the position of the moov atom (the sizes of the atoms before
    it added up, when that lies within the file) and the file has not become
    shorter. *)
Theorem ModifyMoovInPlace_keeps_prefix
        (st : Streams) (modifier : MoovModifier) (sid : nat) (file : list byte)
        (s : FormatStatus) (w : BinaryWriterImpl) :
  let moov_position := GetAtomPosition (atoms (ReadAtoms sid file)) kMoovType in
  moov_position <= len file ->
  ModifyMoovInPlace st modifier sid file = Returns s w ->
  take moov_position (file_ w) = take moov_position file
  /\ len file <= len (file_ w).
Proof.
  cbv zeta. intros HP H. unfold ModifyMoovInPlace in H. cbv zeta in H.
  set (l := atoms (ReadAtoms sid file)) in *.
  set (P := GetAtomPosition l kMoovType) in *.
  assert (HP0 : 0 <= P) by (apply GetAtomPositionFrom_nonneg; lia).
  set (out := {| file_ := file; tellp := 0 |}) in *.
  assert (Hsame : forall e, Returns e out = Returns s w ->
                            take P (file_ w) = take P file /\ len file <= len (file_ w)).
  { intros e E. injection E as <- <-. cbn [out file_]. split; [reflexivity|lia]. }
  destruct ((GetAtomIndex l kMoovType =? -1) || (GetAtomIndex l kMdatType =? -1));
    [exact (Hsame _ H)|].
  destruct (modifier _) as [e moov'].
  destruct e; try exact (Hsame _ H).
  assert (Hstep : forall a b pos s1 w1 l1 failed,
             WriteAtomsInPlace (with_stream st sid file failed) failed l1 a b pos out
             = Returns s1 w1 ->
             P <= pos ->
             take P (file_ w1) = take P file /\ len file <= len (file_ w1)
             /\ (s1 = OK -> P <= tellp w1)).
  { intros a b pos s1 w1 l1 failed E Hpos.
    apply (WriteAtomsInPlace_keeps _ _ _ _ _ _ _ _ _ P) in E;
      cbn [out file_] in *; [exact E|lia|lia]. }
  assert (Hfree : forall w1 n, take P (file_ w1) = take P file ->
                               len file <= len (file_ w1) -> P <= tellp w1 ->
                               take P (file_ (WriteFreeSpaceAt n w1)) = take P file
                               /\ len file <= len (file_ (WriteFreeSpaceAt n w1))).
  { intros w1 n H1 H2 H3. unfold WriteFreeSpaceAt.
    destruct (write_keeps w1 (WriteFreeSpace n) P) as (K1 & K2 & _); [lia|lia|].
    rewrite K1. split; [exact H1|lia]. }
  unfold Size in H.
  destruct (_ >? _).
  - destruct (WriteAtomsInPlace _ _ _ _ _ P out) as [s1 w1|] eqn:E; [|discriminate].
    destruct (Hstep _ _ _ _ _ _ _ E ltac:(lia)) as (K1 & K2 & K3).
    destruct s1; try (injection H as <- <-; auto).
    destruct (_ <? 0); injection H as <- <-; auto.
  - destruct (_ =? _).
    + destruct (Hstep _ _ _ _ _ _ _ H ltac:(lia)) as (K1 & K2 & _). auto.
    + destruct (_ <=? _).
      * destruct (WriteAtomsInPlace _ _ _ _ _ P out) as [s1 w1|] eqn:E; [|discriminate].
        destruct (Hstep _ _ _ _ _ _ _ E ltac:(lia)) as (K1 & K2 & K3).
        destruct s1; injection H as <- <-; auto.
      * destruct (WriteAtomsInPlace _ _ _ _ _ (len file) out) as [s1 w1|] eqn:E;
          [|discriminate].
        destruct (Hstep _ _ _ _ _ _ _ E ltac:(lia)) as (K1 & K2 & K3).
        destruct s1; injection H as <- <-; auto.
        apply Hfree; cbn [seekp file_ tellp]; [exact K1|exact K2|lia].
Qed.

Lemma ModifyMoovInPlace_keeps_prefix_witness :
  exists w,
    ModifyMoovInPlace Examples.no_streams Examples.add_free_modifier 0
                      Examples.mdat_then_moov = Returns OK w
    /\ take 8 (file_ w) = take 8 Examples.mdat_then_moov.
Proof.
  destruct (ModifyMoovInPlace Examples.no_streams Examples.add_free_modifier 0
                              Examples.mdat_then_moov) as [s w|] eqn:E;
    [destruct s|]; try (vm_compute in E; discriminate E).
  exists w. split; [reflexivity|].
  apply (ModifyMoovInPlace_keeps_prefix Examples.no_streams
           Examples.add_free_modifier 0 Examples.mdat_then_moov OK w).
  - vm_compute. intro X. discriminate X.
  - exact E.
Defined.

(** ** Typed atoms: reading back what was written *)

Lemma reads_to_table (r : Reader Z) (put : Z -> list byte) (k : Z) (l : list Z) :
  (forall v, reads_to r (put v) (v mod 2 ^ k)) ->
  Forall (fun x => 0 <= x < 2 ^ k) l ->
  reads_to (read_n (List.length l) r) (List.concat (map put l)) l.
Proof.
  intros Hr Hl. apply reads_to_read_n.
  eapply Forall_impl; [|exact Hl]. cbv beta. intros x Hx.
  rewrite <- (Z.mod_small x (2 ^ k)) at 2 by exact Hx. apply Hr.
Qed.

Lemma len_concat_be (n : nat) (l : list Z) :
  len (List.concat (map (be_bytes n) l)) = Z.of_nat n * len l.
Proof.
  induction l as [|x l IH]; cbn [map List.concat].
  - change (len (@nil byte)) with 0. change (len (@nil Z)) with 0. lia.
  - rewrite len_app, len_cons, IH, len_be_bytes. lia.
Qed.

Lemma reads_to_at_0 {A} (r : Reader A) (bs : list byte) (v : A) :
  reads_to r bs v -> r bs 0 = ROk v (len bs).
Proof.
  intro H. specialize (H [] []). cbn [app] in H.
  rewrite app_nil_r in H. exact H.
Qed.

(** X12.  The chunk offset table that an stco or co64 atom writes is read
    by ReadDataWithoutChildren, on an atom of the same type whose data_size
    has room for it, as the offsets with the pending moov_size_delta added:
    the adjustment is applied when the table is written, and the reading
    atom keeps its own delta.  The offsets plus the delta fit the width of
    the table (32 bits for stco, 64 for co64). *)
Theorem STCO_write_read
        (st : Streams) (sid : nat) (a b0 : Atom) :
  typeid a = AtomSTCO -> typeid b0 = AtomSTCO ->
  atom_type b0 = atom_type a ->
  let w := if String.eqb (atom_type a) kType32 then 4 else 8 in
  len (chunk_offsets a) <= UINT32_MAX ->
  Forall (fun o => 0 <= o + moov_size_delta a < 2 ^ (8 * w)) (chunk_offsets a) ->
  kConstSTCOBaseSize + len (chunk_offsets a) * w <= data_size b0 ->
  exists payload b,
    WriteDataWithoutChildren st a = (OK, payload)
    /\ len payload = kConstSTCOBaseSize + len (chunk_offsets a) * w
    /\ reads_to (ReadDataWithoutChildren sid b0) payload b
    /\ chunk_offsets b = map (fun o => o + moov_size_delta a) (chunk_offsets a)
    /\ moov_size_delta b = moov_size_delta b0.
Proof.
  intros Ha Hb Hty w Hn Hr Hsz.
  assert (Hfa : exists fa offs delta max, fields a = STCOFields fa offs delta max).
  { unfold typeid in Ha.
    destruct (fields a) as [| [] | | | | | | | | | | |]; try discriminate Ha.
    eauto 6. }
  assert (Hfb : exists fa offs delta max, fields b0 = STCOFields fa offs delta max).
  { unfold typeid in Hb.
    destruct (fields b0) as [| [] | | | | | | | | | | |]; try discriminate Hb.
    eauto 6. }
  destruct Hfa as (fa & offs & delta & max & Hfa).
  destruct Hfb as (fa0 & offs0 & delta0 & max0 & Hfb).
  unfold chunk_offsets, moov_size_delta in Hn, Hr, Hsz |- *.
  rewrite Hfa in Hn, Hr, Hsz |- *. rewrite Hfb.
  set (l' := map (fun o => o + delta) offs).
  assert (Hl' : Forall (fun x => 0 <= x < 2 ^ (8 * w)) l').
  { subst l'. apply Forall_map. exact Hr. }
  assert (Hlen' : List.length l' = List.length offs) by apply length_map.
  pose proof (len_nonneg offs) as Hge.
  assert (Hcount : uint32_t (len offs) = len offs).
  { unfold uint32_t. apply Z.mod_small. unfold UINT32_MAX in Hn. lia. }
  assert (Hw : w = 4 \/ w = 8).
  { subst w. destruct (String.eqb (atom_type a) kType32); auto. }
  set (table := if String.eqb (atom_type a) kType32
                then List.concat (map PutUInt32 l')
                else List.concat (map PutUInt64 l')).
  assert (Hwrite : WriteDataWithoutChildren st a
                   = (OK, VersionAndFlags fa ++ PutUInt32 (len offs) ++ table ++ [])).
  { unfold WriteDataWithoutChildren. rewrite Hfa. unfold emit, OkStatus.
    rewrite Hcount, app_nil_r. do 3 f_equal. subst table l'.
    destruct (String.eqb (atom_type a) kType32); rewrite map_map; f_equal;
      apply map_ext; intro o.
    - now rewrite PutUInt32_uint32_t, PutUInt32_uint64_t.
    - now rewrite PutUInt64_uint64_t. }
  assert (Htable : len table = len offs * w).
  { assert (Hll : len l' = len offs) by (unfold len; now rewrite Hlen').
    subst table w. destruct (String.eqb (atom_type a) kType32).
    - change PutUInt32 with (be_bytes 4). rewrite len_concat_be. lia.
    - change PutUInt64 with (be_bytes 8). rewrite len_concat_be. lia. }
  eexists. eexists. split; [exact Hwrite|]. split.
  { rewrite !len_app. unfold VersionAndFlags, PutUInt8, PutUInt24, PutUInt32.
    rewrite !len_app, !len_be_bytes, Htable.
    change (len (@nil byte)) with 0. unfold kConstSTCOBaseSize. lia. }
  split.
  { unfold ReadDataWithoutChildren. rewrite Hfb.
    eapply reads_to_bind; [apply reads_to_ReadVersionAndFlags|]. cbv beta.
    eapply reads_to_bind; [apply reads_to_ReadUInt32|]. cbv beta.
    fold (uint32_t (len offs)). rewrite Hcount, Hty.
    fold w.
    assert (Hchk : (data_size b0
                    <? uint64_t (kConstSTCOBaseSize
                                 + len offs * (if String.eqb (atom_type a) kType32
                                               then kChunkOffsetSize32
                                               else kChunkOffsetSize64))) = false).
    { replace (if String.eqb (atom_type a) kType32
               then kChunkOffsetSize32 else kChunkOffsetSize64) with w
        by (subst w; destruct (String.eqb (atom_type a) kType32); reflexivity).
      unfold uint64_t. unfold kConstSTCOBaseSize, UINT32_MAX in *.
      rewrite Z.mod_small by (change (2 ^ 64) with 18446744073709551616; lia).
      lia. }
    rewrite Hchk.
    eapply reads_to_bind.
    - unfold len. rewrite Nat2Z.id, <- Hlen'. subst table w.
      destruct (String.eqb (atom_type a) kType32).
      + apply (reads_to_table _ _ 32); [exact reads_to_ReadUInt32|exact Hl'].
      + apply (reads_to_table _ _ 64); [exact reads_to_ReadUInt64|exact Hl'].
    - cbv beta. apply reads_to_ret. }
  cbn [fields set_fields]. split; reflexivity.
Qed.

Lemma STCO_write_read_witness :
  let a := AdjustChunkOffsets Examples.stco_atom 5 in
  exists payload b,
    WriteDataWithoutChildren Examples.no_streams a = (OK, payload)
    /\ ReadDataWithoutChildren 0 (CreateAtom 8 16 "co64") payload 0
       = ROk b (len payload)
    /\ chunk_offsets b = [UINT32_MAX + 5].
Proof.
  cbv zeta.
  destruct (STCO_write_read Examples.no_streams 0
              (AdjustChunkOffsets Examples.stco_atom 5) (CreateAtom 8 16 "co64"))
    as (payload & b & Hw & _ & Hr & Hc & _).
  - vm_compute. reflexivity.
  - vm_compute. reflexivity.
  - vm_compute. reflexivity.
  - vm_compute. intro E. discriminate E.
  - assert (Ec : chunk_offsets (AdjustChunkOffsets Examples.stco_atom 5)
                 = [UINT32_MAX]) by (vm_compute; reflexivity).
    rewrite Ec. constructor; [|constructor].
    vm_compute. split; [intro E; discriminate E | reflexivity].
  - vm_compute. intro E. discriminate E.
  - exists payload, b. split; [exact Hw|].
    split; [exact (reads_to_at_0 _ _ _ Hr)|].
    rewrite Hc. vm_compute. reflexivity.
Defined.

(** X13.  The key-frame table that an stss atom writes is read by
    ReadDataWithoutChildren as the same indices, appended to the indices
    that the reading atom already holds (none for a new atom): reading does
    not clear the vector.  The indices are uint32_t values and fewer than
    2^32. *)
Theorem STSS_write_read
        (st : Streams) (sid : nat) (a b0 : Atom)
        (fa fa0 : FullAtom) (ks ks0 : list Z) :
  fields a = STSSFields fa ks ->
  fields b0 = STSSFields fa0 ks0 ->
  len ks <= UINT32_MAX ->
  Forall (fun k => 0 <= k <= UINT32_MAX) ks ->
  exists payload b,
    WriteDataWithoutChildren st a = (OK, payload)
    /\ len payload = 8 + 4 * len ks
    /\ reads_to (ReadDataWithoutChildren sid b0) payload b
    /\ fields b = STSSFields {| version_ := uint8_t (version_ fa);
                                flags_ := flags_ fa mod 2 ^ 24 |} (ks0 ++ ks).
Proof.
  intros Hfa Hfb Hn Hr.
  pose proof (len_nonneg ks) as Hge.
  assert (Hcount : uint32_t (len ks) = len ks).
  { unfold uint32_t. apply Z.mod_small. unfold UINT32_MAX in Hn. lia. }
  assert (Hks : Forall (fun x => 0 <= x < 2 ^ 32) ks).
  { eapply Forall_impl; [|exact Hr]. cbv beta. unfold UINT32_MAX.
    change (2 ^ 32) with 4294967296. lia. }
  assert (Htable : len (List.concat (map PutUInt32 ks)) = 4 * len ks).
  { change PutUInt32 with (be_bytes 4). rewrite len_concat_be. lia. }
  eexists. eexists. split.
  { unfold WriteDataWithoutChildren. rewrite Hfa, Hcount. unfold emit, OkStatus.
    rewrite <- (app_nil_r (List.concat (map PutUInt32 ks))) at 1. reflexivity. }
  split.
  { rewrite !len_app, Htable. unfold VersionAndFlags. rewrite len_app.
    unfold PutUInt8, PutUInt24, PutUInt32. rewrite !len_be_bytes.
    change (len (@nil byte)) with 0. lia. }
  split.
  { unfold ReadDataWithoutChildren. rewrite Hfb.
    eapply reads_to_bind; [apply reads_to_ReadVersionAndFlags|]. cbv beta.
    eapply reads_to_bind; [apply reads_to_ReadUInt32|]. cbv beta.
    fold (uint32_t (len ks)). rewrite Hcount.
    eapply reads_to_bind.
    - unfold len. rewrite Nat2Z.id.
      apply (reads_to_table _ _ 32); [exact reads_to_ReadUInt32|exact Hks].
    - cbv beta. apply reads_to_ret. }
  reflexivity.
Qed.

Lemma STSS_write_read_witness :
  exists payload b,
    WriteDataWithoutChildren Examples.no_streams
      (MkAtom "stss" 8 20 [] false (STSSFields NewFullAtom [1; 13; 25]))
    = (OK, payload)
    /\ ReadDataWithoutChildren 0 (CreateAtom 8 20 "stss") payload 0
       = ROk b (len payload)
    /\ fields b = STSSFields NewFullAtom [1; 13; 25].
Proof.
  destruct (STSS_write_read Examples.no_streams 0
              (MkAtom "stss" 8 20 [] false (STSSFields NewFullAtom [1; 13; 25]))
              (CreateAtom 8 20 "stss") NewFullAtom NewFullAtom [1; 13; 25] [])
    as (payload & b & Hw & _ & Hr & Hf).
  - reflexivity.
  - reflexivity.
  - vm_compute. intro E. discriminate E.
  - repeat constructor; vm_compute; intro E; discriminate E.
  - exists payload, b. split; [exact Hw|].
    split; [exact (reads_to_at_0 _ _ _ Hr)|exact Hf].
Defined.

Lemma PopulateLoop_bytes (indices : list Z) :
  forall n i k fd,
    Forall (fun d => 0 <= d < 256) fd ->
    Forall (fun d => 0 <= d < 256) (PopulateLoop indices n i k fd).
Proof.
  induction n as [|n IH]; intros i k fd H; cbn [PopulateLoop]; [exact H|].
  destruct (i =? _); apply IH; apply Forall_app; split; try exact H;
    repeat constructor; unfold kIFrameDescription, kPFrameDescription; lia.
Qed.

(** X14.  The frame descriptions that an sdtp atom writes (one byte each,
    after version and flags) are read back unchanged by
    ReadDataWithoutChildren on an atom whose data_size is their number plus
    4; in particular the table that PopulateFromKeyFrameIndices builds, of
    bytes 32 and 24, survives a write and a read. *)
Theorem SDTP_write_read
        (st : Streams) (sid : nat) (a b0 : Atom) :
  typeid a = AtomSDTP -> typeid b0 = AtomSDTP ->
  (Forall (fun d => 0 <= d < 256) (frame_description a)
   \/ exists a0 indices, a = PopulateFromKeyFrameIndices a0 indices) ->
  data_size b0 = len (frame_description a) + kFlagAndVersionSize ->
  data_size b0 <= UINT64_MAX ->
  exists payload b,
    WriteDataWithoutChildren st a = (OK, payload)
    /\ len payload = data_size b0
    /\ reads_to (ReadDataWithoutChildren sid b0) payload b
    /\ frame_description b = frame_description a.
Proof.
  intros Ha Hb Hr Hsz Hmax.
  assert (Hfa : exists fa fd, fields a = SDTPFields fa fd).
  { unfold typeid in Ha.
    destruct (fields a) as [| [] | | | | | | | | | | |]; try discriminate Ha.
    eauto. }
  assert (Hfb : exists fa fd, fields b0 = SDTPFields fa fd).
  { unfold typeid in Hb.
    destruct (fields b0) as [| [] | | | | | | | | | | |]; try discriminate Hb.
    eauto. }
  assert (Hbytes : Forall (fun d => 0 <= d < 256) (frame_description a)).
  { destruct Hr as [Hr | (a0 & indices & ->)]; [exact Hr|].
    unfold PopulateFromKeyFrameIndices, frame_description.
    destruct (fields a0) eqn:E0; rewrite ?fields_UpdateSize; cbn [fields set_fields];
      try rewrite E0; try constructor.
    apply PopulateLoop_bytes. constructor. }
  destruct Hfa as (fa & fd & Hfa). destruct Hfb as (fa0 & fd0 & Hfb).
  unfold frame_description in Hsz, Hbytes |- *. rewrite Hfa in Hsz, Hbytes |- *.
  pose proof (len_nonneg fd) as Hge.
  assert (Htable : len (List.concat (map PutUInt8 fd)) = len fd).
  { change PutUInt8 with (be_bytes 1). rewrite len_concat_be. lia. }
  eexists. eexists. split.
  { unfold WriteDataWithoutChildren. rewrite Hfa. unfold emit, OkStatus.
    rewrite <- (app_nil_r (List.concat (map PutUInt8 fd))) at 1. reflexivity. }
  split.
  { rewrite !len_app, Htable, Hsz. unfold VersionAndFlags. rewrite len_app.
    unfold PutUInt8, PutUInt24. rewrite !len_be_bytes.
    change (len (@nil byte)) with 0. unfold kFlagAndVersionSize. lia. }
  split.
  { unfold ReadDataWithoutChildren. rewrite Hfb.
    eapply reads_to_bind; [apply reads_to_ReadVersionAndFlags|]. cbv beta.
    eapply reads_to_bind.
    - rewrite Hsz. replace (len fd + kFlagAndVersionSize - kFlagAndVersionSize)
        with (len fd) by lia.
      assert (Hu : uint64_t (len fd) = len fd).
      { unfold uint64_t. apply Z.mod_small.
        unfold UINT64_MAX, kFlagAndVersionSize in *.
        change (2 ^ 64) with 18446744073709551616. lia. }
      rewrite Hu. unfold len. rewrite Nat2Z.id.
      apply (reads_to_table _ _ 8); [exact reads_to_ReadUInt8|].
      eapply Forall_impl; [|exact Hbytes]. cbv beta.
      change (2 ^ 8) with 256. lia.
    - cbv beta. apply reads_to_ret. }
  cbn [fields set_fields]. reflexivity.
Qed.

Lemma SDTP_write_read_witness :
  let a := PopulateFromKeyFrameIndices (MkAtom "sdtp" 8 0 [] false
                                               (SDTPFields NewFullAtom []))
                                       [1; 3] in
  exists payload b,
    WriteDataWithoutChildren Examples.no_streams a = (OK, payload)
    /\ ReadDataWithoutChildren 0 (CreateAtom 8 7 "sdtp") payload 0
       = ROk b (len payload)
    /\ frame_description b = [32; 24; 32].
Proof.
  cbv zeta.
  destruct (SDTP_write_read Examples.no_streams 0
              (PopulateFromKeyFrameIndices
                 (MkAtom "sdtp" 8 0 [] false (SDTPFields NewFullAtom [])) [1; 3])
              (CreateAtom 8 7 "sdtp"))
    as (payload & b & Hw & _ & Hr & Hf).
  - vm_compute. reflexivity.
  - vm_compute. reflexivity.
  - right. eexists. eexists. reflexivity.
  - vm_compute. reflexivity.
  - vm_compute. intro E. discriminate E.
  - exists payload, b. split; [exact Hw|].
    split; [exact (reads_to_at_0 _ _ _ Hr)|].
    rewrite Hf. vm_compute. reflexivity.
Defined.

(** X15.  A uuid atom writes its 16-byte uuid and then its value, and
    ReadDataWithoutChildren, on an atom whose data_size is 16 plus the
    length of the value, reads both back; with a uuid that is not 16 bytes
    long the write fails with FILE_FORMAT_ERROR and nothing is written. *)
Theorem UUID_write_read
        (st : Streams) (sid : nat) (a b0 : Atom) (u v u0 v0 : list byte) :
  fields a = UUIDFields u v ->
  fields b0 = UUIDFields u0 v0 ->
  (len u <> 16 -> WriteDataWithoutChildren st a = (FILE_FORMAT_ERROR, []))
  /\ (len u = 16 -> data_size b0 = 16 + len v -> data_size b0 <= UINT64_MAX ->
      WriteDataWithoutChildren st a = (OK, u ++ v)
      /\ exists b, reads_to (ReadDataWithoutChildren sid b0) (u ++ v) b
                   /\ fields b = UUIDFields u v).
Proof.
  intros Hfa Hfb. split.
  - intro Hu. unfold WriteDataWithoutChildren. rewrite Hfa.
    destruct (len u =? 16) eqn:E; [lia|reflexivity].
  - intros Hu Hsz Hmax. split.
    + unfold WriteDataWithoutChildren. rewrite Hfa, Hu. reflexivity.
    + pose proof (len_nonneg v) as Hge.
      assert (Hr : reads_to (ReadDataWithoutChildren sid b0) (u ++ v ++ [])
                            (set_fields b0 (UUIDFields u v))).
      { unfold ReadDataWithoutChildren. rewrite Hfb.
        eapply reads_to_bind.
        { unfold ReadString. change (uint64_t 16) with 16. rewrite <- Hu.
          apply reads_to_ReadBytes. }
        cbv beta.
        eapply reads_to_bind.
        { unfold ReadString. rewrite Hsz.
          replace (16 + len v - 16) with (len v) by lia.
          unfold uint64_t. rewrite Z.mod_small
            by (unfold UINT64_MAX in Hmax;
                change (2 ^ 64) with 18446744073709551616; lia).
          apply reads_to_ReadBytes. }
        cbv beta. apply reads_to_ret. }
      rewrite app_nil_r in Hr.
      exists (set_fields b0 (UUIDFields u v)). split; [exact Hr|reflexivity].
Qed.

Lemma UUID_write_read_witness :
  WriteDataWithoutChildren Examples.no_streams
    (MkAtom "uuid" 8 3 [] false (UUIDFields (Examples.bytes_of [1; 2; 3]) []))
  = (FILE_FORMAT_ERROR, []).
Proof.
  apply (UUID_write_read Examples.no_streams 0
           (MkAtom "uuid" 8 3 [] false (UUIDFields (Examples.bytes_of [1; 2; 3]) []))
           (CreateAtom 8 3 "uuid") (Examples.bytes_of [1; 2; 3]) [] [] []).
  - reflexivity.
  - reflexivity.
  - vm_compute. intro E. discriminate E.
Defined.

(** ** Headers *)

(** X29.  The header that WriteAtomHeader writes for an atom with a
    four-character type is read back by ReadHeader as the header size, the
    data size and the type of the atom: an 8-byte header when the size of
    the atom fits 32 bits, a 16-byte header with the size in 64 bits
    otherwise.  A header size other than 8 or 16 makes WriteAtomHeader fail
    with FILE_FORMAT_ERROR; and the 8 bytes of WriteFreeSpace are read as
    the header of a free atom. *)
Theorem WriteAtomHeader_ReadHeader (a : Atom) :
  (0 <= data_size a ->
   len (list_byte_of_string (atom_type a)) = 4 ->
   (header_size a = 8 /\ header_size a + data_size a <= UINT32_MAX)
   \/ (header_size a = 16 /\ header_size a + data_size a <= UINT64_MAX) ->
   exists bs,
     WriteAtomHeader a = (OK, bs)
     /\ len bs = header_size a
     /\ reads_to ReadHeader bs (header_size a, data_size a, atom_type a))
  /\ (0 <= header_size a <= UINT32_MAX ->
      header_size a <> 8 -> header_size a <> 16 ->
      WriteAtomHeader a = (FILE_FORMAT_ERROR, []))
  /\ (forall n, 8 <= n <= UINT32_MAX ->
                reads_to ReadHeader (WriteFreeSpace n) (8, n - 8, kFreeType)).
Proof.
  assert (Hhead : forall (s32 : Z) (ty : string) (rest : list byte) hs ds,
             len (list_byte_of_string ty) = 4 ->
             0 <= s32 < 2 ^ 32 ->
             reads_to
               (if s32 =? kIndicateSizeIs64
                then size64 <- ReadUInt64 ;; rret (8 + 8, size64)
                else if s32 =? kIndicateSizeIsToEndOfFile
                     then sz <- StreamSize ;; p <- Tell ;;
                          rret (8, uint64_t (sz - p + 8))
                     else rret (8, s32)) rest (hs, hs + ds) ->
             0 <= ds ->
             reads_to ReadHeader
                      (PutUInt32 s32 ++ PutString (list_byte_of_string ty) ++ rest ++ [])
                      (hs, ds, ty)).
  { intros s32 ty rest hs ds Hty Hs Hrest Hds. unfold ReadHeader. cbv zeta.
    change (kSizeOf32bitSize + kAtomTypeSize) with 8.
    eapply reads_to_bind; [apply reads_to_ReadUInt32|]. cbv beta.
    rewrite Z.mod_small by exact Hs.
    eapply reads_to_bind.
    { unfold ReadString. change (uint64_t kAtomTypeSize) with 4. rewrite <- Hty.
      apply reads_to_ReadBytes. }
    cbv beta.
    eapply reads_to_bind; [exact Hrest|]. cbv beta iota.
    destruct (hs + ds <? hs) eqn:E; [lia|].
    replace (hs + ds - hs) with ds by lia.
    unfold PutString. rewrite string_of_list_byte_of_string. apply reads_to_ret. }
  split; [|split].
  - intros Hds Hty Hcase. unfold WriteAtomHeader, size.
    destruct Hcase as [[Hh Hs] | [Hh Hs]]; rewrite Hh in *.
    + change (uint64_t (8 - kAtomTypeSize) =? kSizeOf32bitSize) with true.
      cbn [orb negb].
      assert (Eu : uint32_t (uint64_t (8 + data_size a)) = 8 + data_size a).
      { unfold uint32_t, uint64_t, UINT32_MAX in *.
        change (2 ^ 64) with 18446744073709551616.
        change (2 ^ 32) with 4294967296.
        rewrite (Z.mod_small (8 + data_size a) 18446744073709551616) by lia.
        apply Z.mod_small. lia. }
      rewrite Eu. eexists. split; [reflexivity|]. split.
      { rewrite !len_app. unfold PutString, PutUInt32. rewrite Hty, len_be_bytes.
        change (len (@nil byte)) with 0. lia. }
      rewrite <- (app_nil_l []) at 1.
      apply Hhead; [exact Hty| | |exact Hds].
      { unfold UINT32_MAX in Hs. change (2 ^ 32) with 4294967296. lia. }
      destruct (8 + data_size a =? kIndicateSizeIs64) eqn:E1;
        [unfold kIndicateSizeIs64 in E1; lia|].
      destruct (8 + data_size a =? kIndicateSizeIsToEndOfFile) eqn:E2;
        [unfold kIndicateSizeIsToEndOfFile in E2; lia|].
      apply reads_to_ret.
    + change (uint64_t (16 - kAtomTypeSize) =? kSizeOf32bitSize) with false.
      change (uint64_t (16 - kAtomTypeSize) =? kSizeOf32bitSize + 8) with true.
      cbn [orb negb].
      eexists. split; [reflexivity|]. split.
      { rewrite !len_app. unfold PutString, PutUInt32, PutUInt64.
        rewrite Hty, !len_be_bytes. lia. }
      rewrite <- (app_nil_r (PutUInt64 _)).
      apply Hhead; [exact Hty| |  |exact Hds].
      { unfold kIndicateSizeIs64. change (2 ^ 32) with 4294967296. lia. }
      change (kIndicateSizeIs64 =? kIndicateSizeIs64) with true. cbv iota.
      rewrite PutUInt64_uint64_t.
      rewrite <- (app_nil_r (PutUInt64 _)).
      eapply reads_to_bind; [apply reads_to_ReadUInt64|]. cbv beta.
      rewrite Z.mod_small
        by (unfold UINT64_MAX in Hs; change (2 ^ 64) with 18446744073709551616; lia).
      apply reads_to_ret.
  - intros Hr H8 H16. unfold WriteAtomHeader.
    assert (Eu : uint64_t (header_size a - kAtomTypeSize)
                 = (header_size a - 4) mod 2 ^ 64) by reflexivity.
    rewrite Eu. unfold kSizeOf32bitSize.
    assert (Hm : (header_size a - 4) mod 2 ^ 64 <> 4
                 /\ (header_size a - 4) mod 2 ^ 64 <> 4 + 8).
    { unfold UINT32_MAX in Hr. change (2 ^ 64) with 18446744073709551616.
      Z.div_mod_to_equations. lia. }
    destruct Hm as [Hm1 Hm2].
    destruct (_ =? 4) eqn:E1; [lia|]. destruct (_ =? 4 + 8) eqn:E2; [lia|].
    reflexivity.
  - intros n Hn. unfold WriteFreeSpace.
    assert (Eu : uint32_t n = n).
    { unfold uint32_t, UINT32_MAX in *. rewrite Z.mod_small;
        change (2 ^ 32) with 4294967296; lia. }
    rewrite Eu.
    rewrite <- (app_nil_r (PutString (list_byte_of_string kFreeType))).
    rewrite <- (app_nil_l []) at 1.
    replace n with (8 + (n - 8)) at 1 by lia.
    apply Hhead; [reflexivity| | |lia].
    { unfold UINT32_MAX in Hn. change (2 ^ 32) with 4294967296. lia. }
    replace (8 + (n - 8)) with n by lia.
    destruct (n =? kIndicateSizeIs64) eqn:E1;
      [unfold kIndicateSizeIs64 in E1; lia|].
    destruct (n =? kIndicateSizeIsToEndOfFile) eqn:E2;
      [unfold kIndicateSizeIsToEndOfFile in E2; lia|].
    apply reads_to_ret.
Qed.

Lemma WriteAtomHeader_ReadHeader_witness :
  exists bs,
    WriteAtomHeader (CreateAtom 8 4 "free") = (OK, bs)
    /\ ReadHeader bs 0 = ROk (8, 4, "free"%string) 8.
Proof.
  destruct (proj1 (WriteAtomHeader_ReadHeader (CreateAtom 8 4 "free")))
    as (bs & Hw & Hl & Hr).
  - vm_compute. intro E. discriminate E.
  - reflexivity.
  - left. split; [reflexivity|]. vm_compute. intro E. discriminate E.
  - exists bs. split; [exact Hw|].
    pose proof (reads_to_at_0 _ _ _ Hr) as H. rewrite Hl in H. exact H.
Defined.

End Mp4Extra.

(** * Properties of track lookup and sdtp injection *)

Module InjectFacts.

Import Mp4.
Import Mp4Spec.
Import Mp4Facts.
Import Inject.
Import InjectSpec.
Local Open Scope Z_scope.

Lemma AtomClass_eqb_eq (a b : AtomClass) : AtomClass_eqb a b = true <-> a = b.
Proof. split; [destruct a, b; (reflexivity || discriminate)|intros ->; destruct b; reflexivity]. Qed.

Lemma typeid_UpdateSize (a : Atom) : typeid (UpdateSize a) = typeid a.
Proof. unfold typeid. now rewrite fields_UpdateSize. Qed.

Lemma typeid_child_updated (a : Atom) (i : nat) (c : Atom) :
  typeid (child_updated a i c) = typeid a.
Proof. unfold child_updated. now rewrite typeid_UpdateSize. Qed.

Lemma children_child_updated (a : Atom) (i : nat) (c : Atom) :
  children_ (child_updated a i c) = replace_nth i c (children_ a).
Proof. unfold child_updated. now rewrite children_UpdateSize. Qed.

(** ** DeleteChildren *)

Lemma firstn_S_nth {A} (l : list A) (i : nat) (x : A) :
  nth_error l i = Some x -> firstn (S i) l = firstn i l ++ [x].
Proof.
  revert i. induction l as [|y l IH]; intros [|i] H; try discriminate.
  - injection H as ->. reflexivity.
  - cbn [firstn app]. f_equal. now apply IH.
Qed.

Lemma skipn_nth {A} (l : list A) (i : nat) (x : A) :
  nth_error l i = Some x -> skipn i l = x :: skipn (S i) l.
Proof.
  revert i. induction l as [|y l IH]; intros [|i] H; try discriminate.
  - injection H as ->. reflexivity.
  - cbn [skipn]. now apply IH.
Qed.

Lemma DeleteChildrenFrom_children (cls : AtomClass) :
  forall n parent,
    (n <= List.length (children_ parent))%nat ->
    children_ (DeleteChildrenFrom cls parent n)
    = filter (other_class cls) (firstn n (children_ parent))
      ++ skipn n (children_ parent)
    /\ fields (DeleteChildrenFrom cls parent n) = fields parent
    /\ atom_type (DeleteChildrenFrom cls parent n) = atom_type parent.
Proof.
  induction n as [|i IH]; intros parent Hn; [cbn; auto|].
  cbn [DeleteChildrenFrom]. unfold GetChild.
  destruct (Z.of_nat i <? 0) eqn:E0; [lia|]. rewrite Nat2Z.id.
  destruct (nth_error (children_ parent) i) as [c|] eqn:Ec.
  2:{ apply nth_error_None in Ec. lia. }
  rewrite (firstn_S_nth _ _ _ Ec), filter_app. cbn [filter].
  unfold other_class at 2.
  destruct (AtomClass_eqb (typeid c) cls) eqn:Et; cbn [negb].
  - unfold DeleteChild, NumChildren, len.
    destruct ((Z.of_nat i <? 0) || (Z.of_nat i >=? Z.of_nat (List.length (children_ parent))))
      eqn:Eb; [lia|].
    cbn [snd].
    set (p' := UpdateSize _).
    assert (Hc : children_ p' = firstn i (children_ parent)
                                ++ skipn (S i) (children_ parent)).
    { subst p'. rewrite children_UpdateSize. cbn [set_children children_].
      unfold take, drop. rewrite Nat2Z.id.
      now replace (Z.to_nat (Z.of_nat i + 1)) with (S i) by lia. }
    assert (Hl : List.length (firstn i (children_ parent)) = i)
      by (rewrite firstn_length_le; lia).
    destruct (IH p') as (H1 & H2 & H3).
    { rewrite Hc, length_app, Hl. lia. }
    rewrite H1, H2, H3, Hc.
    rewrite firstn_app, Hl, Nat.sub_diag, firstn_O, app_nil_r.
    rewrite firstn_firstn, Nat.min_id.
    rewrite skipn_app, Hl, Nat.sub_diag. cbn [skipn].
    rewrite skipn_all2 by lia. cbn [app]. rewrite app_nil_r.
    subst p'. rewrite fields_UpdateSize, atom_type_UpdateSize.
    repeat split.
  - destruct (IH parent) as (H1 & H2 & H3); [lia|].
    rewrite H1, H2, H3, (skipn_nth _ _ _ Ec), <- app_assoc. repeat split.
Qed.

Lemma find_class_filtered (cls : AtomClass) (cs : list Atom) :
  forall n, find_class cls (filter (other_class cls) cs) n = None.
Proof.
  induction cs as [|c cs IH]; intro n; cbn [filter find_class]; [reflexivity|].
  unfold other_class at 1.
  destruct (AtomClass_eqb (typeid c) cls) eqn:E; cbn [negb find_class]; [apply IH|].
  rewrite E. apply IH.
Qed.

(** X16.  DeleteChildren removes exactly the children of the given class:
    the remaining children are the others, in their order, FindChild of
    that class finds nothing afterwards, and the type and the fields of the
    parent are untouched. *)
Theorem DeleteChildren_removes_class (cls : AtomClass) (parent : Atom) :
  children_ (DeleteChildren cls parent)
  = filter (fun c => negb (AtomClass_eqb (typeid c) cls)) (children_ parent)
  /\ FindChild cls (DeleteChildren cls parent) = None
  /\ fields (DeleteChildren cls parent) = fields parent
  /\ atom_type (DeleteChildren cls parent) = atom_type parent.
Proof.
  unfold DeleteChildren, NumChildren, len. rewrite Nat2Z.id.
  destruct (DeleteChildrenFrom_children cls (List.length (children_ parent)) parent)
    as (H1 & H2 & H3); [lia|].
  rewrite firstn_all, skipn_all, app_nil_r in H1.
  split; [exact H1|]. split; [|split; assumption].
  unfold FindChild. rewrite H1. apply find_class_filtered.
Qed.

(** ** InjectSdtpToMoov *)

Lemma find_class_found (cls : AtomClass) (cs : list Atom) :
  forall n i c,
    find_class cls cs n = Some (i, c) ->
    (n <= i)%nat /\ nth_error cs (i - n) = Some c /\ typeid c = cls.
Proof.
  induction cs as [|x cs IH]; intros n i c H; cbn [find_class] in H; [discriminate|].
  destruct (AtomClass_eqb (typeid x) cls) eqn:E.
  - injection H as <- <-. rewrite Nat.sub_diag. apply AtomClass_eqb_eq in E.
    repeat split; [lia|exact E].
  - apply IH in H. destruct H as (H1 & H2 & H3).
    replace (i - n)%nat with (S (i - S n)) by lia. repeat split; [lia|exact H2|exact H3].
Qed.

Lemma find_class_replace_hit (cls : AtomClass) (c' : Atom) (cs : list Atom) :
  forall n i c,
    find_class cls cs n = Some (i, c) -> typeid c' = cls ->
    find_class cls (replace_nth (i - n) c' cs) n = Some (i, c').
Proof.
  induction cs as [|x cs IH]; intros n i c H Ht; cbn [find_class] in H; [discriminate|].
  destruct (AtomClass_eqb (typeid x) cls) eqn:E.
  - injection H as <- <-. rewrite Nat.sub_diag. cbn [replace_nth find_class].
    rewrite Ht. now rewrite (proj2 (AtomClass_eqb_eq cls cls) eq_refl).
  - pose proof (find_class_found _ _ _ _ _ H) as (Hle & _).
    replace (i - n)%nat with (S (i - S n)) by lia.
    cbn [replace_nth find_class]. rewrite E. now apply (IH _ _ c).
Qed.

Lemma find_class_replace_miss (cls : AtomClass) (c' : Atom) (cs : list Atom) :
  forall n i c,
    nth_error cs i = Some c ->
    AtomClass_eqb (typeid c) cls = false -> typeid c' = typeid c ->
    find_class cls (replace_nth i c' cs) n = find_class cls cs n.
Proof.
  induction cs as [|x cs IH]; intros n [|i] c H E Ht; try discriminate.
  - injection H as ->. cbn [replace_nth find_class]. now rewrite Ht, E.
  - cbn [replace_nth find_class]. cbn [nth_error] in H.
    destruct (AtomClass_eqb (typeid x) cls); [reflexivity|].
    now apply (IH _ _ c).
Qed.

Lemma find_class_snoc (cls : AtomClass) (x : Atom) (cs : list Atom) :
  forall n,
    find_class cls cs n = None -> typeid x = cls ->
    find_class cls (cs ++ [x]) n = Some ((n + List.length cs)%nat, x).
Proof.
  induction cs as [|y cs IH]; intros n H Ht; cbn [app find_class List.length].
  - rewrite Ht, (proj2 (AtomClass_eqb_eq cls cls) eq_refl). now rewrite Nat.add_0_r.
  - cbn [find_class] in H. destruct (AtomClass_eqb (typeid y) cls); [discriminate|].
    rewrite (IH _ H Ht). do 2 f_equal. lia.
Qed.

Lemma FindChild_child_updated_hit cls a i c c' :
  FindChild cls a = Some (i, c) -> typeid c' = cls ->
  FindChild cls (child_updated a i c') = Some (i, c').
Proof.
  unfold FindChild. intros H Ht. rewrite children_child_updated.
  rewrite <- (Nat.sub_0_r i) at 1. now apply (find_class_replace_hit _ _ _ _ _ c).
Qed.

Lemma FindChild_child_updated_miss cls cls' a i c c' :
  FindChild cls' a = Some (i, c) -> typeid c' = cls' ->
  AtomClass_eqb cls' cls = false ->
  FindChild cls (child_updated a i c') = FindChild cls a.
Proof.
  unfold FindChild. intros H Ht E. rewrite children_child_updated.
  apply find_class_found in H. destruct H as (_ & Hn & Hc).
  rewrite Nat.sub_0_r in Hn.
  apply (find_class_replace_miss _ _ _ _ _ c Hn); rewrite Hc; [exact E|exact Ht].
Qed.

Lemma FindChildren_index (cls : AtomClass) (cs : list Atom) :
  forall n t, In t (FindChildren cls cs n) -> (n <= fst t)%nat.
Proof.
  induction cs as [|x cs IH]; intros n t H; cbn [FindChildren] in H; [destruct H|].
  destruct (AtomClass_eqb (typeid x) cls).
  - destruct H as [<- | H]; [cbn; lia|]. apply IH in H. lia.
  - apply IH in H. lia.
Qed.

Lemma first_video_replace (c' : Atom) (cs : list Atom) :
  forall n i c,
    find visual_track (FindChildren AtomTRAK cs n) = Some (i, c) ->
    typeid c' = AtomTRAK -> is_visual (track_type c') = true ->
    find visual_track (FindChildren AtomTRAK (replace_nth (i - n) c' cs) n)
    = Some (i, c')
    /\ nth_error cs (i - n) = Some c.
Proof.
  induction cs as [|x cs IH]; intros n i c H Ht Hv; cbn [FindChildren] in H;
    [discriminate|].
  assert (Hlater : find visual_track (FindChildren AtomTRAK cs (S n)) = Some (i, c) ->
                   (S n <= i)%nat).
  { intro H'. apply find_some in H'. destruct H' as [H' _].
    apply FindChildren_index in H'. exact H'. }
  destruct (AtomClass_eqb (typeid x) AtomTRAK) eqn:E.
  - cbn [find] in H. unfold visual_track at 1 in H. cbn [snd] in H.
    destruct (is_visual (track_type x)) eqn:Ex.
    + injection H as <- <-. rewrite Nat.sub_diag.
      cbn [replace_nth FindChildren nth_error].
      rewrite Ht. cbn [AtomClass_eqb find]. unfold visual_track at 1. cbn [snd].
      now rewrite Hv.
    + pose proof (Hlater H) as Hle.
      replace (i - n)%nat with (S (i - S n)) by lia.
      cbn [replace_nth FindChildren nth_error]. rewrite E. cbn [find].
      unfold visual_track at 1. cbn [snd]. rewrite Ex. now apply IH.
  - pose proof (Hlater H) as Hle.
    replace (i - n)%nat with (S (i - S n)) by lia.
    cbn [replace_nth FindChildren nth_error]. rewrite E. now apply IH.
Qed.

Lemma typeid_Populated (indices : list Z) :
  typeid (PopulateFromKeyFrameIndices NewAtomSDTP indices) = AtomSDTP.
Proof.
  unfold PopulateFromKeyFrameIndices.
  change (fields NewAtomSDTP) with (SDTPFields NewFullAtom []). cbv iota beta.
  now rewrite typeid_UpdateSize.
Qed.

Lemma injection_found moov i trak j mdia k minf l stbl indices :
  GetFirstVideoTrack moov = Some (i, trak) ->
  atom_stbl trak = Stbl j mdia k minf l stbl ->
  FindChild AtomSDTP stbl = None ->
  let r := injection moov i trak j mdia k minf l stbl indices in
  GetFirstVideoTrack (moov_of r) = Some (i, trak_of r)
  /\ atom_stbl (trak_of r) = Stbl j (mdia_of r) k (minf_of r) l (stbl_of r)
  /\ children_ (stbl_of r) = children_ stbl ++ [sdtp_of r]
  /\ FindChild AtomSDTP (stbl_of r)
     = Some (List.length (children_ stbl), sdtp_of r)
  /\ children_ (moov_of r) = replace_nth i (trak_of r) (children_ moov).
Proof.
  intros Hv Hs Hn r.
  unfold atom_stbl in Hs.
  destruct (FindChild AtomMDIA trak) as [[j' mdia0]|] eqn:Em; [|discriminate].
  destruct (FindChild AtomMINF mdia0) as [[k' minf0]|] eqn:Ei; [|discriminate].
  destruct (FindChild AtomSTBL minf0) as [[l' stbl0]|] eqn:Eb; [|discriminate].
  injection Hs as -> -> -> -> -> ->.
  pose proof (find_class_found _ _ _ _ _ Em) as (_ & _ & Tm).
  pose proof (find_class_found _ _ _ _ _ Ei) as (_ & _ & Ti).
  pose proof (find_class_found _ _ _ _ _ Eb) as (_ & _ & Tb).
  subst r. unfold injection. cbv zeta. cbn [moov_of trak_of mdia_of minf_of stbl_of sdtp_of].
  set (sdtp := PopulateFromKeyFrameIndices NewAtomSDTP indices).
  set (stbl' := AddChild stbl sdtp).
  set (minf' := child_updated minf l stbl').
  set (mdia' := child_updated mdia k minf').
  set (trak' := child_updated trak j mdia').
  assert (Tb' : typeid stbl' = AtomSTBL).
  { subst stbl'. rewrite AddChild_eq, typeid_UpdateSize. exact Tb. }
  assert (Ti' : typeid minf' = AtomMINF).
  { subst minf'. now rewrite typeid_child_updated. }
  assert (Tm' : typeid mdia' = AtomMDIA).
  { subst mdia'. now rewrite typeid_child_updated. }
  assert (Cs : children_ stbl' = children_ stbl ++ [sdtp]).
  { subst stbl'. rewrite AddChild_eq, children_UpdateSize. reflexivity. }
  assert (Em' : FindChild AtomMDIA trak' = Some (j, mdia')).
  { subst trak'. now apply (FindChild_child_updated_hit _ _ _ mdia). }
  assert (Ei' : FindChild AtomMINF mdia' = Some (k, minf')).
  { subst mdia'. now apply (FindChild_child_updated_hit _ _ _ minf). }
  assert (Eb' : FindChild AtomSTBL minf' = Some (l, stbl')).
  { subst minf'. now apply (FindChild_child_updated_hit _ _ _ stbl). }
  assert (Eh' : FindChild AtomHDLR mdia' = FindChild AtomHDLR mdia).
  { subst mdia'. now apply (FindChild_child_updated_miss _ AtomMINF _ _ minf). }
  assert (Tt : track_type trak' = track_type trak).
  { unfold track_type. now rewrite Em', Em, Eh'. }
  unfold GetFirstVideoTrack, tracks in Hv |- *.
  fold visual_track in Hv |- *.
  pose proof (find_some _ _ Hv) as [_ Hvis]. unfold visual_track in Hvis.
  cbn [snd] in Hvis.
  assert (Ttrak : typeid trak = AtomTRAK).
  { apply find_some in Hv. destruct Hv as [Hin _]. clear - Hin.
    revert Hin. generalize 0%nat. induction (children_ moov) as [|x cs IH];
      intros n Hin; cbn [FindChildren] in Hin; [destruct Hin|].
    destruct (AtomClass_eqb (typeid x) AtomTRAK) eqn:E.
    - destruct Hin as [Hin | Hin]; [|now apply (IH (S n))].
      injection Hin as _ <-. now apply AtomClass_eqb_eq.
    - now apply (IH (S n)). }
  destruct (first_video_replace trak' (children_ moov) 0 i trak Hv) as [Hf _].
  { subst trak'. now rewrite typeid_child_updated. }
  { now rewrite Tt. }
  rewrite Nat.sub_0_r in Hf.
  rewrite children_child_updated.
  split; [exact Hf|]. split.
  { unfold atom_stbl. now rewrite Em', Ei', Eb'. }
  split; [exact Cs|]. split; [|reflexivity].
  unfold FindChild. rewrite Cs.
  apply (find_class_snoc AtomSDTP sdtp (children_ stbl) 0 Hn).
  apply typeid_Populated.
Qed.

(** X17.  When the first video track of the moov has an stbl (under mdia
    and minf) without an sdtp child but with an stss child holding at least
    one key-frame index, InjectSdtpToMoov returns OK and the stbl of the
    first video track has its former children followed by a new sdtp atom,
    whose frame descriptions are the ones PopulateFromKeyFrameIndices
    derives from the indices of the stss; the moov has the same number of
    children. *)
Theorem InjectSdtpToMoov_adds_sdtp
        (moov : Atom) (i : nat) (trak : Atom) (j : nat) (mdia : Atom)
        (k : nat) (minf : Atom) (l : nat) (stbl : Atom) (n : nat) (stss : Atom) :
  GetFirstVideoTrack moov = Some (i, trak) ->
  atom_stbl trak = Stbl j mdia k minf l stbl ->
  FindChild AtomSDTP stbl = None ->
  FindChild AtomSTSS stbl = Some (n, stss) ->
  KeyFrameIndices stss <> [] ->
  exists moov' trak' mdia' minf' stbl' sdtp,
    InjectSdtpToMoov moov = Done OK moov'
    /\ GetFirstVideoTrack moov' = Some (i, trak')
    /\ atom_stbl trak' = Stbl j mdia' k minf' l stbl'
    /\ children_ stbl' = children_ stbl ++ [sdtp]
    /\ typeid sdtp = AtomSDTP
    /\ frame_description sdtp
       = frame_description
           (PopulateFromKeyFrameIndices NewAtomSDTP (KeyFrameIndices stss))
    /\ NumChildren moov' = NumChildren moov.
Proof.
  intros Hv Hs Hn Hss Hk.
  pose proof (injection_found moov i trak j mdia k minf l stbl
                (KeyFrameIndices stss) Hv Hs Hn) as H.
  cbv zeta in H. destruct H as (H1 & H2 & H3 & H4 & H5).
  set (r := injection moov i trak j mdia k minf l stbl (KeyFrameIndices stss)) in *.
  exists (moov_of r), (trak_of r), (mdia_of r), (minf_of r), (stbl_of r), (sdtp_of r).
  split.
  { unfold InjectSdtpToMoov. rewrite Hv, Hs, Hn, Hss.
    destruct (KeyFrameIndices stss) eqn:E; [congruence|]. reflexivity. }
  do 3 (split; [assumption|]).
  split; [apply typeid_Populated|]. split; [reflexivity|].
  unfold NumChildren. rewrite H5. unfold len. f_equal.
  clear. generalize (trak_of r). generalize i.
  induction (children_ moov) as [|x cs IH]; intros [|i'] t; cbn; auto.
Qed.

Lemma InjectSdtpToMoov_adds_sdtp_witness :
  exists moov' sdtp,
    InjectSdtpToMoov InjectExamples.video_moov = Done OK moov'
    /\ typeid sdtp = AtomSDTP
    /\ frame_description sdtp = [32; 24; 32]
    /\ NumChildren moov' = 1.
Proof.
  edestruct (InjectSdtpToMoov_adds_sdtp InjectExamples.video_moov)
    as (moov' & trak' & mdia' & minf' & stbl' & sdtp & H1 & _ & _ & _ & H5 & H6 & H7).
  - vm_compute. reflexivity.
  - vm_compute. reflexivity.
  - vm_compute. reflexivity.
  - vm_compute. reflexivity.
  - vm_compute. intro E. discriminate E.
  - exists moov', sdtp. split; [exact H1|]. split; [exact H5|].
    split; [rewrite H6; vm_compute; reflexivity|].
    rewrite H7. vm_compute. reflexivity.
Defined.

(** X18.  InjectSdtpToMoov is idempotent: on the moov that a call has left
    with status OK, a second call returns OK and changes nothing (it finds
    the sdtp atom that is there, or that the first call has added). *)
Theorem InjectSdtpToMoov_idempotent (moov moov' : Atom) :
  InjectSdtpToMoov moov = Done OK moov' ->
  InjectSdtpToMoov moov' = Done OK moov'.
Proof.
  intro H. unfold InjectSdtpToMoov in H.
  destruct (GetFirstVideoTrack moov) as [[i trak]|] eqn:Hv; [|discriminate].
  destruct (atom_stbl trak) as [| |j mdia k minf l stbl] eqn:Hs; try discriminate.
  destruct (FindChild AtomSDTP stbl) as [[m sdtp]|] eqn:Hn.
  - injection H as <-. unfold InjectSdtpToMoov. now rewrite Hv, Hs, Hn.
  - destruct (FindChild AtomSTSS stbl) as [[n stss]|] eqn:Hss; [|discriminate].
    destruct (KeyFrameIndices stss) as [|x ks] eqn:Hk; [discriminate|].
    pose proof (injection_found moov i trak j mdia k minf l stbl (x :: ks) Hv Hs Hn)
      as Hr.
    cbv zeta in Hr. destruct Hr as (H1 & H2 & _ & H4 & _).
    assert (Hm : moov' = moov_of (injection moov i trak j mdia k minf l stbl (x :: ks))).
    { injection H as <-. reflexivity. }
    rewrite Hm. unfold InjectSdtpToMoov. now rewrite H1, H2, H4.
Qed.

Lemma InjectSdtpToMoov_idempotent_witness :
  exists moov',
    InjectSdtpToMoov InjectExamples.video_moov = Done OK moov'
    /\ InjectSdtpToMoov moov' = Done OK moov'.
Proof.
  destruct (InjectSdtpToMoov InjectExamples.video_moov) as [s m|] eqn:E;
    [destruct s|]; try (vm_compute in E; discriminate E).
  exists m. split; [reflexivity|].
  exact (InjectSdtpToMoov_idempotent InjectExamples.video_moov m E).
Defined.

End InjectFacts.

(** * Properties of the filters *)

Module FilterFacts.

Import Mahony.
Import FilterSpec.
Import MahonyFacts.
Local Open Scope Q_scope.





Lemma Qsum_app (l1 l2 : list Q) : Qsum (l1 ++ l2) == Qsum l1 + Qsum l2.
Proof.
  induction l1 as [|x l1 IH]; cbn [app Qsum fold_right].
  - fold (Qsum l2). lra.
  - fold (Qsum (l1 ++ l2)). fold (Qsum l1). rewrite IH. lra.
Qed.




Lemma feed_delayed_invariant (samples : list (Vector3d * Q)) :
  forall f,
    DelayedLowPassFilter.buffer_accumulated_time_s_ f == buffered_time f ->
    DelayedLowPassFilter.buffer_accumulated_time_s_ (feed_delayed f samples)
    == buffered_time (feed_delayed f samples)
    /\ DelayedLowPassFilter.delay_time_s_ (feed_delayed f samples)
       = DelayedLowPassFilter.delay_time_s_ f.
Proof.
  induction samples as [|[v dt] samples IH]; intros f Hf.
  - split; [exact Hf|reflexivity].
  - change (feed_delayed f ((v, dt) :: samples))
      with (feed_delayed (DelayedLowPassFilter.AddSampleData f v dt) samples).
    assert (Hstep : DelayedLowPassFilter.buffer_accumulated_time_s_
                      (DelayedLowPassFilter.AddSampleData f v dt)
                    == buffered_time (DelayedLowPassFilter.AddSampleData f v dt)
                    /\ DelayedLowPassFilter.delay_time_s_
                         (DelayedLowPassFilter.AddSampleData f v dt)
                       = DelayedLowPassFilter.delay_time_s_ f).
    { unfold DelayedLowPassFilter.AddSampleData, buffered_time in *.
      destruct (Qleb _ _);
        [destruct (DelayedLowPassFilter.delay_buffer_ f) as [|s rest] eqn:Eb|];
        cbn [DelayedLowPassFilter.buffer_accumulated_time_s_
             DelayedLowPassFilter.delay_buffer_ DelayedLowPassFilter.delay_time_s_];
        rewrite ?Eb, map_app, Qsum_app; unfold Qsum in *;
        cbn [map fold_right DelayedLowPassFilter.delta_time_s] in *;
        (split; [lra|reflexivity]). }
    destruct Hstep as [Hs Hd]. destruct (IH _ Hs) as [H1 H2].
    split; [exact H1|]. now rewrite H2.
Qed.

(** X21.  In a delayed low-pass filter that has been fed any sequence of
    samples since it was made, the accumulated time is the sum of the time
    steps of the samples in the buffer; so with a positive delay, whenever
    the accumulated time has reached the delay (the condition under which
    AddSampleData takes the front of the queue), the buffer is not
    empty. *)
Theorem DelayedLowPassFilter_buffer_time
        (delay_time_s cutoff_frequency : Q) (samples : list (Vector3d * Q)) :
  let f := feed_delayed (DelayedLowPassFilter.make delay_time_s cutoff_frequency)
                        samples in
  DelayedLowPassFilter.buffer_accumulated_time_s_ f == buffered_time f
  /\ (0 < delay_time_s ->
      Qleb (DelayedLowPassFilter.delay_time_s_ f)
           (DelayedLowPassFilter.buffer_accumulated_time_s_ f) = true ->
      DelayedLowPassFilter.delay_buffer_ f <> []).
Proof.
  cbv zeta.
  destruct (feed_delayed_invariant samples
              (DelayedLowPassFilter.make delay_time_s cutoff_frequency))
    as [H1 H2].
  { unfold buffered_time. cbn. lra. }
  split; [exact H1|]. intros Hd Hle Hnil.
  rewrite H2 in Hle. cbn [DelayedLowPassFilter.make DelayedLowPassFilter.delay_time_s_] in Hle.
  unfold Qleb in Hle. apply Qle_bool_iff in Hle.
  unfold buffered_time in H1. rewrite Hnil in H1. cbn [map Qsum fold_right] in H1.
  lra.
Qed.

Lemma DelayedLowPassFilter_buffer_time_witness :
  DelayedLowPassFilter.delay_buffer_
    (feed_delayed (DelayedLowPassFilter.make 1 1) [(Zero, 0); (Zero, 1)]) <> [].
Proof.
  apply (DelayedLowPassFilter_buffer_time 1 1 [(Zero, 0); (Zero, 1)]).
  - reflexivity.
  - vm_compute. reflexivity.
Defined.



(** ** The stationary detector *)

Section Detector.

Import StationaryDetector.
Import MahonySpec.

Lemma bias_part_eq d d' :
  bias_part d' = bias_part d ->
  is_stationary_ d' = is_stationary_ d
  /\ (bias_estimation_idle d -> bias_estimation_idle d').
Proof.
  unfold bias_part, bias_estimation_idle. intro H.
  injection H as -> -> -> ->. auto.
Qed.

Lemma bias_part_set_last_gyro d g ts : bias_part (set_last_gyro d g ts) = bias_part d.
Proof. destruct d; reflexivity. Qed.

Lemma bias_part_set_exit_tester d c : bias_part (set_exit_tester d c) = bias_part d.
Proof. destruct d; reflexivity. Qed.

Lemma bias_part_first_gyro d g ts : bias_part (first_gyro d g ts) = bias_part d.
Proof.
  unfold first_gyro. destruct d. cbn.
  destruct is_last_gyro_initialized_0; reflexivity.
Qed.

Lemma bias_part_AddAccelMeasurement d a ts :
  bias_part (AddAccelMeasurement d a ts) = bias_part d.
Proof.
  unfold AddAccelMeasurement. cbv zeta. destruct d. cbn.
  destruct is_last_accel_initialized_0; cbn;
    destruct (IsTimeDeltaBetweenSamplesValid _); reflexivity.
Qed.

Lemma before_Update_not_stationary d g ts :
  is_stationary_ d = false ->
  bias_part (before_Update d g ts) = bias_part d.
Proof.
  intro Hs. unfold before_Update. cbv zeta.
  pose proof (bias_part_first_gyro d g ts) as H.
  destruct (first_gyro d g ts) as []. destruct d.
  unfold bias_part in *. cbn in *. injection H as -> -> -> ->.
  rewrite Hs. reflexivity.
Qed.

Lemma before_Update_stationary d g ts :
  is_stationary_ (before_Update d g ts) = is_stationary_ d.
Proof.
  pose proof (watched_before_Update d g ts) as H. unfold watched in H.
  now injection H.
Qed.

Lemma Reset_idle d : is_stationary_ (Reset d) = false /\ bias_estimation_idle (Reset d).
Proof.
  unfold bias_estimation_idle. destruct d. unfold Reset. cbn.
  destruct (negb _); cbn; auto.
Qed.

Lemma Update_cases u ts :
  (exists c, Update u ts = set_exit_tester u c /\ filters_ready u = true)
  \/ Update u ts = u
  \/ (exists c, Update u ts = Reset (set_exit_tester u c)
                /\ is_stationary_ u = true /\ exit_condition u = true
                /\ filters_ready u = true)
  \/ (exists c, Update u ts = set_is_stationary (set_exit_tester u c) true).
Proof.
  unfold Update. destruct (filters_ready u) eqn:Er; cbn [negb]; [|auto].
  destruct (ConditionTester.IsStable _ _ _ _) as [stable tester].
  pose proof (watched_set_exit_tester u tester) as W. unfold watched in W.
  injection W as Ws _. rewrite Ws.
  destruct (is_stationary_ u) eqn:Es.
  - destruct (exit_condition u) eqn:Ex; [|left; eauto].
    right. right. left. eauto.
  - destruct (entry_condition u && stable); [|left; eauto].
    right. right. right. eauto.
Qed.

Lemma Update_idle u ts :
  idle_unless_stationary u -> idle_unless_stationary (Update u ts).
Proof.
  intro I. destruct (Update_cases u ts)
    as [(c & -> & _) | [-> | [(c & -> & _) | (c & ->)]]].
  - intro Hs. destruct (bias_part_eq _ _ (bias_part_set_exit_tester u c)) as [E K].
    rewrite E in Hs. auto.
  - exact I.
  - intros _. apply Reset_idle.
  - intro Hs. exfalso.
    pose proof (watched_set_is_stationary (set_exit_tester u c) true) as W.
    unfold watched in W. injection W as W _. congruence.
Qed.

Lemma GetGyroBiasCorrection_not_stationary d b ts :
  is_stationary_ d = false -> GetGyroBiasCorrection d b ts = (Zero, d).
Proof.
  intro Hs. unfold GetGyroBiasCorrection.
  destruct (DelayedLowPassFilter.GetFilteredData _); [|reflexivity].
  now rewrite Hs.
Qed.

Lemma reachable_idle d h : reachable d h -> idle_unless_stationary d.
Proof.
  induction 1 as [config | d h a ts _ IH | d h g ts _ IH | d h b ts _ IH
                   | d h _ _].
  - intros _. unfold bias_estimation_idle. cbn. auto.
  - intro Hs. destruct (bias_part_eq _ _ (bias_part_AddAccelMeasurement d a ts))
      as [E K]. rewrite E in Hs. auto.
  - rewrite AddGyroMeasurement_eq.
    intro Hs.
    destruct (bias_part_eq _ _ (bias_part_set_last_gyro
                                  (if gyro_delta_valid d g ts
                                   then Update (before_Update d g ts) ts
                                   else first_gyro d g ts) g ts)) as [E K].
    rewrite E in Hs. apply K. clear E K. revert Hs.
    destruct (gyro_delta_valid d g ts).
    + apply Update_idle. intro Hs. rewrite before_Update_stationary in Hs.
      destruct (bias_part_eq _ _ (before_Update_not_stationary d g ts Hs)) as [_ K].
      auto.
    + intro Hs. destruct (bias_part_eq _ _ (bias_part_first_gyro d g ts)) as [E K].
      rewrite E in Hs. auto.
  - intro Hs.
    pose proof (watched_GetGyroBiasCorrection d b ts) as W. unfold watched in W.
    injection W as W _. rewrite W in Hs.
    rewrite (GetGyroBiasCorrection_not_stationary d b ts Hs). cbn [snd]. auto.
  - intros _. apply Reset_idle.
Qed.

(** X22.  In every detector that the public operations (AddAccelMeasurement,
    AddGyroMeasurement, GetGyroBiasCorrection and Reset) lead to from a new
    one, the gyro bias estimation is idle whenever the detector is not
    stationary: the threshold-crossed and converged flags are false and the
    delay buffer is empty with no accumulated time, so an entry into the
    stationary state starts the estimation afresh; and
    GetGyroBiasCorrection then returns a zero correction and changes
    nothing. *)
Theorem bias_estimation_idle_unless_stationary
        (d : t) (h : list (Q * bool)) (bias : Vector3d) (ts : Q) :
  reachable d h -> is_stationary_ d = false ->
  bias_estimation_idle d /\ GetGyroBiasCorrection d bias ts = (Zero, d).
Proof.
  intros Hr Hs. split.
  - exact (reachable_idle d h Hr Hs).
  - exact (GetGyroBiasCorrection_not_stationary d bias ts Hs).
Qed.

Lemma bias_estimation_idle_unless_stationary_witness :
  let d := AddGyroMeasurement (AddAccelMeasurement d0 Zero 0) bump 0 in
  bias_estimation_idle d /\ GetGyroBiasCorrection d ext_bias 0 = (Zero, d).
Proof.
  cbv zeta.
  apply (bias_estimation_idle_unless_stationary _
           (events_after (AddAccelMeasurement d0 Zero 0) bump 0 [])).
  - apply reach_gyro. apply reach_accel. apply reach_new.
  - vm_compute. reflexivity.
Defined.

Lemma Qleb_neg (a b : Q) : a < b -> Qleb 0 (a - b) = false.
Proof.
  intro H. unfold Qleb. destruct (Qle_bool 0 (a - b)) eqn:E; [|reflexivity].
  apply Qle_bool_iff in E. lra.
Qed.

(** X23.  A sample whose timestamp lies before the timestamp of the last
    sample of its sensor is not filtered and starts no update: all that
    AddGyroMeasurement or AddAccelMeasurement does with it is to make it the
    last sample, with its timestamp. *)
Theorem out_of_order_sample_is_only_remembered
        (d : t) (sample : Vector3d) (timestamp_s : Q) :
  (is_last_gyro_initialized_ d = true ->
   timestamp_s < last_gyro_timestamp_ d ->
   AddGyroMeasurement d sample timestamp_s = set_last_gyro d sample timestamp_s)
  /\ (is_last_accel_initialized_ d = true ->
      timestamp_s < last_accel_timestamp_ d ->
      AddAccelMeasurement d sample timestamp_s = set_last_accel d sample timestamp_s).
Proof.
  split; intros Hi Hlt.
  - unfold AddGyroMeasurement. rewrite Hi. cbn [negb]. cbv zeta.
    unfold IsTimeDeltaBetweenSamplesValid. now rewrite (Qleb_neg _ _ Hlt).
  - unfold AddAccelMeasurement. rewrite Hi. cbn [negb]. cbv zeta.
    unfold IsTimeDeltaBetweenSamplesValid. now rewrite (Qleb_neg _ _ Hlt).
Qed.

Lemma out_of_order_sample_is_only_remembered_witness :
  let d := AddGyroMeasurement d0 Zero 1 in
  AddGyroMeasurement d bump 0 = set_last_gyro d bump 0.
Proof.
  cbv zeta.
  apply (out_of_order_sample_is_only_remembered (AddGyroMeasurement d0 Zero 1) bump 0).
  - vm_compute. reflexivity.
  - vm_compute. reflexivity.
Defined.

Lemma threshold_set d b :
  is_max_correction_threshold_crossed_ (set_threshold_crossed d b) = b
  /\ is_stationary_ (set_threshold_crossed d b) = is_stationary_ d
  /\ filters_ready (set_threshold_crossed d b) = filters_ready d.
Proof. destruct d; repeat split. Qed.

Lemma threshold_kept_converged d b :
  is_max_correction_threshold_crossed_ (set_converged d b)
  = is_max_correction_threshold_crossed_ d
  /\ is_stationary_ (set_converged d b) = is_stationary_ d.
Proof. destruct d; repeat split. Qed.

Lemma threshold_kept_tester d c :
  is_max_correction_threshold_crossed_ (set_convergence_tester d c)
  = is_max_correction_threshold_crossed_ d
  /\ is_stationary_ (set_convergence_tester d c) = is_stationary_ d.
Proof. destruct d; repeat split. Qed.

Lemma exit_condition_crossed d :
  is_max_correction_threshold_crossed_ d = true -> exit_condition d = true.
Proof. intro H. unfold exit_condition. rewrite H. now rewrite !orb_true_r. Qed.

(** X24.  When GetGyroBiasCorrection sets the threshold-crossed flag, the
    correction it returns is zero and the detector is stationary; the flag
    is an exit condition, so the next update that finds the filters ready
    takes the detector out of the stationary state, with the bias
    estimation reset. *)
Theorem threshold_crossing_ends_stationary
        (d : t) (bias : Vector3d) (ts ts' : Q) (correction : Vector3d) (d' : t) :
  GetGyroBiasCorrection d bias ts = (correction, d') ->
  is_max_correction_threshold_crossed_ d = false ->
  is_max_correction_threshold_crossed_ d' = true ->
  correction = Zero
  /\ is_stationary_ d' = true
  /\ (filters_ready d' = true ->
      is_stationary_ (Update d' ts') = false
      /\ bias_estimation_idle (Update d' ts')).
Proof.
  intros H Hd Hd'. unfold GetGyroBiasCorrection in H.
  assert (Hsame : (Zero, d) = (correction, d') -> False).
  { intro E. injection E as _ <-. congruence. }
  destruct (DelayedLowPassFilter.GetFilteredData _) as [sb|]; [|now apply Hsame in H].
  destruct (is_stationary_ d) eqn:Es; cbn [negb] in H; [|now apply Hsame in H].
  destruct (ConditionTester.IsStable _ _ _ _) as [stable tester].
  set (d1 := set_convergence_tester d tester) in *.
  set (d2 := if stable then set_converged d1 true else d1) in *.
  assert (H2 : is_max_correction_threshold_crossed_ d2 = false
               /\ is_stationary_ d2 = true).
  { destruct (threshold_kept_tester d tester) as [A B]. fold d1 in A, B.
    subst d2. destruct stable.
    - destruct (threshold_kept_converged d1 true) as [A' B']. split; congruence.
    - split; congruence. }
  destruct H2 as [H2c H2s].
  destruct (_ && _ && _) in H.
  - injection H as <- <-.
    destruct (threshold_set d2 true) as (_ & Ts & _).
    split; [reflexivity|]. split; [congruence|].
    intro Hr.
    set (d3 := set_threshold_crossed d2 true) in *.
    assert (Hst : is_stationary_ d3 = true) by congruence.
    destruct (Update_cases d3 ts')
      as [(c & E & _) | [E | [(c & -> & _) | (c & E)]]].
    + exfalso. revert E. unfold Update. rewrite Hr. cbn [negb].
      rewrite (exit_condition_crossed d3 Hd').
      destruct (ConditionTester.IsStable _ _ _ _) as [st te].
      pose proof (watched_set_exit_tester d3 te) as W. unfold watched in W.
      injection W as Ws _. rewrite Ws, Hst. intro E.
      pose proof (proj1 (Reset_idle (set_exit_tester d3 te))) as R.
      rewrite E in R.
      pose proof (watched_set_exit_tester d3 c) as W2. unfold watched in W2.
      injection W2 as W2s _. congruence.
    + exfalso. revert E. unfold Update. rewrite Hr. cbn [negb].
      rewrite (exit_condition_crossed d3 Hd').
      destruct (ConditionTester.IsStable _ _ _ _) as [st te].
      pose proof (watched_set_exit_tester d3 te) as W. unfold watched in W.
      injection W as Ws _. rewrite Ws, Hst. intro E.
      pose proof (proj1 (Reset_idle (set_exit_tester d3 te))) as R.
      rewrite E in R. congruence.
    + apply Reset_idle.
    + exfalso. revert E. unfold Update. rewrite Hr. cbn [negb].
      rewrite (exit_condition_crossed d3 Hd').
      destruct (ConditionTester.IsStable _ _ _ _) as [st te].
      pose proof (watched_set_exit_tester d3 te) as W. unfold watched in W.
      injection W as Ws _. rewrite Ws, Hst. intro E.
      pose proof (proj1 (Reset_idle (set_exit_tester d3 te))) as R.
      rewrite E in R.
      pose proof (watched_set_is_stationary (set_exit_tester d3 c) true) as W2.
      unfold watched in W2. injection W2 as W2s _. congruence.
  - exfalso. injection H as _ <-. congruence.
Qed.

Lemma threshold_crossing_ends_stationary_witness :
  let bias := {| x_ := 1; y_ := 0; z_ := 0 |} in
  fst (GetGyroBiasCorrection converged_detector bias 11) = Zero
  /\ is_stationary_ (snd (GetGyroBiasCorrection converged_detector bias 11)) = true.
Proof.
  cbv zeta.
  destruct (threshold_crossing_ends_stationary
              converged_detector {| x_ := 1; y_ := 0; z_ := 0 |} 11 12
              (fst (GetGyroBiasCorrection converged_detector
                                          {| x_ := 1; y_ := 0; z_ := 0 |} 11))
              (snd (GetGyroBiasCorrection converged_detector
                                          {| x_ := 1; y_ := 0; z_ := 0 |} 11)))
    as (H1 & H2 & _).
  - apply surjective_pairing.
  - reflexivity.
  - vm_compute. reflexivity.
  - split; [exact H1|exact H2].
Defined.

End Detector.

End FilterFacts.

(** * Properties of quaternions and rotation matrices *)

Module GeometryFacts.

Import Orientation.
Import Geometry.
Import GeometrySpec.
Import OrientationFacts.
Local Open Scope R_scope.

(** X25.  Over the reals, the matrix that QuaternionToRotationMatrix makes
    of a unit quaternion is a rotation: its product with its transpose is
    the identity and its determinant is 1. *)
Theorem QuaternionToRotationMatrix_is_rotation (q : Vector4d) :
  squaredNorm4 q = 1 ->
  let M := QuaternionToRotationMatrix q in
  mul33 M (transpose33 M) = Identity3 /\ det33 M = 1.
Proof.
  intros H M.
  assert (H2 : squaredNorm4 q * squaredNorm4 q = 1) by (rewrite H; ring).
  assert (H3 : squaredNorm4 q * squaredNorm4 q * squaredNorm4 q = 1)
    by (rewrite H; ring).
  unfold squaredNorm4 in H2, H3.
  subst M. unfold mul33, transpose33, det33, QuaternionToRotationMatrix, Identity3.
  cbn [m00 m01 m02 m10 m11 m12 m20 m21 m22].
  split.
  - f_equal; first [ring | (rewrite <- H2; ring)].
  - rewrite <- H3. ring.
Qed.

Lemma QuaternionToRotationMatrix_is_rotation_witness :
  det33 (QuaternionToRotationMatrix {| q0 := 1; q1 := 0; q2 := 0; q3 := 0 |}) = 1.
Proof.
  apply (QuaternionToRotationMatrix_is_rotation
           {| q0 := 1; q1 := 0; q2 := 0; q3 := 0 |}).
  unfold squaredNorm4. cbn. ring.
Defined.

Lemma sqrt_16_sq (c : R) : sqrt (4 * (c * c) * 4) = 4 * Rabs c.
Proof.
  replace (4 * (c * c) * 4) with (Rsqr (4 * c)) by (unfold Rsqr; ring).
  rewrite sqrt_Rsqr_abs, Rabs_mult, (Rabs_right 4) by lra. reflexivity.
Qed.

Lemma Rmax4_cases (w x y z : R) :
  let m := Rmax w (Rmax x (Rmax y z)) in
  w <= m /\ x <= m /\ y <= m /\ z <= m /\ (m = w \/ m = x \/ m = y \/ m = z).
Proof.
  cbv zeta. unfold Rmax. repeat destruct (Rle_dec _ _); repeat split; lra.
Qed.

(** RotationMatrixToQuaternion on a matrix whose entries are those of the
    rotation matrix of the unit quaternion (a, b, c, d). *)
Lemma RotationMatrixToQuaternion_of (mat : Matrix3d) (a b c d : R) :
  a * a + b * b + c * c + d * d = 1 ->
  m00 mat = a * a - b * b - c * c + d * d ->
  m01 mat = 2 * (a * b + c * d) ->
  m02 mat = 2 * (a * c - b * d) ->
  m10 mat = 2 * (a * b - c * d) ->
  m11 mat = - a * a + b * b - c * c + d * d ->
  m12 mat = 2 * (b * c + a * d) ->
  m20 mat = 2 * (a * c + b * d) ->
  m21 mat = 2 * (b * c - a * d) ->
  m22 mat = - a * a - b * b + c * c + d * d ->
  RotationMatrixToQuaternion mat = {| q0 := a; q1 := b; q2 := c; q3 := d |}
  \/ RotationMatrixToQuaternion mat
     = {| q0 := - a; q1 := - b; q2 := - c; q3 := - d |}.
Proof.
  intros H E00 E01 E02 E10 E11 E12 E20 E21 E22.
  unfold RotationMatrixToQuaternion. cbv zeta.
  set (ww := 1 + m00 mat + m11 mat + m22 mat).
  set (xx := 1 + m00 mat - m11 mat - m22 mat).
  set (yy := 1 - m00 mat + m11 mat - m22 mat).
  set (zz := 1 - m00 mat - m11 mat + m22 mat).
  assert (Eww : ww = 4 * (d * d)) by (subst ww; rewrite E00, E11, E22; nra).
  assert (Exx : xx = 4 * (a * a)) by (subst xx; rewrite E00, E11, E22; nra).
  assert (Eyy : yy = 4 * (b * b)) by (subst yy; rewrite E00, E11, E22; nra).
  assert (Ezz : zz = 4 * (c * c)) by (subst zz; rewrite E00, E11, E22; nra).
  destruct (Rmax4_cases ww xx yy zz) as (Mw & Mx & My & Mz & Mc).
  cbv zeta in Mw, Mx, My, Mz, Mc.
  set (max := Rmax ww (Rmax xx (Rmax yy zz))) in *.
  assert (Hmax : 1 <= max) by nra.
  rewrite E01, E02, E10, E12, E20, E21.
  assert (Hsign : forall s, 4 * (s * s) = max ->
                            (0 < s /\ Rabs s = s) \/ (s < 0 /\ Rabs s = - s)).
  { intros s Hs. destruct (Rlt_le_dec s 0) as [Hn | Hp].
    - right. split; [exact Hn|]. apply Rabs_left. exact Hn.
    - left. assert (s <> 0) by (intro Z; subst s; lra).
      split; [lra|]. apply Rabs_right. lra. }
  destruct (Req_EM_T ww max) as [Ew | Nw].
  { rewrite Eww, sqrt_16_sq.
    destruct (Hsign d) as [[Hd ->] | [Hd ->]]; [lra| |].
    - left. f_equal; field; lra.
    - right. f_equal; field; lra. }
  destruct (Req_EM_T xx max) as [Ex | Nx].
  { rewrite Exx, sqrt_16_sq.
    destruct (Hsign a) as [[Ha ->] | [Ha ->]]; [lra| |].
    - right. f_equal; field; lra.
    - left. f_equal; field; lra. }
  destruct (Req_EM_T yy max) as [Ey | Ny].
  { rewrite Eyy, sqrt_16_sq.
    destruct (Hsign b) as [[Hb ->] | [Hb ->]]; [lra| |].
    - right. f_equal; field; lra.
    - left. f_equal; field; lra. }
  assert (Ez : zz = max) by (destruct Mc as [M | [M | [M | M]]]; congruence).
  rewrite Ezz, sqrt_16_sq.
  destruct (Hsign c) as [[Hc ->] | [Hc ->]]; [lra| |].
  - right. f_equal; field; lra.
  - left. f_equal; field; lra.
Qed.

(** When the x component of the unit quaternion behind the matrix is the
    largest in absolute value, and larger than the scalar part, the second
    branch of RotationMatrixToQuaternion is taken, which returns a negative
    x component. *)
Lemma RotationMatrixToQuaternion_x_branch (q : Vector4d) :
  squaredNorm4 q = 1 ->
  q3 q * q3 q < q0 q * q0 q ->
  q1 q * q1 q <= q0 q * q0 q ->
  q2 q * q2 q <= q0 q * q0 q ->
  q0 (RotationMatrixToQuaternion (QuaternionToRotationMatrix q)) < 0.
Proof.
  destruct q as [a b c d]. unfold squaredNorm4. cbn [q0 q1 q2 q3].
  intros H Hd Hb Hc.
  unfold RotationMatrixToQuaternion, QuaternionToRotationMatrix. cbv zeta.
  cbn [m00 m01 m02 m10 m11 m12 m20 m21 m22 q0 q1 q2 q3].
  set (ww := 1 + (a * a - b * b - c * c + d * d) + (- a * a + b * b - c * c + d * d)
             + (- a * a - b * b + c * c + d * d)).
  set (xx := 1 + (a * a - b * b - c * c + d * d) - (- a * a + b * b - c * c + d * d)
             - (- a * a - b * b + c * c + d * d)).
  set (yy := 1 - (a * a - b * b - c * c + d * d) + (- a * a + b * b - c * c + d * d)
             - (- a * a - b * b + c * c + d * d)).
  set (zz := 1 - (a * a - b * b - c * c + d * d) - (- a * a + b * b - c * c + d * d)
             + (- a * a - b * b + c * c + d * d)).
  assert (Eww : ww = 4 * (d * d)) by (subst ww; nra).
  assert (Exx : xx = 4 * (a * a)) by (subst xx; nra).
  assert (Eyy : yy = 4 * (b * b)) by (subst yy; nra).
  assert (Ezz : zz = 4 * (c * c)) by (subst zz; nra).
  destruct (Rmax4_cases ww xx yy zz) as (Mw & Mx & My & Mz & Mc).
  cbv zeta in Mw, Mx, My, Mz, Mc.
  set (max := Rmax ww (Rmax xx (Rmax yy zz))) in *.
  assert (Ex : xx = max) by (destruct Mc as [M | [M | [M | M]]]; lra).
  destruct (Req_EM_T ww max) as [Ew | _]; [lra|].
  destruct (Req_EM_T xx max) as [_ | Nx]; [|contradiction].
  cbn [q0].
  assert (0 < sqrt (xx * 4)) by (apply sqrt_lt_R0; nra).
  lra.
Qed.

(** X26.  Over the reals, RotationMatrixToQuaternion gives back the unit
    quaternion that QuaternionToRotationMatrix was given, or its negation
    (the same rotation); the scalar part of the result can be negative: it
    is when the x component of the quaternion is the largest in absolute
    value, larger than the scalar part, and of the sign of the scalar
    part, as for (4/5, 0, 0, 3/5), which comes back as
    (-4/5, 0, 0, -3/5). *)
Theorem RotationMatrixToQuaternion_QuaternionToRotationMatrix (q : Vector4d) :
  squaredNorm4 q = 1 ->
  let r := RotationMatrixToQuaternion (QuaternionToRotationMatrix q) in
  (r = q \/ r = neg4 q)
  /\ (q3 q * q3 q < q0 q * q0 q ->
      q1 q * q1 q <= q0 q * q0 q ->
      q2 q * q2 q <= q0 q * q0 q ->
      0 < q0 q * q3 q ->
      q3 r < 0).
Proof.
  intros H r.
  assert (Hr : r = q \/ r = neg4 q).
  { subst r. destruct q as [a b c d]. unfold squaredNorm4 in H. cbn in H.
    apply (RotationMatrixToQuaternion_of _ a b c d H); reflexivity. }
  split; [exact Hr|].
  intros Hd Hb Hc Hs.
  pose proof (RotationMatrixToQuaternion_x_branch q H Hd Hb Hc) as Hx.
  fold r in Hx.
  destruct Hr as [E | E]; rewrite E in *.
  - nra.
  - unfold neg4 in *. cbn [q0 q3] in *. nra.
Qed.

Lemma RotationMatrixToQuaternion_QuaternionToRotationMatrix_witness :
  let q := {| q0 := 4 / 5; q1 := 0; q2 := 0; q3 := 3 / 5 |} in
  q3 (RotationMatrixToQuaternion (QuaternionToRotationMatrix q)) < 0.
Proof.
  cbv zeta.
  apply (RotationMatrixToQuaternion_QuaternionToRotationMatrix
           {| q0 := 4 / 5; q1 := 0; q2 := 0; q3 := 3 / 5 |});
    unfold squaredNorm4; cbn [q0 q1 q2 q3]; lra.
Defined.








End GeometryFacts.

(** * Properties of the orientation filter *)

Module OrientationFilterFacts.

Import Orientation.
Import Geometry.
Import GeometrySpec.
Import OrientationFilter.
Import OrientationFilterSpec.
Import OrientationFacts.
Import GeometryFacts.
Local Open Scope R_scope.



Lemma Rle_b_true (a b : R) : Rle_b a b = true <-> a <= b.
Proof. unfold Rle_b. destruct (Rle_dec a b); split; intro; congruence. Qed.





(** ** Vectors and rotation matrices *)











(** The largest of the four numbers of RotationMatrixToQuaternion is at
    least 1, whatever the matrix. *)
Lemma RotationMatrixToQuaternion_max (d0 d1 d2 : R) :
  1 <= Rmax (1 + d0 + d1 + d2)
            (Rmax (1 + d0 - d1 - d2) (Rmax (1 - d0 + d1 - d2) (1 - d0 - d1 + d2))).
Proof.
  destruct (Rmax4_cases (1 + d0 + d1 + d2) (1 + d0 - d1 - d2) (1 - d0 + d1 - d2)
                        (1 - d0 - d1 + d2)) as (Mw & Mx & My & Mz & _).
  cbv zeta in *. lra.
Qed.

(** RotationMatrixToQuaternion never returns the zero vector. *)
Lemma RotationMatrixToQuaternion_nonzero (mat : Matrix3d) :
  squaredNorm4 (RotationMatrixToQuaternion mat) <> 0.
Proof.
  unfold RotationMatrixToQuaternion. cbv zeta.
  pose proof (RotationMatrixToQuaternion_max (m00 mat) (m11 mat) (m22 mat)) as Hmax.
  destruct (Rmax4_cases (1 + m00 mat + m11 mat + m22 mat)
                        (1 + m00 mat - m11 mat - m22 mat)
                        (1 - m00 mat + m11 mat - m22 mat)
                        (1 - m00 mat - m11 mat + m22 mat)) as (_ & _ & _ & _ & Mc).
  cbv zeta in Mc.
  set (max := Rmax _ _) in *.
  assert (Hpos : forall k, k = max -> 0 < sqrt (k * 4)).
  { intros k ->. apply sqrt_lt_R0. lra. }
  assert (Hsq : forall a b c d : R, d <> 0 ->
                  a * a + b * b + c * c + d * d <> 0) by (intros; nra).
  unfold squaredNorm4.
  destruct (Req_EM_T _ max) as [Ew | Nw].
  { cbn [q0 q1 q2 q3]. pose proof (Hpos _ Ew). apply Hsq. lra. }
  destruct (Req_EM_T _ max) as [Ex | Nx].
  { cbn [q0 q1 q2 q3]. pose proof (Hpos _ Ex).
    rewrite (Rplus_comm (_ * _ + _ * _ + _ * _)), <- !Rplus_assoc.
    rewrite (Rplus_comm (_ * _ + _ * _ + _ * _)), <- !Rplus_assoc.
    rewrite (Rplus_comm (_ * _ + _ * _ + _ * _)), <- !Rplus_assoc.
    apply Hsq. lra. }
  destruct (Req_EM_T _ max) as [Ey | Ny].
  { cbn [q0 q1 q2 q3]. pose proof (Hpos _ Ey).
    rewrite (Rplus_comm (_ * _ + _ * _ + _ * _)), <- !Rplus_assoc.
    rewrite (Rplus_comm (_ * _ + _ * _ + _ * _)), <- !Rplus_assoc.
    apply Hsq. lra. }
  assert (Ez : 1 - m00 mat - m11 mat + m22 mat = max)
    by (destruct Mc as [M | [M | [M | M]]]; congruence).
  cbn [q0 q1 q2 q3]. pose proof (Hpos _ Ez).
  rewrite (Rplus_comm (_ * _ + _ * _ + _ * _)), <- !Rplus_assoc.
  apply Hsq. lra.
Qed.














Lemma dot3_cross3_l (a b : Vector3d) : dot3 (cross3 a b) a = 0.
Proof. unfold dot3, cross3. cbn. ring. Qed.










Section Updates.

Context {LowPassFilter StationaryDetector : Type}.
Context {low_pass_filter : LowPassFilterOps LowPassFilter}.
Context {stationary_detector : StationaryDetectorOps StationaryDetector}.
Variable uninitialized_vector : Vector3d.
Variable uninitialized_state : Vector7d.

Local Abbreviation t := (@OrientationFilter.t LowPassFilter StationaryDetector).

Local Arguments Integrate : simpl never.
Local Arguments QuaternionMultiplication : simpl never.
Local Arguments RotationMatrixToQuaternion : simpl never.
Local Arguments QuaternionToRotationMatrix : simpl never.
Local Arguments RotateInto : simpl never.


























End Updates.



End OrientationFilterFacts.
